(* ===== verification/_CoqProject ===== *)
-Q . S2P
Prelude.v
Go.v
Goroutine.v
Locks.v
Atomic.v
Sections.v
Clients.v
Steady.v
Strconv.v
Resp.v
SafeWriter.v
DataStruct.v
PubSub.v
PubSubFacts.v
Database.v
StringCmds.v
ListCmds.v
SetCmds.v
HashCmds.v
ExpireCmds.v
DbFacts.v
PubSubLocks.v
PubSubSafe.v
Glob.v
Config.v
AdminCmds.v
Handler.v
StringLocks.v
StringLocksFacts.v
StringOrder.v
CmdFacts.v
HashLocks.v
HashOrder.v
HashAlone.v
Invariant.v
Interleave.v
InterleaveFacts.v
SetLocks.v
SetLocksFacts.v
SetLocksSafe.v
InterleaveSafe.v
Rdb.v
RdbFacts.v
Aof.v
AofFacts.v
Server.v
Replies.v
Startup.v
Client.v
Recovery.v
System.v
Durability.v
Replay.v
Lifecycle.v
Histories.v
Demo.v
LogOrder.v
SystemProps.v
Fsync.v
PersistProps.v
CoreProps.v
KeyProps.v
StringProps.v
StringOrderProps.v
ListProps.v
SetHashProps.v
HashOrderProps.v
LifecycleProps.v
ClientProps.v
InterleaveProps.v
SetLocksProps.v
PubSubProps.v
