(* ===== verification/Prelude.v ===== *)
(** * ShoreDB: a verification development

    ShoreDB is an in-memory key/value server that speaks the Redis protocol
    (RESP2): sixteen logical databases of strings, lists, sets and hashes,
    deadlines on keys, publish/subscribe, snapshots and an append-only file.
    This library is a shallow embedding of its Go sources, file by file, with
    the theorems that make it correct. This file is the root: below the
    header it holds the notations, hint databases and generic lemmas on
    strings, lists and finite maps that the other files share.

    ** The program and its model

    A client's bytes enter [pkg/server/tcp.go], which parses one value at a
    time ([pkg/resp]), handles AUTH, SELECT, SUBSCRIBE and UNSUBSCRIBE itself
    and gives every other command to the tables of [pkg/commands], whose
    handlers work on one [Database] over the containers of [pkg/datastruct].
    A command that changed the data is appended to the append-only file and
    counted for the next snapshot ([pkg/persistence]); both are read back at
    startup. PUBLISH reaches the subscribers through [pkg/pubsub].

    - [Go]: machine integers, errors, panics, the state-and-error monad [M] of
      all the methods, its weakest preconditions [wp], and the environment
      [GoEnv] (see below). [Strconv]: [strconv.Atoi] and [Itoa]. [Glob]:
      [filepath.Match], with the UTF-8 decoder.
    - [Goroutine]: a goroutine as a sequence of critical sections, the pool of
      several, and a logic ([safe]) for one that the others may interrupt.
      [Locks]: goroutines that block, on [sync.RWMutex]es with waiting writers;
      those that take their locks in order never deadlock and can always run
      to their ends. [Steady]: a logic for them, in which each owns a part of
      the data and relies on what the others may change while it holds its
      locks ([pool_finishes]). [Atomic]: goroutines that hold one mutex at a
      time, each mutex with data of its own: their critical sections, however
      the steps of these interleave, happen one after the other ([simulated]).
      [Sections]: the steps sections are made of, and when a goroutine made of
      them is [lawful]. [Clients]: clients of a [Service] (what it serves, and
      what each command does to an abstract state), the histories that explain
      what they see ([explains]), and why there always is one ([served_moment]).
    - [Resp] (pkg/resp/parser.go): [Value], [Parse], [Write]. [encode] is the
      text the writer produces; [wire] the values that have one.
      [SafeWriter] (tcp.go): the writer a connection's goroutines share, piece
      by piece, under the mutex of safeWriter.
    - [DataStruct] (pkg/datastruct/datastruct.go): Modules [ListDS], [SetDS],
      [HashDS], one definition per method of [List], [Set] and [Hash], and
      the package's own integer conversions.
    - [PubSub] (pkg/pubsub/pubsub.go): Go channels as heap cells, [Subscribe],
      [Unsubscribe], [Publish]; [PubSubFacts]: the broker's invariant [ps_wf].
      [PubSubLocks]: the three with the mutex of the broker, each send a step of
      its own, and what the connections of tcp.go do with them; [PubSubSafe]:
      who owns which channel, and that nobody touches another's.
    - [Database] (pkg/commands/database.go): the record of the five maps, lazy
      expiration, the accessors, the sixteen databases [MultiDB], and the
      states handlers run over: [Sess] (one database and the broker), [World]
      (all of them). [StringCmds], [ListCmds], [SetCmds], [HashCmds],
      [ExpireCmds], [AdminCmds]: one definition per handler of the file of
      that name. [Handler] (handler.go): the table.
    - [DbFacts], [CmdFacts]: closed forms of the methods and the handlers;
      [Invariant]: each handler returns a reply and keeps a database
      well-formed ([db_wf]).
    - [Interleave] (list_commands.go, and what it uses of database.go and
      string_commands.go): the list commands again, section by section, over
      a heap of lists that goroutines share ([Shared]), with the condition
      variable of the blocking pops, the clients and the scheduler ([exec]).
      [InterleaveFacts]: a goroutine alone is the sequential handler ([sim]);
      [InterleaveSafe]: what it keeps when it is not ([balanced]), with every
      element accounted for: in a list under a key ([linked]) or in one that no
      key leads to ([orphaned]), held, taken, or overwritten by an LSET.
    - [SetLocks] (set_commands.go and the type Set of datastruct.go): the set
      commands again, with every lock operation of [db.Mu] and of the mutex of
      each set, and the walk of a snapshot over the sets. [SetLocksFacts]: a
      goroutine alone is the sequential handler; [SetLocksSafe]: each step of
      each changes only what its locks protect ([steady], [lawful]).
    - [StringLocks] (string_commands.go, and what it uses of database.go): the
      handlers of strings and keys again, with [db.Mu] and each access to a map
      a step. [StringLocksFacts]: a goroutine alone is the sequential handler;
      [StringOrder]: these commands as a [Service].
    - [HashLocks] (hash_commands.go, the type Hash of datastruct.go): the hash
      commands again, section by section, under [db.Mu] and the mutex of each
      hash. [HashOrder]: as a [Service], whose commands take effect under the
      mutex of a hash; [HashAlone]: a goroutine alone is the sequential handler.
    - [Rdb] (pkg/persistence/rdb.go): [Save] with the outcome of each call to
      the operating system, [Load] with each error; [RdbFacts]: the text of a
      snapshot and what loading it gives.
    - [Aof] (pkg/persistence/aof.go): [AofWrite], any write of which may fail
      and leave a part of the entry in the file, and [AofRead]; [AofFacts]: what
      the file holds and what reading it, or a prefix of it, replays.
    - [Config] (pkg/persistence/config.go): reading the configuration file.
    - [Server] (pkg/server/tcp.go and the SAVE, BGSAVE, LASTSAVE handlers):
      replay, [processCommand], the requests of a connection
      ([handleValue]), its loop ([handleConnection], which also ends when a reply
      to a command cannot be written, [sent]) and its end.
    - [LogOrder]: [processCommand] of several connections at once, a handler
      and its log entry being sections of their own.
    - [Fsync] (aof.go): the log again, with the rounds of [syncLoop], [Close],
      and what a power failure leaves; its writes are those of [Aof]
      ([LogWrite_agrees]).
    - [Replies]: the shape of every reply, handler by handler.
    - [Startup] (pkg/server/server.go, NewRDB, Close and the snapshot timer of
      rdb.go): [New], [Shutdown] and the two timers' ticks. [disk_of] is what a
      process leaves on its disk, if its log is in a file of its own ([apart]).
    - [Client] (pkg/shoredis/shoredis.go): the embedded client; it calls the
      handlers as a server over its databases would ([serving]).
    - [System]: the server and any number of connections as a step relation;
      one step is one request, one forwarded message, a connection's arrival
      or end, or a sweep. [sys_ok] is its invariant, [reachable] its states.
    - [Recovery], [Durability]: a relational logic between a handler's run and
      its replay, and the invariant [durable] of a server that logs.
    - [Replay]: replaying the entries of a log, whole or torn at its end, never
      fails ([replay_all_total], [replay_torn]).
    - [Lifecycle]: histories of a server across crashes, shutdowns and
      restarts ([lives]), with [durable] as their invariant.
    - [Histories]: what they do to the log: no save touches its file
      ([log_in_place]), it holds whole entries ([log_ok]), and a crash in the
      middle of a request leaves a part of what the request logs
      ([killed_during]).
    - [Demo]: a concrete environment, on which the witnesses evaluate.

    ** The theorems

    - [SystemProps]: replaying the log of any run rebuilds the data; no
      request panics; the invariant of the whole system; the replies are
      values of the protocol; an unauthenticated client changes nothing; the
      loop of a connection ends, and how.
    - [PersistProps]: snapshots round-trip and are replaced atomically. [Fsync]:
      what has been forced to the disk survives a power failure; a write that
      failed can spoil the entries behind it.
    - [LifecycleProps]: what a restarted server holds, from the log after a
      crash (between two requests or in the middle of one) and from the snapshot
      after a shutdown; a log cut anywhere replays its complete entries; what
      follows when a torn log is appended to, and when the snapshot has the name
      of the log; the timers; the configuration. [ClientProps]: the embedded
      client against the server, with or without a log.
    - [CoreProps]: the protocol round-trips, incrementally; the broker
      delivers.
    - [InterleaveProps]: in every interleaving nothing panics and no element of
      a list is duplicated or made up; a command nobody interrupts is its
      sequential handler; when blocked pops come back. [LogOrder]: the log of
      commands that interleave holds each acknowledged one once, if no write to
      it fails. Both end with
      schedules in which a push, a wake-up, a SET or the order of the log is
      lost. [SetLocksProps]: the set commands that hold one lock at a time
      never deadlock, never panic and can always run to their replies; all nine
      refine the sequential handlers and exclude each other; and two schedules
      in which SINTER and SADD block each other for ever. [PubSubProps]:
      nobody sends on a closed channel or closes one twice, and no subscription
      outlives its connection. [SafeWriter]: replies and messages do not mix on
      the wire.
      [StringOrderProps]: on keys without deadlines the string commands take
      effect one at a time, whatever their steps, but for DEL and EXISTS of
      several keys, and DEL of two keys and MSET do not; no INCR is lost.
      [HashOrderProps]: nine of the hash commands do so too; HDEL can lose the
      field of an HSET, and HMGET reply a value nobody wrote; all eleven refine
      the sequential handlers, never deadlock and can always run to their
      replies.
    - [KeyProps], [StringProps], [ListProps], [SetHashProps]: totality of the
      handlers and the behaviour of the commands.

    ** The environment

    What the language and the machine decide is the class [GoEnv], an
    argument of the definitions: the readings of the clock ([time_Now n] is
    the n-th event), the order of each [range] over a map, the failure of each
    call to the operating system ([io_call]) and of each write to the log, with
    the bytes it leaves behind ([log_write]), [strconv.ParseFloat] with the
    comparisons made of its result, and the Unicode case tables outside ASCII.
    A serial number in the state ([w_tick]) distinguishes the events.
    [GoEnvLaws] states what is relied on: the clock does not go back, a
    [range] visits each entry once, in some order, and only the word SELECT
    folds to SELECT with the tables used. [LogWritten] says that no write to the
    log fails; the theorems that take it say so. [Demo] has an instance of both.

    ** Fuel and bounds

    Each fuel is computed from the input and proved to be enough. [Parse]
    nests at most as deep as its input is long ([parse_total]); an array or
    snapshot entry of n elements stops at the first missing byte, so the
    bytes left bound its reads; [connection_loop], [Read_loop] and
    [load_loop] consume a byte per round. [wakeups], a parameter, is the
    number of times a waiting blocking pop is woken before its deadline.
    Integers wrap at 64 bits ([wrap64]). [make] panics on a negative length and
    on one above the address space ([maxAlloc], 2^48 bytes), so a protocol value
    has strings and arrays below it ([wire]); lengths in snapshots are below
    2^32 ([fits], the 32-bit length field).

    ** What is not modelled

    In [System] and what builds on it a handler runs to its end before the next
    starts, so there a blocking pop sees no push by another client while it
    waits, and BGSAVE saves at the time of the command. [Interleave] lifts this
    for the list commands, SET, GET, DEL and the sweeper on one database;
    sections under one mutex exclude each other and sections under different
    ones touch different data, so each is one step. [SetLocks] has the locks one
    by one, for the sets, as [PubSubLocks] has for the broker; reading the clock
    and the data under a mutex is one step there. A forwarding goroutine that
    waits for a message is a receive that finds none. [StringLocks] has each
    access of a string command to a map as a step, and [HashLocks] of a hash
    command, where a [range] over a hash is one step under its mutex; commands on
    keys with deadlines do not take effect one at a time ([Interleave] has a SET
    that is lost). The accept loop, the goroutine that reads a socket and the log output
    are left out, as is [cmd/shoredb-server/main.go], which parses flags and
    waits for a signal. Outside [SafeWriter] the replies of a connection are the
    list of values handed to its writer; the loop learns from [sent] whether the
    client still takes them. That the machine runs out of memory below
    [maxAlloc] is not modelled.

    ** Plan

    Next: the locks of the list commands as a [Service], the data a snapshot
    saves while clients write, and the meaning of patterns for [Glob]. *)
From Stdlib Require Export ZArith Lia.
From Stdlib Require Import Ascii.
From stdpp Require Export base gmap strings list fin_maps numbers.

#[global] Open Scope Z_scope.
#[global] Open Scope stdpp_scope.

(** Go evaluates [len(s)] to an [int]: lengths are compared as integers. *)
Abbreviation zlen l := (Z.of_nat (length l)) (only parsing).
Abbreviation slen s := (Z.of_nat (String.length s)) (only parsing).

Create HintDb shore discriminated.
Create Rewrite HintDb go_str.

(** ** Strings as byte sequences

    A Go string is a sequence of bytes; [string] is a sequence of 8-bit
    [ascii] values, so no byte is lost. *)
Lemma string_app_cons c s1 s2 : String c s1 +:+ s2 = String c (s1 +:+ s2).
Proof. done. Qed.

Lemma string_app_nil_r s : s +:+ "" = s.
Proof. induction s as [|c s IH]; [done|]. by rewrite string_app_cons, IH. Qed.

Lemma string_app_assoc s1 s2 s3 : (s1 +:+ s2) +:+ s3 = s1 +:+ (s2 +:+ s3).
Proof. induction s1 as [|c s1 IH]; [done|]. by rewrite !string_app_cons, IH. Qed.

Lemma string_app_nil_l s : "" +:+ s = s.
Proof. done. Qed.

Lemma string_length_app s1 s2 :
  String.length (s1 +:+ s2) = (String.length s1 + String.length s2)%nat.
Proof.
  induction s1 as [|c s1 IH]; [done|]. rewrite string_app_cons. cbn. by rewrite IH.
Qed.

Lemma string_app_inj_l s t1 t2 : s +:+ t1 = s +:+ t2 → t1 = t2.
Proof. induction s as [|c s IH]; [done|]. intros [= Heq]. by apply IH. Qed.

Lemma string_app_inj_r s1 s2 t : s1 +:+ t = s2 +:+ t → s1 = s2.
Proof.
  revert s2. induction s1 as [|c s1 IH]; intros [|c' s2] Heq; [done|..].
  - apply (f_equal String.length) in Heq. rewrite !string_length_app in Heq.
    cbn in Heq. lia.
  - apply (f_equal String.length) in Heq. rewrite !string_length_app in Heq.
    cbn in Heq. lia.
  - rewrite !string_app_cons in Heq. injection Heq as -> Heq. f_equal. by apply IH.
Qed.

Lemma string_app_nil_inv s1 s2 : s1 +:+ s2 = "" → s1 = "" ∧ s2 = "".
Proof. destruct s1; [by split|done]. Qed.

(** Two ways of cutting the same string. *)
Lemma string_app_split a b c d :
  a +:+ b = c +:+ d →
  (∃ e, a = c +:+ e ∧ d = e +:+ b) ∨ (∃ e, c = a +:+ e ∧ b = e +:+ d ∧ e ≠ "").
Proof.
  revert c. induction a as [|x a IH]; intros [|y c] Heq; cbn in Heq.
  - left. by exists "".
  - right. by exists (String y c).
  - left. by exists (String x a).
  - rewrite !string_app_cons in Heq. injection Heq as -> Heq.
    destruct (IH c Heq) as [(e & -> & ->)|(e & -> & -> & ?)]; [left|right]; by exists e.
Qed.

#[export] Hint Rewrite string_app_nil_r string_app_nil_l string_app_assoc
  string_app_cons string_length_app : go_str.

(** [s[:n]] and [s[n:]] for a non-negative [n] within the string. *)
Fixpoint str_take (n : nat) (s : string) : string :=
  match n, s with
  | S n', String c s' => String c (str_take n' s')
  | _, _ => ""
  end.

Fixpoint str_drop (n : nat) (s : string) : string :=
  match n, s with
  | S n', String _ s' => str_drop n' s'
  | _, _ => s
  end.

Lemma str_take_drop n s : str_take n s +:+ str_drop n s = s.
Proof.
  revert s. induction n as [|n IH]; intros [|c s]; [done..|].
  cbn. rewrite string_app_cons. by rewrite IH.
Qed.

Lemma str_take_app s t : str_take (String.length s) (s +:+ t) = s.
Proof. induction s as [|c s IH]; [by destruct t|]. cbn. by f_equal. Qed.

Lemma str_drop_app s t : str_drop (String.length s) (s +:+ t) = t.
Proof. induction s as [|c s IH]; [by destruct t|]. done. Qed.

Lemma str_take_length n s :
  String.length (str_take n s) = (n `min` String.length s)%nat.
Proof. revert s. induction n as [|n IH]; intros [|c s]; [done..|]. cbn. by rewrite IH. Qed.

Lemma str_drop_length n s :
  String.length (str_drop n s) = (String.length s - n)%nat.
Proof. revert s. induction n as [|n IH]; intros [|c s]; [done..|]. cbn. by rewrite IH. Qed.

Lemma str_take_app_le n s t :
  (n ≤ String.length s)%nat → str_take n (s +:+ t) = str_take n s.
Proof.
  revert s. induction n as [|n IH]; intros [|c s] Hn; cbn in *; [by destruct t|done|lia|].
  f_equal. apply IH. lia.
Qed.

Lemma str_drop_app_le n s t :
  (n ≤ String.length s)%nat → str_drop n (s +:+ t) = str_drop n s +:+ t.
Proof.
  revert s. induction n as [|n IH]; intros [|c s] Hn; cbn in *; [done|done|lia|].
  apply IH. lia.
Qed.

(** A string as the list of its bytes, for statements about all bytes. *)
Definition bytes (s : string) : list ascii := String.list_ascii_of_string s.

Lemma bytes_app s t : bytes (s +:+ t) = bytes s ++ bytes t.
Proof. induction s as [|c s IH]; [done|]. rewrite string_app_cons. unfold bytes in *. cbn. by rewrite IH. Qed.

Lemma bytes_length s : length (bytes s) = String.length s.
Proof. induction s as [|c s IH]; [done|]. cbn. by f_equal. Qed.

Lemma string_of_bytes s : String.string_of_list_ascii (bytes s) = s.
Proof. apply String.string_of_list_ascii_of_string. Qed.

(** ** Lists *)
Lemma list_filter_ext_in {A} (f g : A → bool) (l : list A) :
  (∀ x, x ∈ l → f x = g x) →
  filter (λ x, f x = true) l = filter (λ x, g x = true) l.
Proof.
  induction l as [|x l IH]; intros Hfg; [done|].
  rewrite !filter_cons, (Hfg x) by apply list_elem_of_here.
  rewrite IH; [done|]. intros y Hy. apply Hfg. by right.
Qed.

Lemma take_take_app {A} n (l1 l2 : list A) : take n (take n l1 ++ l2) = take n (l1 ++ l2).
Proof.
  destruct (decide (length l1 ≤ n)%nat).
  - by rewrite (take_ge l1).
  - rewrite (take_app_le l1) by lia. rewrite take_app_le by (rewrite length_take; lia).
    by rewrite take_take, Nat.min_id.
Qed.

Lemma NoDup_filter_fst {A B} (f : A * B → bool) (l : list (A * B)) :
  NoDup l.*1 → NoDup (List.filter f l).*1.
Proof.
  induction l as [|[a b] l IH]; intros Hnd; [constructor|].
  apply list.NoDup_cons in Hnd as [Hin Hnd]. cbn [List.filter].
  destruct (f (a, b)); [|by apply IH]. cbn. apply list.NoDup_cons. split; [|by apply IH].
  intros Hf. apply Hin. apply list_elem_of_fmap in Hf as (x & -> & Hx).
  apply list_elem_of_In, filter_In in Hx as [Hx _].
  apply list_elem_of_fmap. exists x. split; [done|]. by apply list_elem_of_In.
Qed.

(** Replacing one of the lists that are joined. *)
Lemma concat_insert_perm {A} (ls : list (list A)) i l l' : ls !! i = Some l →
  concat (<[i := l']> ls) ++ l ≡ₚ concat ls ++ l'.
Proof.
  revert i. induction ls as [|x ls IH]; intros i Hi; [done|]. destruct i as [|i]; cbn in Hi.
  - injection Hi as ->. change (<[0%nat:=l']> (l :: ls)) with (l' :: ls). cbn [concat].
    rewrite <-!app_assoc. rewrite (Permutation_app_comm l'). rewrite <-app_assoc.
    by rewrite (Permutation_app_comm (concat ls) (l ++ l')), <-app_assoc, (Permutation_app_comm l' (concat ls)).
  - change (<[S i:=l']> (x :: ls)) with (x :: <[i:=l']> ls). cbn [concat]. rewrite <-!app_assoc.
    by rewrite IH.
Qed.

(** Pairs of words, one after the other. *)
Definition pairs (kvs : list (string * string)) : list string := concat (map (λ '(k, v), [k; v]) kvs).

Lemma pairs_even kvs : Nat.even (length (pairs kvs)) = true.
Proof. by induction kvs as [|[k v] kvs IH]. Qed.

(** ** Tactics *)

(** Case analysis on the innermost scrutinee of the goal or of a hypothesis,
    remembering the equation. *)
Ltac case_inner H :=
  match type of H with
  | context [match ?x with _ => _ end] =>
      lazymatch x with
      | context [match _ with _ => _ end] => fail
      | _ => destruct x eqn:?
      end
  end.
