(* ===== verification/Go.v ===== *)
(** * Go: the fragment of the language and its runtime that ShoreDB uses

    Machine integers (a Go [int] on the 64-bit targets is an [int64]), error
    values, panics, the state monad in which the methods of the program are
    written, and the runtime's sources of non-determinism (the clock and the
    iteration order of a [range] over a map). *)
From S2P Require Import Prelude.

(** ** 64-bit integers *)
Definition minInt : Z := - 2 ^ 63.
Definition maxInt : Z := 2 ^ 63 - 1.

(** Two's-complement wrap-around of an arithmetic result. *)
Definition wrap64 (z : Z) : Z := (z + 2 ^ 63) mod 2 ^ 64 - 2 ^ 63.

Definition in_int (z : Z) : Prop := minInt ≤ z ≤ maxInt.
#[export] Instance in_int_dec z : Decision (in_int z).
Proof. unfold in_int. apply _. Defined.

(** The largest allocation of the runtime on linux/amd64, in bytes, and the size
    of a [string] in a slice. *)
Definition maxAlloc : Z := 2 ^ 48.
Definition stringSize : Z := 16.

Ltac int_lia := unfold in_int, minInt, maxInt, maxAlloc, stringSize in *; lia.

Lemma wrap64_small z : in_int z → wrap64 z = z.
Proof. intros H. unfold wrap64. rewrite Z.mod_small; int_lia. Qed.

Lemma wrap64_in_int z : in_int (wrap64 z).
Proof.
  unfold wrap64. pose proof (Z.mod_pos_bound (z + 2 ^ 63) (2 ^ 64) ltac:(lia)). int_lia.
Qed.

Lemma wrap64_id_iff z : wrap64 z = z ↔ in_int z.
Proof.
  split; [|apply wrap64_small]. intros <-. apply wrap64_in_int.
Qed.

(** ** Errors, panics and the state monad *)

(** The error values the program distinguishes: [err == io.EOF] is the only
    test it makes; every other error is carried by its message. *)
Inductive error : Type :=
  | io_EOF
  | io_ErrUnexpectedEOF
  | errorf (msg : string).

#[export] Instance error_eq_dec : EqDecision error.
Proof. solve_decision. Defined.

(** [err.Error()]. *)
Definition error_text (e : error) : string :=
  match e with
  | io_EOF => "EOF"
  | io_ErrUnexpectedEOF => "unexpected EOF"
  | errorf msg => msg
  end.

(** Result of running a method: a value, a returned error, a run-time panic
    (which ends the process: the program never recovers), or exhausted fuel. *)
Inductive res (A : Type) : Type :=
  | Ok (a : A)
  | Err (e : error)
  | Panic (msg : string)
  | NoFuel.
Arguments Ok {A} _.
Arguments Err {A} _.
Arguments Panic {A} _.
Arguments NoFuel {A}.

(** A method over a state [S]. The state survives an error: what was written
    before the error stays written. *)
Definition M (S A : Type) : Type := S → res A * S.

#[export] Instance M_ret {S} : MRet (M S) := λ A a s, (Ok a, s).
#[export] Instance M_bind {S} : MBind (M S) := λ A B f m s,
  match m s with
  | (Ok a, s') => f a s'
  | (Err e, s') => (Err e, s')
  | (Panic p, s') => (Panic p, s')
  | (NoFuel, s') => (NoFuel, s')
  end.

Section primitives.
Context {S : Type}.

Definition gets {A} (f : S → A) : M S A := λ s, (Ok (f s), s).
Definition modify (f : S → S) : M S () := λ s, (Ok (), f s).
Definition raise {A} (e : error) : M S A := λ s, (Err e, s).
Definition panic {A} (msg : string) : M S A := λ s, (Panic msg, s).
Definition out_of_fuel {A} : M S A := λ s, (NoFuel, s).
End primitives.

(** [for _, x := range l { body }] over a slice. *)
Section for_each.
Context {S X : Type} (body : X → M S ()).
Fixpoint for_each (l : list X) : M S () :=
  match l with
  | [] => mret ()
  | x :: l' => body x ≫= λ _, for_each l'
  end.
End for_each.

(** The same loop when it also updates the local variables [b]. *)
Section for_fold.
Context {S X B : Type} (body : B → X → M S B).
Fixpoint for_fold (b : B) (l : list X) : M S B :=
  match l with
  | [] => mret b
  | x :: l' => body b x ≫= λ b', for_fold b' l'
  end.
End for_fold.

(** [l[i]] and [l[i:j]] panic outside the bounds of the slice. *)
Definition go_index {S A} (l : list A) (i : Z) : M S A :=
  if i <? 0 then panic "runtime error: index out of range"
  else match l !! Z.to_nat i with
       | Some a => mret a
       | None => panic "runtime error: index out of range"
       end.

Definition go_slice {S A} (l : list A) (i j : Z) : M S (list A) :=
  if (0 <=? i) && (i <=? j) && (j <=? zlen l) then
    mret (take (Z.to_nat (j - i)) (drop (Z.to_nat i) l))
  else panic "runtime error: slice bounds out of range".

(** [make([]T, n)] with elements of [size] bytes panics on a negative length, and
    on one above the largest allocation. Whether the machine has as much memory
    as that is not modelled. *)
Definition make_slice {S} (size n : Z) : M S () :=
  if (n <? 0) || (maxAlloc <? size * n) then panic "runtime error: makeslice: len out of range"
  else mret ().

(** The same where a slice of at least [n] such elements exists already. *)
Definition make_part {S} (n : Z) : M S () :=
  if n <? 0 then panic "runtime error: makeslice: len out of range" else mret ().

(** Run a method of a component on the part of the state that holds it. *)
Definition zoom {S T A} (get : S → T) (put : T → S → S) (m : M T A) : M S A :=
  λ s, let '(r, t) := m (get s) in (r, put t s).

(** ** Rewriting rules for the monad *)
Create Rewrite HintDb go_monad.

Section monad_laws.
Context {S A B : Type}.
Implicit Types (m : M S A) (f : A → M S B) (s : S).

Lemma bind_eq m f s :
  (m ≫= f) s = match m s with
               | (Ok a, s') => f a s'
               | (Err e, s') => (Err e, s')
               | (Panic p, s') => (Panic p, s')
               | (NoFuel, s') => (NoFuel, s')
               end.
Proof. done. Qed.

Lemma bind_ok m f s a s' : m s = (Ok a, s') → (m ≫= f) s = f a s'.
Proof. intros H. by rewrite bind_eq, H. Qed.

Lemma bind_ok_inv m f s b s'' :
  (m ≫= f) s = (Ok b, s'') → ∃ a s', m s = (Ok a, s') ∧ f a s' = (Ok b, s'').
Proof. rewrite bind_eq. destruct (m s) as [[] ?]; naive_solver. Qed.

Lemma ret_bind (a : A) f s : (mret a ≫= f) s = f a s.
Proof. done. Qed.

Lemma gets_bind (g : S → A) f s : (gets g ≫= f) s = f (g s) s.
Proof. done. Qed.

Lemma modify_bind (g : S → S) (k : () → M S B) s : (modify g ≫= k) s = k () (g s).
Proof. done. Qed.

Lemma ret_run (a : A) s : mret (M:=M S) a s = (Ok a, s).
Proof. done. Qed.

Lemma gets_run (g : S → A) s : gets g s = (Ok (g s), s).
Proof. done. Qed.

Lemma modify_run (g : S → S) s : modify g s = (Ok (), g s).
Proof. done. Qed.
End monad_laws.

#[export] Hint Rewrite @ret_bind @gets_bind @modify_bind @ret_run @gets_run
  @modify_run : go_monad.

Ltac run :=
  cbn beta iota; autorewrite with go_monad; cbn beta iota; cbn [id fst snd] in *.

(** Pure loops: a body that only updates the state is a fold over it. *)
Lemma for_each_modify {S X} (f : X → S → S) l s :
  for_each (λ x, modify (f x)) l s = (Ok (), foldl (flip f) s l).
Proof. revert s. induction l as [|x l IH]; intros s; [done|]. apply IH. Qed.

Lemma go_slice_ok {S A} (l : list A) i j (s : S) :
  0 ≤ i → i ≤ j → j ≤ zlen l →
  go_slice l i j s = (Ok (take (Z.to_nat (j - i)) (drop (Z.to_nat i) l)), s).
Proof.
  intros Hi Hij Hj. unfold go_slice.
  by rewrite (proj2 (Z.leb_le 0 i)), (proj2 (Z.leb_le i j)), (proj2 (Z.leb_le j _)).
Qed.

Lemma go_index_ok {S A} (l : list A) i a (s : S) :
  0 ≤ i → l !! Z.to_nat i = Some a → go_index l i s = (Ok a, s).
Proof. intros Hi Ha. unfold go_index. rewrite Ha. by destruct (Z.ltb_spec i 0); [lia|]. Qed.

Lemma make_slice_ok {S} size n (s : S) :
  0 ≤ n → size * n ≤ maxAlloc → make_slice size n s = (Ok (), s).
Proof.
  intros H0 H1. unfold make_slice. destruct (Z.ltb_spec n 0); [lia|].
  by destruct (Z.ltb_spec maxAlloc (size * n)); [lia|].
Qed.

Lemma make_part_ok {S} n (s : S) : 0 ≤ n → make_part n s = (Ok (), s).
Proof. intros H. unfold make_part. by destruct (Z.ltb_spec n 0); [lia|]. Qed.

(** ** Weakest preconditions

    [wp E m Q s]: run from [s], the method returns a value in a state that
    satisfies [Q]; it neither panics nor returns an error, and if it runs out of
    fuel (a pop that is still blocked) the state it leaves satisfies [E]. With
    [E := λ _, False] the method is total. *)
Section wp.
Context {S : Type} (E : S → Prop).

Definition wp {A} (m : M S A) (Q : A → S → Prop) (s : S) : Prop :=
  match m s with
  | (Ok a, s') => Q a s'
  | (NoFuel, s') => E s'
  | _ => False
  end.

Lemma wp_ret {A} (a : A) Q s : Q a s → wp (mret a) Q s.
Proof. done. Qed.

Lemma wp_gets {A} (f : S → A) Q s : Q (f s) s → wp (gets f) Q s.
Proof. done. Qed.

Lemma wp_modify f Q s : Q () (f s) → wp (modify f) Q s.
Proof. done. Qed.

Lemma wp_fuel {A} (Q : A → S → Prop) s : E s → wp out_of_fuel Q s.
Proof. done. Qed.

Lemma wp_bind {A B} (m : M S A) (f : A → M S B) Q s :
  wp m (λ a, wp (f a) Q) s → wp (m ≫= f) Q s.
Proof. unfold wp. rewrite bind_eq. by destruct (m s) as [[] ?]. Qed.

Lemma wp_mono {A} (m : M S A) (Q Q' : A → S → Prop) s :
  (∀ a s', Q a s' → Q' a s') → wp m Q s → wp m Q' s.
Proof. unfold wp. intros HQ. destruct (m s) as [[] ?]; auto. Qed.

Lemma wp_eq {A} (m : M S A) Q s a s' : m s = (Ok a, s') → Q a s' → wp m Q s.
Proof. unfold wp. by intros ->. Qed.

Lemma wp_for_each {X} (body : X → M S ()) (I : S → Prop) l s :
  (∀ x s, x ∈ l → I s → wp (body x) (λ _, I) s) → I s → wp (for_each body l) (λ _, I) s.
Proof.
  revert s. induction l as [|x l IH]; intros s Hb HI; [by apply wp_ret|].
  apply wp_bind. eapply wp_mono; [|by apply Hb; [left|]].
  cbn. intros _ s' HI'. apply IH; [|done]. intros y t Hy. apply Hb. by right.
Qed.

Lemma wp_for_fold {X B} (body : B → X → M S B) (I : B → S → Prop) l b s :
  (∀ b x s, I b s → wp (body b x) I s) → I b s → wp (for_fold body b l) I s.
Proof.
  intros Hb. revert b s. induction l as [|x l IH]; intros b s HI; [by apply wp_ret|].
  apply wp_bind. eapply wp_mono; [|by apply Hb]. cbn. intros. by apply IH.
Qed.
End wp.

(** What a total method returns. *)
Lemma wp_total {S A} (m : M S A) Q s :
  wp (λ _, False) m Q s ↔ ∃ a s', m s = (Ok a, s') ∧ Q a s'.
Proof.
  unfold wp. destruct (m s) as [[] ?]; naive_solver.
Qed.

(** ** The runtime's non-determinism

    [time_Now n] is what the [n]-th reading of the clock returns, in
    nanoseconds; [map_range n m] is the order in which the [n]-th [range] over
    a map visits it. A state that uses them counts its readings, so two
    iterations over the same map may differ, as they may in Go.
    [ParseFloat] and the operations on its result are what the blocking pops
    use of [float64]: [t < 0], [t > 0] and [time.Duration(t * 1e9)].
    [io_call n] is the outcome of the [n]-th call to the operating system:
    [None], or the text of the operating system's error. [log_write n] is that of
    the [n]-th write to an open append-only file: when it fails, also how many
    bytes it has left in the file. [unicode_ToUpper],
    [unicode_ToLower] and [unicode_EqualFold] are the slow paths of
    [strings.ToUpper], [strings.ToLower] and [strings.EqualFold], taken when a
    string holds a byte outside ASCII. [Quote] is the verb [%q]. *)
Class GoEnv := {
  time_Now : nat → Z;
  map_range : ∀ {K A : Type} `{Countable K}, nat → gmap K A → list (K * A);
  io_call : nat → option string;
  log_write : nat → option (nat * string);
  float64 : Type;
  ParseFloat : string → option float64;
  float_neg : float64 → bool;
  float_pos : float64 → bool;
  float_seconds : float64 → Z;
  unicode_ToUpper : string → string;
  unicode_ToLower : string → string;
  unicode_EqualFold : string → string → bool;
  Quote : string → string;
}.

(** What the language guarantees of them: the monotonic clock does not run
    backwards, and a [range] visits every entry of the map exactly once. The
    only character outside ASCII that folds to one of [SELECT] is U+017F, whose
    upper case is [S]. *)
Class GoEnvLaws (E : GoEnv) : Prop := {
  time_Now_mono n n' : (n ≤ n')%nat → time_Now n ≤ time_Now n';
  map_range_perm {K A} `{Countable K} n (m : gmap K A) : map_range n m ≡ₚ map_to_list m;
  fold_SELECT s : unicode_EqualFold s "SELECT" = true → unicode_ToUpper s = "SELECT";
}.

(** No write to the append-only file fails. *)
Class LogWritten (E : GoEnv) : Prop := { log_written n : log_write n = None }.

(** A [range] statement or a reading of the clock takes the next serial
    number. *)
Definition tick : M nat nat := λ n, (Ok n, S n).

Section map_range.
Context `{GoEnvLaws} `{Countable K} {A : Type}.
Implicit Types (m : gmap K A).

Lemma map_range_elem n m k a :
  (k, a) ∈ map_range n m ↔ m !! k = Some a.
Proof. by rewrite (map_range_perm n m), elem_of_map_to_list. Qed.

Lemma map_range_NoDup n m :
  NoDup (map_range n m).*1.
Proof. rewrite (map_range_perm n m). apply NoDup_fst_map_to_list. Qed.

Lemma map_range_length n m :
  length (map_range n m) = size m.
Proof. by rewrite (map_range_perm n m), length_map_to_list. Qed.

Lemma map_range_nil n m :
  map_range n m = [] ↔ m = ∅.
Proof.
  rewrite <-length_zero_iff_nil, map_range_length. apply map_size_empty_iff.
Qed.

Lemma list_to_map_range n m :
  list_to_map (map_range n m) = m.
Proof.
  rewrite (list_to_map_proper _ _ (map_range_NoDup n m) (map_range_perm n m)).
  apply list_to_map_to_list.
Qed.
End map_range.

(** ** [strings.ToUpper], [strings.ToLower] and [strings.EqualFold] *)
Definition is_ascii_byte (c : Ascii.ascii) : bool := (Ascii.nat_of_ascii c <? 128)%nat.
Fixpoint is_ascii (s : string) : bool :=
  match s with "" => true | String c s' => is_ascii_byte c && is_ascii s' end.

Definition upper_byte (c : Ascii.ascii) : Ascii.ascii :=
  let n := Ascii.nat_of_ascii c in
  if ((97 <=? n) && (n <=? 122))%nat then Ascii.ascii_of_nat (n - 32) else c.
Definition lower_byte (c : Ascii.ascii) : Ascii.ascii :=
  let n := Ascii.nat_of_ascii c in
  if ((65 <=? n) && (n <=? 90))%nat then Ascii.ascii_of_nat (n + 32) else c.

Fixpoint str_map (f : Ascii.ascii → Ascii.ascii) (s : string) : string :=
  match s with "" => "" | String c s' => String (f c) (str_map f s') end.

Definition ToUpper `{GoEnv} (s : string) : string :=
  if is_ascii s then str_map upper_byte s else unicode_ToUpper s.

Definition ToLower `{GoEnv} (s : string) : string :=
  if is_ascii s then str_map lower_byte s else unicode_ToLower s.

Definition EqualFold `{GoEnv} (s t : string) : bool :=
  if is_ascii s && is_ascii t then String.eqb (str_map upper_byte s) (str_map upper_byte t)
  else unicode_EqualFold s t.
