(* ===== verification/Goroutine.v ===== *)
(** * Goroutine: programs that share a state

    The handlers of two connections run in two goroutines. What they do between
    taking a mutex and releasing it happens as if at once: two sections under
    the same mutex exclude each other, and two under different mutexes touch
    different data. A goroutine is therefore a sequence of critical sections,
    each a method over the shared state, and between any two of them the others
    may run. [alone] is a goroutine that nobody interrupts; [safe] is a logic
    for one that anybody may. *)
From stdpp Require Import gmultiset.
From S2P Require Import Prelude Go.

Inductive prog (S A : Type) : Type :=
  | Done (a : A)
  | Sec {X : Type} (m : M S X) (k : X → prog S A).
Arguments Done {S A} _.
Arguments Sec {S A X} _ _.

(** One critical section. *)
Definition atomically {S A} (m : M S A) : prog S A := Sec m Done.

Fixpoint prog_bind {S A B} (f : A → prog S B) (p : prog S A) : prog S B :=
  match p with
  | Done a => f a
  | Sec m k => Sec m (λ x, prog_bind f (k x))
  end.

#[export] Instance prog_ret {S} : MRet (prog S) := λ A, Done.
#[export] Instance prog_mbind {S} : MBind (prog S) := λ A B, prog_bind.

(** [for _, x := range l { body }]. *)
Fixpoint prog_for_each {S A} (f : A → prog S ()) (l : list A) : prog S () :=
  match l with
  | [] => mret ()
  | x :: l => _ ← f x; prog_for_each f l
  end.

Fixpoint prog_for_fold {S X B} (f : B → X → prog S B) (b : B) (l : list X) : prog S B :=
  match l with
  | [] => mret b
  | x :: l => b' ← f b x; prog_for_fold f b' l
  end.

(** A goroutine that runs to its end without interruption. *)
Fixpoint alone {S A} (p : prog S A) : M S A :=
  match p with
  | Done a => mret a
  | Sec m k => x ← m; alone (k x)
  end.

(** One section of a goroutine. *)
Definition prog_step {S A} (p : prog S A) : M S (prog S A) :=
  match p with
  | Done a => mret (Done a)
  | Sec m k => x ← m; mret (k x)
  end.

(** Several goroutines; the schedule says whose turn it is. *)
Definition pool_step {S A} (i : nat) : M (S * list (prog S A)) () :=
  p ← gets (λ x, snd x !! i);
  match p with
  | None => mret ()
  | Some p =>
      p' ← zoom fst (λ s x, (s, snd x)) (prog_step p);
      modify (λ x, (fst x, <[i := p']> (snd x)))
  end.
Definition pool_run {S A} (turns : list nat) : M (S * list (prog S A)) () :=
  for_each pool_step turns.

Lemma for_each_app_ok {S X} (f : X → M S ()) l1 l2 s s1 s2 :
  for_each f l1 s = (Ok (), s1) → for_each f l2 s1 = (Ok (), s2) → for_each f (l1 ++ l2) s = (Ok (), s2).
Proof.
  revert s. induction l1 as [|x l1 IH]; intros s; [by intros [= ->]|].
  intros ([] & s0 & Hx & Hl)%bind_ok_inv H2. cbn [app for_each]. rewrite (bind_ok _ _ _ _ _ Hx). by apply IH.
Qed.

Lemma pool_step_run {S A} i (s : S) (ps : list (prog S A)) x :
  pool_step i (s, ps) = (Ok (), x) →
  (ps !! i = None ∧ x = (s, ps)) ∨
  ∃ p p' s', ps !! i = Some p ∧ prog_step p s = (Ok p', s') ∧ x = (s', <[i := p']> ps).
Proof.
  unfold pool_step. rewrite (bind_ok _ _ _ (ps !! i) (s, ps)) by done.
  destruct (ps !! i) as [p|] eqn:Hp; [|intros [= <-]; by left].
  intros (p' & y & Hstep & Hx)%bind_ok_inv. right. unfold zoom in Hstep. cbn [fst snd] in Hstep.
  destruct (prog_step p s) as [r s'] eqn:Hs. injection Hstep as -> <-. injection Hx as <-.
  by exists p, p', s'.
Qed.

Lemma alone_bind {S A B} (p : prog S A) (f : A → prog S B) s :
  alone (p ≫= f) s = (alone p ≫= λ a, alone (f a)) s.
Proof.
  revert s. induction p as [a|X m k IH]; intros s; [done|].
  change (alone (Sec m k ≫= f) s) with ((m ≫= λ x, alone (k x ≫= f)) s).
  cbn [alone]. unfold mbind, M_bind. destruct (m s) as [[x|e|e|] s']; try done. apply IH.
Qed.

Lemma alone_atomically {S A} (m : M S A) s : alone (atomically m) s = m s.
Proof. cbn. unfold mbind, M_bind, mret, M_ret. by destruct (m s) as [[] ?]. Qed.

Lemma alone_for_each {S A} (f : A → prog S ()) l s :
  alone (prog_for_each f l) s = for_each (λ x, alone (f x)) l s.
Proof.
  revert s. induction l as [|x l IH]; intros s; [done|].
  cbn [prog_for_each for_each]. rewrite alone_bind. unfold mbind, M_bind.
  destruct (alone (f x) s) as [[] ?]; [apply IH|done..].
Qed.

Lemma alone_for_fold {S X B} (f : B → X → prog S B) l b s :
  alone (prog_for_fold f b l) s = for_fold (λ b x, alone (f b x)) b l s.
Proof.
  revert b s. induction l as [|x l IH]; intros b s; [done|].
  cbn [prog_for_fold for_fold]. rewrite alone_bind. unfold mbind, M_bind.
  destruct (alone (f b x) s) as [[] ?]; [apply IH|done..].
Qed.

(** ** A logic for goroutines that interfere

    [ok] is an invariant of the shared state, [older] how it may change under
    a goroutine's feet, [stored] the elements it holds. A goroutine owns some
    elements too: [safe p Q b s] says that [p], owning [b] when the state is
    [s], never fails whatever the others do, that each of its sections keeps
    the elements it owns and those stored together the same, and that it ends
    with [Q]. It may count on [room] for all of them. *)
Section logic.
Context {S : Type} (ok : S → Prop) (older : S → S → Prop).
Context (stored : S → gmultiset string) (room : gmultiset string → Prop).
Context `{!PreOrder older}.

Fixpoint safe {A} (p : prog S A) (Q : A → gmultiset string → S → Prop)
    (b : gmultiset string) (s : S) : Prop :=
  match p with
  | Done a => ∀ s', older s s' → Q a b s'
  | Sec m k => ∀ s1, older s s1 → ok s1 → room (stored s1 ⊎ b) →
      match m s1 with
      | (Ok x, s2) => ok s2 ∧ older s1 s2 ∧
          ∃ b', stored s2 ⊎ b' = stored s1 ⊎ b ∧ safe (k x) Q b' s2
      | _ => False
      end
  end.

Lemma safe_older {A} (p : prog S A) Q b s s' : older s s' → safe p Q b s → safe p Q b s'.
Proof.
  destruct p as [a|X m k]; cbn; intros Hle Hp s1 Hs1; apply Hp; by etrans.
Qed.

Lemma safe_bind {A B} (p : prog S A) (f : A → prog S B) Q b s :
  safe p (λ a, safe (f a) Q) b s → safe (p ≫= f) Q b s.
Proof.
  revert b s. induction p as [a|X m k IH]; intros b s.
  - cbn. intros Hf. exact (Hf s ltac:(reflexivity)).
  - cbn. intros Hm s1 Hs1 Hok Hroom. specialize (Hm s1 Hs1 Hok Hroom).
    destruct (m s1) as [[x|e|e|] s2]; try done.
    destruct Hm as (Hok2 & Hle & b' & Hb & Hk). split_and!; [done..|].
    exists b'. split; [done|]. by apply IH.
Qed.

Lemma safe_imp {A} (p : prog S A) (Q Q' : A → gmultiset string → S → Prop) b s :
  (∀ a b s, Q a b s → Q' a b s) → safe p Q b s → safe p Q' b s.
Proof.
  intros HQ. revert b s. induction p as [a|X m k IH]; intros b s; cbn.
  - intros Hp s' Hs. by apply HQ, Hp.
  - intros Hm s1 Hs1 Hok Hroom. specialize (Hm s1 Hs1 Hok Hroom).
    destruct (m s1) as [[x|e|e|] s2]; try done.
    destruct Hm as (Hok2 & Hle & b' & Hb & Hk). split_and!; [done..|].
    exists b'. split; [done|]. by apply IH.
Qed.

Lemma safe_ret {A} (a : A) (Q : A → gmultiset string → S → Prop) b s :
  (∀ s', older s s' → Q a b s') → safe (mret a) Q b s.
Proof. done. Qed.

(** One section. *)
Lemma safe_section {A} (m : M S A) (Q : A → gmultiset string → S → Prop) b s :
  (∀ s1, older s s1 → ok s1 → room (stored s1 ⊎ b) →
    ∃ a s2, m s1 = (Ok a, s2) ∧ ok s2 ∧ older s1 s2 ∧
    ∃ b', stored s2 ⊎ b' = stored s1 ⊎ b ∧ ∀ s3, older s2 s3 → Q a b' s3) →
  safe (atomically m) Q b s.
Proof.
  intros Hm s1 Hs1 Hok Hroom.
  destruct (Hm s1 Hs1 Hok Hroom) as (a & s2 & -> & Hok2 & Hle & b' & Hb & HQ).
  split_and!; [done..|]. exists b'. by split.
Qed.

Lemma safe_for_each {A} (f : A → prog S ()) l (Q : () → gmultiset string → S → Prop) b s :
  (∀ x s (Q' : () → gmultiset string → S → Prop),
    (∀ s', older s s' → Q' () b s') → safe (f x) Q' b s) →
  (∀ s', older s s' → Q () b s') → safe (prog_for_each f l) Q b s.
Proof.
  intros Hf. revert s. induction l as [|x l IH]; intros s HQ; [done|].
  cbn [prog_for_each]. apply safe_bind, Hf. intros s' Hs'. apply IH.
  intros s2 Hs2. apply HQ. by etrans.
Qed.

Lemma safe_for_fold {A B} (f : B → A → prog S B) l (Q : B → gmultiset string → S → Prop) b c s :
  (∀ x y s (Q' : B → gmultiset string → S → Prop),
    (∀ z s', older s s' → Q' z b s') → safe (f x y) Q' b s) →
  (∀ z s', older s s' → Q z b s') → safe (prog_for_fold f c l) Q b s.
Proof.
  intros Hf. revert c s. induction l as [|x l IH]; intros c s HQ; [intros s' Hs'; by apply HQ|].
  cbn [prog_for_fold]. apply safe_bind, Hf. intros z s' Hs'. apply IH.
  intros y s2 Hs2. apply HQ. by etrans.
Qed.
End logic.
