(* ===== verification/Locks.v ===== *)
(** * Locks: goroutines that block on each other

    The mutexes of the program are [sync.RWMutex]es. A goroutine is here a
    sequence of lock operations and of steps on the shared data. As the
    documentation of the package says, a blocked [Lock] keeps new readers out:
    so [Lock] has two parts, the announcement, after which [RLock] blocks, and
    the wait for the readers that were there before. Goroutines that take their
    locks in increasing order are never all blocked. *)
From Stdlib Require Import Sorted.
From S2P Require Import Prelude Go.

(** ** RWMutex *)
Inductive Writer := NoWriter | Announced | Writing.
#[export] Instance Writer_eq_dec : EqDecision Writer.
Proof. solve_decision. Defined.

Record RWMutex := mkRW { rw_readers : nat; rw_writer : Writer }.

(** The mutexes; one that was never used is free. *)
Abbreviation Locks := (gmap nat RWMutex).
Definition lock_at (t : Locks) (l : nat) : RWMutex := default (mkRW 0 NoWriter) (t !! l).

Inductive LockOp :=
  | RLock (l : nat)
  | RUnlock (l : nat)
  | Announce (l : nat)       (* the first part of [Lock] *)
  | Acquire (l : nat)        (* the second *)
  | Unlock (l : nat).

(** [None]: the operation blocks. *)
Definition lock_step (op : LockOp) (t : Locks) : option Locks :=
  match op with
  | RLock l =>
      match rw_writer (lock_at t l) with
      | NoWriter => Some (<[l := mkRW (S (rw_readers (lock_at t l))) NoWriter]> t)
      | _ => None
      end
  | RUnlock l => Some (<[l := mkRW (pred (rw_readers (lock_at t l))) (rw_writer (lock_at t l))]> t)
  | Announce l =>
      match rw_writer (lock_at t l) with
      | NoWriter => Some (<[l := mkRW (rw_readers (lock_at t l)) Announced]> t)
      | _ => None
      end
  | Acquire l =>
      match rw_readers (lock_at t l) with
      | O => Some (<[l := mkRW 0 Writing]> t)
      | _ => None
      end
  | Unlock l => Some (<[l := mkRW (rw_readers (lock_at t l)) NoWriter]> t)
  end.

(** ** Tasks *)
Inductive task (S A : Type) : Type :=
  | TDone (a : A)
  | TLock (op : LockOp) (k : task S A)
  | TDo {X : Type} (m : M S X) (k : X → task S A).
Arguments TDone {S A} _.
Arguments TLock {S A} _ _.
Arguments TDo {S A X} _ _.

Fixpoint task_bind {S A B} (f : A → task S B) (p : task S A) : task S B :=
  match p with
  | TDone a => f a
  | TLock op k => TLock op (task_bind f k)
  | TDo m k => TDo m (λ x, task_bind f (k x))
  end.

#[export] Instance task_ret {S} : MRet (task S) := λ A, TDone.
#[export] Instance task_mbind {S} : MBind (task S) := λ A B, task_bind.

Definition lock_op {S} (op : LockOp) : task S () := TLock op (TDone ()).
Definition do_step {S A} (m : M S A) : task S A := TDo m TDone.

(** [mu.RLock(); defer mu.RUnlock(); body], and with [Lock]. *)
Definition read_locked {S A} (l : nat) (body : task S A) : task S A :=
  _ ← lock_op (RLock l); a ← body; _ ← lock_op (RUnlock l); mret a.
Definition write_locked {S A} (l : nat) (body : task S A) : task S A :=
  _ ← lock_op (Announce l); _ ← lock_op (Acquire l); a ← body; _ ← lock_op (Unlock l); mret a.

(** A loop of tasks. *)
Fixpoint task_for_each {S X} (f : X → task S ()) (l : list X) : task S () :=
  match l with
  | [] => mret ()
  | x :: l => _ ← f x; task_for_each f l
  end.

Fixpoint task_for_fold {S X B} (f : B → X → task S B) (b : B) (l : list X) : task S B :=
  match l with
  | [] => mret b
  | x :: l => b' ← f b x; task_for_fold f b' l
  end.

(** The data a task leaves when nobody interferes. *)
Fixpoint task_alone {S A} (p : task S A) : M S A :=
  match p with
  | TDone a => mret a
  | TLock _ k => task_alone k
  | TDo m k => x ← m; task_alone (k x)
  end.

Lemma task_alone_bind {S A B} (p : task S A) (f : A → task S B) s :
  task_alone (p ≫= f) s = (task_alone p ≫= λ a, task_alone (f a)) s.
Proof.
  revert s. induction p as [a|op k IH|X m k IH]; intros s; [done|exact (IH s)|].
  change (task_alone (TDo m k ≫= f) s) with ((m ≫= λ x, task_alone (k x ≫= f)) s).
  cbn [task_alone]. unfold mbind, M_bind. destruct (m s) as [[x|e|e|] s']; try done. apply IH.
Qed.

Lemma task_alone_do {S A} (m : M S A) s : task_alone (do_step m) s = m s.
Proof. cbn. unfold mbind, M_bind, mret, M_ret. by destruct (m s) as [[] ?]. Qed.

Lemma task_alone_for_each {S X} (f : X → task S ()) (g : X → M S ()) l s :
  Forall (λ x, ∀ s, task_alone (f x) s = g x s) l →
  task_alone (task_for_each f l) s = for_each g l s.
Proof.
  intros Hl. revert s. induction Hl as [|x l Hx _ IH]; intros s; [done|].
  cbn [task_for_each for_each]. rewrite task_alone_bind, !bind_eq, Hx.
  destruct (g x s) as [[u|e|e|] s1]; [apply IH|done..].
Qed.

Lemma task_alone_for_fold {S X B} (f : B → X → task S B) (g : B → X → M S B) l : ∀ b s,
  (∀ b x s, task_alone (f b x) s = g b x s) →
  task_alone (task_for_fold f b l) s = for_fold g b l s.
Proof.
  induction l as [|x l IH]; intros b s Hf; [done|].
  cbn [task_for_fold for_fold]. rewrite task_alone_bind, !bind_eq, Hf.
  destruct (g b x s) as [[b'|e|e|] s1]; [by apply IH|done..].
Qed.

Lemma task_alone_read_locked {S A} l (p : task S A) s :
  task_alone (read_locked l p) s = task_alone p s.
Proof.
  change (task_alone (read_locked l p) s) with
    (task_alone (a ← p; _ ← lock_op (RUnlock l); mret a) s).
  rewrite task_alone_bind, bind_eq. by destruct (task_alone p s) as [[] ?].
Qed.

Lemma task_alone_write_locked {S A} l (p : task S A) s :
  task_alone (write_locked l p) s = task_alone p s.
Proof.
  change (task_alone (write_locked l p) s) with
    (task_alone (a ← p; _ ← lock_op (Unlock l); mret a) s).
  rewrite task_alone_bind, bind_eq. by destruct (task_alone p s) as [[] ?].
Qed.

(** ** The scheduler *)
Record Tasks (S A : Type) := mkTasks { tk_data : S; tk_locks : Locks; tk_tasks : list (task S A) }.
Arguments mkTasks {S A} _ _ _.
Arguments tk_data {S A} _.
Arguments tk_locks {S A} _.
Arguments tk_tasks {S A} _.

(** One step of goroutine [i]; nothing happens when it is blocked or done. *)
Definition task_step {S A} (i : nat) : M (Tasks S A) () := λ c,
  match tk_tasks c !! i with
  | None | Some (TDone _) => (Ok (), c)
  | Some (TLock op k) =>
      match lock_step op (tk_locks c) with
      | None => (Ok (), c)
      | Some t => (Ok (), mkTasks (tk_data c) t (<[i := k]> (tk_tasks c)))
      end
  | Some (TDo m k) =>
      match m (tk_data c) with
      | (Ok x, s) => (Ok (), mkTasks s (tk_locks c) (<[i := k x]> (tk_tasks c)))
      | (Err e, s) => (Err e, mkTasks s (tk_locks c) (tk_tasks c))
      | (Panic p, s) => (Panic p, mkTasks s (tk_locks c) (tk_tasks c))
      | (NoFuel, s) => (NoFuel, mkTasks s (tk_locks c) (tk_tasks c))
      end
  end.

Definition task_run {S A} (order : list nat) : M (Tasks S A) () := for_each task_step order.

(** Can the goroutine go on? *)
Definition enabled {S A} (t : Locks) (p : task S A) : bool :=
  match p with
  | TDone _ => false
  | TLock op _ => bool_decide (is_Some (lock_step op t))
  | TDo _ _ => true
  end.
Definition finished {S A} (p : task S A) : bool := match p with TDone _ => true | _ => false end.

(** Nobody can go on, and somebody is not done. *)
Definition deadlocked {S A} (c : Tasks S A) : Prop :=
  Forall (λ p, enabled (tk_locks c) p = false) (tk_tasks c) ∧
  Exists (λ p, finished p = false) (tk_tasks c).

Lemma stuck_step {S A} (c : Tasks S A) i :
  Forall (λ p, enabled (tk_locks c) p = false) (tk_tasks c) → task_step i c = (Ok (), c).
Proof.
  intros Hc. unfold task_step. destruct (tk_tasks c !! i) as [p|] eqn:Hp; [|done].
  pose proof (list.Forall_lookup_1 _ _ _ _ Hc Hp) as Hi. destruct p as [a|op k|X m k]; [done| |done].
  cbn in Hi. apply bool_decide_eq_false_1 in Hi. by destruct (lock_step op (tk_locks c)); [destruct Hi|].
Qed.

(** A deadlock is for ever. *)
Lemma stuck_run {S A} (c : Tasks S A) order :
  Forall (λ p, enabled (tk_locks c) p = false) (tk_tasks c) → task_run order c = (Ok (), c).
Proof.
  intros Hc. induction order as [|i order IH]; [done|]. unfold task_run. cbn [for_each].
  by rewrite (bind_ok _ _ _ _ _ (stuck_step c i Hc)).
Qed.

Definition deadlockedb {S A} (c : Tasks S A) : bool :=
  forallb (λ p, negb (enabled (tk_locks c) p)) (tk_tasks c) && existsb (λ p, negb (finished p)) (tk_tasks c).

Lemma deadlockedb_spec {S A} (c : Tasks S A) : deadlockedb c = true → deadlocked c.
Proof.
  unfold deadlockedb. rewrite andb_true_iff, forallb_forall, existsb_exists.
  intros [Hall (p & Hp & Hfin)]. split.
  - apply list.Forall_forall. intros q Hq. by apply negb_true_iff, Hall, list_elem_of_In.
  - apply list.Exists_exists. exists p. split; [by apply list_elem_of_In|]. by apply negb_true_iff.
Qed.

(** A schedule into a deadlock, found by running it. *)
Lemma deadlock_reached {S A} order (c : Tasks S A) :
  match task_run order c with (Ok _, c') => deadlockedb c' | _ => false end = true →
  ∃ c', task_run order c = (Ok (), c') ∧ deadlocked c' ∧ ∀ order', task_run order' c' = (Ok (), c').
Proof.
  destruct (task_run order c) as [[[]|e|e|] c']; [|done..]. intros Hc%deadlockedb_spec.
  exists c'. split_and!; [done|done|]. intros order'. by apply stuck_run, Hc.
Qed.

(** ** Locks taken in order *)
Inductive Mode := HRead | HAnnounced | HWrite.
#[export] Instance Mode_eq_dec : EqDecision Mode.
Proof. solve_decision. Defined.

(** What a goroutine holds, the newest lock first. *)
Definition Hold : Type := nat * Mode.

Definition above (l : nat) (held : list Hold) : bool := forallb (λ h, (fst h <? l)%nat) held.

(** Locks are given back newest first. [None]: this one is not the newest. *)
Definition hold_next (op : LockOp) (held : list Hold) : option (list Hold) :=
  match op, held with
  | RLock l, _ => Some ((l, HRead) :: held)
  | Announce l, _ => Some ((l, HAnnounced) :: held)
  | Acquire l, (l', HAnnounced) :: held' =>
      if (l =? l')%nat then Some ((l, HWrite) :: held') else None
  | RUnlock l, (l', HRead) :: held' => if (l =? l')%nat then Some held' else None
  | Unlock l, (l', HWrite) :: held' => if (l =? l')%nat then Some held' else None
  | _, _ => None
  end.

(** [None]: out of order, too. *)
Definition hold_step (op : LockOp) (held : list Hold) : option (list Hold) :=
  match op with
  | RLock l | Announce l => if above l held then hold_next op held else None
  | _ => hold_next op held
  end.

Lemma hold_step_next op held held' : hold_step op held = Some held' → hold_next op held = Some held'.
Proof. by destruct op as [l|l|l|l|l]; cbn; [destruct (above l held)| |destruct (above l held)|..]. Qed.

(** From [held], the goroutine takes each lock only above those it holds, gives
    them back newest first, and ends with [base]. *)
Fixpoint ordered {S A} (base held : list Hold) (p : task S A) : Prop :=
  match p with
  | TDone _ => held = base
  | TLock op k =>
      match hold_step op held with Some held' => ordered base held' k | None => False end
  | TDo m k => ∀ x, ordered base held (k x)
  end.

Lemma ordered_bind {S A B} base held held' (p : task S A) (f : A → task S B) :
  ordered held' held p → (∀ a, ordered base held' (f a)) → ordered base held (p ≫= f).
Proof.
  intros Hp Hf. revert held Hp. induction p as [a|op k IH|X m k IH]; intros held Hp.
  - cbn in Hp. subst. apply Hf.
  - cbn in Hp |- *. destruct (hold_step op held) as [h|]; [by apply IH|done].
  - cbn. intros x. by apply IH.
Qed.

Lemma ordered_fold {S X B} held (f : B → X → task S B) l : ∀ b,
  (∀ b x, ordered held held (f b x)) → ordered held held (task_for_fold f b l).
Proof.
  induction l as [|x l IH]; intros b Hf; [done|].
  eapply ordered_bind; [apply Hf|]. intros b'. by apply IH.
Qed.

Lemma ordered_for_each {S X} held (f : X → task S ()) l :
  (∀ x, ordered held held (f x)) → ordered held held (task_for_each f l).
Proof.
  intros Hf. induction l as [|x l IH]; [done|]. by eapply ordered_bind; [apply Hf|].
Qed.

Lemma ordered_do {S A} held (m : M S A) : ordered held held (do_step m).
Proof. by intros x. Qed.

Lemma ordered_read_locked {S A} l held (p : task S A) :
  above l held = true → ordered ((l, HRead) :: held) ((l, HRead) :: held) p →
  ordered held held (read_locked l p).
Proof.
  intros Hl Hp. cbn. rewrite Hl. eapply ordered_bind; [exact Hp|]. intros a. cbn.
  by rewrite Nat.eqb_refl.
Qed.

Lemma ordered_write_locked {S A} l held (p : task S A) :
  above l held = true → ordered ((l, HWrite) :: held) ((l, HWrite) :: held) p →
  ordered held held (write_locked l p).
Proof.
  intros Hl Hp. cbn. rewrite Hl, Nat.eqb_refl. eapply ordered_bind; [exact Hp|]. intros a. cbn.
  by rewrite Nat.eqb_refl.
Qed.

Fixpoint cnt (h : Hold) (l : list Hold) : nat :=
  match l with [] => 0 | x :: l => (if decide (x = h) then 1 else 0) + cnt h l end%nat.

Lemma cnt_cons h x l : cnt h (x :: l) = ((if decide (x = h) then 1 else 0) + cnt h l)%nat.
Proof. done. Qed.

Lemma cnt_app h l l' : cnt h (l ++ l') = (cnt h l + cnt h l')%nat.
Proof. induction l as [|x l IH]; [done|]. cbn [app]. rewrite !cnt_cons, IH. lia. Qed.

#[export] Instance cnt_perm h : Proper (Permutation ==> eq) (cnt h).
Proof.
  intros l l' Hl. induction Hl as [|x l l' _ IH|x y l|]; [done| | |congruence];
    rewrite !cnt_cons; lia.
Qed.

Lemma cnt_insert (ls : list (list Hold)) i l l' h : ls !! i = Some l →
  (cnt h (concat (<[i := l']> ls)) + cnt h l = cnt h (concat ls) + cnt h l')%nat.
Proof. intros Hi. by rewrite <-!cnt_app, (concat_insert_perm ls i l l' Hi). Qed.

Lemma cnt_0 h l : cnt h l = 0%nat ↔ h ∉ l.
Proof.
  induction l as [|x l IH]; [split; [intros _ Hh; by apply elem_of_nil in Hh|done]|].
  rewrite cnt_cons, not_elem_of_cons, <-IH. case_decide; naive_solver lia.
Qed.

(** The table of locks says what the goroutines hold. *)
Definition table_ok (t : Locks) (helds : list (list Hold)) : Prop := ∀ l,
  rw_readers (lock_at t l) = cnt (l, HRead) (concat helds) ∧
  match rw_writer (lock_at t l) with
  | NoWriter => cnt (l, HAnnounced) (concat helds) = 0%nat ∧ cnt (l, HWrite) (concat helds) = 0%nat
  | Announced => cnt (l, HAnnounced) (concat helds) = 1%nat ∧ cnt (l, HWrite) (concat helds) = 0%nat
  | Writing => cnt (l, HAnnounced) (concat helds) = 0%nat ∧ cnt (l, HWrite) (concat helds) = 1%nat ∧
      rw_readers (lock_at t l) = 0%nat
  end.

(** Newest above older. *)
Definition stacked (held : list Hold) : Prop := StronglySorted (λ h h', (fst h' < fst h)%nat) held.

Lemma lock_at_insert t l l' x :
  lock_at (<[l := x]> t) l' = if decide (l = l') then x else lock_at t l'.
Proof.
  unfold lock_at. case_decide as Hl; [subst; by rewrite lookup_insert_eq|by rewrite lookup_insert_ne].
Qed.

Lemma hold_step_stacked op held held' :
  hold_step op held = Some held' → stacked held → stacked held'.
Proof.
  assert (Habove : ∀ l m, above l held = true → stacked held → stacked ((l, m) :: held)).
  { intros l m Hab Hst. constructor; [done|]. apply list.Forall_forall. intros h Hh. cbn.
    unfold above in Hab. rewrite forallb_forall in Hab.
    apply Nat.ltb_lt, Hab. by apply list_elem_of_In. }
  unfold stacked. destruct op as [l|l|l|l|l]; cbn.
  - destruct (above l held) eqn:Hab; [|done]. intros [= <-]. by apply Habove.
  - destruct held as [|[l' []] held]; try done. destruct (l =? l')%nat; [|done].
    intros [= <-] Hs. by inversion Hs.
  - destruct (above l held) eqn:Hab; [|done]. intros [= <-]. by apply Habove.
  - destruct held as [|[l' []] held]; try done. destruct (Nat.eqb_spec l l') as [->|]; [|done].
    intros [= <-] Hs. inversion Hs; subst. by constructor.
  - destruct held as [|[l' []] held]; try done. destruct (l =? l')%nat; [|done].
    intros [= <-] Hs. by inversion Hs.
Qed.

(** Compare the counts of one lock before and after, in [lock_step_table]. *)
Ltac table_lia :=
  match goal with H : ∀ l x, lock_at (<[l := x]> ?t) ?l0 = _ |- _ =>
    rewrite H; destruct (rw_writer (lock_at t l0)) eqn:?
  end;
  rewrite ?cnt_cons in *; repeat case_decide; simplify_eq; cbn [rw_readers rw_writer] in *;
  repeat match goal with H : rw_writer (lock_at ?t ?l) = _ |- context [rw_writer (lock_at ?t ?l)] =>
    rewrite H end; (congruence || lia).

Lemma lock_step_table op t t' helds i held held' :
  table_ok t helds → helds !! i = Some held → hold_next op held = Some held' →
  lock_step op t = Some t' → table_ok t' (<[i := held']> helds).
Proof.
  intros Ht Hi Hhold Hlock l0.
  pose proof (cnt_insert helds i held held' (l0, HRead) Hi) as HR.
  pose proof (cnt_insert helds i held held' (l0, HAnnounced) Hi) as HA.
  pose proof (cnt_insert helds i held held' (l0, HWrite) Hi) as HW.
  specialize (Ht l0).
  assert (Hother : ∀ l x, lock_at (<[l := x]> t) l0 = if decide (l = l0) then x else lock_at t l0)
    by (intros; apply lock_at_insert).
  destruct Ht as [Hr Ht]. destruct op as [l|l|l|l|l]; cbn in Hhold, Hlock.
  - injection Hhold as <-.
    destruct (rw_writer (lock_at t l)) eqn:Hw; [|done..]. injection Hlock as <-. table_lia.
  - destruct held as [|[l' []] rest]; try done.
    destruct (Nat.eqb_spec l l') as [<-|]; [|done]. simplify_eq. table_lia.
  - injection Hhold as <-.
    destruct (rw_writer (lock_at t l)) eqn:Hw; [|done..]. injection Hlock as <-. table_lia.
  - destruct held as [|[l' []] rest]; try done.
    destruct (Nat.eqb_spec l l') as [<-|]; [|done].
    destruct (rw_readers (lock_at t l)) eqn:Hn; [|done]. simplify_eq. table_lia.
  - destruct held as [|[l' []] rest]; try done.
    destruct (Nat.eqb_spec l l') as [<-|]; [|done]. simplify_eq. table_lia.
Qed.

Lemma table_ok_start n : table_ok ∅ (replicate n []).
Proof.
  intros l. assert (concat (replicate n ([] : list Hold)) = []) as -> by (by induction n). done.
Qed.

(** Who holds a lock for writing holds it alone. *)
Lemma write_alone t helds held l :
  table_ok t helds → held ∈ helds → (l, HWrite) ∈ held → lock_at t l = mkRW 0 Writing.
Proof.
  intros Ht Hin Hl.
  assert (Hc : (0 < cnt (l, HWrite) (concat helds))%nat).
  { destruct (decide ((l, HWrite) ∈ concat helds)) as [Hw|Hno].
    - destruct (cnt (l, HWrite) (concat helds)) eqn:H0; [|lia]. by apply cnt_0 in H0.
    - destruct Hno. apply list_elem_of_In, in_concat. exists held. by rewrite <-!list_elem_of_In. }
  destruct (Ht l) as [Hr Hw]. destruct (lock_at t l) as [n w]. cbn in *.
  destruct w; [lia|lia|]. destruct Hw as (_ & _ & ->). done.
Qed.

(** Who holds a lock for writing excludes the others from it. *)
Definition excludes (held held' : list Hold) : Prop := ∀ l,
  (l, HWrite) ∈ held → ((l, HRead) ∉ held') ∧ (l, HWrite) ∉ held'.

Lemma cnt_apart helds i j hi hj x : i ≠ j → helds !! i = Some hi → helds !! j = Some hj →
  (cnt x hi + cnt x hj ≤ cnt x (concat helds))%nat.
Proof.
  intros Hij Hi Hj. pose proof (cnt_insert helds i hi [] x Hi) as H1.
  pose proof (cnt_insert (<[i := []]> helds) j hj [] x ltac:(by rewrite list_lookup_insert_ne)) as H2.
  cbn in H1, H2. lia.
Qed.

Lemma cnt_pos x l : x ∈ l → (0 < cnt x l)%nat.
Proof. intros Hx. destruct (cnt x l) eqn:Hc; [by apply cnt_0 in Hc|lia]. Qed.

Lemma table_excludes t helds i j hi hj : table_ok t helds → i ≠ j →
  helds !! i = Some hi → helds !! j = Some hj → excludes hi hj.
Proof.
  intros Ht Hij Hi Hj l Hl.
  pose proof (write_alone t helds hi l Ht ltac:(by eapply list_elem_of_lookup_2) Hl) as Hw.
  destruct (Ht l) as [Hr Hm]. rewrite Hw in Hr, Hm. cbn in Hr, Hm. apply cnt_pos in Hl.
  split; intros Hl'%cnt_pos.
  - pose proof (cnt_apart helds i j hi hj (l, HRead) Hij Hi Hj). lia.
  - pose proof (cnt_apart helds i j hi hj (l, HWrite) Hij Hi Hj). lia.
Qed.

(** ** Progress *)
Section progress.
Context {S A : Type}.
Implicit Types (c : Tasks S A) (p : task S A).

Definition held_inv c (helds : list (list Hold)) : Prop :=
  Forall2 (λ held p, ordered [] held p ∧ stacked held) helds (tk_tasks c) ∧ table_ok (tk_locks c) helds.

Lemma held_inv_step i c c' helds :
  held_inv c helds → task_step i c = (Ok (), c') → ∃ helds', held_inv c' helds'.
Proof.
  intros [Hp Ht]. unfold task_step. destruct (tk_tasks c !! i) as [p|] eqn:Hi; [|intros [= <-]; by exists helds].
  destruct (list.Forall2_lookup_r _ _ _ _ _ Hp Hi) as (held & Hheld & Hord & Hst).
  destruct p as [a|op k|X m k].
  - intros [= <-]. by exists helds.
  - destruct (lock_step op (tk_locks c)) as [t|] eqn:Hlock; [|intros [= <-]; by exists helds].
    intros [= <-]. cbn in Hord. destruct (hold_step op held) as [held'|] eqn:Hhold; [|done].
    exists (<[i := held']> helds). split.
    + apply list.Forall2_insert; [done|]. split; [done|]. by eapply hold_step_stacked.
    + by eapply lock_step_table, Hlock; [..|apply hold_step_next].
  - destruct (m (tk_data c)) as [[x|e|e|] s]; [|done..]. intros [= <-]. exists helds.
    split; [|done]. cbn. rewrite <-(list_insert_id helds i held) by done.
    apply list.Forall2_insert; [done|]. split; [apply Hord|done].
Qed.

Lemma held_inv_run order : ∀ c c' helds,
  held_inv c helds → task_run order c = (Ok (), c') → ∃ helds', held_inv c' helds'.
Proof.
  induction order as [|i order IH]; intros c c' helds Hc Hrun.
  - injection Hrun as <-. by exists helds.
  - apply bind_ok_inv in Hrun as ([] & c1 & H1 & H2).
    destruct (held_inv_step _ _ _ _ Hc H1) as [helds1 Hc1]. by eapply IH.
Qed.

(** The lock a blocked goroutine is at. *)
Definition wants p : option nat :=
  match p with TLock (RLock l | Announce l | Acquire l) _ => Some l | _ => None end.

Lemma blocked_wants c helds held p :
  table_ok (tk_locks c) helds → ordered [] held p → stacked held →
  enabled (tk_locks c) p = false → finished p = false →
  ∃ l, wants p = Some l ∧ (∃ m, 0 < cnt (l, m) (concat helds))%nat ∧
    ∀ h, h ∈ held → (fst h < l)%nat ∨
      (h = (l, HAnnounced) ∧ (0 < cnt (l, HRead) (concat helds))%nat).
Proof.
  intros Ht Hord Hst Hen Hfin. destruct p as [a|op k|X m k]; [done| |done].
  cbn in Hord, Hen. apply bool_decide_eq_false_1, eq_None_not_Some in Hen.
  assert (Habove : ∀ l h, above l held = true → h ∈ held → (fst h < l)%nat).
  { intros l h Hab Hh. unfold above in Hab. rewrite forallb_forall in Hab.
    apply Nat.ltb_lt, Hab. by apply list_elem_of_In. }
  destruct op as [l|l|l|l|l]; cbn in Hord, Hen; try done; exists l; (split; [done|]);
    destruct (Ht l) as [Hr Hw].
  - destruct (above l held) eqn:Hab; [|done]. split; [|intros h Hh; left; by apply Habove].
    destruct (rw_writer (lock_at (tk_locks c) l)); [done| |].
    + exists HAnnounced. lia.
    + exists HWrite. lia.
  - destruct (above l held) eqn:Hab; [|done]. split; [|intros h Hh; left; by apply Habove].
    destruct (rw_writer (lock_at (tk_locks c) l)); [done| |].
    + exists HAnnounced. lia.
    + exists HWrite. lia.
  - destruct held as [|[l' []] rest]; try done. destruct (Nat.eqb_spec l l') as [<-|]; [|done].
    destruct (rw_readers (lock_at (tk_locks c) l)) eqn:Hn; [done|].
    split; [exists HRead; lia|]. intros h [->|Hh]%elem_of_cons; [right; split; [done|lia]|].
    left. unfold stacked in Hst. inversion Hst as [|? ? _ Hall]; subst.
    rewrite list.Forall_forall in Hall. by apply Hall.
Qed.

(** From a goroutine blocked at a lock to another one blocked at a higher one. *)
Lemma blocked_higher c helds p l :
  held_inv c helds → Forall (λ p, enabled (tk_locks c) p = false) (tk_tasks c) →
  p ∈ tk_tasks c → finished p = false → wants p = Some l →
  ∃ p' l', p' ∈ tk_tasks c ∧ finished p' = false ∧ wants p' = Some l' ∧ (l < l')%nat.
Proof.
  intros [Hp Ht] Hstuck Hin Hfin Hl.
  assert (Hholder : ∀ m, (0 < cnt (l, m) (concat helds))%nat → ∃ (held : list Hold) p', (l, m) ∈ held ∧
    p' ∈ tk_tasks c ∧ finished p' = false ∧ ∃ l', wants p' = Some l' ∧
      ((l < l')%nat ∨ ((l, m) = (l', HAnnounced) ∧ (0 < cnt (l', HRead) (concat helds))%nat))).
  { intros m Hm. assert (Hc : (l, m) ∈ concat helds).
    { destruct (decide ((l, m) ∈ concat helds)) as [|Hno]; [done|]. apply cnt_0 in Hno. lia. }
    apply list_elem_of_In, in_concat in Hc as (held & Hh & Hlm).
    apply list_elem_of_In, list_elem_of_lookup in Hh as [j Hj].
    destruct (list.Forall2_lookup_l _ _ _ _ _ Hp Hj) as (p' & Hp' & Hord & Hst).
    assert (Hfin' : finished p' = false).
    { destruct p'; [|done..]. cbn in Hord. subst. by apply list_elem_of_In, elem_of_nil in Hlm. }
    destruct (blocked_wants c helds held p' Ht Hord Hst) as (l' & Hl' & _ & Hall);
      [by apply (list.Forall_lookup_1 _ _ _ _ Hstuck Hp')|done|].
    exists held, p'. split_and!; [by apply list_elem_of_In|by eapply list_elem_of_lookup_2|done|].
    exists l'. split; [done|]. apply (Hall (l, m)). by apply list_elem_of_In. }
  apply list_elem_of_lookup in Hin as [i Hi].
  destruct (list.Forall2_lookup_r _ _ _ _ _ Hp Hi) as (held & Hheld & Hord & Hst).
  destruct (blocked_wants c helds held p Ht Hord Hst) as (l0 & Hl0 & (m & Hm) & _);
    [by apply (list.Forall_lookup_1 _ _ _ _ Hstuck Hi)|done|].
  rewrite Hl in Hl0. injection Hl0 as <-.
  destruct (Hholder m Hm) as (_ & p1 & _ & Hp1 & Hfin1 & l1 & Hl1 & [Hlt|[[= <- _] Hread]]);
    [by exists p1, l1|].
  destruct (Hholder HRead Hread) as (_ & p2 & _ & Hp2 & Hfin2 & l2 & Hl2 & [Hlt|[[=] _]]).
  by exists p2, l2.
Qed.

(** Goroutines that take their locks in order, whatever they compute, are never
    in a deadlock. *)
Lemma held_not_deadlocked c helds : held_inv c helds → ¬ deadlocked c.
Proof.
  intros Hinv [Hstuck Hex].
  assert (Hup : ∀ n, ∃ p l, p ∈ tk_tasks c ∧ finished p = false ∧ wants p = Some l ∧ (n ≤ l)%nat).
  { intros n. induction n as [|n (p & l & Hp & Hfin & Hl & Hn)].
    - apply list.Exists_exists in Hex as (p & Hp & Hfin).
      pose proof Hinv as [Hall Ht]. apply list_elem_of_lookup in Hp as Hp'. destruct Hp' as [i Hi].
      destruct (list.Forall2_lookup_r _ _ _ _ _ Hall Hi) as (held & Hheld & Hord & Hst).
      destruct (blocked_wants c helds held p Ht Hord Hst) as (l & Hl & _);
        [by apply (list.Forall_lookup_1 _ _ _ _ Hstuck Hi)|done|]. exists p, l. split_and!; [done..|lia].
    - destruct (blocked_higher c helds p l Hinv Hstuck Hp Hfin Hl) as (p' & l' & Hp' & Hf' & Hl' & Hlt).
      exists p', l'. split_and!; [done..|lia]. }
  destruct (Hup (Datatypes.S (max_list (omap wants (tk_tasks c))))) as (p & l & Hp & _ & Hl & Hn).
  assert (Hin : l ∈ omap wants (tk_tasks c)) by (apply list_elem_of_omap; eauto).
  apply max_list_elem_of_le in Hin. lia.
Qed.

Lemma held_inv_start s ps :
  Forall (ordered [] []) ps → held_inv (mkTasks s ∅ ps) (replicate (length ps) []).
Proof.
  intros Hps. split; [|apply table_ok_start]. cbn. induction Hps as [|p ps Hp Hps IH]; [constructor|].
  constructor; [|exact IH]. split; [done|constructor].
Qed.

Lemma ordered_progress order s ps c :
  Forall (ordered [] []) ps → task_run order (mkTasks s ∅ ps) = (Ok (), c) → ¬ deadlocked c.
Proof.
  intros Hps Hrun. destruct (held_inv_run order _ _ _ (held_inv_start s ps Hps) Hrun) as [helds Hinv].
  by eapply held_not_deadlocked.
Qed.
End progress.

(** ** What is left of a task *)
Section rest.
Context {S A : Type}.
Implicit Types (p : task S A).

(** After its next operation. *)
Inductive rest_of : task S A → task S A → Prop :=
  | rest_lock op k : rest_of k (TLock op k)
  | rest_do X (m : M S X) k x : rest_of (k x) (TDo m k).

Definition rest_of_one (ps' ps : list (task S A)) : Prop :=
  ∃ i p p', ps !! i = Some p ∧ rest_of p' p ∧ ps' = <[i := p']> ps.

Lemma rest_of_inv p' p : rest_of p' p →
  match p with TDone _ => False | TLock _ k => p' = k | TDo _ k => ∃ x, p' = k x end.
Proof. destruct 1; eauto. Qed.

Lemma rest_of_wf p : Acc rest_of p.
Proof.
  induction p as [a|op k IH|X m k IH]; constructor; intros p' Hp%rest_of_inv; [done|by subst|].
  by destruct Hp as [x ->].
Qed.

Lemma rest_of_one_wf ps : Acc rest_of_one ps.
Proof.
  induction ps as [|p ps IHps]; [constructor; by intros ps' (i & p & p' & Hi & _)|].
  revert p. assert (Hp : ∀ p, Acc rest_of p) by apply rest_of_wf.
  induction IHps as [ps _ IHps]. intros p. specialize (Hp p). induction Hp as [p _ IHp].
  constructor. intros ps' ([|i] & q & q' & Hi & Hq & ->); cbn in Hi.
  - injection Hi as ->. by apply IHp.
  - apply IHps. by exists i, q, q'.
Qed.
End rest.

Lemma enabled_step {S A} i (c c' : Tasks S A) : task_step i c = (Ok (), c') →
  enabled (tk_locks c) <$> tk_tasks c !! i = Some true → rest_of_one (tk_tasks c') (tk_tasks c).
Proof.
  unfold task_step. destruct (tk_tasks c !! i) as [p|] eqn:Hi; [|done]. destruct p as [a|op k|X m k]; cbn; [done|..].
  - destruct (lock_step op (tk_locks c)) as [t|]; [|done]. intros [= <-] _.
    exists i, (TLock op k), k. split_and!; [done|constructor|done].
  - destruct (m (tk_data c)) as [[x|e|e|] s]; [|done..]. intros [= <-] _.
    exists i, (TDo m k), (k x). split_and!; [done|constructor|done].
Qed.

(** From any state of goroutines that neither fail nor deadlock, some order of
    steps takes all of them to their ends. *)
Lemma tasks_finish {S A} (I : Tasks S A → Prop) c helds :
  (∀ i c, I c → ∃ c', task_step i c = (Ok (), c') ∧ I c') → I c → held_inv c helds →
  ∃ order c', task_run order c = (Ok (), c') ∧ Forall (λ p, finished p = true) (tk_tasks c').
Proof.
  intros Hstep. remember (tk_tasks c) as ps eqn:Hps. revert c helds Hps.
  induction (rest_of_one_wf ps) as [ps _ IH]. intros c helds -> Hc Hh.
  destruct (decide (Forall (λ p, finished p = true) (tk_tasks c))) as [Hall|Hsome]; [by exists [], c|].
  destruct (decide (Forall (λ p, enabled (tk_locks c) p = false) (tk_tasks c))) as [Hdead|Hlive].
  { destruct (held_not_deadlocked c helds Hh). split; [done|].
    apply not_Forall_Exists in Hsome; [|solve_decision]. eapply list.Exists_impl; [exact Hsome|].
    intros p. cbn. by destruct (finished p). }
  apply not_Forall_Exists, list.Exists_exists in Hlive as (p & Hp & Hen); [|solve_decision].
  apply list_elem_of_lookup in Hp as [i Hi]. cbn in Hen. apply not_false_is_true in Hen.
  destruct (Hstep i c Hc) as (c1 & H1 & Hc1).
  destruct (held_inv_step i c c1 helds Hh H1) as [helds1 Hh1].
  destruct (IH (tk_tasks c1) ltac:(apply (enabled_step i c c1 H1); rewrite Hi; cbn; by rewrite Hen) c1 helds1
    eq_refl Hc1 Hh1) as (order & c' & Hrun & Hfin).
  exists (i :: order), c'. split; [|done]. unfold task_run. cbn [for_each].
  by rewrite (bind_ok _ _ _ _ _ H1).
Qed.
