(* ===== verification/Atomic.v ===== *)
(** * Atomic: critical sections happen as if at once

    Goroutines that touch each piece of data only under the [sync.RWMutex] that
    protects it, changing it only under [Lock], and that hold one mutex at a
    time, can be taken for sequences of critical sections, the programs of
    [Goroutine]: whatever the scheduler does with their locks and steps, the data
    is what the sections make of it one after the other. A section counts from
    the moment it has its mutex. *)
From S2P Require Import Prelude Go Goroutine Locks.

(** The piece of the data that each mutex protects, and what goroutines use under
    none: the clock, the order of a [range]. *)
Class Guarded (S : Type) := {
  Part : nat → Type;
  part (l : nat) : S → Part l;
  put (l : nat) : Part l → S → S;
  Free : Type;
  free : S → Free;
  put_free : Free → S → S;
}.
Class GuardedLaws (S : Type) `{Guarded S} : Prop := {
  part_put l d s : part l (put l d s) = d;
  part_put_ne l l' d s : l ≠ l' → part l' (put l d s) = part l' s;
  free_put l d s : free (put l d s) = free s;
  free_put_free f s : free (put_free f s) = f;
  part_put_free l f s : part l (put_free f s) = part l s;
}.

(** One mutex, number 0, protects all but a part used under none. *)
Definition one_mutex (F D : Type) : Guarded (F * D) := {|
  Part l := match l with O => D | _ => ()%type end;
  part l := match l with O => snd | _ => λ _, () end;
  put l := match l with O => λ d s, (fst s, d) | _ => λ _ s, s end;
  free := fst;
  put_free f s := (f, snd s);
|}.

Lemma one_mutex_laws F D : @GuardedLaws (F * D) (one_mutex F D).
Proof.
  split.
  - by intros [|l] d s; [|destruct d].
  - intros [|l] [|l'] d s Hl; try done.
  - by intros [|l] d s.
  - done.
  - by intros [|l] f s.
Qed.

(** An order on what that mutex protects. *)
Definition one_order {F D} (R : D → D → Prop) (l : nat) : @Part _ (one_mutex F D) l → @Part _ (one_mutex F D) l → Prop :=
  match l with O => R | _ => λ _ _, True end.
#[export] Instance one_order_order {F D} (R : D → D → Prop) l : PreOrder R → PreOrder (@one_order F D R l).
Proof. intros HR. destruct l; [exact HR|by split]. Qed.

(** A goroutine that takes a mutex around each of its bodies. *)
Inductive sections (S : Type) `{Guarded S} (A : Type) : Type :=
  | SDone (a : A)
  | SWrite (l : nat) {X : Type} (body : task (Part l) X) (k : X → sections S A)
  | SRead (l : nat) {X : Type} (body : task (Part l) X) (k : X → sections S A)
  | SFree {X : Type} (m : M Free X) (k : X → sections S A).
Arguments SDone {S _ A} _.
Arguments SWrite {S _ A} _ {X} _ _.
Arguments SRead {S _ A} _ {X} _ _.
Arguments SFree {S _ A X} _ _.

Section sections.
Context {S : Type} `{HG : Guarded S}.
Abbreviation P := (sections S).

Fixpoint sections_bind {A B} (f : A → P B) (p : P A) : P B :=
  match p with
  | SDone a => f a
  | SWrite l body k => SWrite l body (λ x, sections_bind f (k x))
  | SRead l body k => SRead l body (λ x, sections_bind f (k x))
  | SFree m k => SFree m (λ x, sections_bind f (k x))
  end.

#[export] Instance sections_ret : MRet P := λ A, SDone.
#[export] Instance sections_mbind : MBind P := λ A B, sections_bind.

Definition unlocked {X} (m : M Free X) : P X := SFree m SDone.

Fixpoint sections_for_each {X} (f : X → P ()) (l : list X) : P () :=
  match l with
  | [] => mret ()
  | x :: l => _ ← f x; sections_for_each f l
  end.

Fixpoint sections_for_fold {X B} (f : B → X → P B) (b : B) (l : list X) : P B :=
  match l with
  | [] => mret b
  | x :: l => b' ← f b x; sections_for_fold f b' l
  end.

(** Steps on one part of the state. *)
Definition on_free {X} (m : M Free X) : M S X := zoom free put_free m.
Definition on_part (l : nat) {X} (m : M (Part l) X) : M S X := zoom (part l) (put l) m.
Fixpoint on_data (l : nat) {X} (body : task (Part l) X) : task S X :=
  match body with
  | TDone a => TDone a
  | TLock op k => TLock op (on_data l k)
  | TDo m k => TDo (on_part l m) (λ x, on_data l (k x))
  end.

(** With the lock operations, and with each section as one step. *)
Fixpoint locked {A} (p : P A) : task S A :=
  match p with
  | SDone a => TDone a
  | SWrite l body k => x ← write_locked l (on_data l body); locked (k x)
  | SRead l body k => x ← read_locked l (on_data l body); locked (k x)
  | SFree m k => TDo (on_free m) (λ x, locked (k x))
  end.
Fixpoint atomic {A} (p : P A) : prog S A :=
  match p with
  | SDone a => Done a
  | SWrite l body k | SRead l body k => Sec (on_part l (task_alone body)) (λ x, atomic (k x))
  | SFree m k => Sec (on_free m) (λ x, atomic (k x))
  end.

Lemma on_free_run {X} (m : M Free X) s x f' : m (free s) = (Ok x, f') → on_free m s = (Ok x, put_free f' s).
Proof. unfold on_free, zoom. by intros ->. Qed.

Lemma on_part_run l {X} (m : M (Part l) X) s x d' :
  m (part l s) = (Ok x, d') → on_part l m s = (Ok x, put l d' s).
Proof. unfold on_part, zoom. by intros ->. Qed.

Lemma on_part_inv l {X} (m : M (Part l) X) s x s' :
  on_part l m s = (Ok x, s') → ∃ d', m (part l s) = (Ok x, d') ∧ s' = put l d' s.
Proof. unfold on_part, zoom. destruct (m (part l s)) as [r d']. intros [= -> <-]. by exists d'. Qed.

(** A goroutine alone, one section at a time. *)
Lemma alone_sections_bind {A B} (p : P A) (f : A → P B) s :
  alone (atomic (p ≫= f)) s = (alone (atomic p) ≫= λ a, alone (atomic (f a))) s.
Proof.
  revert s. induction p as [a|l X body k IH|l X body k IH|X m k IH]; intros s; [done|..].
  1: change (alone (atomic (SWrite l body k ≫= f)) s) with
       ((on_part l (task_alone body) ≫= λ x, alone (atomic (k x ≫= f))) s).
  2: change (alone (atomic (SRead l body k ≫= f)) s) with
       ((on_part l (task_alone body) ≫= λ x, alone (atomic (k x ≫= f))) s).
  3: change (alone (atomic (SFree m k ≫= f)) s) with ((on_free m ≫= λ x, alone (atomic (k x ≫= f))) s).
  all: cbn [atomic alone]; rewrite !bind_eq.
  1,2: destruct (on_part l (task_alone body) s) as [[x|e|e|] s']; [apply IH|done..].
  destruct (on_free m s) as [[x|e|e|] s']; [apply IH|done..].
Qed.
End sections.

Section atomic.
Context {S A : Type} `{HG : Guarded S, HL : !GuardedLaws S}.
Context (grows : ∀ l, Part l → Part l → Prop) `{Hgrows : ∀ l, PreOrder (grows l)}.
Implicit Types (c : Tasks S A) (p : sections S A) (t : task S A) (q : prog S A) (s : S).

(** A body takes no lock, and each of its steps lets the data grow; one under
    [RLock] leaves it. *)
Fixpoint plain {l X} (body : task (Part l) X) : Prop :=
  match body with
  | TDone _ => True
  | TLock _ _ => False
  | TDo m k => (∀ d x d', m d = (Ok x, d') → grows l d d') ∧ ∀ x, plain (k x)
  end.
Fixpoint reads {D X} (body : task D X) : Prop :=
  match body with
  | TDone _ => True
  | TLock _ _ => False
  | TDo m k => (∀ d x d', m d = (Ok x, d') → d' = d) ∧ ∀ x, reads (k x)
  end.
Definition runs {D X} (body : task D X) : Prop := ∀ d, ∃ x d', task_alone body d = (Ok x, d').

Fixpoint sections_ok p : Prop :=
  match p with
  | SDone _ => True
  | SWrite l body k => plain body ∧ runs body ∧ ∀ x, sections_ok (k x)
  | SRead l body k => reads body ∧ runs body ∧ ∀ x, sections_ok (k x)
  | SFree m k => (∀ f, ∃ x f', m f = (Ok x, f')) ∧ ∀ x, sections_ok (k x)
  end.

Lemma reads_plain {l X} (body : task (Part l) X) : reads body → plain body.
Proof.
  induction body as [a|op k IH|Y m k IH]; [done|done|]. intros [Hm Hk]. split; [|auto].
  intros d x d' Hd. by rewrite (Hm d x d' Hd).
Qed.

Lemma plain_grows {l X} (body : task (Part l) X) d x d' :
  plain body → task_alone body d = (Ok x, d') → grows l d d'.
Proof.
  revert d. induction body as [a|op k IH|Y m k IH]; intros d; [|done|].
  - by intros _ [= _ <-].
  - intros [Hm Hk]. cbn [task_alone]. intros (y & d1 & H1 & H2)%bind_ok_inv.
    etrans; [by eapply Hm|]. by eapply IH.
Qed.

Lemma reads_same {D X} (body : task D X) d x d' :
  reads body → task_alone body d = (Ok x, d') → d' = d.
Proof.
  revert d. induction body as [a|op k IH|Y m k IH]; intros d; [|done|].
  - by intros _ [= _ <-].
  - intros [Hm Hk]. cbn [task_alone]. intros (y & d1 & H1 & H2)%bind_ok_inv.
    rewrite <-(Hm d y d1 H1). by eapply IH.
Qed.

(** What follows [Lock] and [RLock] of mutex [l]. *)
Definition leave l {X} (rest : task (Part l) X) (k : X → sections S A) : task S A :=
  x ← (a ← on_data l rest; _ ← lock_op (Unlock l); mret a); locked (k x).
Definition rleave l {X} (rest : task (Part l) X) (k : X → sections S A) : task S A :=
  x ← (a ← on_data l rest; _ ← lock_op (RUnlock l); mret a); locked (k x).

(** Between two sections, at a mutex, and inside; [s] is the state, [s'] that of
    the atomic goroutines. *)
Definition idle t q : Prop := ∃ p, sections_ok p ∧ t = locked p ∧ q = atomic p.
Definition entering l t q : Prop := ∃ X (body : task (Part l) X) k, sections_ok (SWrite l body k) ∧
  t = TLock (Acquire l) (leave l body k) ∧ q = atomic (SWrite l body k).
Definition writing l s s' t q : Prop := ∃ X (rest : task (Part l) X) k x, plain rest ∧
  (∀ x, sections_ok (k x)) ∧ t = leave l rest k ∧
  task_alone rest (part l s) = (Ok x, part l s') ∧ q = atomic (k x).
Definition reading l s t q : Prop := ∃ X (rest : task (Part l) X) k x, reads rest ∧
  (∀ x, sections_ok (k x)) ∧ t = rleave l rest k ∧
  task_alone rest (part l s) = (Ok x, part l s) ∧ q = atomic (k x).

Definition related s s' (held : list Hold) t q : Prop :=
  match held with
  | [] => idle t q
  | [(l, HRead)] => reading l s t q
  | [(l, HAnnounced)] => entering l t q
  | [(l, HWrite)] => writing l s s' t q
  | _ => False
  end.

Record simulated_by (helds : list (list Hold)) c s' (qs : list (prog S A)) : Prop := {
  sim_table : table_ok (tk_locks c) helds;
  sim_helds : length helds = length (tk_tasks c);
  sim_progs : length qs = length (tk_tasks c);
  sim_related i held t q : helds !! i = Some held → tk_tasks c !! i = Some t → qs !! i = Some q →
    related (tk_data c) s' held t q;
  sim_free : free (tk_data c) = free s';
  sim_part l : cnt (l, HWrite) (concat helds) = 0%nat → part l (tk_data c) = part l s';
}.
Definition simulated c s' (qs : list (prog S A)) : Prop := ∃ helds, simulated_by helds c s' qs.

(** It concerns a goroutine only when the piece it is inside of changes. *)
Lemma related_inside s s' s1 s1' held t q :
  (∀ l, (l, HRead) ∈ held ∨ (l, HWrite) ∈ held → part l s1 = part l s ∧ part l s1' = part l s') →
  related s s' held t q → related s1 s1' held t q.
Proof.
  intros Hl. destruct held as [|[l []] [|]]; try done; cbn; unfold reading, writing.
  - destruct (Hl l) as [-> _]; [by left; left|done].
  - destruct (Hl l) as [-> ->]; [by right; left|done].
Qed.

Lemma sim_at helds c s' qs i : simulated_by helds c s' qs → (i < length (tk_tasks c))%nat →
  ∃ held t q, helds !! i = Some held ∧ tk_tasks c !! i = Some t ∧ qs !! i = Some q ∧
    related (tk_data c) s' held t q.
Proof.
  intros [_ Hlen Hlen' Hrel _ _] Hi.
  destruct (lookup_lt_is_Some_2 (tk_tasks c) i Hi) as [t Ht].
  destruct (lookup_lt_is_Some_2 helds i ltac:(lia)) as [held Hheld].
  destruct (lookup_lt_is_Some_2 qs i ltac:(lia)) as [q Hq]. exists held, t, q. split_and!; [done..|by eapply Hrel].
Qed.

(** One section of the atomic goroutine. *)
Lemma pool_turn i s s' X (m : M S X) k x (qs : list (prog S A)) :
  qs !! i = Some (Sec m k) → m s = (Ok x, s') →
  pool_run [i] (s, qs) = (Ok (), (s', <[i := k x]> qs)).
Proof.
  intros Hq Hbody. unfold pool_run. cbn [for_each]. rewrite (bind_ok _ _ _ () (s', <[i := k x]> qs)); [done|].
  unfold pool_step. rewrite (bind_ok _ _ _ (qs !! i) (s, qs)) by done. rewrite Hq.
  rewrite (bind_ok _ _ _ (k x) (s', qs)); [done|]. unfold zoom. cbn [fst snd prog_step].
  by rewrite (bind_ok _ _ _ _ _ Hbody).
Qed.

(** The next step of goroutine [i] is matched by at most one section. *)
Definition matched i c s' (qs : list (prog S A)) : Prop :=
  ∃ c' turns s'' qs', task_step i c = (Ok (), c') ∧
    pool_run turns (s', qs) = (Ok (), (s'', qs')) ∧ simulated c' s'' qs'.

Lemma matched_stay i c s' qs : simulated c s' qs → task_step i c = (Ok (), c) → matched i c s' qs.
Proof. intros Hsim Hstep. by exists c, [], s', qs. Qed.

(** What goroutine [i] does is none of the business of who is inside the pieces of
    [held], when the state goes from [s] to [s1] and the atomic one from [s'] to
    [s1']. *)
Definition unseen s s' s1 s1' (held : list Hold) : Prop := ∀ l,
  (l, HRead) ∈ held ∨ (l, HWrite) ∈ held → part l s1 = part l s ∧ part l s1' = part l s'.

(** Goroutine [i] moves on, and so does its atomic twin. *)
Lemma matched_move helds i c s' qs held held' t' q' s1 locks turns s1' :
  simulated_by helds c s' qs → helds !! i = Some held →
  task_step i c = (Ok (), mkTasks s1 locks (<[i := t']> (tk_tasks c))) →
  pool_run turns (s', qs) = (Ok (), (s1', <[i := q']> qs)) →
  table_ok locks (<[i := held']> helds) → related s1 s1' held' t' q' →
  (∀ j h, i ≠ j → helds !! j = Some h → unseen (tk_data c) s' s1 s1' h) →
  free s1 = free s1' →
  (∀ l, cnt (l, HWrite) (concat (<[i := held']> helds)) = 0%nat → part l s1 = part l s1') →
  matched i c s' qs.
Proof.
  intros [_ Hlen Hlen' Hrel _ _] Hi Hstep Hpool Ht Hnew Hothers Hf Hd.
  eexists _, turns, s1', (<[i := q']> qs). split_and!; [exact Hstep|exact Hpool|].
  exists (<[i := held']> helds). split; cbn; [done|by rewrite !length_insert..| |done|done].
  intros j h t q Hh Hj Hq. assert (Hlt : (i < length helds)%nat) by by eapply lookup_lt_Some.
  destruct (decide (i = j)) as [<-|Hij].
  - rewrite list_lookup_insert_eq in Hh by done. rewrite list_lookup_insert_eq in Hj by lia.
    rewrite list_lookup_insert_eq in Hq by lia. by simplify_eq.
  - rewrite list_lookup_insert_ne in Hh by done. rewrite list_lookup_insert_ne in Hj by done.
    rewrite list_lookup_insert_ne in Hq by done.
    apply (related_inside (tk_data c) s'); [by apply (Hothers j h)|by eapply Hrel].
Qed.

Lemma unseen_nothing s s' s1 s1' held :
  (∀ l, part l s1 = part l s) → (∀ l, part l s1' = part l s') → unseen s s' s1 s1' held.
Proof. by intros H1 H2 l _. Qed.

Lemma part_put_same l l' s : part l' (put l (part l s) s) = part l' s.
Proof. destruct (decide (l = l')) as [<-|Hl]; [apply part_put|by apply part_put_ne]. Qed.

Lemma no_write helds i held held' l :
  helds !! i = Some held → cnt (l, HWrite) held = cnt (l, HWrite) held' →
  cnt (l, HWrite) (concat (<[i := held']> helds)) = cnt (l, HWrite) (concat helds).
Proof. intros Hi Hc. pose proof (cnt_insert helds i held held' (l, HWrite) Hi). lia. Qed.

Lemma cnt_other l l' m m' : m ≠ m' → cnt (l, m) [(l', m')] = 0%nat.
Proof. intros Hm. rewrite cnt_cons, decide_False; [done|congruence]. Qed.

Lemma elem_of_held (helds : list (list Hold)) j h x : helds !! j = Some h → x ∈ h → (0 < cnt x (concat helds))%nat.
Proof.
  intros Hj Hx%cnt_pos. pose proof (cnt_insert helds j h [] x Hj). cbn in *. lia.
Qed.

(** Who is inside [l] to write, and holds nothing else. *)
Lemma writes_only helds i held l l' : helds !! i = Some held →
  cnt (l', HWrite) (concat (<[i := [(l, HWrite)] : list Hold]> helds)) = 0%nat →
  l ≠ l' ∧ (cnt (l', HWrite) held = 0%nat → cnt (l', HWrite) (concat helds) = 0%nat).
Proof.
  intros Hi Hc. assert (Hl : l ≠ l').
  { intros <-.
    assert (Hin : (0 < cnt (l, HWrite) (concat (<[i := [(l, HWrite)] : list Hold]> helds)))%nat); [|lia].
    eapply elem_of_held; [by apply list_lookup_insert_eq; eapply lookup_lt_Some|left]. }
  split; [done|]. intros Hheld.
  pose proof (cnt_insert helds i held ([(l, HWrite)] : list Hold) (l', HWrite) Hi) as Hn.
  rewrite Hc in Hn. rewrite cnt_cons, decide_False in Hn by congruence. cbn in Hn. lia.
Qed.

Lemma free_to_enter c helds l : table_ok (tk_locks c) helds →
  rw_writer (lock_at (tk_locks c) l) = NoWriter → cnt (l, HWrite) (concat helds) = 0%nat.
Proof. intros Ht Hw. destruct (Ht l) as [_ Hm]. rewrite Hw in Hm. apply Hm. Qed.

Lemma matched_idle helds i c s' qs p :
  simulated_by helds c s' qs → helds !! i = Some [] → tk_tasks c !! i = Some (locked p) →
  qs !! i = Some (atomic p) → sections_ok p → matched i c s' qs.
Proof.
  intros Hsim Hh Hi Hq Hp. pose proof Hsim as [Ht _ _ _ Hf Hd].
  assert (Hstay : task_step i c = (Ok (), c) → matched i c s' qs).
  { apply matched_stay. by exists helds. }
  destruct p as [a|l X body k|l X body k|X m k].
  - apply Hstay. unfold task_step. by rewrite Hi.
  - change (locked (SWrite l body k)) with (TLock (Announce l) (TLock (Acquire l) (leave l body k))) in Hi.
    destruct (rw_writer (lock_at (tk_locks c) l)) eqn:Hmode.
    2,3: apply Hstay; unfold task_step; rewrite Hi; cbn; by rewrite Hmode.
    eapply (matched_move helds i c s' qs [] [(l, HAnnounced)] _ (atomic (SWrite l body k)) _ _ [] s');
      [done|done| | | | | | |].
    + unfold task_step. rewrite Hi. cbn [lock_step]. by rewrite Hmode.
    + by rewrite list_insert_id.
    + eapply (lock_step_table (Announce l)); [done..|]. cbn. by rewrite Hmode.
    + by exists X, body, k.
    + intros j h _ _. by apply unseen_nothing.
    + done.
    + intros l'. rewrite (no_write helds i []) by (rewrite ?cnt_other; done). apply Hd.
  - change (locked (SRead l body k)) with (TLock (RLock l) (rleave l body k)) in Hi.
    destruct (rw_writer (lock_at (tk_locks c) l)) eqn:Hmode.
    2,3: apply Hstay; unfold task_step; rewrite Hi; cbn; by rewrite Hmode.
    pose proof (Hd l (free_to_enter c helds l Ht Hmode)) as Hl.
    destruct Hp as (Hreads & Hruns & Hk). destruct (Hruns (part l (tk_data c))) as (x & d' & Hbody).
    pose proof (reads_same body _ _ _ Hreads Hbody) as ->.
    eapply (matched_move helds i c s' qs [] [(l, HRead)] _ (atomic (k x)) _ _ [i] (put l (part l s') s'));
      [done|done| | | | | | |].
    + unfold task_step. rewrite Hi. cbn [lock_step]. by rewrite Hmode.
    + apply (pool_turn i s' _ X (on_part l (task_alone body)) (λ x, atomic (k x))); [exact Hq|].
      rewrite Hl in Hbody. by rewrite (on_part_run l _ _ _ _ Hbody).
    + eapply (lock_step_table (RLock l)); [done..|]. cbn. by rewrite Hmode.
    + by exists X, body, k, x.
    + intros j h _ _. apply unseen_nothing; intros l'; [done|apply part_put_same].
    + by rewrite free_put.
    + intros l'. rewrite (no_write helds i []), part_put_same by (rewrite ?cnt_other; done). apply Hd.
  - destruct Hp as [Hm Hk]. destruct (Hm (free (tk_data c))) as (x & f' & Hrun).
    eapply (matched_move helds i c s' qs [] [] (locked (k x)) (atomic (k x)) (put_free f' (tk_data c))
      (tk_locks c) [i] (put_free f' s')); [done|done| | | | | | |].
    + unfold task_step. rewrite Hi. cbn [locked]. by rewrite (on_free_run _ _ _ _ Hrun).
    + apply (pool_turn i s' _ X (on_free m) (λ x, atomic (k x))); [exact Hq|].
      apply on_free_run. by rewrite <-Hf.
    + by rewrite list_insert_id.
    + by exists (k x).
    + intros j h _ _. apply unseen_nothing; intros l; by rewrite part_put_free.
    + by rewrite !free_put_free.
    + intros l'. rewrite (no_write helds i []), !part_put_free by done. apply Hd.
Qed.

Lemma matched_entering helds i c s' qs t q l :
  simulated_by helds c s' qs → helds !! i = Some [(l, HAnnounced)] → tk_tasks c !! i = Some t →
  qs !! i = Some q → entering l t q → matched i c s' qs.
Proof.
  intros Hsim Hh Hi Hq (X & body & k & (Hplain & Hruns & Hk) & -> & ->). pose proof Hsim as [Ht _ _ _ Hf Hd].
  destruct (Ht l) as [Hr Hw].
  assert (Hone : (0 < cnt (l, HAnnounced) (concat helds))%nat) by (by eapply elem_of_held; [|left]).
  destruct (rw_readers (lock_at (tk_locks c) l)) as [|n] eqn:Hreaders.
  2: { apply matched_stay; [by exists helds|]. unfold task_step. rewrite Hi. cbn [lock_step]. by rewrite Hreaders. }
  assert (Hno : cnt (l, HWrite) (concat helds) = 0%nat) by (destruct (rw_writer _); lia).
  destruct (Hruns (part l s')) as (x & d' & Hbody).
  eapply (matched_move helds i c s' qs _ [(l, HWrite)] _ (atomic (k x)) _ _ [i] (put l d' s'));
    [done|exact Hh| | | | | | |].
  - unfold task_step. rewrite Hi. cbn [lock_step]. by rewrite Hreaders.
  - apply (pool_turn i s' _ X (on_part l (task_alone body)) (λ x, atomic (k x))); [exact Hq|].
    by apply on_part_run.
  - eapply (lock_step_table (Acquire l)); [done|exact Hh|cbn; by rewrite Nat.eqb_refl|].
    cbn [lock_step]. by rewrite Hreaders.
  - exists X, body, k, x. by rewrite (Hd l Hno), part_put.
  - intros j h Hij Hj l' Hl'. split; [done|]. apply part_put_ne. intros <-.
    destruct Hl' as [Hin|Hin]; apply (elem_of_held helds j) in Hin; [lia|done|lia|done].
  - by rewrite free_put.
  - intros l' Hc. destruct (writes_only helds i _ l l' Hh Hc) as [Hl Hc'].
    rewrite part_put_ne by done. apply Hd, Hc'. by apply cnt_other.
Qed.

Lemma matched_reading helds i c s' qs t q l :
  simulated_by helds c s' qs → helds !! i = Some [(l, HRead)] → tk_tasks c !! i = Some t →
  qs !! i = Some q → reading l (tk_data c) t q → matched i c s' qs.
Proof.
  intros Hsim Hh Hi Hq (X & rest & k & x & Hreads & Hk & -> & Hrest & ->).
  pose proof Hsim as [Ht _ _ _ Hf Hd].
  destruct rest as [y|op rest|Y m rest]; [|done|].
  - injection Hrest as ->.
    eapply (matched_move helds i c s' qs _ [] _ (atomic (k x)) _ _ [] s'); [done|exact Hh| | | | | | |].
    + unfold task_step. by rewrite Hi.
    + by rewrite list_insert_id.
    + eapply (lock_step_table (RUnlock l)); [done|exact Hh|cbn; by rewrite Nat.eqb_refl|done].
    + by exists (k x).
    + intros j h _ _. by apply unseen_nothing.
    + done.
    + intros l'. rewrite (no_write helds i [(l, HRead)]) by (rewrite ?cnt_other; done). apply Hd.
  - cbn [task_alone] in Hrest. apply bind_ok_inv in Hrest as (y & d1 & Hm & Hrest).
    destruct Hreads as [Hsame Hreads]. pose proof (Hsame _ _ _ Hm) as ->.
    eapply (matched_move helds i c s' qs _ [(l, HRead)] _ (atomic (k x))
      (put l (part l (tk_data c)) (tk_data c)) (tk_locks c) [] s'); [done|exact Hh| | | | | | |].
    + unfold task_step. rewrite Hi. unfold rleave. cbn. by rewrite (on_part_run l _ _ _ _ Hm).
    + by rewrite list_insert_id.
    + by rewrite list_insert_id.
    + exists X, (rest y), k, x. by rewrite part_put.
    + intros j h _ _. apply unseen_nothing; intros l'; [apply part_put_same|done].
    + by rewrite free_put.
    + intros l'. rewrite (no_write helds i [(l, HRead)]), part_put_same by done. apply Hd.
Qed.

Lemma matched_writing helds i c s' qs t q l :
  simulated_by helds c s' qs → helds !! i = Some [(l, HWrite)] → tk_tasks c !! i = Some t →
  qs !! i = Some q → writing l (tk_data c) s' t q → matched i c s' qs.
Proof.
  intros Hsim Hh Hi Hq (X & rest & k & x & Hplain & Hk & -> & Hrest & ->).
  pose proof Hsim as [Ht _ _ _ Hf Hd].
  destruct rest as [y|op rest|Y m rest]; [|done|].
  - injection Hrest as -> Hdata.
    eapply (matched_move helds i c s' qs _ [] _ (atomic (k x)) _ _ [] s'); [done|exact Hh| | | | | | |].
    + unfold task_step. by rewrite Hi.
    + by rewrite list_insert_id.
    + eapply (lock_step_table (Unlock l)); [done|exact Hh|cbn; by rewrite Nat.eqb_refl|done].
    + by exists (k x).
    + intros j h _ _. by apply unseen_nothing.
    + done.
    + intros l' Hc. destruct (decide (l = l')) as [<-|Hl]; [done|]. apply Hd.
      pose proof (cnt_insert helds i _ ([] : list Hold) (l', HWrite) Hh) as Hn.
      rewrite Hc, cnt_cons, decide_False in Hn by congruence. cbn in Hn. lia.
  - cbn [task_alone] in Hrest. apply bind_ok_inv in Hrest as (y & d1 & Hm & Hrest).
    destruct Hplain as [_ Hplain].
    eapply (matched_move helds i c s' qs _ [(l, HWrite)] _ (atomic (k x)) (put l d1 (tk_data c)) (tk_locks c) [] s');
      [done|exact Hh| | | | | | |].
    + unfold task_step. rewrite Hi. unfold leave. cbn. by rewrite (on_part_run l _ _ _ _ Hm).
    + by rewrite list_insert_id.
    + by rewrite list_insert_id.
    + exists X, (rest y), k, x. by rewrite part_put.
    + intros j h Hij Hj l' Hl'. split; [|done]. apply part_put_ne. intros <-.
      destruct (table_excludes _ _ i j _ _ Ht Hij Hh Hj l ltac:(left)) as [? ?]. by destruct Hl'.
    + by rewrite free_put.
    + intros l' Hc. destruct (writes_only helds i _ l l' Hh Hc) as [Hl _].
      rewrite part_put_ne by done. apply Hd. by rewrite list_insert_id in Hc.
Qed.

Lemma simulated_step i c s' qs : simulated c s' qs → matched i c s' qs.
Proof.
  intros [helds Hsim]. destruct (tk_tasks c !! i) as [t|] eqn:Hi.
  2: { apply matched_stay; [by exists helds|]. unfold task_step. by rewrite Hi. }
  destruct (sim_at helds c s' qs i Hsim ltac:(by eapply lookup_lt_Some)) as (held & t' & q & Hh & Hi' & Hq & Hr).
  rewrite Hi in Hi'. injection Hi' as <-.
  destruct held as [|[l mode] [|h held]]; cbn in Hr; [| |by destruct mode].
  - destruct Hr as (p & Hp & -> & ->). by eapply matched_idle.
  - destruct mode; [by eapply matched_reading|by eapply matched_entering|by eapply matched_writing].
Qed.

(** Every run of the locked goroutines is one of the atomic ones. *)
Lemma simulated_run order : ∀ c s' qs, simulated c s' qs →
  ∃ c' turns s'' qs', task_run order c = (Ok (), c') ∧
    pool_run turns (s', qs) = (Ok (), (s'', qs')) ∧ simulated c' s'' qs'.
Proof.
  induction order as [|i order IH]; intros c s' qs Hsim; [by exists c, [], s', qs|].
  destruct (simulated_step i c s' qs Hsim) as (c1 & turns1 & s1 & qs1 & H1 & Ht1 & Hsim1).
  destruct (IH c1 s1 qs1 Hsim1) as (c2 & turns2 & s2 & qs2 & H2 & Ht2 & Hsim2).
  exists c2, (turns1 ++ turns2), s2, qs2. split_and!; [|by eapply for_each_app_ok|done].
  unfold task_run. cbn [for_each]. by rewrite (bind_ok _ _ _ _ _ H1).
Qed.

Lemma simulated_start s ps :
  Forall sections_ok ps → simulated (mkTasks s ∅ (map locked ps)) s (map atomic ps).
Proof.
  intros Hps. exists (replicate (length ps) []). split; cbn.
  - apply table_ok_start.
  - by rewrite length_replicate, length_map.
  - by rewrite !length_map.
  - intros i held t q [-> _]%lookup_replicate_1 Ht Hq. rewrite list_lookup_fmap in Ht. rewrite list_lookup_fmap in Hq.
    destruct (ps !! i) as [p|] eqn:Hp; [|done]. injection Ht as <-. injection Hq as <-.
    exists p. split_and!; [|done|done]. by apply (list.Forall_lookup_1 _ _ _ _ Hps Hp).
  - done.
  - done.
Qed.

(** A piece may lag behind by a part of the section somebody is in. *)
Lemma simulated_data c s' qs : simulated c s' qs →
  free (tk_data c) = free s' ∧ (∀ l, grows l (part l (tk_data c)) (part l s')) ∧
  ∀ l, lock_at (tk_locks c) l ≠ mkRW 0 Writing → part l (tk_data c) = part l s'.
Proof.
  intros [helds Hsim]. pose proof Hsim as [Ht Hlen _ _ Hf Hd]. split; [done|].
  assert (Hl : ∀ l, part l (tk_data c) = part l s' ∨ lock_at (tk_locks c) l = mkRW 0 Writing ∧
    grows l (part l (tk_data c)) (part l s')).
  { intros l. destruct (cnt (l, HWrite) (concat helds)) as [|n] eqn:Hno; [left; by apply Hd|right].
    assert (Hin : (l, HWrite) ∈ concat helds).
    { destruct (decide ((l, HWrite) ∈ concat helds)) as [|Hn]; [done|]. apply cnt_0 in Hn. lia. }
    apply list_elem_of_In, in_concat in Hin as (held & Hheld & Hin).
    apply list_elem_of_In in Hheld. apply list_elem_of_In in Hin.
    split; [by eapply write_alone|].
    apply list_elem_of_lookup in Hheld as [i Hi].
    destruct (sim_at helds c s' qs i Hsim) as (held' & t & q & Hi' & _ & _ & Hr);
      [rewrite <-Hlen; by eapply lookup_lt_Some|]. rewrite Hi in Hi'. injection Hi' as <-.
    destruct held as [|[l' mode] [|h held]]; [by apply elem_of_nil in Hin| |by destruct mode].
    apply list_elem_of_singleton in Hin. injection Hin as <- <-.
    destruct Hr as (X & rest & k & x & Hplain & _ & _ & Hrest & _). by eapply plain_grows. }
  split; intros l; destruct (Hl l) as [Heq|[Hw Hg]]; [by rewrite Heq|done|done|done].
Qed.

(** A goroutine that is done holds nothing, and its atomic twin has its result. *)
Lemma sim_at_end helds c s' qs i t : simulated_by helds c s' qs → tk_tasks c !! i = Some t →
  finished t = true → ∃ a, helds !! i = Some [] ∧ t = TDone a ∧ qs !! i = Some (Done a).
Proof.
  intros Hsim Ht Hend.
  destruct (sim_at helds c s' qs i Hsim ltac:(by eapply lookup_lt_Some)) as (held & t' & q & Hh & Ht' & Hq & Hr).
  rewrite Ht in Ht'. injection Ht' as <-. destruct held as [|[l mode] [|h held]]; [|exfalso|by destruct mode].
  - destruct Hr as (p & _ & -> & ->). destruct p; [by eexists|done..].
  - destruct mode.
    + destruct Hr as (X & rest & k & x & _ & _ & -> & _). by destruct rest.
    + by destruct Hr as (X & body & k & _ & -> & _).
    + destruct Hr as (X & rest & k & x & _ & _ & -> & _). by destruct rest.
Qed.

Lemma simulated_done c s' qs i a :
  simulated c s' qs → tk_tasks c !! i = Some (TDone a) → qs !! i = Some (Done a).
Proof. intros [helds Hsim] Ht. by destruct (sim_at_end _ _ _ _ _ _ Hsim Ht eq_refl) as (a' & _ & [= <-] & ?). Qed.

(** When all are done, so are the atomic ones, with the same results. *)
Lemma simulated_finished c s' qs :
  simulated c s' qs → Forall (λ t, finished t = true) (tk_tasks c) →
  (∀ l, part l (tk_data c) = part l s') ∧ Forall2 (λ t q, ∃ a, t = TDone a ∧ q = Done a) (tk_tasks c) qs.
Proof.
  intros [helds Hsim] Hfin. pose proof Hsim as [Ht Hlen Hlen' _ _ Hd].
  split.
  - intros l. apply Hd. assert (Hnone : concat helds = []); [|by rewrite Hnone].
    apply concat_nil_Forall, list.Forall_lookup. intros i held Hi.
    destruct (lookup_lt_is_Some_2 (tk_tasks c) i) as [t Hti]; [rewrite <-Hlen; by eapply lookup_lt_Some|].
    destruct (sim_at_end helds c s' qs i t Hsim Hti) as (a & Hi' & _);
      [by apply (list.Forall_lookup_1 _ _ _ _ Hfin Hti)|]. by simplify_eq.
  - apply list.Forall2_same_length_lookup. split; [done|]. intros i t q Hti Hqi.
    destruct (sim_at_end helds c s' qs i t Hsim Hti) as (a & _ & Ht' & Hq');
      [by apply (list.Forall_lookup_1 _ _ _ _ Hfin Hti)|]. exists a. by simplify_eq.
Qed.

(** Goroutines that hold one mutex at a time do not deadlock. *)
Lemma plain_ordered {l X} held (body : task (Part l) X) : plain body → ordered held held (on_data l body).
Proof. induction body as [a|op k IH|Y m k IH]; [done|done|]. intros [_ Hk] x. by apply IH. Qed.

Lemma sections_ordered p : sections_ok p → ordered [] [] (locked p).
Proof.
  induction p as [a|l X body k IH|l X body k IH|X m k IH]; [done|..].
  - intros (Hplain & _ & Hk).
    eapply ordered_bind; [by apply ordered_write_locked, plain_ordered|]. intros x. by apply IH.
  - intros (Hreads & _ & Hk).
    eapply ordered_bind; [by apply ordered_read_locked, plain_ordered, reads_plain|]. intros x. by apply IH.
  - intros [_ Hk] x. by apply IH.
Qed.
End atomic.
