(* ===== verification/Sections.v ===== *)
(** * Sections: the rules of [Atomic] for bodies made of accesses

    A body reads the data with [look] and changes it with [change], an access
    after the other, and takes no lock. *)
From S2P Require Import Prelude Go Goroutine Locks Atomic.

Definition look {D A} (f : D → A) : task D A := do_step (gets f).
Definition change {D} (f : D → D) : task D () := do_step (modify f).

(** No order on the data. *)
Definition whatever {S} `{Guarded S} (l : nat) (d d' : Part l) : Prop := True.
#[export] Instance whatever_order {S} `{Guarded S} l : PreOrder (whatever (S:=S) l).
Proof. by split. Qed.

(** ** Bodies under [Lock] and under [RLock] *)
Section bodies.
Context {D : Type}.
Abbreviation T := (task D).

Fixpoint lockless {A} (b : T A) : Prop :=
  match b with
  | TDone _ => True
  | TLock _ _ => False
  | TDo _ k => ∀ x, lockless (k x)
  end.

Definition writer {A} (b : T A) : Prop := lockless b ∧ runs b.
Definition reader {A} (b : T A) : Prop := reads b ∧ runs b.

Lemma writer_ret {A} (a : A) : writer (mret a).
Proof. split; [done|]. intros d. by exists a, d. Qed.
Lemma reader_ret {A} (a : A) : reader (mret a).
Proof. split; [done|]. intros d. by exists a, d. Qed.

Lemma runs_bind {A B} (b : T A) (f : A → T B) : runs b → (∀ a, runs (f a)) → runs (b ≫= f).
Proof.
  intros Hb Hf d. destruct (Hb d) as (a & d1 & H1). destruct (Hf a d1) as (x & d2 & H2).
  exists x, d2. by rewrite task_alone_bind, (bind_ok _ _ _ _ _ H1).
Qed.

Lemma writer_bind {A B} (b : T A) (f : A → T B) : writer b → (∀ a, writer (f a)) → writer (b ≫= f).
Proof.
  intros [Hp Hr] Hf. split; [|apply runs_bind; [done|]; intros a; apply Hf].
  clear Hr. induction b as [a|op k IH|X m k IH]; [apply Hf|done|]. intros x. by apply IH.
Qed.

Lemma reader_bind {A B} (b : T A) (f : A → T B) : reader b → (∀ a, reader (f a)) → reader (b ≫= f).
Proof.
  intros [Hp Hr] Hf. split; [|apply runs_bind; [done|]; intros a; apply Hf].
  clear Hr. induction b as [a|op k IH|X m k IH]; [apply Hf|done|].
  destruct Hp as [Hm Hk]. split; [done|]. intros x. by apply IH.
Qed.

Lemma reader_look {A} (f : D → A) : reader (look f).
Proof. split; [|by intros d; eexists _, _]. split; [|done]. by intros d x d' [= _ <-]. Qed.

Lemma reader_writer {A} (b : T A) : reader b → writer b.
Proof.
  intros [Hr Hruns]. split; [|done]. clear Hruns. induction b as [a|op k IH|X m k IH]; [done|done|].
  intros x. by apply IH, Hr.
Qed.

Lemma writer_look {A} (f : D → A) : writer (look f).
Proof. apply reader_writer, reader_look. Qed.

Lemma writer_change f : writer (change f).
Proof. by split; [|intros d; eexists _, _]. Qed.

Lemma reader_for_fold {X B} (f : B → X → T B) l : ∀ b,
  (∀ b x, reader (f b x)) → reader (task_for_fold f b l).
Proof.
  intros b Hf. revert b. induction l as [|x l IH]; intros b; [apply reader_ret|].
  by apply reader_bind.
Qed.

Lemma writer_for_each {X} (f : X → T ()) l : (∀ x, writer (f x)) → writer (task_for_each f l).
Proof. intros Hf. induction l as [|x l IH]; [apply writer_ret|]. by apply writer_bind. Qed.

Lemma writer_for_fold {X B} (f : B → X → T B) l : ∀ b,
  (∀ b x, writer (f b x)) → writer (task_for_fold f b l).
Proof.
  intros b Hf. revert b. induction l as [|x l IH]; intros b; [apply writer_ret|].
  by apply writer_bind.
Qed.

Lemma reader_same {A} (b : T A) d x d' : reader b → task_alone b d = (Ok x, d') → d' = d.
Proof. intros [Hr _]. by apply reads_same. Qed.
End bodies.

(** ** Sequences of sections *)
Section lawful.
Context {S : Type} `{HG : Guarded S}.
Abbreviation P := (sections S).

Definition lawful {A} (p : P A) : Prop := sections_ok whatever p.

Lemma lockless_plain {l A} (b : task (Part l) A) : lockless b → plain whatever b.
Proof. induction b as [a|op k IH|X m k IH]; [done|done|]. intros Hk. split; [done|]. auto. Qed.

Lemma lawful_write {A} l X (b : task (Part l) X) (k : X → P A) :
  writer b → (∀ x, lawful (k x)) → lawful (SWrite l b k).
Proof. intros [Hp Hr] Hk. split_and!; [by apply lockless_plain|done|done]. Qed.
Lemma lawful_read {A} l X (b : task (Part l) X) (k : X → P A) :
  reader b → (∀ x, lawful (k x)) → lawful (SRead l b k).
Proof. by intros [Hp Hr] Hk. Qed.

Lemma lawful_ret {A} (a : A) : lawful (mret a : P A).
Proof. done. Qed.

Lemma lawful_bind {A B} (p : P A) (f : A → P B) : lawful p → (∀ a, lawful (f a)) → lawful (p ≫= f).
Proof.
  intros Hp Hf. induction p as [a|l X body k IH|l X body k IH|X m k IH]; [apply Hf|..].
  - destruct Hp as (H1 & H2 & Hk). split_and!; [done|done|]. intros x. by apply IH.
  - destruct Hp as (H1 & H2 & Hk). split_and!; [done|done|]. intros x. by apply IH.
  - destruct Hp as (H1 & Hk). split; [done|]. intros x. by apply IH.
Qed.

Lemma lawful_for_each {X} (f : X → P ()) l : (∀ x, lawful (f x)) → lawful (sections_for_each f l).
Proof. intros Hf. induction l as [|x l IH]; [done|]. by apply lawful_bind. Qed.
Lemma lawful_for_fold {X B} (f : B → X → P B) l : ∀ b,
  (∀ b x, lawful (f b x)) → lawful (sections_for_fold f b l).
Proof. intros b Hf. revert b. induction l as [|x l IH]; intros b; [done|]. by apply lawful_bind. Qed.

(** States with the same data. *)
Definition same_parts (s1 s2 : S) : Prop := free s1 = free s2 ∧ ∀ l, part l s1 = part l s2.

Lemma on_data_alone `{!GuardedLaws S} {l X} (b : task (Part l) X) : ∀ s1 s2 x d, same_parts s1 s2 →
  task_alone b (part l s2) = (Ok x, d) →
  ∃ s1', task_alone (on_data l b) s1 = (Ok x, s1') ∧ same_parts s1' (put l d s2).
Proof.
  induction b as [a|op k IH|Y m k IH]; intros s1 s2 x d [Hf Hp] Hb.
  - injection Hb as -> <-. exists s1. split; [done|]. split; [by rewrite free_put|]. intros l'.
    destruct (decide (l = l')) as [<-|Hl]; [by rewrite part_put|by rewrite part_put_ne].
  - by apply (IH s1 s2).
  - cbn [task_alone] in Hb. apply bind_ok_inv in Hb as (y & d1 & Hm & Hb).
    destruct (IH y (put l d1 s1) (put l d1 s2) x d) as (s1' & Hrun & Hsame1 & Hsame2).
    { split; [by rewrite !free_put|]. intros l'.
      destruct (decide (l = l')) as [<-|Hl]; [by rewrite !part_put|by rewrite !part_put_ne]. }
    { by rewrite part_put. }
    exists s1'. split.
    + cbn [on_data task_alone]. rewrite <-(Hp l) in Hm. by rewrite (bind_ok _ _ _ _ _ (on_part_run l m s1 y d1 Hm)).
    + split; [by rewrite Hsame1, !free_put|]. intros l'. rewrite Hsame2.
      destruct (decide (l = l')) as [<-|Hl]; [by rewrite !part_put|by rewrite !part_put_ne].
Qed.

(** Alone, a goroutine does with all its lock operations and accesses what its
    sections do as single steps. *)
Lemma locked_alone `{!GuardedLaws S} {A} (p : P A) : ∀ s1 s2 a s2', same_parts s1 s2 →
  alone (atomic p) s2 = (Ok a, s2') → ∃ s1', task_alone (locked p) s1 = (Ok a, s1') ∧ same_parts s1' s2'.
Proof.
  induction p as [a|l X body k IH|l X body k IH|X m k IH]; intros s1 s2 v s2' Hs Hrun.
  - injection Hrun as -> <-. by exists s1.
  - apply bind_ok_inv in Hrun as (x & s & (d & Hb & ->)%on_part_inv & Hrun).
    destruct (on_data_alone body _ _ _ _ Hs Hb) as (s1' & H1 & Hs1).
    destruct (IH x _ _ _ _ Hs1 Hrun) as (s1'' & H2 & Hs2). exists s1''. split; [|done].
    cbn [locked]. rewrite task_alone_bind. erewrite bind_ok; [exact H2|]. by rewrite task_alone_write_locked.
  - apply bind_ok_inv in Hrun as (x & s & (d & Hb & ->)%on_part_inv & Hrun).
    destruct (on_data_alone body _ _ _ _ Hs Hb) as (s1' & H1 & Hs1).
    destruct (IH x _ _ _ _ Hs1 Hrun) as (s1'' & H2 & Hs2). exists s1''. split; [|done].
    cbn [locked]. rewrite task_alone_bind. erewrite bind_ok; [exact H2|]. by rewrite task_alone_read_locked.
  - cbn [atomic alone] in Hrun. apply bind_ok_inv in Hrun as (x & s & Hm & Hrun).
    unfold on_free, zoom in Hm. destruct (m (free s2)) as [r f] eqn:Hmf. injection Hm as -> <-.
    destruct Hs as [Hf Hp].
    destruct (IH x (put_free f s1) (put_free f s2) v s2') as (s1' & H1 & Hs1); [|done|].
    { split; [by rewrite !free_put_free|]. intros l. by rewrite !part_put_free. }
    exists s1'. split; [|done]. cbn [locked task_alone]. rewrite <-Hf in Hmf.
    by rewrite (bind_ok _ _ _ _ _ (on_free_run m s1 x f Hmf)).
Qed.

(** However they interleave, such goroutines do not fail, are never in a deadlock,
    and can always run to their ends. *)
Lemma lawful_finish {A} `{!GuardedLaws S} (ps : list (P A)) s order : Forall lawful ps →
  ∃ t, task_run order (mkTasks s ∅ (map locked ps)) = (Ok (), t) ∧ ¬ deadlocked t ∧
    ∃ order' t', task_run order' t = (Ok (), t') ∧ Forall (λ p, finished p = true) (tk_tasks t').
Proof.
  intros Hps. pose proof (simulated_start whatever s ps Hps) as Hsim.
  destruct (simulated_run whatever order _ _ _ Hsim) as (t & turns & s' & qs & Hrun & _ & Ht).
  assert (Hord : Forall (ordered [] []) (map locked ps)).
  { apply List.Forall_map. eapply list.Forall_impl; [exact Hps|]. intros p Hp. exact (sections_ordered whatever p Hp). }
  destruct (held_inv_run order _ _ _ (held_inv_start s _ Hord) Hrun) as [helds Hheld].
  exists t. split_and!; [done|by eapply held_not_deadlocked|].
  apply (tasks_finish (λ t, ∃ s' qs, simulated whatever t s' qs) t helds); [|by exists s', qs|done].
  intros i t1 (s1 & qs1 & Ht1). destruct (simulated_step whatever i t1 s1 qs1 Ht1) as (t2 & turns2 & s2 & qs2 & H2 & _ & Ht2).
  exists t2. split; [done|]. by exists s2, qs2.
Qed.
End lawful.

Create HintDb lawful discriminated.
#[export] Hint Resolve writer_ret reader_ret writer_bind reader_bind reader_look writer_look writer_change
  writer_for_each writer_for_fold reader_for_fold
  lawful_bind lawful_ret lawful_write lawful_read lawful_for_each lawful_for_fold : lawful.
