(* ===== verification/Clients.v ===== *)
(** * Clients: commands made of critical sections take effect one at a time

    A command with its locks is a sequence of critical sections. It takes effect
    in one of them, the last, when the others leave what the data shows as it
    was. Then whatever any number of clients are told is what they would have
    been told one command after the other, in the order of the effects. *)
From S2P Require Import Prelude Go Goroutine Locks Atomic Sections.

(** ** Where a command takes effect *)
Section pending.
Context {S V Σ : Type} `{HG : Guarded S}.
Context (fine : S → Prop) (later : S → S → Prop) (shows : Σ → S → Prop).

(** A section that nobody sees, and the last one, which does what [spec] says. *)
Definition silent (s s' : S) : Prop := ∀ σ, shows σ s → shows σ s'.
Definition effect (spec : Σ → V → Σ → Prop) (s : S) (v : V) (s' : S) : Prop :=
  ∀ σ, shows σ s → ∃ σ', spec σ v σ' ∧ shows σ' s'.
Definition moves (s s' : S) : Prop := fine s' ∧ later s s'.

(** [p] is what is left of a command that does [spec], when the data is [s] or
    later. *)
Fixpoint pending (spec : Σ → V → Σ → Prop) (p : sections S V) (s : S) : Prop :=
  match p with
  | SDone _ => False
  | SWrite l body k | SRead l body k => ∀ s1 x d, later s s1 → fine s1 →
      task_alone body (part l s1) = (Ok x, d) → moves s1 (put l d s1) ∧
      ((silent s1 (put l d s1) ∧ pending spec (k x) (put l d s1)) ∨
       ∃ v, k x = SDone v ∧ effect spec s1 v (put l d s1))
  | SFree m k => ∀ s1 x f, later s s1 → fine s1 → m (free s1) = (Ok x, f) →
      moves s1 (put_free f s1) ∧ silent s1 (put_free f s1) ∧ pending spec (k x) (put_free f s1)
  end.

Context `{Hlater : !PreOrder later}.

Lemma pending_later spec p s s' : later s s' → pending spec p s → pending spec p s'.
Proof.
  intros Hs. destruct p as [v|l X body k|l X body k|X m k]; cbn; [done|..];
    intros Hp s1 x d H1; apply Hp; by etrans.
Qed.

(** One section of a goroutine that does the command first. *)
Lemma pending_step {B} spec p (f : V → sections S B) s q s' :
  pending spec p s → fine s → prog_step (atomic (p ≫= f)) s = (Ok q, s') → moves s s' ∧
  ((silent s s' ∧ ∃ p', q = atomic (p' ≫= f) ∧ pending spec p' s') ∨
   ∃ v, q = atomic (f v) ∧ effect spec s v s').
Proof.
  intros Hp Hs. destruct p as [v|l X body k|l X body k|X m k]; [done|..].
  1,2: change (prog_step _ s) with ((on_part l (task_alone body) ≫= λ x, mret (atomic (k x ≫= f))) s);
    intros (x & s1 & (d & Hx & ->)%on_part_inv & [= <- <-])%bind_ok_inv;
    destruct (Hp s x d ltac:(reflexivity) Hs Hx) as [Hm [[Hsil Hk]|(v & Hv & He)]]; (split; [done|]);
    [left; split; [done|]; by exists (k x)|right; exists v; by rewrite Hv].
  change (prog_step _ s) with ((on_free m ≫= λ x, mret (atomic (k x ≫= f))) s).
  intros (x & s1 & Hx & [= <- <-])%bind_ok_inv. unfold on_free, zoom in Hx.
  destruct (m (free s)) as [r d] eqn:Hm. injection Hx as -> <-.
  destruct (Hp s x d ltac:(reflexivity) Hs Hm) as (Hmove & Hsil & Hk).
  split; [done|]. left. split; [done|]. by exists (k x).
Qed.

(** A command that nobody interferes with. *)
Lemma pending_alone spec p : ∀ s σ, lawful p → pending spec p s → fine s → shows σ s →
  ∃ v s' σ', alone (atomic p) s = (Ok v, s') ∧ spec σ v σ' ∧ shows σ' s' ∧ fine s'.
Proof.
  induction p as [v|l X body k IH|l X body k IH|X m k IH]; intros s σ Hlaw Hp Hs Hσ; [done|..].
  1,2: destruct Hlaw as (_ & Hruns & Hlaw); destruct (Hruns (part l s)) as (x & d & Hx);
    destruct (Hp s x d ltac:(reflexivity) Hs Hx) as [[Hfine _] [[Hsil Hk]|(v & Hv & He)]];
    cbn [atomic alone]; rewrite (bind_ok _ _ _ _ _ (on_part_run l _ s _ _ Hx));
    [apply (IH x); auto|rewrite Hv; destruct (He σ Hσ) as (σ' & ? & ?); by eexists _, _, σ'].
  destruct Hlaw as (Hruns & Hlaw). destruct (Hruns (free s)) as (x & f & Hx).
  destruct (Hp s x f ltac:(reflexivity) Hs Hx) as ([Hfine _] & Hsil & Hk).
  cbn [atomic alone]. rewrite (bind_ok _ _ _ _ _ (on_free_run _ s _ _ Hx)). apply (IH x); auto.
Qed.
End pending.

(** A kind of command: how it is served, with its locks, and what it does. *)
Class Service (C S V Σ : Type) `{Guarded S} := {
  serve : C → sections S V;
  does : C → Σ → V → Σ → Prop;
  valid : C → Prop;
  fine : S → Prop;
  later : S → S → Prop;
  shows : Σ → S → Prop;
}.
Class ServiceLaws C S V Σ `{Service C S V Σ} : Prop := {
  later_order :: PreOrder later;
  serve_lawful c : lawful (serve c);
  serve_pending c s : valid c → fine s → pending fine later shows (does c) (serve c) s;
}.

(** ** Clients and their histories *)
Section clients.
Context {C S V Σ : Type} `{HG : Guarded S, HS : !Service C S V Σ}.
Abbreviation P := (sections S).

(** A client sends its commands one after the other, each when it has the reply
    to the one before. *)
Fixpoint client (replies : list V) (cs : list C) : P (list V) :=
  match cs with
  | [] => mret replies
  | c :: cs => v ← serve c; client (replies ++ [v]) cs
  end.

Definition clients (s : S) (reqs : list (list C)) : Tasks S (list V) :=
  mkTasks s ∅ (map locked (map (client []) reqs)).

(** What took effect so far: whose command, which, and the reply. *)
Abbreviation History := (list (nat * (C * V))).

(** A client's part of the history, and what its commands do, in this order. *)
Definition own (i : nat) (hist : History) : list (C * V) := (filter (λ e, e.1 = i) hist).*2.
Fixpoint chain (h : list (C * V)) (σ σ' : Σ) : Prop :=
  match h with
  | [] => σ' = σ
  | (c, v) :: h => ∃ σ1, does c σ v σ1 ∧ chain h σ1 σ'
  end.

Lemma chain_app h1 h2 σ σ1 σ2 : chain h1 σ σ1 → chain h2 σ1 σ2 → chain (h1 ++ h2) σ σ2.
Proof.
  revert σ. induction h1 as [|[c v] h1 IH]; intros σ; [by intros ->|].
  intros (σ0 & Hc & Hh) H2. exists σ0. split; [done|]. by apply IH.
Qed.

Lemma own_snoc i j hist e : own i (hist ++ [(j, e)]) = own i hist ++ if decide (j = i) then [e] else [].
Proof. unfold own. rewrite list.filter_app, fmap_app. f_equal. cbn. by case_decide. Qed.

Lemma filter_le (hist : History) n :
  filter (λ e, e.1 < Datatypes.S n)%nat hist ≡ₚ filter (λ e, e.1 < n)%nat hist ++ filter (λ e, e.1 = n) hist.
Proof.
  induction hist as [|[i e] hist IH]; [done|]. rewrite !filter_cons. cbn [fst].
  destruct (decide (i = n)) as [->|Hin].
  - rewrite decide_True, decide_False by lia. by rewrite <-Permutation_middle, IH.
  - destruct (decide (i < n)%nat); [rewrite decide_True by lia; by rewrite IH|by rewrite decide_False by lia].
Qed.

(** The histories of the clients, together. *)
Lemma own_below (hist : History) n :
  concat (map (λ i, own i hist) (seq 0 n)) ≡ₚ (filter (λ e, e.1 < n)%nat hist).*2.
Proof.
  induction n as [|n IH].
  - induction hist as [|e hist IH]; [done|]. by rewrite filter_cons, decide_False by lia.
  - rewrite seq_S, map_app, concat_app, IH, filter_le, fmap_app. cbn. by rewrite app_nil_r.
Qed.

Lemma own_all {A} (f : C * V → A) (hist : History) n : Forall (λ e, e.1 < n)%nat hist →
  concat (map (λ i, f <$> own i hist) (seq 0 n)) ≡ₚ f <$> hist.*2.
Proof.
  intros Hn. assert (Hf : filter (λ e, e.1 < n)%nat hist = hist).
  { induction Hn as [|e hist He _ IH]; [done|]. by rewrite filter_cons, decide_True, IH. }
  transitivity (map f (concat (map (λ i, own i hist) (seq 0 n)))).
  - by rewrite List.concat_map, List.map_map.
  - rewrite own_below, Hf. done.
Qed.

(** [hist] explains where the clients are: it holds commands of theirs, each
    client's in its order; done one by one they have the replies of [hist] and
    lead to [σ], which the data shows, but for the sections somebody is in; a
    client that is done was told what is in [hist]. *)
Record explains (reqs : list (list C)) (σ0 : Σ) (hist : History) (σ : Σ) (t : Tasks S (list V)) : Prop := {
  ex_clients : Forall (λ e, (e.1 < length reqs)%nat) hist;
  ex_tasks : length (tk_tasks t) = length reqs;
  ex_order i cs : reqs !! i = Some cs → (own i hist).*1 `prefix_of` cs;
  ex_chain : chain hist.*2 σ0 σ;
  ex_shows : ∃ s, shows σ s ∧ free (tk_data t) = free s ∧
    ∀ l, lock_at (tk_locks t) l ≠ mkRW 0 Writing ∨ Forall (λ p, finished p = true) (tk_tasks t) →
      part l (tk_data t) = part l s;
  ex_done i cs replies : reqs !! i = Some cs → tk_tasks t !! i = Some (TDone replies) →
    (own i hist).*1 = cs ∧ (own i hist).*2 = replies;
}.

(** When all are done. *)
Lemma explains_end reqs σ0 hist σ t :
  explains reqs σ0 hist σ t → Forall (λ p, finished p = true) (tk_tasks t) →
  map (λ i, (own i hist).*1) (seq 0 (length reqs)) = reqs ∧
  tk_tasks t = map (λ i, TDone (own i hist).*2) (seq 0 (length reqs)).
Proof.
  intros [Hc Htasks _ _ _ Hdone] Hfin.
  assert (Hi : ∀ i, (i < length reqs)%nat →
    ∃ a, tk_tasks t !! i = Some (TDone a) ∧ reqs !! i = Some (own i hist).*1 ∧ a = (own i hist).*2).
  { intros i Hi. destruct (lookup_lt_is_Some_2 reqs i Hi) as [cs Hcs].
    destruct (lookup_lt_is_Some_2 (tk_tasks t) i) as [p Hp]; [lia|].
    pose proof (list.Forall_lookup_1 _ _ _ _ Hfin Hp) as Hend. destruct p as [replies|op k|X m k]; [|done..].
    destruct (Hdone i cs replies Hcs Hp) as [<- <-]. by eexists. }
  split; apply list_eq_same_length with (length reqs); rewrite ?length_map, ?length_seq; try done; intros i x y Hlt.
  - rewrite list_lookup_fmap, lookup_seq_lt by done. intros [= <-].
    destruct (Hi i Hlt) as (a & _ & -> & _). by intros [= ->].
  - destruct (Hi i Hlt) as (a & -> & _ & ->). rewrite list_lookup_fmap, lookup_seq_lt by done.
    intros [= <-] [= <-]. done.
Qed.
End clients.

(** ** There is always a history *)
Section served.
Context {C S V Σ : Type} `{HG : Guarded S, HL : !GuardedLaws S, HS : !Service C S V Σ, HSL : !ServiceLaws C S V Σ}.
Context (reqs : list (list C)) (Hreqs : Forall (Forall valid) reqs) (σ0 : Σ).
Implicit Types (hist : list (nat * (C * V))) (s : S) (σ : Σ) (q : prog S (list V)) (t : Tasks S (list V)).

Definition at_work s (replies : list V) (todo : list C) q : Prop :=
  match todo with
  | [] => q = Done replies
  | c :: todo => ∃ p, pending fine later shows (does c) p s ∧ q = atomic (v ← p; client (replies ++ [v]) todo)
  end.

Lemma at_work_later s s' replies todo q : later s s' → at_work s replies todo q → at_work s' replies todo q.
Proof.
  intros Hs. destruct todo as [|c todo]; [done|]. intros (p & Hp & ->). exists p.
  split; [|done]. exact (pending_later fine later shows _ p s s' Hs Hp).
Qed.

Lemma at_work_start s replies cs : fine s → Forall valid cs → at_work s replies cs (atomic (client replies cs)).
Proof.
  intros Hs Hcs. destruct cs as [|c cs]; [done|]. exists (serve c).
  split; [|done]. apply serve_pending; [by inversion Hcs|done].
Qed.

(** The atomic goroutines: each is at its next command. *)
Record serving hist σ s (qs : list (prog S (list V))) : Prop := {
  sv_fine : fine s;
  sv_chain : chain hist.*2 σ0 σ;
  sv_shows : shows σ s;
  sv_clients : Forall (λ e, (e.1 < length reqs)%nat) hist;
  sv_length : length qs = length reqs;
  sv_work i cs q : reqs !! i = Some cs → qs !! i = Some q →
    ∃ todo, cs = (own i hist).*1 ++ todo ∧ at_work s (own i hist).*2 todo q;
}.

Lemma serving_start s : fine s → shows σ0 s → serving [] σ0 s (map atomic (map (client []) reqs)).
Proof.
  intros Hs Hσ. split; [done|done|done|done|by rewrite !length_map|]. intros i cs q Hi Hq.
  rewrite !list_lookup_fmap, Hi in Hq. injection Hq as <-. exists cs. split; [done|].
  apply at_work_start; [done|]. by apply (list.Forall_lookup_1 _ _ _ _ Hreqs Hi).
Qed.

(** A section of client [i] that is not the last of its command, and the last. *)
Lemma serving_same hist σ s s' qs i q c todo :
  serving hist σ s qs → reqs !! i = Some ((own i hist).*1 ++ c :: todo) →
  moves fine later s s' → silent shows s s' → at_work s' (own i hist).*2 (c :: todo) q →
  serving hist σ s' (<[i := q]> qs).
Proof.
  intros [Hf Hh Hs Hc Hlen Hw] Hi [Hf' Hl] Hsil Hq. split; [done|done|by apply Hsil|done|by rewrite length_insert|].
  intros j cs q' Hj. destruct (decide (i = j)) as [<-|Hij].
  - rewrite list_lookup_insert_eq by (apply lookup_lt_Some in Hi; lia). intros [= <-].
    rewrite Hi in Hj. injection Hj as <-. by exists (c :: todo).
  - rewrite list_lookup_insert_ne by done. intros Hq'. destruct (Hw j cs q' Hj Hq') as (todo' & -> & Hq2).
    exists todo'. split; [done|]. by eapply at_work_later.
Qed.

Lemma serving_next hist σ s s' qs i c todo v :
  serving hist σ s qs → reqs !! i = Some ((own i hist).*1 ++ c :: todo) →
  moves fine later s s' → effect shows (does c) s v s' →
  ∃ σ', serving (hist ++ [(i, (c, v))]) σ' s'
    (<[i := atomic (client ((own i hist).*2 ++ [v]) todo)]> qs).
Proof.
  intros [Hf Hh Hs Hc Hlen Hw] Hi [Hf' Hl] He. pose proof (lookup_lt_Some _ _ _ Hi) as Hlt.
  destruct (He σ Hs) as (σ' & Hdoes & Hs'). exists σ'.
  split; [done| |done|apply Forall_app; by repeat constructor|by rewrite length_insert|].
  { rewrite fmap_app. eapply chain_app; [exact Hh|]. by exists σ'. }
  intros j cs q' Hj. rewrite own_snoc. destruct (decide (i = j)) as [<-|Hij].
  - rewrite list_lookup_insert_eq by lia. intros [= <-].
    rewrite Hi in Hj. injection Hj as <-. exists todo. rewrite !fmap_app. cbn.
    split; [by rewrite <-app_assoc|]. apply at_work_start; [done|].
    pose proof (list.Forall_lookup_1 _ _ _ _ Hreqs Hi) as Hcs. apply Forall_app in Hcs as [_ Hcs]. by inversion Hcs.
  - rewrite list_lookup_insert_ne, app_nil_r by done. intros Hq'.
    destruct (Hw j cs q' Hj Hq') as (todo' & -> & Hq2). exists todo'. split; [done|]. by eapply at_work_later.
Qed.

Lemma serving_step hist σ s qs i y :
  serving hist σ s qs → pool_step i (s, qs) = (Ok (), y) → ∃ more σ', serving (hist ++ more) σ' y.1 y.2.
Proof.
  intros Hsv [[_ ->]|(q & q' & s' & Hi & Hstep & ->)]%pool_step_run; [by exists [], σ; rewrite app_nil_r|].
  destruct (lookup_lt_is_Some_2 reqs i) as [cs Hcs];
    [rewrite <-(sv_length _ _ _ _ Hsv); by eapply lookup_lt_Some|].
  destruct (sv_work _ _ _ _ Hsv i cs q Hcs Hi) as ([|c todo] & -> & Hq).
  - cbn in Hq. subst q. injection Hstep as <- <-. exists [], σ. rewrite app_nil_r.
    by rewrite list_insert_id.
  - destruct Hq as (p & Hpend & ->).
    destruct (pending_step fine later shows (does c) p _ s q' s' Hpend (sv_fine _ _ _ _ Hsv) Hstep)
      as [Hm [(Hsil & p' & -> & Hp')|(v & -> & He)]].
    + exists [], σ. rewrite app_nil_r. eapply serving_same; [done..|]. by exists p'.
    + destruct (serving_next hist σ s s' qs i c todo v Hsv Hcs Hm He) as [σ' Hsv'].
      by exists [(i, (c, v))], σ'.
Qed.

Lemma serving_run turns : ∀ hist σ s qs y,
  serving hist σ s qs → pool_run turns (s, qs) = (Ok (), y) → ∃ more σ', serving (hist ++ more) σ' y.1 y.2.
Proof.
  induction turns as [|i turns IH]; intros hist σ s qs y Hsv.
  - intros [= <-]. exists [], σ. by rewrite app_nil_r.
  - intros ([] & [s1 qs1] & H1 & H2)%bind_ok_inv.
    destruct (serving_step hist σ s qs i _ Hsv H1) as (more1 & σ1 & Hsv1).
    destruct (IH _ σ1 s1 qs1 y Hsv1 H2) as (more2 & σ2 & Hsv2). exists (more1 ++ more2), σ2. by rewrite app_assoc.
Qed.

(** The clients and their atomic twins. *)
Definition served hist σ t : Prop := ∃ s qs, simulated whatever t s qs ∧ serving hist σ s qs.

Lemma served_explains hist σ t : served hist σ t → explains reqs σ0 hist σ t.
Proof.
  intros (s & qs & Hsim & [Hf Hh Hs Hc Hlen Hw]).
  assert (Hq : ∀ i cs, reqs !! i = Some cs → ∃ q, qs !! i = Some q).
  { intros i cs Hi. apply lookup_lt_is_Some_2. rewrite Hlen. by eapply lookup_lt_Some. }
  destruct (simulated_data _ _ _ _ Hsim) as (Hfree & _ & Hpart).
  split; [done| | |done|..].
  - destruct Hsim as [helds Hsim]. by rewrite <-Hlen, (sim_progs _ _ _ _ _ Hsim).
  - intros i cs Hi. destruct (Hq i cs Hi) as [q Hqi]. destruct (Hw i cs q Hi Hqi) as (todo & -> & _).
    by exists todo.
  - exists s. split_and!; [done|done|]. intros l [Hl|Hfin]; [by apply Hpart|].
    by apply (simulated_finished _ _ _ _ Hsim Hfin).
  - intros i cs replies Hi Hdone. apply (simulated_done _ _ _ _ _ _ Hsim) in Hdone.
    destruct (Hw i cs _ Hi Hdone) as ([|c todo] & -> & Hwork); [|by destruct Hwork as ([] & Hp & [=])].
    injection Hwork as ->. by rewrite app_nil_r.
Qed.

Lemma client_lawful cs : ∀ replies, lawful (client replies cs).
Proof. induction cs as [|c cs IH]; intros replies; [done|]. apply lawful_bind; [apply serve_lawful|done]. Qed.

Lemma served_start s : fine s → shows σ0 s → served [] σ0 (clients s reqs).
Proof.
  intros Hs Hσ. exists s, (map atomic (map (client []) reqs)). split; [|by apply serving_start].
  apply simulated_start. apply List.Forall_map, list.Forall_forall. intros cs _. apply client_lawful.
Qed.

Lemma served_run hist σ t order : served hist σ t →
  ∃ t' more σ', task_run order t = (Ok (), t') ∧ served (hist ++ more) σ' t'.
Proof.
  intros (s & qs & Hsim & Hsv).
  destruct (simulated_run _ order _ _ _ Hsim) as (t' & turns & s' & qs' & Hrun & Hpool & Hsim').
  destruct (serving_run turns hist σ s qs _ Hsv Hpool) as (more & σ' & Hsv').
  exists t', more, σ'. split; [done|]. by exists s', qs'.
Qed.

(** At any moment. *)
Lemma served_moment s order : fine s → shows σ0 s →
  ∃ t hist σ, task_run order (clients s reqs) = (Ok (), t) ∧ explains reqs σ0 hist σ t ∧
    (∀ order', ∃ t' more σ', task_run order' t = (Ok (), t') ∧ explains reqs σ0 (hist ++ more) σ' t') ∧
    ∃ order' t', task_run order' t = (Ok (), t') ∧ Forall (λ p, finished p = true) (tk_tasks t').
Proof.
  intros Hs Hσ. destruct (served_run [] σ0 _ order (served_start s Hs Hσ)) as (t & hist & σ & Hrun & Ht).
  exists t, hist, σ. split_and!; [done|by apply served_explains| |].
  - intros order'. destruct (served_run hist σ t order' Ht) as (t' & more & σ' & Hrun' & Ht').
    exists t', more, σ'. split; [done|by apply served_explains].
  - assert (Hlaw : Forall lawful (map (client []) reqs)).
    { apply List.Forall_map, list.Forall_forall. intros cs _. apply client_lawful. }
    destruct (lawful_finish _ s order Hlaw) as (t2 & Hrun2 & _ & Hend).
    unfold clients in Hrun. rewrite Hrun in Hrun2. by injection Hrun2 as <-.
Qed.
End served.
