(* ===== verification/Steady.v ===== *)
(** * Steady: a logic for goroutines that lock

    Each goroutine holds some locks and owns some ghost resource, its [g]. [ok]
    is an invariant of the data, [fits g] what the owner of [g] knows of it,
    [rely held g] how the others may change it under one who holds [held] and
    owns [g], and [guar held g g'] what a step of one may do, [g'] being what it
    owns then. [steady base held g p Q s]: from [s], holding [held] and owning
    [g], [p] never fails whatever the others do within their [guar], keeps to
    its own, and ends with [Q], holding [base]. *)
From S2P Require Import Prelude Go Locks.

Section steady.
Context {S G : Type} (ok : S → Prop) (fits : G → S → Prop) (apart : G → G → Prop).
Context (rely : list Hold → G → S → S → Prop) (guar : list Hold → G → G → S → S → Prop).
Context `{Hpre : !∀ held g, PreOrder (rely held g)}.

Fixpoint steady {A} (base held : list Hold) (g : G) (p : task S A) (Q : A → G → S → Prop)
    (s : S) : Prop :=
  match p with
  | TDone a => held = base ∧ ∀ s', rely held g s s' → Q a g s'
  | TLock op k => ∀ s1, rely held g s s1 → ok s1 → fits g s1 →
      match hold_next op held with Some held' => steady base held' g k Q s1 | None => False end
  | TDo m k => ∀ s1, rely held g s s1 → ok s1 → fits g s1 →
      match m s1 with
      | (Ok x, s2) => ok s2 ∧ ∃ g', fits g' s2 ∧ guar held g g' s1 s2 ∧ steady base held g' (k x) Q s2
      | _ => False
      end
  end.

Lemma steady_rely {A} base held g (p : task S A) Q s s' :
  rely held g s s' → steady base held g p Q s → steady base held g p Q s'.
Proof.
  intros Hle. destruct p as [a|op k|X m k]; cbn.
  - intros [Hh Hp]. split; [done|]. intros s1 Hs1. apply Hp. by etrans.
  - intros Hk s1 Hs1. apply Hk. by etrans.
  - intros Hm s1 Hs1. apply Hm. by etrans.
Qed.

(** To go under the first operation of a task. *)
Ltac under_step Hm :=
  let s1 := fresh "s1" in let Hs1 := fresh "Hs1" in
  let Hok := fresh "Hok" in let Hfit := fresh "Hfit" in
  intros Hm s1 Hs1 Hok Hfit; specialize (Hm s1 Hs1 Hok Hfit);
  match type of Hm with
  | context [match ?m s1 with (_, _) => _ end] =>
      destruct (m s1) as [[?|?|?|] ?]; try done;
      destruct Hm as (? & ? & ? & ? & ?); split; [done|]; eexists; split_and!; [done..|]
  | context [hold_next ?op ?held] => destruct (hold_next op held); [|done]
  end.

Lemma steady_bind {A B} base held' held g (p : task S A) (f : A → task S B) Q s :
  steady held' held g p (λ a g s, steady base held' g (f a) Q s) s → steady base held g (p ≫= f) Q s.
Proof.
  revert held g s. induction p as [a|op k IH|X m k IH]; intros held g s.
  - cbn. intros [-> Hf]. exact (Hf s ltac:(reflexivity)).
  - cbn. under_step Hm. by apply IH.
  - cbn. under_step Hm. by apply IH.
Qed.

Lemma steady_imp {A} base held g (p : task S A) (Q Q' : A → G → S → Prop) s :
  (∀ a g s, Q a g s → Q' a g s) → steady base held g p Q s → steady base held g p Q' s.
Proof.
  intros HQ. revert held g s. induction p as [a|op k IH|X m k IH]; intros held g s; cbn.
  - intros [Hh Hp]. split; [done|]. intros s' Hs. by apply HQ, Hp.
  - under_step Hm. by apply IH.
  - under_step Hm. by apply IH.
Qed.

Lemma steady_later {A} base held g (p : task S A) Q s :
  steady base held g p Q s →
  steady base held g p (λ a g s, ∀ s', rely base g s s' → Q a g s') s.
Proof.
  revert held g s. induction p as [a|op k IH|X m k IH]; intros held g s; cbn.
  - intros [-> Hp]. split; [done|]. intros s' Hs s'' Hs'. apply Hp. by etrans.
  - under_step Hm. by apply IH.
  - under_step Hm. by apply IH.
Qed.

Lemma steady_then {A B} (R : A → G → S → Prop) held g (p : task S A) (f : A → task S B) Q s :
  steady held held g p R s →
  (∀ a g s', (∀ s'', rely held g s' s'' → R a g s'') → steady held held g (f a) Q s') →
  steady held held g (p ≫= f) Q s.
Proof.
  intros Hp Hf. eapply steady_bind, steady_imp; [|apply steady_later, Hp]. intros a g' s' Ha. by apply Hf.
Qed.

Lemma steady_do {A} held g (m : M S A) (Q : A → G → S → Prop) s :
  (∀ s1, rely held g s s1 → ok s1 → fits g s1 → ∃ a s2 g', m s1 = (Ok a, s2) ∧ ok s2 ∧ fits g' s2 ∧
    guar held g g' s1 s2 ∧ ∀ s3, rely held g' s2 s3 → Q a g' s3) →
  steady held held g (do_step m) Q s.
Proof.
  intros Hm s1 Hs1 Hok Hfit. destruct (Hm s1 Hs1 Hok Hfit) as (a & s2 & g' & -> & Hok2 & Hfit2 & Hg & HQ).
  split; [done|]. by exists g'.
Qed.

(** Under a lock for reading, and for writing: what is known when it is taken is
    all that was known before. *)
Lemma steady_read_locked {A} l held g (p : task S A) Q s :
  (∀ s1, rely held g s s1 → steady ((l, HRead) :: held) ((l, HRead) :: held) g p
    (λ a g s, ∀ s', rely held g s s' → Q a g s') s1) →
  steady held held g (read_locked l p) Q s.
Proof.
  intros Hp. cbn. intros s1 Hs1 Hok Hfit.
  change (steady held ((l, HRead) :: held) g (p ≫= λ a, _ ← lock_op (RUnlock l); mret a) Q s1).
  eapply steady_bind, steady_imp; [|apply steady_later, Hp, Hs1]. intros a g' s' Ha. cbn.
  intros s2 Hs2 Hok2 Hfit2. rewrite Nat.eqb_refl. split; [done|]. by apply Ha.
Qed.

Lemma steady_write_locked {A} l held g (p : task S A) Q s :
  (∀ s1, rely held g s s1 →
    (∀ s2, rely ((l, HAnnounced) :: held) g s1 s2 →
    steady ((l, HWrite) :: held) ((l, HWrite) :: held) g p
      (λ a g s, ∀ s', rely held g s s' → Q a g s') s2)) →
  steady held held g (write_locked l p) Q s.
Proof.
  intros Hp. cbn. intros s1 Hs1 Hok Hfit s2 Hs2 Hok2 Hfit2. rewrite Nat.eqb_refl.
  change (steady held ((l, HWrite) :: held) g (p ≫= λ a, _ ← lock_op (Unlock l); mret a) Q s2).
  eapply steady_bind, steady_imp; [|apply steady_later, (Hp s1 Hs1), Hs2]. intros a g' s' Ha. cbn.
  intros s3 Hs3 Hok3 Hfit3. rewrite Nat.eqb_refl. split; [done|]. by apply Ha.
Qed.

(** ** Several of them

    [whole s gs]: the resources of all the goroutines account for the data. *)
Class Framed (whole : S → list G → Prop) : Prop := {
  apart_sym g h : apart g h → apart h g;
  (** What one guarantees, the others may rely on. *)
  framed held held' g g' h s s' : excludes held held' → apart g h → ok s → fits g s →
    fits h s → guar held g g' s s' → rely held' h s s' ∧ fits h s' ∧ apart g' h;
  whole_step held g g' gs i s s' : ok s → fits g s → whole s gs → gs !! i = Some g →
    guar held g g' s s' → whole s' (<[i := g']> gs);
}.

Section pool.
Context {A : Type} (whole : S → list G → Prop) (Q : A → G → S → Prop).
Context `{Hframed : !Framed whole}.
Implicit Types (c : Tasks S A) (p : task S A).

Abbreviation View := (list Hold * G)%type.
Definition view_steady (s : S) (v : View) p : Prop := fits v.2 s ∧ steady [] v.1 v.2 p Q s.

Definition all_apart (gs : list G) : Prop := ∀ i j gi gj,
  i ≠ j → gs !! i = Some gi → gs !! j = Some gj → apart gi gj.

Definition views_ok (vs : list View) c : Prop :=
  ok (tk_data c) ∧ Forall2 (view_steady (tk_data c)) vs (tk_tasks c) ∧
  table_ok (tk_locks c) vs.*1 ∧ all_apart vs.*2 ∧ whole (tk_data c) vs.*2.

Definition pool_steady c : Prop := ∃ vs, views_ok vs c.

Lemma all_apart_insert gs i g g' : all_apart gs → gs !! i = Some g →
  (∀ j h, i ≠ j → gs !! j = Some h → apart g' h) → all_apart (<[i := g']> gs).
Proof.
  intros Hgs Hi Hg j k gj gk Hjk Hj Hk. assert (Hlt : (i < length gs)%nat) by by eapply lookup_lt_Some.
  destruct (decide (i = j)) as [<-|Hij].
  - rewrite list_lookup_insert_eq in Hj by done. injection Hj as <-.
    rewrite list_lookup_insert_ne in Hk by done. by apply (Hg k).
  - rewrite list_lookup_insert_ne in Hj by done. destruct (decide (i = k)) as [<-|Hik].
    + rewrite list_lookup_insert_eq in Hk by done. injection Hk as <-. by apply apart_sym, (Hg j).
    + rewrite list_lookup_insert_ne in Hk by done. by apply (Hgs j k).
Qed.

(** A step on the data, seen by all. *)
Lemma views_do vs c i held g g' X (m : M S X) k x s :
  views_ok vs c → vs !! i = Some (held, g) → tk_tasks c !! i = Some (TDo m k) → fits g (tk_data c) →
  ok s → fits g' s → guar held g g' (tk_data c) s → steady [] held g' (k x) Q s →
  views_ok (<[i := (held, g')]> vs) (mkTasks s (tk_locks c) (<[i := k x]> (tk_tasks c))).
Proof.
  intros (Hok & Hps & Ht & Hap & Hwhole) Hv Hp Hfit Hok' Hfit' Hg Hk.
  assert (Hv2 : vs.*2 !! i = Some g) by (by rewrite list_lookup_fmap, Hv).
  assert (Hv1 : vs.*1 !! i = Some held) by (by rewrite list_lookup_fmap, Hv).
  assert (Hrest : ∀ j w q, i ≠ j → vs !! j = Some w → tk_tasks c !! j = Some q →
    view_steady s w q ∧ apart g' w.2).
  { intros j [held' h] q Hij Hw Hq. destruct (list.Forall2_lookup_l _ _ _ _ _ Hps Hw) as (q' & Hq' & Hfh & Hsq).
    assert (q' = q) as -> by congruence. cbn in Hfh, Hsq.
    destruct (framed held held' g g' h (tk_data c) s) as (Hr & Hfh' & Hag); try done.
    - eapply (table_excludes _ _ i j); [exact Ht|done..|]. by rewrite list_lookup_fmap, Hw.
    - apply (Hap i j); [done..|]. by rewrite list_lookup_fmap, Hw.
    - split; [|done]. split; [done|]. by eapply steady_rely. }
  split_and!.
  - done.
  - apply list.Forall2_lookup. intros j. cbn. destruct (decide (i = j)) as [<-|Hij].
    + rewrite !list_lookup_insert_eq by (by eapply lookup_lt_Some). by constructor.
    + rewrite !list_lookup_insert_ne by done. pose proof (proj1 (list.Forall2_lookup _ _ _) Hps j) as Hj.
      destruct (vs !! j) as [w|] eqn:Hw, (tk_tasks c !! j) as [q|] eqn:Hq; [|by inversion Hj..|constructor].
      constructor. by apply (Hrest j).
  - rewrite list_fmap_insert. cbn. rewrite list_insert_id by exact Hv1. exact Ht.
  - rewrite list_fmap_insert. apply (all_apart_insert _ _ g); [done..|].
    intros j h Hij. rewrite list_lookup_fmap. destruct (vs !! j) as [w|] eqn:Hw; [|done].
    intros [= <-]. destruct (list.Forall2_lookup_l _ _ _ _ _ Hps Hw) as (q & Hq & _). by eapply Hrest.
  - rewrite list_fmap_insert. exact (whole_step held g g' vs.*2 i (tk_data c) s Hok Hfit Hwhole Hv2 Hg).
Qed.

(** A step does nothing, or leaves the rest of one task; and it changes the data
    only as the locks it holds allow. *)
Lemma pool_steady_step i c : pool_steady c → ∃ c', task_step i c = (Ok (), c') ∧ pool_steady c' ∧
  (tk_data c' = tk_data c ∨ ∃ held g g', guar held g g' (tk_data c) (tk_data c') ∧
    ∀ l, (l, HWrite) ∈ held → lock_at (tk_locks c) l = mkRW 0 Writing).
Proof.
  intros [vs Hvs]. pose proof Hvs as (Hok & Hps & Ht & Hap & Hwhole). unfold task_step.
  destruct (tk_tasks c !! i) as [p|] eqn:Hi; [|exists c; split_and!; [done|by exists vs|by left]].
  destruct (list.Forall2_lookup_r _ _ _ _ _ Hps Hi) as ([held g] & Hv & Hfit & Hp). cbn in Hfit, Hp.
  destruct p as [a|op k|X m k].
  - exists c. split_and!; [done|by exists vs|by left].
  - cbn [steady] in Hp. specialize (Hp (tk_data c) ltac:(reflexivity) Hok Hfit).
    destruct (hold_next op held) as [held'|] eqn:Hnext; [|done].
    destruct (lock_step op (tk_locks c)) as [t|] eqn:Hlock.
    + eexists. split_and!; [done| |by left].
      assert (Hg : <[i := g]> vs.*2 = vs.*2) by (apply list_insert_id; by rewrite list_lookup_fmap, Hv).
      exists (<[i := (held', g)]> vs). split_and!; cbn; rewrite ?list_fmap_insert; cbn; rewrite ?Hg; try done.
      * by apply list.Forall2_insert.
      * eapply lock_step_table; [done| |done..]. by rewrite list_lookup_fmap, Hv.
    + exists c. split_and!; [done|by exists vs|by left].
  - cbn [steady] in Hp. specialize (Hp (tk_data c) ltac:(reflexivity) Hok Hfit).
    destruct (m (tk_data c)) as [[x|e|e|] s]; [|done..]. destruct Hp as (Hok' & g' & Hfit' & Hg & Hk).
    eexists. split_and!; [done| |right].
    + exists (<[i := (held, g')]> vs). by eapply views_do.
    + exists held, g, g'. split; [done|]. intros l. apply (write_alone _ vs.*1 held); [done|].
      apply list_elem_of_fmap. exists (held, g). split; [done|]. by eapply list_elem_of_lookup_2.
Qed.

Lemma pool_steady_run order : ∀ c, pool_steady c → ∃ c', task_run order c = (Ok (), c') ∧ pool_steady c'.
Proof.
  induction order as [|i order IH]; intros c Hc; [by exists c|].
  destruct (pool_steady_step i c Hc) as (c1 & H1 & Hc1 & _).
  destruct (IH c1 Hc1) as (c' & H2 & Hc'). exists c'. split; [|done].
  unfold task_run. cbn [for_each]. by rewrite (bind_ok _ _ _ _ _ H1).
Qed.

Lemma pool_finishes c helds : pool_steady c → held_inv c helds →
  ∃ order c', task_run order c = (Ok (), c') ∧ Forall (λ p, finished p = true) (tk_tasks c').
Proof.
  apply tasks_finish. intros i c1 Hc. destruct (pool_steady_step i c1 Hc) as (c' & H1 & Hc' & _). by exists c'.
Qed.

(** At the end each goroutine has what it promised. *)
Lemma pool_finished c : pool_steady c → Forall (λ p, finished p = true) (tk_tasks c) →
  ok (tk_data c) ∧ ∃ gs, whole (tk_data c) gs ∧
    Forall2 (λ g p, ∃ a, p = TDone a ∧ Q a g (tk_data c)) gs (tk_tasks c).
Proof.
  intros (vs & Hok & Hps & _ & _ & Hwhole) Hfin. split; [done|]. exists vs.*2. split; [done|].
  apply list.Forall2_fmap_l. clear Hwhole. revert Hps Hfin. generalize (tk_data c), (tk_tasks c).
  intros s ps Hps Hfin. induction Hps as [|[held g] p vs ps [Hfit Hp] _ IH]; [constructor|].
  apply list.Forall_cons in Hfin as [Hf Hfin]. constructor; [|by apply IH].
  destruct p as [a|op k|X m k]; [|done..]. exists a. split; [done|]. cbn in Hp. by apply Hp.
Qed.

Lemma pool_steady_start g0 s ps :
  ok s → fits g0 s → apart g0 g0 → whole s (replicate (length ps) g0) →
  Forall (λ p, steady [] [] g0 p Q s) ps → pool_steady (mkTasks s ∅ ps).
Proof.
  intros Hok Hfit Hap Hwhole Hps. exists (replicate (length ps) ([], g0)).
  set (vs := replicate (length ps) (([] : list Hold), g0)).
  assert (H1 : vs.*1 = replicate (length ps) []) by apply (fmap_replicate fst).
  assert (H2 : vs.*2 = replicate (length ps) g0) by apply (fmap_replicate snd).
  split_and!; cbn; [done| |rewrite H1; apply table_ok_start| |by rewrite H2].
  - clear -Hfit Hps. induction Hps as [|p ps Hp Hps IH]; [constructor|].
    constructor; [by split|exact IH].
  - rewrite H2. intros i j gi gj _ [-> _]%lookup_replicate_1 [-> _]%lookup_replicate_1. done.
Qed.
End pool.
End steady.

(** ** Goroutines that own nothing

    They rely on [older], whatever they hold. *)
Section unowned.
Context {S : Type} (ok : S → Prop) (older : S → S → Prop) (guar : list Hold → S → S → Prop).
Context `{Hold_order : !PreOrder older}.

Definition nothing (g : ()) (s : S) : Prop := True.
Definition whoever (g h : ()) : Prop := True.
Definition rely_older (held : list Hold) (g : ()) : S → S → Prop := older.
Definition guar_older (held : list Hold) (g g' : ()) (s s' : S) : Prop := older s s' ∧ guar held s s'.
#[export] Instance rely_older_order held g : PreOrder (rely_older held g) := Hold_order.

Abbreviation steady_ := (steady ok nothing rely_older guar_older).

Lemma steady_from {A} base held g (p : task S A) Q s0 s :
  older s0 s → steady_ base held g p Q s → steady_ base held g p (λ _ _ s', older s0 s') s.
Proof.
  revert held g s. induction p as [a|op k IH|X m k IH]; intros held g s Hs; cbn.
  - intros [Hh _]. split; [done|]. intros s' Hs'. by etrans.
  - intros Hk s1 Hs1 Hok Hfit. specialize (Hk s1 Hs1 Hok Hfit).
    destruct (hold_next op held); [|done]. apply IH; [by etrans|done].
  - intros Hm s1 Hs1 Hok Hfit. specialize (Hm s1 Hs1 Hok Hfit).
    destruct (m s1) as [[x|e|e|] s2]; [|done..]. destruct Hm as (Hok2 & g' & Hfit2 & [Hle Hg] & Hk).
    split; [done|]. exists g'. split_and!; [done..|]. apply IH; [|done]. by do 2 (etrans; [eassumption|]).
Qed.

(** Whatever the goroutine holds, it holds the same again at the end. *)
Definition steadily {A} (p : task S A) (Q : A → S → Prop) (s : S) : Prop :=
  ∀ held, steady_ held held () p (λ a _, Q a) s.

Lemma steadily_then {A B} (R : A → S → Prop) (p : task S A) (f : A → task S B) Q s :
  steadily p R s → (∀ a s', (∀ s'', older s' s'' → R a s'') → steadily (f a) Q s') →
  steadily (p ≫= f) Q s.
Proof.
  intros Hp Hf held. apply (steady_then ok nothing rely_older guar_older (λ a _, R a)); [apply Hp|].
  intros a [] s' Ha. by apply Hf.
Qed.

Lemma steadily_from {A} (p : task S A) Q s : steadily p Q s → steadily p (λ _, older s) s.
Proof. intros Hp held. by eapply steady_from, Hp. Qed.

Lemma steadily_ret {A} (a : A) (Q : A → S → Prop) s :
  (∀ s', older s s' → Q a s') → steadily (mret a) Q s.
Proof. by intros HQ held. Qed.

(** One step, under no lock in particular. *)
Lemma steadily_do {A} (m : M S A) (Q : A → S → Prop) s :
  (∀ s1, older s s1 → ok s1 → ∃ a s2, m s1 = (Ok a, s2) ∧ ok s2 ∧ older s1 s2 ∧
    (∀ held, guar held s1 s2) ∧ ∀ s3, older s2 s3 → Q a s3) →
  steadily (do_step m) Q s.
Proof.
  intros Hm held. apply steady_do. intros s1 Hs1 Hok _.
  destruct (Hm s1 Hs1 Hok) as (a & s2 & Hrun & Hok2 & Hle & Hg & HQ). exists a, s2, (). by split_and!.
Qed.

Lemma steadily_read_locked {A} l (p : task S A) Q s :
  steadily p Q s → steadily (read_locked l p) Q s.
Proof.
  intros Hp held. apply (steady_read_locked ok nothing rely_older guar_older). intros s1 Hs1.
  apply (steady_later ok nothing rely_older guar_older ((l, HRead) :: held)).
  apply (steady_rely ok nothing rely_older guar_older _ _ _ _ _ s); [exact Hs1|apply Hp].
Qed.

(** One step under a lock for writing. *)
Lemma steadily_write_do {A} l (m : M S A) (Q : A → S → Prop) s :
  (∀ s1, older s s1 → ok s1 → ∃ a s2, m s1 = (Ok a, s2) ∧ ok s2 ∧ older s1 s2 ∧
    (∀ held, (l, HWrite) ∈ held → guar held s1 s2) ∧ ∀ s3, older s2 s3 → Q a s3) →
  steadily (write_locked l (do_step m)) Q s.
Proof.
  intros Hm held. apply (steady_write_locked ok nothing rely_older guar_older). intros s1 Hs1 s2 Hs2.
  apply steady_do.
  intros s3 Hs3 Hok _. destruct (Hm s3) as (a & s4 & Hrun & Hok4 & Hle & Hg & HQ);
    [by etrans; [exact Hs1|]; etrans|done|].
  exists a, s4, (). split_and!; [done..|split; [done|apply Hg; left]|].
  intros s5 Hs5 s6 Hs6. apply HQ. by etrans.
Qed.

#[export] Instance unowned_framed : Framed ok nothing whoever rely_older guar_older (λ _ _, True).
Proof. split; [done| |done]. by intros held held' g g' h s s' _ _ _ _ _ [Hle _]. Qed.

Lemma steady_pool_start {A} s (ps : list (task S A)) :
  ok s → Forall (λ p, steadily p (λ _ _, True) s) ps →
  pool_steady ok nothing whoever rely_older guar_older (λ _ _, True) (λ _ _ _, True) (mkTasks s ∅ ps).
Proof.
  intros Hok Hps. apply (pool_steady_start _ _ _ _ _ _ _ ()); [done..|].
  eapply list.Forall_impl; [exact Hps|]. intros p Hp. apply (Hp []).
Qed.
End unowned.
