(* ===== verification/Strconv.v ===== *)
(** * Strconv: decimal conversions

    [strconv.Atoi] and [strconv.Itoa] of Go's standard library, as every
    command that takes a number uses them, with the two facts the rest of the
    development needs: [Atoi] inverts [Itoa] on every [int], and a successful
    [Atoi] determines the digits of its argument. *)
From S2P Require Import Prelude Go.
From Stdlib Require Import Ascii.

(** ** Digits *)
Definition is_digit (c : ascii) : bool :=
  ((48 <=? nat_of_ascii c) && (nat_of_ascii c <=? 57))%nat.
Definition digit_val (c : ascii) : Z := Z.of_nat (nat_of_ascii c) - 48.
Definition digit_char (d : Z) : ascii := ascii_of_nat (Z.to_nat (48 + d)).

Fixpoint all_digits (s : string) : bool :=
  match s with "" => true | String c s' => is_digit c && all_digits s' end.

(** Value of a digit string read from the left, [acc] being the value read so
    far. *)
Fixpoint dec_value (s : string) (acc : Z) : Z :=
  match s with "" => acc | String c s' => dec_value s' (acc * 10 + digit_val c) end.

Lemma digit_val_range c : is_digit c = true → 0 ≤ digit_val c ≤ 9.
Proof.
  unfold is_digit, digit_val. rewrite andb_true_iff, !Nat.leb_le. lia.
Qed.

Lemma digit_char_ok d :
  0 ≤ d ≤ 9 → is_digit (digit_char d) = true ∧ digit_val (digit_char d) = d.
Proof.
  intros Hd. unfold is_digit, digit_val, digit_char.
  rewrite nat_ascii_embedding by lia.
  rewrite andb_true_iff, !Nat.leb_le. lia.
Qed.

Lemma dec_value_ge s acc : all_digits s = true → 0 ≤ acc → acc ≤ dec_value s acc.
Proof.
  revert acc. induction s as [|c s IH]; intros acc; cbn; [lia|].
  rewrite andb_true_iff. intros [Hc Hs] Hacc.
  pose proof (digit_val_range c Hc).
  etrans; [|apply IH; [done|]]; lia.
Qed.

(** ** [strconv.Itoa] *)
Fixpoint dec_loop (fuel : nat) (n : Z) (acc : string) : string :=
  match fuel with
  | O => acc
  | S fuel' =>
      if n <? 10 then String (digit_char n) acc
      else dec_loop fuel' (n / 10) (String (digit_char (n mod 10)) acc)
  end.

Definition FormatUint (n : Z) : string := dec_loop (S (Z.to_nat (Z.log2 n))) n "".

Definition Itoa (n : Z) : string :=
  if n <? 0 then String "-" (FormatUint (- n)) else FormatUint n.

Lemma dec_loop_spec fuel n acc :
  0 ≤ n < 2 ^ Z.of_nat fuel → all_digits acc = true →
  all_digits (dec_loop fuel n acc) = true ∧
  dec_value (dec_loop fuel n acc) 0 = dec_value acc n.
Proof.
  revert n acc. induction fuel as [|fuel IH]; intros n acc Hn Hacc.
  { cbn in *. by replace n with 0 by lia. }
  cbn [dec_loop]. destruct (Z.ltb_spec n 10) as [Hlt|Hge].
  - destruct (digit_char_ok n) as [Hd Hv]; [lia|]. cbn [all_digits dec_value].
    by rewrite Hd, Hv.
  - pose proof (Z.mod_pos_bound n 10 ltac:(lia)).
    destruct (digit_char_ok (n mod 10)) as [Hd Hv]; [lia|].
    rewrite Nat2Z.inj_succ, Z.pow_succ_r in Hn by lia.
    destruct (IH (n / 10) (String (digit_char (n mod 10)) acc)) as [H1 H2].
    + split; [apply Z.div_pos; lia|]. apply Z.div_lt_upper_bound; lia.
    + cbn. by rewrite Hd.
    + split; [done|]. rewrite H2. cbn. rewrite Hv. f_equal.
      pose proof (Z.div_mod n 10). lia.
Qed.

Lemma FormatUint_spec n :
  0 ≤ n → all_digits (FormatUint n) = true ∧ dec_value (FormatUint n) 0 = n.
Proof.
  intros Hn. apply (dec_loop_spec _ _ ""); [|done]. split; [done|].
  destruct (decide (n = 0)) as [->|]; [done|].
  rewrite Nat2Z.inj_succ, Z2Nat.id by apply Z.log2_nonneg.
  apply Z.log2_spec. lia.
Qed.

Lemma dec_loop_nonempty fuel n acc : dec_loop (S fuel) n acc ≠ "".
Proof.
  cut (∀ fuel n acc, acc ≠ "" → dec_loop fuel n acc ≠ "").
  - intros Haux. cbn. destruct (n <? 10); [done|]. by apply Haux.
  - clear. intros fuel. induction fuel as [|fuel IH]; intros n acc Hacc; cbn; [done|].
    destruct (n <? 10); [done|]. by apply IH.
Qed.

Lemma FormatUint_nonempty n : FormatUint n ≠ "".
Proof. apply dec_loop_nonempty. Qed.

Lemma dec_loop_length fuel n acc :
  (String.length (dec_loop fuel n acc) ≤ fuel + String.length acc)%nat.
Proof.
  revert n acc. induction fuel as [|fuel IH]; intros n acc; cbn [dec_loop]; [lia|].
  destruct (n <? 10); [cbn; lia|]. etrans; [apply IH|]. cbn. lia.
Qed.

Lemma Itoa_length n : in_int n → slen (Itoa n) ≤ 65.
Proof.
  intros Hn. assert (Haux : ∀ k, 0 ≤ k ≤ 2 ^ 63 → slen (FormatUint k) ≤ 64).
  { intros k Hk. unfold FormatUint.
    pose proof (dec_loop_length (S (Z.to_nat (Z.log2 k))) k "") as Hlen. cbn [String.length] in Hlen.
    pose proof (Z.log2_le_mono k (2 ^ 63) ltac:(lia)) as Hlog.
    rewrite Z.log2_pow2 in Hlog by lia. lia. }
  unfold Itoa. destruct (Z.ltb_spec n 0).
  - cbn [String.length]. specialize (Haux (- n)). int_lia.
  - specialize (Haux n). int_lia.
Qed.

(** ** [strconv.Atoi] *)
Inductive numError := ErrSyntax | ErrRange.

Definition maxUint64 : Z := 2 ^ 64 - 1.

(** The loop of [strconv.ParseUint] in base 10: the first offending byte or the
    first overflow decides the error. *)
Fixpoint ParseUint_loop (s : string) (n : Z) : Z * option numError :=
  match s with
  | "" => (n, None)
  | String c s' =>
      if is_digit c then
        let n1 := n * 10 + digit_val c in
        if n1 >? maxUint64 then (maxUint64, Some ErrRange) else ParseUint_loop s' n1
      else (0, Some ErrSyntax)
  end.

Definition ParseUint (s : string) : Z * option numError :=
  match s with "" => (0, Some ErrSyntax) | _ => ParseUint_loop s 0 end.

Definition ParseInt_body (neg : bool) (s : string) : Z * option numError :=
  match ParseUint s with
  | (_, Some ErrSyntax) => (0, Some ErrSyntax)
  | (un, _) =>
      if negb neg && (un >=? 2 ^ 63) then (2 ^ 63 - 1, Some ErrRange)
      else if neg && (un >? 2 ^ 63) then (- 2 ^ 63, Some ErrRange)
      else (if neg then - un else un, None)
  end.

Definition Atoi (s : string) : Z * option numError :=
  match s with
  | "" => (0, Some ErrSyntax)
  | String c s' =>
      if (c =? "-")%char then ParseInt_body true s'
      else if (c =? "+")%char then ParseInt_body false s'
      else ParseInt_body false s
  end.

Lemma ParseUint_loop_digits s n :
  all_digits s = true → 0 ≤ n → dec_value s n ≤ maxUint64 →
  ParseUint_loop s n = (dec_value s n, None).
Proof.
  revert n. induction s as [|c s IH]; intros n; cbn; [done|].
  rewrite andb_true_iff. intros [Hc Hs] Hn Hle. rewrite Hc.
  pose proof (digit_val_range c Hc).
  pose proof (dec_value_ge s (n * 10 + digit_val c) Hs ltac:(lia)).
  rewrite Z.gtb_ltb. destruct (Z.ltb_spec maxUint64 (n * 10 + digit_val c)); [lia|].
  apply IH; [done|lia|done].
Qed.

Lemma ParseUint_loop_inv s n v :
  0 ≤ n → ParseUint_loop s n = (v, None) →
  all_digits s = true ∧ v = dec_value s n ∧ 0 ≤ v.
Proof.
  revert n. induction s as [|c s IH]; intros n Hn; cbn; [naive_solver|].
  destruct (is_digit c) eqn:Hc; [|done].
  destruct (n * 10 + digit_val c >? maxUint64); [done|].
  intros H. pose proof (digit_val_range c Hc).
  apply IH in H; [|lia]. naive_solver.
Qed.

Lemma ParseUint_range s un : ParseUint s = (un, Some ErrRange) → un = maxUint64.
Proof.
  assert (Hloop : ∀ n, ParseUint_loop s n = (un, Some ErrRange) → un = maxUint64).
  { induction s as [|c s IH]; intros n; cbn; [done|].
    destruct (is_digit c); [|done]. destruct (_ >? _); [naive_solver|apply IH]. }
  destruct s; [done|]. apply Hloop.
Qed.

(** What a successful [Atoi] says of its argument: an optional sign and a
    non-empty string of digits whose value is in range. *)
Definition signed_digits (s : string) (neg : bool) (d : string) : Prop :=
  s = (if neg then String "-" d else d) ∨ (neg = false ∧ s = String "+" d).

Lemma Atoi_inv s n :
  Atoi s = (n, None) →
  ∃ neg d, signed_digits s neg d ∧ d ≠ "" ∧ all_digits d = true ∧
    n = (if neg then - dec_value d 0 else dec_value d 0) ∧ in_int n.
Proof.
  assert (Hbody : ∀ neg d, ParseInt_body neg d = (n, None) →
    d ≠ "" ∧ all_digits d = true ∧
    n = (if neg then - dec_value d 0 else dec_value d 0) ∧ in_int n).
  { intros neg d. unfold ParseInt_body.
    destruct (ParseUint d) as [un err] eqn:Hpu.
    destruct err as [[]|]; [done|destruct neg; cbn|].
    - apply ParseUint_range in Hpu as ->. done.
    - apply ParseUint_range in Hpu as ->. done.
    - assert (d ≠ "") as Hne by (by destruct d).
      replace (ParseUint d) with (ParseUint_loop d 0) in Hpu by (by destruct d).
      apply ParseUint_loop_inv in Hpu as (Hd & -> & Hpos); [|lia].
      rewrite Z.geb_leb, Z.gtb_ltb.
      destruct neg; cbn.
      + destruct (Z.ltb_spec (2 ^ 63) (dec_value d 0)); [done|].
        intros [= <-]. repeat split; try done; int_lia.
      + destruct (Z.leb_spec (2 ^ 63) (dec_value d 0)); [done|].
        intros [= <-]. repeat split; try done; int_lia. }
  destruct s as [|c s]; [done|]. cbn.
  destruct (Ascii.eqb_spec c "-") as [->|Hm].
  { intros H. exists true, s. split; [by left|by apply (Hbody true)]. }
  destruct (Ascii.eqb_spec c "+") as [->|Hp].
  { intros H. exists false, s. split; [by right|by apply (Hbody false)]. }
  intros H. exists false, (String c s). split; [by left|by apply (Hbody false)].
Qed.

Lemma Atoi_in_int s n : Atoi s = (n, None) → in_int n.
Proof. intros (? & ? & ? & ? & ? & ? & ?)%Atoi_inv. done. Qed.

Lemma is_digit_not_sign c :
  is_digit c = true → (c =? "-")%char = false ∧ (c =? "+")%char = false.
Proof.
  intros Hc. split; apply Ascii.eqb_neq; intros ->; by vm_compute in Hc.
Qed.

Lemma Atoi_Itoa n : in_int n → Atoi (Itoa n) = (n, None).
Proof.
  intros Hn. unfold Itoa.
  assert (Hpu : ∀ m, 0 ≤ m ≤ 2 ^ 63 → ParseUint (FormatUint m) = (m, None)).
  { intros m Hm. destruct (FormatUint_spec m) as [Hd Hv]; [lia|].
    pose proof (FormatUint_nonempty m).
    replace (ParseUint (FormatUint m)) with (ParseUint_loop (FormatUint m) 0)
      by (by destruct (FormatUint m)).
    rewrite ParseUint_loop_digits; [by rewrite Hv|done|lia|].
    rewrite Hv. unfold maxUint64. lia. }
  destruct (Z.ltb_spec n 0) as [Hneg|Hpos].
  - change (ParseInt_body true (FormatUint (- n)) = (n, None)).
    unfold ParseInt_body. rewrite Hpu by int_lia. cbn [negb andb].
    rewrite Z.gtb_ltb. destruct (Z.ltb_spec (2 ^ 63) (- n)); [int_lia|].
    f_equal. lia.
  - specialize (Hpu n ltac:(int_lia)).
    destruct (FormatUint_spec n Hpos) as [Hd _].
    destruct (FormatUint n) as [|c s] eqn:Hf; [by apply FormatUint_nonempty in Hf|].
    cbn in Hd. apply andb_true_iff in Hd as [Hc _].
    destruct (is_digit_not_sign c Hc) as [Hm Hp]. cbn [Atoi].
    rewrite Hm, Hp. unfold ParseInt_body. rewrite Hpu. cbn [negb andb].
    rewrite Z.geb_leb. destruct (Z.leb_spec (2 ^ 63) n); [int_lia|done].
Qed.

Lemma Itoa_inj n n' : in_int n → in_int n' → Itoa n = Itoa n' → n = n'.
Proof.
  intros H H' Heq. apply (f_equal Atoi) in Heq.
  rewrite !Atoi_Itoa in Heq by done. naive_solver.
Qed.

(** The bytes of a formatted integer are digits and a minus sign: none of them
    can be mistaken for a line end. *)
Lemma all_digits_bytes s : all_digits s = true → Forall (λ c, is_digit c = true) (bytes s).
Proof.
  induction s as [|c s IH]; cbn; [constructor|].
  rewrite andb_true_iff. intros [??]. constructor; [done|by apply IH].
Qed.

Lemma Itoa_bytes n : Forall (λ c, is_digit c = true ∨ c = "-"%char) (bytes (Itoa n)).
Proof.
  assert (Hd : ∀ m, 0 ≤ m → Forall (λ c, is_digit c = true ∨ c = "-"%char) (bytes (FormatUint m))).
  { intros m Hm. destruct (FormatUint_spec m Hm) as [H _].
    apply all_digits_bytes in H. eapply Forall_impl; [|exact H]. by left. }
  unfold Itoa. destruct (Z.ltb_spec n 0); [|by apply Hd].
  constructor; [by right|]. apply Hd. lia.
Qed.
