(* ===== verification/Resp.v ===== *)
(** * Resp: the RESP2 parser and writer (src/pkg/resp/parser.go)

    [Value] is the wire value, [Parse] the parser over the unread bytes of a
    connection or file, [Write] the writer over its buffer and the bytes
    already flushed. *)
From S2P Require Import Prelude Go Strconv.
From Stdlib Require Import Ascii.

(** ** Values *)
Definition SimpleString : ascii := "+".
Definition BulkString : ascii := "$".
Definition Array : ascii := "*".
Definition Integer : ascii := ":".
Definition SimpleError : ascii := "-".
Definition Null : ascii := "_".

Inductive Value : Type := mkValue {
  VType : ascii;
  Str : string;
  Num : Z;
  Arr : list Value;
}.

(** The size of a [Value] in a slice. *)
Definition valueSize : Z := 56.
Ltac int_lia ::= unfold in_int, minInt, maxInt, maxAlloc, stringSize, valueSize in *; lia.

(** Go's composite literals leave the other fields zero. *)
Definition vSimple (s : string) : Value := mkValue SimpleString s 0 [].
Definition vError (s : string) : Value := mkValue SimpleError s 0 [].
Definition vBulk (s : string) : Value := mkValue BulkString s 0 [].
Definition vInt (n : Z) : Value := mkValue Integer "" n [].
Definition vArray (l : list Value) : Value := mkValue Array "" 0 l.
Definition vNull : Value := mkValue Null "" 0 [].

Section value_ind.
Context (P : Value → Prop).
Context (Hstep : ∀ t s n l, Forall P l → P (mkValue t s n l)).
Fixpoint Value_ind' (v : Value) : P v :=
  match v with
  | mkValue t s n l =>
      Hstep t s n l
        ((fix go (l : list Value) : Forall P l :=
            match l with
            | [] => Forall_nil_2 P
            | v :: l' => Forall_cons_2 P v l' (Value_ind' v) (go l')
            end) l)
  end.
End value_ind.

(** ** Parser *)

(** [bufio.Reader.ReadByte], [ReadBytes('\n')] and [io.ReadFull] over the
    unread input; the input ends with [io.EOF]. *)
Definition LF : ascii := ascii_of_nat 10.
Definition CR : ascii := ascii_of_nat 13.
Definition CRLF : string := String CR (String LF "").

Definition ReadByte : M string ascii := λ s,
  match s with
  | "" => (Err io_EOF, "")
  | String c s' => (Ok c, s')
  end.

Fixpoint ReadBytes (delim : ascii) (s : string) : res string * string :=
  match s with
  | "" => (Err io_EOF, "")
  | String c s' =>
      if (c =? delim)%char then (Ok (String c ""), s')
      else match ReadBytes delim s' with
           | (Ok l, rest) => (Ok (String c l), rest)
           | (e, rest) => (e, rest)
           end
  end.

Definition ReadFull (size : Z) : M string string := λ s,
  if size <=? slen s then
    (Ok (str_take (Z.to_nat size) s), str_drop (Z.to_nat size) s)
  else if (slen s =? 0) then (Err io_EOF, "")
  else (Err io_ErrUnexpectedEOF, "").

Definition readLine : M string string :=
  line ← (ReadBytes LF : M string string);
  if slen line <? 2 then raise (errorf "invalid RESP line: too short")
  else mret (str_take (String.length line - 2) line).

Definition readInt : M string Value :=
  line ← readLine;
  match Atoi line with
  | (_, Some _) => raise (errorf "invalid integer")
  | (num, None) => mret (vInt num)
  end.

Definition readSimpleString : M string Value :=
  line ← readLine;
  mret (vSimple line).

Definition readError : M string Value :=
  line ← readLine;
  mret (vError line).

Definition readBulkString : M string Value :=
  line ← readLine;
  match Atoi line with
  | (_, Some _) => raise (errorf "invalid bulk string length")
  | (size, None) =>
      if size =? -1 then mret vNull
      else
        _ ← (make_slice 1 size : M string ());
        buf ← ReadFull size;
        _ ← (ReadBytes LF : M string string);
        mret (vBulk buf)
  end.

(** [for i := 0; i < length; i++ { value := read(); arr[i] = value }], the
    element loop of [readArray]; [k] bounds its iterations. *)
Fixpoint readElems {A} (read : M string A) (k : nat) (i length : Z)
    (arr : list A) : M string (list A) :=
  match k with
  | O => out_of_fuel
  | S k' =>
      if i <? length then
        value ← read;
        readElems read k' (i + 1) length (arr ++ [value])
      else mret arr
  end.

(** An element takes at least one byte, so the bytes left bound the loop. *)
Definition readArray (Parse : M string Value) : M string Value :=
  line ← readLine;
  match Atoi line with
  | (_, Some _) => raise (errorf "invalid array length")
  | (length, None) =>
      if length =? -1 then mret vNull
      else
        _ ← (make_slice valueSize length : M string ());
        k ← gets (λ s, S (String.length s));
        arr ← readElems Parse k 0 length [];
        mret (vArray arr)
  end.

(** [%c] of a byte: the UTF-8 text of the character with that number. *)
Definition fmt_c (c : ascii) : string :=
  let n := nat_of_ascii c in
  if (n <? 128)%nat then String c ""
  else String (ascii_of_nat (192 + n / 64)) (String (ascii_of_nat (128 + n mod 64)) "").

(** [fuel] bounds the nesting depth. *)
Fixpoint ParseFuel (fuel : nat) : M string Value :=
  match fuel with
  | O => out_of_fuel
  | S fuel' =>
      prefix ← ReadByte;
      if (prefix =? SimpleString)%char then readSimpleString
      else if (prefix =? BulkString)%char then readBulkString
      else if (prefix =? Array)%char then readArray (ParseFuel fuel')
      else if (prefix =? Integer)%char then readInt
      else if (prefix =? SimpleError)%char then readError
      else raise (errorf ("unknown RESP type: " +:+ fmt_c prefix))
  end.

(** Every level of nesting consumes a byte of the input. *)
Definition Parse : M string Value := λ s, ParseFuel (S (String.length s)) s.

(** ** Writer *)
Record Writer := mkWriter { w_buf : string; w_out : string }.

Definition WriteString (s : string) : M Writer () :=
  modify (λ w, mkWriter (w_buf w +:+ s) (w_out w)).
Definition WriteByte (c : ascii) : M Writer () := WriteString (String c "").
Definition Flush : M Writer () := modify (λ w, mkWriter "" (w_out w +:+ w_buf w)).

Definition writeSimpleString (s : string) : M Writer () :=
  _ ← WriteByte SimpleString; _ ← WriteString s; WriteString CRLF.

Definition writeInt (i : Z) : M Writer () :=
  _ ← WriteByte Integer; _ ← WriteString (Itoa i); WriteString CRLF.

Definition writeBulkString (s : string) : M Writer () :=
  _ ← WriteByte BulkString;
  _ ← WriteString (Itoa (slen s));
  _ ← WriteString CRLF;
  _ ← WriteString s;
  WriteString CRLF.

Definition writeSimpleError (s : string) : M Writer () :=
  _ ← WriteByte SimpleError; _ ← WriteString s; WriteString CRLF.

Definition writeArray (Write : Value → M Writer ()) (arr : list Value) : M Writer () :=
  _ ← WriteByte Array;
  _ ← WriteString (Itoa (zlen arr));
  _ ← WriteString CRLF;
  for_each Write arr.

Definition writeNull : M Writer () := WriteString ("$-1" +:+ CRLF).

Fixpoint Write (v : Value) : M Writer () :=
  match v with
  | mkValue ty str num arr =>
      if (ty =? SimpleString)%char then _ ← writeSimpleString str; Flush
      else if (ty =? SimpleError)%char then _ ← writeSimpleError str; Flush
      else if (ty =? Integer)%char then _ ← writeInt num; Flush
      else if (ty =? BulkString)%char then _ ← writeBulkString str; Flush
      else if (ty =? Array)%char then _ ← writeArray Write arr; Flush
      else if (ty =? Null)%char then _ ← writeNull; Flush
      else raise (errorf ("unknown RESP type for serialization: " +:+ fmt_c ty))
  end.

(** ** The wire format

    [encode] is the text of a value; [wire] holds of the values that have one
    the parser reads back: a line must not hold a line feed, and lengths and
    integers must fit in an [int]. *)
Fixpoint encode (v : Value) : string :=
  match v with
  | mkValue ty str num arr =>
      let text :=
        if (ty =? SimpleString)%char then str
        else if (ty =? SimpleError)%char then str
        else if (ty =? Integer)%char then Itoa num
        else if (ty =? BulkString)%char then Itoa (slen str) +:+ CRLF +:+ str
        else Itoa (zlen arr) in
      if (ty =? Null)%char then "$-1" +:+ CRLF
      else if (ty =? Array)%char then
        String ty (text +:+ CRLF +:+ String.concat "" (encode <$> arr))
      else String ty (text +:+ CRLF)
  end.

(** The texts of a list of items, one after the other. *)
Definition concat_map {A} (enc : A → string) (l : list A) : string :=
  String.concat "" (enc <$> l).
Abbreviation encodes := (concat_map encode).

Lemma concat_map_cons {A} (enc : A → string) v l :
  concat_map enc (v :: l) = enc v +:+ concat_map enc l.
Proof.
  unfold concat_map. cbn. destruct (enc <$> l) as [|x xs]; [|done].
  cbn. by rewrite string_app_nil_r.
Qed.

Lemma concat_map_single {A} (enc : A → string) v : concat_map enc [v] = enc v.
Proof. done. Qed.

Lemma concat_map_app {A} (enc : A → string) l1 l2 :
  concat_map enc (l1 ++ l2) = concat_map enc l1 +:+ concat_map enc l2.
Proof.
  induction l1 as [|v l1 IH]; [done|]. cbn [app].
  by rewrite !concat_map_cons, IH, string_app_assoc.
Qed.

Lemma concat_map_length {A} (enc : A → string) l :
  (∀ v, 1 ≤ String.length (enc v))%nat → (length l ≤ String.length (concat_map enc l))%nat.
Proof.
  intros Henc. induction l as [|v l IH]; [done|].
  rewrite concat_map_cons, string_length_app. specialize (Henc v). cbn. lia.
Qed.

Inductive wire : Value → Prop :=
  | wire_simple s : LF ∉ bytes s → wire (vSimple s)
  | wire_error s : LF ∉ bytes s → wire (vError s)
  | wire_int n : in_int n → wire (vInt n)
  | wire_bulk s : slen s ≤ maxAlloc → wire (vBulk s)
  | wire_null : wire vNull
  | wire_array l : valueSize * zlen l ≤ maxAlloc → Forall wire l → wire (vArray l).

Lemma encode_array l :
  encode (vArray l) = String Array (Itoa (zlen l) +:+ CRLF +:+ encodes l).
Proof. done. Qed.

Lemma encode_bulk s :
  encode (vBulk s) = String BulkString (Itoa (slen s) +:+ CRLF +:+ s +:+ CRLF).
Proof.
  change (encode (vBulk s)) with
    (String BulkString ((Itoa (slen s) +:+ CRLF +:+ s) +:+ CRLF)).
  by rewrite !string_app_assoc.
Qed.

Lemma encode_nonempty v : (1 ≤ String.length (encode v))%nat.
Proof.
  destruct v as [ty s n l]. cbn [encode].
  repeat case_match; rewrite ?string_length_app; cbn; lia.
Qed.

Lemma encodes_length l : (length l ≤ String.length (encodes l))%nat.
Proof. apply concat_map_length, encode_nonempty. Qed.

Lemma encodes_elem_length v l :
  v ∈ l → (String.length (encode v) ≤ String.length (encodes l))%nat.
Proof.
  induction 1; rewrite concat_map_cons, string_length_app; lia.
Qed.

(** *** The writer produces [encode] *)
Definition writes (m : M Writer ()) (text : string) : Prop :=
  ∀ w, ∃ w', m w = (Ok (), w') ∧
    w_out w' +:+ w_buf w' = (w_out w +:+ w_buf w) +:+ text.

Lemma writes_string s : writes (WriteString s) s.
Proof. intros w. eexists. split; [done|]. cbn. by rewrite string_app_assoc. Qed.

Lemma writes_flush : writes Flush "".
Proof. intros w. eexists. split; [done|]. cbn. by rewrite !string_app_nil_r. Qed.

Lemma writes_bind m1 m2 s1 s2 :
  writes m1 s1 → writes m2 s2 → writes (_ ← m1; m2) (s1 +:+ s2).
Proof.
  intros H1 H2 w. destruct (H1 w) as (w1 & Hm1 & Ho1).
  destruct (H2 w1) as (w2 & Hm2 & Ho2).
  exists w2. split; [by rewrite (bind_ok _ _ _ _ _ Hm1)|].
  by rewrite Ho2, Ho1, string_app_assoc.
Qed.

Lemma writes_eq m s s' : writes m s → s = s' → writes m s'.
Proof. by intros ? <-. Qed.

Lemma writes_for_each (f : Value → M Writer ()) l :
  Forall (λ v, writes (f v) (encode v)) l → writes (for_each f l) (encodes l).
Proof.
  induction 1 as [|v l Hv Hl IH].
  - intros w. eexists. split; [done|]. by rewrite string_app_nil_r.
  - rewrite concat_map_cons. by apply writes_bind.
Qed.

#[export] Hint Resolve writes_string writes_flush : shore.

Ltac writes_tac :=
  lazymatch goal with
  | |- writes (mbind _ _) _ => eapply writes_bind; writes_tac
  | |- writes (WriteString _) _ => apply writes_string
  | |- writes (WriteByte _) _ => apply writes_string
  | |- writes Flush _ => apply writes_flush
  | |- _ => idtac
  end.

Ltac writes_text :=
  eapply writes_eq; [writes_tac|autorewrite with go_str; reflexivity].

Lemma writes_simple s : writes (writeSimpleString s) (encode (vSimple s)).
Proof. unfold writeSimpleString. writes_text. Qed.
Lemma writes_error s : writes (writeSimpleError s) (encode (vError s)).
Proof. unfold writeSimpleError. writes_text. Qed.
Lemma writes_int n : writes (writeInt n) (encode (vInt n)).
Proof. unfold writeInt. writes_text. Qed.
Lemma writes_bulk s : writes (writeBulkString s) (encode (vBulk s)).
Proof.
  rewrite encode_bulk. unfold writeBulkString. writes_text.
Qed.
Lemma writes_null : writes writeNull (encode vNull).
Proof. apply writes_string. Qed.
Lemma writes_array l :
  Forall (λ v, writes (Write v) (encode v)) l →
  writes (writeArray Write l) (encode (vArray l)).
Proof.
  intros Hl. rewrite encode_array. unfold writeArray.
  eapply writes_eq;
    [do 3 (eapply writes_bind; [apply writes_string|]); by apply writes_for_each|].
  done.
Qed.

Lemma writes_then_flush m s : writes m s → writes (_ ← m; Flush) s.
Proof.
  intros H. eapply writes_eq; [by apply writes_bind, writes_flush|].
  apply string_app_nil_r.
Qed.

Lemma Write_encode v : wire v → writes (Write v) (encode v).
Proof.
  induction v as [ty s n l IH] using Value_ind'. intros Hw.
  inversion Hw as [? Hs|? Hs|? Hn|? Hs| |? Hlen Hl]; subst.
  - apply (writes_then_flush _ _ (writes_simple s)).
  - apply (writes_then_flush _ _ (writes_error s)).
  - apply (writes_then_flush _ _ (writes_int n)).
  - apply (writes_then_flush _ _ (writes_bulk s)).
  - apply (writes_then_flush _ _ writes_null).
  - apply (writes_then_flush (writeArray Write l)), writes_array.
    rewrite list.Forall_forall in *. naive_solver.
Qed.

Lemma flush_last (m : M Writer ()) w w' :
  (_ ← m; Flush) w = (Ok (), w') → w_buf w' = "".
Proof. intros (? & ? & _ & [= <-])%bind_ok_inv. done. Qed.

(** After a complete write the buffer is empty: every value ends in a flush. *)
Lemma Write_flushed v w w' : wire v → Write v w = (Ok (), w') → w_buf w' = "".
Proof. intros Hw. inversion Hw; subst; apply flush_last. Qed.

Lemma Write_run v w :
  wire v → Write v w = (Ok (), mkWriter "" (w_out w +:+ w_buf w +:+ encode v)).
Proof.
  intros Hw. destruct (Write_encode v Hw w) as ([buf out] & Hrun & Hout).
  pose proof (Write_flushed _ _ _ Hw Hrun) as Hbuf. cbn in *. subst buf.
  rewrite string_app_nil_r, string_app_assoc in Hout. by rewrite Hrun, Hout.
Qed.

(** *** The parser reads [encode] back *)
Lemma ReadBytes_line s rest :
  LF ∉ bytes s → ReadBytes LF (s +:+ CRLF +:+ rest) = (Ok (s +:+ CRLF), rest).
Proof.
  induction s as [|c s IH]; [done|]. intros Hnin.
  unfold bytes in *. cbn in Hnin. rewrite not_elem_of_cons in Hnin.
  destruct Hnin as [Hc Hs]. rewrite !string_app_cons. cbn [ReadBytes].
  destruct (Ascii.eqb_spec c LF) as [->|_]; [done|]. by rewrite IH.
Qed.

Lemma readLine_ok s rest :
  LF ∉ bytes s → readLine (s +:+ CRLF +:+ rest) = (Ok s, rest).
Proof.
  intros Hs. unfold readLine.
  rewrite (bind_ok _ _ _ _ _ (ReadBytes_line s rest Hs)), string_length_app.
  change (String.length CRLF) with 2%nat.
  destruct (Z.ltb_spec (Z.of_nat (String.length s + 2)) 2); [lia|].
  replace (String.length s + 2 - 2)%nat with (String.length s) by lia.
  by rewrite str_take_app.
Qed.

Lemma Itoa_no_LF n : LF ∉ bytes (Itoa n).
Proof.
  pose proof (Itoa_bytes n) as H. rewrite list.Forall_forall in H.
  intros Hin. specialize (H _ Hin) as [H|H]; by vm_compute in H.
Qed.

Lemma readLine_Itoa n rest : readLine (Itoa n +:+ CRLF +:+ rest) = (Ok (Itoa n), rest).
Proof. apply readLine_ok, Itoa_no_LF. Qed.

Lemma ReadFull_ok s rest : ReadFull (slen s) (s +:+ rest) = (Ok s, rest).
Proof.
  unfold ReadFull. rewrite string_length_app.
  destruct (Z.leb_spec (slen s) (Z.of_nat (String.length s + String.length rest))); [|lia].
  by rewrite Nat2Z.id, str_take_app, str_drop_app.
Qed.

Lemma readBulkString_ok s rest :
  slen s ≤ maxAlloc →
  readBulkString (Itoa (slen s) +:+ CRLF +:+ s +:+ CRLF +:+ rest) = (Ok (vBulk s), rest).
Proof.
  intros Hs. unfold readBulkString.
  rewrite (bind_ok _ _ _ _ _ (readLine_Itoa _ _)).
  rewrite Atoi_Itoa by int_lia.
  destruct (Z.eqb_spec (slen s) (-1)); [lia|].
  rewrite (bind_ok _ _ _ _ _ (make_slice_ok 1 (slen s) _ ltac:(lia) ltac:(lia))).
  rewrite (bind_ok _ _ _ _ _ (ReadFull_ok _ _)).
  assert (Hnil : LF ∉ bytes "") by apply not_elem_of_nil.
  by rewrite (bind_ok _ _ _ _ _ (ReadBytes_line "" rest Hnil)).
Qed.

Lemma readElems_ok {A} (enc : A → string) (P : M string A) l : ∀ k i acc rest,
  (length l < k)%nat →
  Forall (λ v, ∀ rest, P (enc v +:+ rest) = (Ok v, rest)) l →
  readElems P k i (i + zlen l) acc (concat_map enc l +:+ rest) = (Ok (acc ++ l), rest).
Proof.
  induction l as [|v l IH]; intros k i acc rest Hk Hl.
  - destruct k as [|k]; [cbn in Hk; lia|]. cbn [readElems length].
    destruct (Z.ltb_spec i (i + Z.of_nat 0)); [lia|]. by rewrite app_nil_r.
  - destruct k as [|k]; [cbn in Hk; lia|]. inversion Hl as [|?? Hv Hl']; subst.
    cbn [readElems length] in *.
    destruct (Z.ltb_spec i (i + Z.of_nat (S (length l)))); [|lia].
    rewrite concat_map_cons, string_app_assoc.
    rewrite (bind_ok _ _ _ _ _ (Hv _)).
    replace (i + Z.of_nat (S (length l))) with ((i + 1) + zlen l) by lia.
    rewrite IH by (done || lia). by rewrite <-app_assoc.
Qed.

Lemma readArray_ok (P : M string Value) l rest :
  valueSize * zlen l ≤ maxAlloc →
  Forall (λ v, ∀ rest, P (encode v +:+ rest) = (Ok v, rest)) l →
  readArray P (Itoa (zlen l) +:+ CRLF +:+ encodes l +:+ rest) = (Ok (vArray l), rest).
Proof.
  unfold valueSize. intros Hlen Hl. unfold readArray.
  rewrite (bind_ok _ _ _ _ _ (readLine_Itoa _ _)).
  rewrite Atoi_Itoa by int_lia.
  destruct (Z.eqb_spec (zlen l) (-1)); [lia|].
  rewrite (bind_ok _ _ _ _ _ (make_slice_ok valueSize (zlen l) _ ltac:(lia) Hlen)), gets_bind.
  pose proof (encodes_length l).
  pose proof (readElems_ok encode P l (S (String.length (encodes l +:+ rest))) 0 [] rest) as He.
  rewrite string_length_app in *. rewrite Z.add_0_l in He.
  by rewrite (bind_ok _ _ _ _ _ (He ltac:(lia) Hl)).
Qed.

Lemma ParseFuel_encode v : ∀ fuel rest,
  wire v → (String.length (encode v) ≤ fuel)%nat →
  ParseFuel fuel (encode v +:+ rest) = (Ok v, rest).
Proof.
  induction v as [ty s n l IH] using Value_ind'. intros fuel rest Hw Hf.
  pose proof (encode_nonempty (mkValue ty s n l)).
  destruct fuel as [|fuel]; [lia|].
  inversion Hw as [? Hs|? Hs|? Hn|? Hs| |? Hlen Hl]; subst.
  - change (_ ← readLine; mret (vSimple _)) with readSimpleString.
    change (encode _) with (String SimpleString (s +:+ CRLF)).
    rewrite string_app_cons, string_app_assoc.
    change (readSimpleString (s +:+ CRLF +:+ rest) = (Ok (vSimple s), rest)).
    unfold readSimpleString. by rewrite (bind_ok _ _ _ _ _ (readLine_ok _ _ Hs)).
  - change (encode _) with (String SimpleError (s +:+ CRLF)).
    rewrite string_app_cons, string_app_assoc.
    change (readError (s +:+ CRLF +:+ rest) = (Ok (vError s), rest)).
    unfold readError. by rewrite (bind_ok _ _ _ _ _ (readLine_ok _ _ Hs)).
  - change (encode _) with (String Integer (Itoa n +:+ CRLF)).
    rewrite string_app_cons, string_app_assoc.
    change (readInt (Itoa n +:+ CRLF +:+ rest) = (Ok (vInt n), rest)).
    unfold readInt. rewrite (bind_ok _ _ _ _ _ (readLine_Itoa _ _)).
    by rewrite Atoi_Itoa.
  - fold (vBulk s). rewrite encode_bulk, string_app_cons, !string_app_assoc.
    change (readBulkString (Itoa (slen s) +:+ CRLF +:+ s +:+ CRLF +:+ rest) =
      (Ok (vBulk s), rest)).
    by apply readBulkString_ok.
  - change (encode _) with (String BulkString ("-1" +:+ CRLF)).
    rewrite string_app_cons, string_app_assoc. done.
  - fold (vArray l) in *. rewrite encode_array in *.
    rewrite string_app_cons, !string_app_assoc.
    change (readArray (ParseFuel fuel) (Itoa (zlen l) +:+ CRLF +:+ encodes l +:+ rest) =
      (Ok (vArray l), rest)).
    apply readArray_ok; [done|]. rewrite list.Forall_forall in *.
    intros v Hv rest'. apply IH; [done|by apply Hl|].
    pose proof (encodes_elem_length _ _ Hv). cbn in Hf.
    rewrite !string_length_app in Hf. lia.
Qed.

Lemma Parse_encode v rest : wire v → Parse (encode v +:+ rest) = (Ok v, rest).
Proof.
  intros Hw. apply ParseFuel_encode; [done|]. rewrite string_length_app. lia.
Qed.

(** ** More input never changes a conclusive answer

    [extends m1 m2]: what [m1] concludes on some input, [m2] concludes on any
    longer input, leaving the extra bytes unread. The end of the input
    ([io.EOF], [io.ErrUnexpectedEOF]) is the one answer that is not
    conclusive. *)
Definition conclusive {A} (r : res A) : Prop :=
  match r with
  | Ok _ | Err (errorf _) | Panic _ => True
  | _ => False
  end.

Definition extends {A} (m1 m2 : M string A) : Prop :=
  ∀ s t r s', m1 s = (r, s') → conclusive r → m2 (s +:+ t) = (r, s' +:+ t).

Lemma extends_ret {A} (a : A) : extends (mret a) (mret a).
Proof. intros s t r s' [= <- <-] _. done. Qed.

Lemma extends_raise {A} e : extends (A:=A) (raise e) (raise e).
Proof. intros s t r s' [= <- <-] _. done. Qed.

Lemma extends_bind {A B} (m1 m2 : M string A) (f1 f2 : A → M string B) :
  extends m1 m2 → (∀ a, extends (f1 a) (f2 a)) → extends (m1 ≫= f1) (m2 ≫= f2).
Proof.
  intros Hm Hf s t r s'. rewrite !bind_eq.
  destruct (m1 s) as [r1 s1] eqn:H1. specialize (Hm s t r1 s1 H1).
  destruct r1 as [a|[]| |]; intros Hrun Hc; simplify_eq/=; try done;
    rewrite Hm by done; [by eapply Hf|done..].
Qed.

Lemma extends_make_slice z n : extends (make_slice z n) (make_slice z n).
Proof.
  intros s t r s'. unfold make_slice. case_match; intros [= <- <-] _; done.
Qed.

Lemma extends_ReadByte : extends ReadByte ReadByte.
Proof. intros [|c s] t r s' [= <- <-] Hc; done. Qed.

Lemma extends_ReadBytes d : extends (ReadBytes d) (ReadBytes d).
Proof.
  intros s. induction s as [|c s IH]; intros t r s'; [by intros [= <- <-]|].
  rewrite string_app_cons. cbn. destruct (c =? d)%char; [by intros [= <- <-]|].
  destruct (ReadBytes d s) as [r1 s1]. specialize (IH t r1 s1 eq_refl).
  destruct r1 as [l|[]| |]; intros [= <- <-] Hc; try done; by rewrite IH.
Qed.

Lemma extends_ReadFull n : extends (ReadFull n) (ReadFull n).
Proof.
  intros s t r s'. unfold ReadFull.
  destruct (Z.leb_spec n (slen s)) as [Hle|Hgt].
  - intros [= <- <-] _. rewrite string_length_app.
    destruct (Z.leb_spec n (Z.of_nat (String.length s + String.length t))); [|lia].
    by rewrite str_take_app_le, str_drop_app_le by lia.
  - destruct (slen s =? 0); by intros [= <- <-].
Qed.

Lemma extends_readLine : extends readLine readLine.
Proof.
  unfold readLine. apply extends_bind; [apply extends_ReadBytes|intros l].
  case_match; [apply extends_raise|apply extends_ret].
Qed.

#[export] Hint Resolve extends_ret extends_raise extends_make_slice extends_ReadByte
  extends_ReadBytes extends_ReadFull extends_readLine : shore.

(** Follows the structure of a method down to its primitives. *)
Ltac extends_tac :=
  repeat first
    [ solve [auto with shore nocore]
    | apply extends_bind; [|intros ?]
    | progress case_match ].

Lemma extends_readElems {A} (P1 P2 : M string A) :
  extends P1 P2 → ∀ k1 k2 i len arr, (k1 ≤ k2)%nat →
  extends (readElems P1 k1 i len arr) (readElems P2 k2 i len arr).
Proof.
  intros HP k1. induction k1 as [|k1 IH]; intros k2 i len arr Hk.
  - by intros s t r s' [= <- <-].
  - destruct k2 as [|k2]; [lia|]. cbn [readElems]. case_match; [|apply extends_ret].
    apply extends_bind; [done|]. intros v. apply IH. lia.
Qed.

Lemma extends_left {B} (f1 f2 : nat → M string B) :
  (∀ k1 k2, (k1 ≤ k2)%nat → extends (f1 k1) (f2 k2)) →
  extends (gets (λ s, S (String.length s)) ≫= f1)
          (gets (λ s, S (String.length s)) ≫= f2).
Proof.
  intros Hf s t r s'. rewrite !gets_bind. apply Hf. rewrite string_length_app. lia.
Qed.

Lemma extends_readArray (P1 P2 : M string Value) :
  extends P1 P2 → extends (readArray P1) (readArray P2).
Proof.
  intros HP. unfold readArray. apply extends_bind; [auto with shore|intros l].
  destruct (Atoi l) as [n []]; [apply extends_raise|].
  case_match; [apply extends_ret|].
  apply extends_bind; [apply extends_make_slice|intros _].
  apply extends_left. intros k1 k2 Hk.
  apply extends_bind; [by apply extends_readElems|intros arr; apply extends_ret].
Qed.

Lemma ParseFuel_extends fuel1 : ∀ fuel2,
  (fuel1 ≤ fuel2)%nat → extends (ParseFuel fuel1) (ParseFuel fuel2).
Proof.
  induction fuel1 as [|fuel1 IH]; intros fuel2 Hle.
  { by intros s t r s' [= <- <-]. }
  destruct fuel2 as [|fuel2]; [lia|]. cbn [ParseFuel].
  apply extends_bind; [apply extends_ReadByte|intros p].
  repeat (case_match; [|]); try (apply extends_readArray, IH; lia).
  all: unfold readSimpleString, readBulkString, readInt, readError; extends_tac.
Qed.

Lemma Parse_extends : extends Parse Parse.
Proof.
  intros s t r s' H. unfold Parse in *. revert H. apply ParseFuel_extends.
  rewrite string_length_app. lia.
Qed.

(** ** Termination

    [consumes n strict m]: on an input of at most [n] bytes [m] does not run
    out of fuel, never hands back more input than it was given and, when
    [strict], takes at least one byte to produce a value. *)
Definition consumes {A} (n : nat) (strict : bool) (m : M string A) : Prop :=
  ∀ s r s', (String.length s ≤ n)%nat → m s = (r, s') →
    r ≠ NoFuel ∧ (String.length s' ≤ String.length s)%nat ∧
    (strict = true → ∀ a, r = Ok a → (String.length s' < String.length s)%nat).

Lemma consumes_bind {A B} n b1 b2 (m : M string A) (f : A → M string B) :
  consumes n b1 m → (∀ a, consumes n b2 (f a)) → consumes n (b1 || b2) (m ≫= f).
Proof.
  intros Hm Hf s r s' Hn. rewrite bind_eq. destruct (m s) as [r1 s1] eqn:H1.
  destruct (Hm _ _ _ Hn H1) as (Hr1 & Hle1 & Hst1).
  destruct r1 as [a|e|p|]; intros Hrun; simplify_eq; try (by repeat split).
  destruct (Hf a s1 r s' ltac:(lia) Hrun) as (Hr & Hle & Hst).
  split; [done|]. split; [lia|]. intros Hb a' ->.
  destruct b1; [specialize (Hst1 eq_refl a eq_refl); lia|].
  specialize (Hst Hb a' eq_refl). lia.
Qed.

Lemma consumes_weaken {A} n b (m : M string A) : consumes n b m → consumes n false m.
Proof. intros H s r s' Hn Hm. destruct (H s r s' Hn Hm) as (?&?&?). by repeat split. Qed.

Lemma consumes_ret {A} n (a : A) : consumes n false (mret a).
Proof. intros s r s' _ [= <- <-]. by repeat split. Qed.

Lemma consumes_raise {A} n e : consumes (A:=A) n true (raise e).
Proof. intros s r s' _ [= <- <-]. by repeat split. Qed.

Lemma consumes_make_slice n z k : consumes n false (make_slice z k).
Proof. intros s r s' _. unfold make_slice. case_match; intros [= <- <-]; by repeat split. Qed.

Lemma consumes_ReadByte n : consumes n true ReadByte.
Proof. intros [|c s] r s' _ [= <- <-]; cbn; repeat split; try done; lia. Qed.

Lemma consumes_ReadBytes n d : consumes n true (ReadBytes d).
Proof.
  intros s r s' _. revert r s'.
  induction s as [|c s IH]; intros r s'; cbn; [by intros [= <- <-]|].
  destruct (c =? d)%char; [intros [= <- <-]; repeat split; try done; lia|].
  destruct (ReadBytes d s) as [r1 s1]. destruct (IH r1 s1 eq_refl) as (?&?&?).
  destruct r1; intros [= <- <-]; repeat split; try done; lia.
Qed.

Lemma consumes_ReadFull n k : consumes n false (ReadFull k).
Proof.
  intros s r s' _. unfold ReadFull.
  repeat case_match; intros [= <- <-]; repeat split; try done; cbn; try lia.
  rewrite str_drop_length. lia.
Qed.

Lemma consumes_readLine n : consumes n true readLine.
Proof.
  apply (consumes_bind n true false); [apply consumes_ReadBytes|intros l].
  case_match; [eapply consumes_weaken, consumes_raise|apply consumes_ret].
Qed.

#[export] Hint Resolve consumes_ret consumes_raise consumes_make_slice consumes_ReadByte
  consumes_ReadBytes consumes_ReadFull consumes_readLine : shore.

Ltac consumes_tac :=
  repeat first
    [ solve [auto with shore nocore]
    | solve [eapply consumes_weaken; auto with shore nocore]
    | progress case_match
    | apply (consumes_bind _ true false); [solve [auto with shore nocore]|intros ?]
    | eapply consumes_weaken;
      apply (consumes_bind _ false false); [solve [auto with shore nocore]|intros ?]
    | eapply consumes_weaken;
      apply (consumes_bind _ true false); [solve [auto with shore nocore]|intros ?] ].

Lemma consumes_readElems {A} n (P : M string A) :
  consumes n true P → ∀ k i len arr s r s',
  (String.length s ≤ n)%nat → (String.length s < k)%nat →
  readElems P k i len arr s = (r, s') →
  r ≠ NoFuel ∧ (String.length s' ≤ String.length s)%nat.
Proof.
  intros HP k. induction k as [|k IH]; intros i len arr s r s' Hn Hk; [lia|].
  cbn [readElems]. destruct (i <? len); [|by intros [= <- <-]].
  rewrite bind_eq. destruct (P s) as [r1 s1] eqn:H1.
  destruct (HP _ _ _ Hn H1) as (Hr1 & Hle1 & Hst1).
  destruct r1 as [a|e|p|]; intros Hrun; simplify_eq; try done.
  specialize (Hst1 eq_refl a eq_refl).
  destruct (IH _ _ _ s1 r s' ltac:(lia) ltac:(lia) Hrun). split; [done|lia].
Qed.

Lemma consumes_readArray n (P : M string Value) :
  consumes n true P → consumes n true (readArray P).
Proof.
  intros HP. apply (consumes_bind n true false); [apply consumes_readLine|intros l].
  destruct (Atoi l) as [len []]; [eapply consumes_weaken, consumes_raise|].
  case_match; [apply consumes_ret|].
  apply (consumes_bind n false false); [apply consumes_make_slice|intros _].
  intros s r s' Hn. rewrite gets_bind, bind_eq.
  destruct (readElems _ _ _ _ _ _) as [r1 s1] eqn:H1.
  apply (consumes_readElems _ _ HP) in H1 as [Hr1 Hle1]; [|done|lia].
  destruct r1; intros [= <- <-]; by repeat split.
Qed.

Lemma ParseFuel_consumes fuel : ∀ n, (n < fuel)%nat → consumes n true (ParseFuel fuel).
Proof.
  induction fuel as [|fuel IH]; intros n Hn; [lia|].
  destruct n as [|n].
  { intros [|c s] r s' Hs; cbn in *; [by intros [= <- <-]|lia]. }
  assert (HP : consumes n true (ParseFuel fuel)) by (apply IH; lia).
  intros [|c s] r s' Hs; cbn [String.length] in *; [by intros [= <- <-]|].
  cbn [ParseFuel]. rewrite bind_eq. cbn [ReadByte]. intros Hrun.
  assert (Hbody : ∀ b m, consumes n b m → m s = (r, s') →
    r ≠ NoFuel ∧ (String.length s' ≤ S (String.length s))%nat ∧
    (true = true → ∀ a : Value, r = Ok a →
      (String.length s' < S (String.length s))%nat)).
  { intros b m Hm Hms. destruct (Hm s r s' ltac:(lia) Hms) as (?&?&?).
    repeat split; [done|lia|intros; lia]. }
  revert Hrun. repeat (case_match; [eapply Hbody|]); try eapply Hbody.
  3: by apply consumes_readArray.
  all: unfold readSimpleString, readBulkString, readInt, readError; consumes_tac.
Qed.

Lemma Parse_total s : (Parse s).1 ≠ NoFuel.
Proof.
  unfold Parse. destruct (ParseFuel _ s) as [r s'] eqn:Hrun.
  by eapply ParseFuel_consumes in Hrun as [? _]; [|apply Nat.lt_succ_diag_r|done].
Qed.

Lemma Parse_consumes s v s' :
  Parse s = (Ok v, s') → (String.length s' < String.length s)%nat.
Proof.
  intros Hrun. unfold Parse in Hrun.
  eapply ParseFuel_consumes in Hrun as (_ & _ & Hst);
    [|apply Nat.lt_succ_diag_r|done]. by eapply Hst.
Qed.

(** ** Everything the parser returns can be written again *)
Definition yields {S A} (P : A → Prop) (m : M S A) : Prop :=
  ∀ s a s', m s = (Ok a, s') → P a.

Lemma yields_bind {S A B} (Q : A → Prop) (P : B → Prop) (m : M S A) (f : A → M S B) :
  yields Q m → (∀ a, Q a → yields P (f a)) → yields P (m ≫= f).
Proof. intros Hm Hf s b s' (a & s1 & Ha & Hb)%bind_ok_inv. by apply (Hf a (Hm _ _ _ Ha) s1 b s'). Qed.

Lemma yields_any {S A} (m : M S A) : yields (λ _, True) m.
Proof. done. Qed.

Lemma ReadBytes_yields d s l s' :
  ReadBytes d s = (Ok l, s') → ∃ l0, l = l0 +:+ String d "" ∧ d ∉ bytes l0.
Proof.
  revert l s'. induction s as [|c s IH]; intros l s'; [done|]. cbn [ReadBytes].
  destruct (Ascii.eqb_spec c d) as [->|Hne].
  { intros [= <- <-]. exists "". split; [done|apply not_elem_of_nil]. }
  destruct (ReadBytes d s) as [[l1| | |] s1]; intros [= <- <-].
  destruct (IH _ _ eq_refl) as (l0 & -> & Hl0).
  exists (String c l0). split; [done|].
  unfold bytes in *. cbn. rewrite not_elem_of_cons. by split.
Qed.

Lemma str_take_bytes n s c : c ∉ bytes s → c ∉ bytes (str_take n s).
Proof.
  intros Hc Hin. apply Hc. rewrite <-(str_take_drop n s), bytes_app.
  apply elem_of_app. by left.
Qed.

Lemma readLine_yields : yields (λ l, LF ∉ bytes l) readLine.
Proof.
  unfold readLine. eapply yields_bind.
  { intros s l s'. apply (ReadBytes_yields LF). }
  intros l (l0 & -> & Hl0) s a s'. case_match; [done|]. intros [= <- <-].
  rewrite string_length_app. cbn [String.length].
  rewrite str_take_app_le by lia. by apply str_take_bytes.
Qed.

Lemma readBulkString_wire : yields wire readBulkString.
Proof.
  unfold readBulkString. eapply yields_bind; [apply readLine_yields|intros l _].
  destruct (Atoi l) as [n [e|]] eqn:Hn; [done|]. apply Atoi_in_int in Hn.
  case_match; [by intros s v s' [= <- <-]; constructor|].
  intros s v s'. unfold make_slice. destruct (Z.ltb_spec n 0), (Z.ltb_spec maxAlloc (1 * n)); try done.
  cbn [orb]. rewrite ret_bind. intros (buf & s1 & Hbuf & Hrest)%bind_ok_inv.
  apply bind_ok_inv in Hrest as (crlf & s2 & _ & [= <- <-]). constructor.
  unfold ReadFull in Hbuf. repeat case_match; simplify_eq.
  rewrite str_take_length. int_lia.
Qed.

Lemma readElems_yields {A} (P : A → Prop) (m : M string A) len k : ∀ i arr,
  yields P m → 0 ≤ len → i = zlen arr → i ≤ len → Forall P arr →
  yields (λ l, Forall P l ∧ zlen l = len) (readElems m k i len arr).
Proof.
  induction k as [|k IH]; intros i arr Hm Hlen -> Hi Harr; [done|]. cbn [readElems].
  destruct (Z.ltb_spec (zlen arr) len).
  - eapply yields_bind; [exact Hm|]. intros v Hv. apply IH; [done|done| |lia|].
    + rewrite length_app. cbn. lia.
    + by apply Forall_app_2; [|constructor].
  - intros s l s' [= <- <-]. split; [done|lia].
Qed.

Lemma readArray_wire (m : M string Value) : yields wire m → yields wire (readArray m).
Proof.
  intros Hm. unfold readArray. eapply yields_bind; [apply readLine_yields|intros l _].
  destruct (Atoi l) as [n [e|]] eqn:Hn; [done|]. apply Atoi_in_int in Hn.
  case_match; [by intros s v s' [= <- <-]; constructor|].
  intros s v s'. unfold make_slice. destruct (Z.ltb_spec n 0), (Z.ltb_spec maxAlloc (valueSize * n)); try done.
  cbn [orb]. rewrite ret_bind, gets_bind. intros (arr & s1 & Harr & [= <- <-])%bind_ok_inv.
  eapply readElems_yields in Harr as [Hall Hlen]; [|done..|constructor].
  constructor; [|done]. lia.
Qed.

Lemma ParseFuel_wire fuel : yields wire (ParseFuel fuel).
Proof.
  induction fuel as [|fuel IH]; [done|]. cbn [ParseFuel].
  eapply yields_bind; [apply yields_any|intros p _].
  case_match; [|case_match; [apply readBulkString_wire|]].
  { unfold readSimpleString. eapply yields_bind; [apply readLine_yields|].
    intros l Hl s v s' [= <- <-]. by constructor. }
  case_match; [by apply readArray_wire|].
  case_match; [|case_match; [|done]].
  - unfold readInt. eapply yields_bind; [apply yields_any|intros l _].
    destruct (Atoi l) as [n [e|]] eqn:Hn; [done|]. apply Atoi_in_int in Hn.
    intros s v s' [= <- <-]. by constructor.
  - unfold readError. eapply yields_bind; [apply readLine_yields|].
    intros l Hl s v s' [= <- <-]. by constructor.
Qed.

Lemma Parse_wire : yields wire Parse.
Proof. intros s. apply ParseFuel_wire. Qed.

(** A strict prefix of a value's text never parses to anything: the parser
    reports the end of the input. *)
Lemma Parse_prefix v p q :
  wire v → encode v = p +:+ q → q ≠ "" →
  (Parse p).1 = Err io_EOF ∨ (Parse p).1 = Err io_ErrUnexpectedEOF.
Proof.
  intros Hw Heq Hq.
  pose proof (Parse_encode v "" Hw) as Hfull. rewrite string_app_nil_r, Heq in Hfull.
  destruct (Parse p) as [r p'] eqn:Hp.
  assert (Hc : ¬ conclusive r).
  { intros Hc. rewrite (Parse_extends _ q _ _ Hp Hc) in Hfull.
    injection Hfull as _ Hnil. by apply string_app_nil_inv in Hnil as [_ ->]. }
  pose proof (Parse_total p) as Hnf. rewrite Hp in Hnf. cbn in *.
  destruct r as [|[]| |]; cbn in Hc; naive_solver.
Qed.

(** A length below -1, or above what can be allocated, reaches [make], which
    panics. *)
Definition bad_length (size n : Z) : Prop := n < -1 ∨ maxAlloc < size * n.

Section bad_length.
Context (n : Z) (rest : string) (Hi : in_int n).

Lemma make_slice_bad {S} size (s : S) : bad_length size n →
  make_slice size n s = (Panic "runtime error: makeslice: len out of range", s).
Proof.
  intros Hn. unfold make_slice. destruct (Z.ltb_spec n 0); [done|].
  destruct (Z.ltb_spec maxAlloc (size * n)); [done|]. destruct Hn; lia.
Qed.

Lemma readBulkString_bad : bad_length 1 n →
  readBulkString (Itoa n +:+ CRLF +:+ rest) =
    (Panic "runtime error: makeslice: len out of range", rest).
Proof using Hi.
  intros Hn. unfold readBulkString. rewrite (bind_ok _ _ _ _ _ (readLine_Itoa n rest)), Atoi_Itoa by done.
  destruct (Z.eqb_spec n (-1)); [unfold bad_length in Hn; int_lia|]. by rewrite bind_eq, make_slice_bad.
Qed.

Lemma readArray_bad P : bad_length valueSize n →
  readArray P (Itoa n +:+ CRLF +:+ rest) =
    (Panic "runtime error: makeslice: len out of range", rest).
Proof using Hi.
  intros Hn. unfold readArray. rewrite (bind_ok _ _ _ _ _ (readLine_Itoa n rest)), Atoi_Itoa by done.
  destruct (Z.eqb_spec n (-1)); [unfold bad_length, valueSize in Hn; int_lia|]. by rewrite bind_eq, make_slice_bad.
Qed.
End bad_length.
