(* ===== verification/SafeWriter.v ===== *)
(** * SafeWriter: replies and messages on one connection
    (safeWriter, handleConnection and handleSubscribe of src/pkg/server/tcp.go)

    The replies to a connection's commands are written by its own goroutine, the
    messages of each channel it is subscribed to by one of theirs. They share
    one [resp.Writer], whose buffer they fill piece by piece; [safeWriter] puts
    a mutex around each value. *)
From S2P Require Import Prelude Go Goroutine Locks Atomic Strconv Resp.
From Stdlib Require Import Ascii.

Abbreviation W := (task Writer).

(** ** [Write], with each call of the buffered writer a step of its own *)
Module Pieces.
Definition WriteString (s : string) : W () := do_step (Resp.WriteString s).
Definition WriteByte (c : ascii) : W () := do_step (Resp.WriteByte c).
Definition Flush : W () := do_step Resp.Flush.

Definition writeSimpleString (s : string) : W () :=
  _ ← WriteByte SimpleString; _ ← WriteString s; WriteString CRLF.

Definition writeInt (i : Z) : W () :=
  _ ← WriteByte Integer; _ ← WriteString (Itoa i); WriteString CRLF.

Definition writeBulkString (s : string) : W () :=
  _ ← WriteByte BulkString;
  _ ← WriteString (Itoa (slen s));
  _ ← WriteString CRLF;
  _ ← WriteString s;
  WriteString CRLF.

Definition writeSimpleError (s : string) : W () :=
  _ ← WriteByte SimpleError; _ ← WriteString s; WriteString CRLF.

Definition writeArray (Write : Value → W ()) (arr : list Value) : W () :=
  _ ← WriteByte Array;
  _ ← WriteString (Itoa (zlen arr));
  _ ← WriteString CRLF;
  task_for_each Write arr.

Definition writeNull : W () := WriteString ("$-1" +:+ CRLF).

Fixpoint Write (v : Value) : W () :=
  match v with
  | mkValue ty str num arr =>
      if (ty =? SimpleString)%char then _ ← writeSimpleString str; Flush
      else if (ty =? SimpleError)%char then _ ← writeSimpleError str; Flush
      else if (ty =? Integer)%char then _ ← writeInt num; Flush
      else if (ty =? BulkString)%char then _ ← writeBulkString str; Flush
      else if (ty =? Array)%char then _ ← writeArray Write arr; Flush
      else if (ty =? Null)%char then _ ← writeNull; Flush
      else do_step (raise (errorf ("unknown RESP type for serialization: " +:+ fmt_c ty)))
  end.
End Pieces.

(** The mutex of the [safeWriter]. *)
Definition writerMu : nat := 0.

(** It protects the writer; the goroutines share nothing else. *)
Abbreviation S := (() * Writer)%type.
#[export] Instance writer_guarded : Guarded S := one_mutex () Writer.
#[export] Instance writer_guarded_laws : GuardedLaws S := one_mutex_laws () Writer.

(** A goroutine that writes some values, each with [safeWriter.Write]. *)
Definition safe_writes (vs : list Value) : sections S () :=
  sections_for_each (λ v, SWrite writerMu (Pieces.Write v) SDone) vs.

(** [safeWriter.Write], as the first of them does it. *)
Definition safeWriter_Write (v : Value) : task S () :=
  write_locked writerMu (on_data writerMu (Pieces.Write v)).

(** The goroutines of a connection, each with the values it writes. *)
Definition connection (vss : list (list Value)) : Tasks S () :=
  mkTasks ((), mkWriter "" "") ∅ (map (locked ∘ safe_writes) vss).

(** [done] has been taken from the front of the lists, one at a time; [rest] is
    left. *)
Inductive pulled {A} (ls : list (list A)) : list A → list (list A) → Prop :=
  | pulled_none : pulled ls [] ls
  | pulled_next done rest i x l : pulled ls done rest → rest !! i = Some (x :: l) →
      pulled ls (done ++ [x]) (<[i := l]> rest).

(** ** Facts *)
Lemma task_alone_step {S A B} (m : M S A) (f : A → task S B) s a s' :
  m s = (Ok a, s') → task_alone (do_step m ≫= f) s = task_alone (f a) s'.
Proof. intros Hm. by rewrite task_alone_bind, (bind_ok _ _ _ a s') by (by rewrite task_alone_do). Qed.

(** The pieces in a row are [Resp.Write]. *)
Lemma Write_pieces v s : task_alone (Pieces.Write v) s = Resp.Write v s.
Proof.
  revert s. induction v as [ty str num arr IH] using Value_ind'; intros s.
  cbn [Pieces.Write Resp.Write].
  repeat case_match; try done.
  change (task_alone (Pieces.writeArray Pieces.Write arr ≫= λ _, Pieces.Flush) s =
          (writeArray Write arr ≫= λ _, Flush) s).
  rewrite task_alone_bind, !bind_eq.
  assert (task_alone (Pieces.writeArray Pieces.Write arr) s = writeArray Write arr s) as ->.
  { unfold Pieces.writeArray, writeArray. apply (task_alone_for_each Pieces.Write Write arr _ IH). }
  by destruct (writeArray Write arr s) as [[] ?].
Qed.

(** What has been written stays written. *)
Definition extends_out (w w' : Writer) : Prop := ∃ t, w_out w' = w_out w +:+ t.
#[export] Instance extends_out_order : PreOrder extends_out.
Proof.
  split; [intros w; exists ""; by rewrite string_app_nil_r|].
  intros w1 w2 w3 [t1 H1] [t2 H2]. exists (t1 +:+ t2). by rewrite H2, H1, string_app_assoc.
Qed.

(** The order on what the mutex protects. *)
Abbreviation out_order := (one_order (F:=()) extends_out).
Abbreviation plainW := (plain (S:=S) (l:=writerMu) out_order).

Lemma plain_bind {X Y} (p : W X) (f : X → W Y) : plainW p → (∀ x, plainW (f x)) → plainW (p ≫= f).
Proof.
  intros Hp Hf. induction p as [a|op k IH|Z m k IH]; [apply Hf|done|].
  destruct Hp as [Hm Hk]. split; [done|]. intros x. by apply IH.
Qed.

Lemma plain_do {X} (m : M Writer X) :
  (∀ s x s', m s = (Ok x, s') → extends_out s s') → plainW (do_step m).
Proof. intros Hm. by split. Qed.

Lemma plain_string s : plainW (Pieces.WriteString s).
Proof. apply plain_do. intros w [] w' [= <-]. exists "". cbn. by rewrite string_app_nil_r. Qed.

Lemma plain_byte c : plainW (Pieces.WriteByte c).
Proof. apply plain_string. Qed.

Lemma plain_flush : plainW Pieces.Flush.
Proof. apply plain_do. intros w [] w' [= <-]. by exists (w_buf w). Qed.

Lemma plain_for_each {X} (f : X → W ()) l : Forall (λ x, plainW (f x)) l → plainW (task_for_each f l).
Proof. induction 1 as [|x l Hx _ IH]; [done|]. by apply plain_bind. Qed.

Create HintDb plain discriminated.
#[local] Hint Resolve plain_bind plain_string plain_byte plain_flush plain_for_each : plain.

Lemma plain_Write v : plainW (Pieces.Write v).
Proof.
  induction v as [ty str num arr IH] using Value_ind'. cbn [Pieces.Write].
  unfold Pieces.writeSimpleString, Pieces.writeSimpleError, Pieces.writeInt, Pieces.writeBulkString,
    Pieces.writeArray, Pieces.writeNull.
  repeat case_match; auto 10 with plain. by apply plain_do.
Qed.

Lemma safe_writes_ok vs : Forall wire vs → sections_ok out_order (safe_writes vs).
Proof.
  induction 1 as [|v vs Hv Hvs IH]; [done|]. split_and!; [apply plain_Write| |done].
  intros w. exists (). eexists. rewrite Write_pieces. by apply Write_run.
Qed.

Lemma locked_writes v vs :
  locked (safe_writes (v :: vs)) = (_ ← safeWriter_Write v; locked (safe_writes vs)).
Proof. done. Qed.

Definition atomic_writes (vs : list Value) : prog S () := atomic (safe_writes vs).

Lemma pulled_wire vss done rest :
  Forall (Forall wire) vss → pulled vss done rest → Forall (Forall wire) rest.
Proof.
  intros Hvss Hp. induction Hp as [|done rest i x l _ IH Hi]; [done|].
  apply list.Forall_insert; [done|]. pose proof (list.Forall_lookup_1 _ _ _ _ IH Hi) as Hxl.
  by inversion Hxl.
Qed.

(** A turn of an atomic goroutine writes its next value. *)
Lemma pool_write_step vss done rest i x : Forall (Forall wire) vss → pulled vss done rest →
  pool_step i (((), mkWriter "" (encodes done)), map atomic_writes rest) = (Ok (), x) →
  ∃ done' rest', pulled vss done' rest' ∧
    x = (((), mkWriter "" (encodes done')), map atomic_writes rest').
Proof.
  intros Hvss Hp [[_ ->]|(p & p' & w & Hi & Hstep & ->)]%pool_step_run; [by exists done, rest|].
  rewrite list_lookup_fmap in Hi. destruct (rest !! i) as [[|v vs]|] eqn:Hr; [..|done]; injection Hi as <-.
  - injection Hstep as <- <-. exists done, rest. split; [done|]. rewrite list_insert_id; [done|].
    by rewrite list_lookup_fmap, Hr.
  - exists (done ++ [v]), (<[i := vs]> rest). split; [by eapply pulled_next|].
    pose proof (list.Forall_lookup_1 _ _ _ _ (pulled_wire _ _ _ Hvss Hp) Hr) as Hw.
    change (prog_step (atomic_writes (v :: vs)) ?s) with
      ((on_part (S:=S) writerMu (task_alone (Pieces.Write v)) ≫= λ _, mret (atomic_writes vs)) s) in Hstep.
    rewrite (bind_ok _ _ _ () ((), mkWriter "" (encodes (done ++ [v])))) in Hstep.
    + injection Hstep as <- <-. by rewrite list_fmap_insert.
    + unfold on_part, zoom. cbn [part put writer_guarded one_mutex writerMu fst snd].
      rewrite Write_pieces, Write_run by (by inversion Hw). cbn.
      by rewrite concat_map_app, concat_map_single.
Qed.

Lemma pool_writes vss turns : ∀ done rest x, Forall (Forall wire) vss → pulled vss done rest →
  pool_run turns (((), mkWriter "" (encodes done)), map atomic_writes rest) = (Ok (), x) →
  ∃ done' rest', pulled vss done' rest' ∧
    x = (((), mkWriter "" (encodes done')), map atomic_writes rest').
Proof.
  induction turns as [|i turns IH]; intros done rest x Hvss Hp.
  - intros [= <-]. by exists done, rest.
  - intros ([] & y & H1 & H2)%bind_ok_inv.
    destruct (pool_write_step vss done rest i y Hvss Hp H1) as (done1 & rest1 & Hp1 & ->).
    by eapply IH.
Qed.

(** C24: replies and messages do not mix on the wire. Whatever the goroutines of
    a connection write, piece by piece, and however they are scheduled, they are
    never deadlocked, and what has reached the client is the beginning of some
    whole values one after the other, and exactly these when nobody is inside
    [safeWriter.Write]: each goroutine's values in its order, none twice, and
    all of them when all goroutines are done. *)
Theorem replies_whole order vss :
  Forall (Forall wire) vss →
  ∃ c done rest, task_run order (connection vss) = (Ok (), c) ∧ ¬ deadlocked c ∧
    pulled vss done rest ∧ (∃ t, w_out (tk_data c).2 +:+ t = encodes done) ∧
    (lock_at (tk_locks c) writerMu ≠ mkRW 0 Writing → w_out (tk_data c).2 = encodes done) ∧
    (Forall (λ p, finished p = true) (tk_tasks c) →
     w_out (tk_data c).2 = encodes done ∧ Forall (λ vs, vs = []) rest).
Proof.
  intros Hvss.
  assert (Hok : Forall (sections_ok out_order) (map safe_writes vss)).
  { apply List.Forall_map. eapply list.Forall_impl; [exact Hvss|]. intros vs. apply safe_writes_ok. }
  pose proof (simulated_start out_order ((), mkWriter "" "") _ Hok) as Hsim.
  destruct (simulated_run out_order order _ _ _ Hsim) as (c & turns & w & qs & Hrun & Hpool & Hc).
  rewrite map_map in Hrun, Hpool.
  destruct (pool_writes vss turns [] vss _ Hvss (pulled_none vss) Hpool) as (done & rest & Hp & Hx).
  injection Hx as -> ->. exists c, done, rest.
  destruct (simulated_data _ _ _ _ Hc) as (_ & Hgrows & Hfree). destruct (Hgrows writerMu) as [t Ht]. cbn in Ht.
  split_and!; [done| |done|by exists t| |].
  - eapply ordered_progress; [|exact Hrun]. rewrite <-map_map. apply List.Forall_map.
    eapply list.Forall_impl; [exact Hok|]. intros p. apply (sections_ordered out_order).
  - intros Hmu. specialize (Hfree writerMu Hmu). cbn in Hfree. by rewrite Hfree.
  - intros Hfin. destruct (simulated_finished _ _ _ _ Hc Hfin) as [Hdata Hdone].
    specialize (Hdata writerMu). cbn in Hdata. split; [by rewrite Hdata|].
    apply list.Forall_lookup. intros i vs Hi.
    destruct (list.Forall2_lookup_r _ _ _ i (atomic_writes vs) Hdone) as (t' & _ & a & _ & Ha);
      [by rewrite list_lookup_fmap, Hi|]. by destruct vs.
Qed.

(** A reply to PUBLISH and a message, the scheduler changing its mind after every
    step. *)
Definition demo_reply : Value := vInt 1.
Definition demo_message : Value := vArray [vBulk "message"; vBulk "news"; vBulk "hello"].

Lemma demo_values : Forall (Forall wire) [[demo_reply]; [demo_message]].
Proof.
  constructor; [|constructor; [|constructor]]; (constructor; [|constructor]).
  - constructor. int_lia.
  - constructor; [by vm_compute|]. repeat (constructor; [constructor; by vm_compute|]). constructor.
Qed.

Lemma replies_whole_witness :
  Forall (Forall wire) [[demo_reply]; [demo_message]] ∧
  (∃ c done rest,
    task_run (concat (replicate 90 [0; 1]%nat)) (connection [[demo_reply]; [demo_message]]) = (Ok (), c) ∧
    ¬ deadlocked c ∧ pulled [[demo_reply]; [demo_message]] done rest ∧
    (∃ t, w_out (tk_data c).2 +:+ t = encodes done) ∧
    (lock_at (tk_locks c) writerMu ≠ mkRW 0 Writing → w_out (tk_data c).2 = encodes done) ∧
    (Forall (λ p, finished p = true) (tk_tasks c) →
     w_out (tk_data c).2 = encodes done ∧ Forall (λ vs, vs = []) rest)).
Proof.
  split; [apply demo_values|]. apply replies_whole, demo_values.
Defined.

(** Without the mutex the pieces mix. *)
Lemma mixed_without_mutex :
  let ps := [Pieces.Write demo_reply; Pieces.Write (vInt 2)] in
  w_out (tk_data (snd (task_run [0; 1; 0; 1; 0; 1; 0; 1]%nat (mkTasks (mkWriter "" "") ∅ ps)))) =
    "::12" +:+ CRLF +:+ CRLF.
Proof. by vm_compute. Qed.

(** A message may reach the client before the reply to its SUBSCRIBE: the
    goroutine that forwards messages starts before that reply is written. *)
Lemma message_before_reply :
  let subscribed := vArray [vBulk "subscribe"; vBulk "news"; vInt 1] in
  w_out (snd (tk_data (snd (task_run (concat (replicate 90 [1; 0]%nat))
    (connection [[subscribed]; [demo_message]]))))) = encode demo_message +:+ encode subscribed.
Proof. by vm_compute. Qed.
