(* ===== verification/DataStruct.v ===== *)
(** * DataStruct: the containers (src/pkg/datastruct/datastruct.go)

    [ListDS], [SetDS] and [HashDS] model [List], [Set] and [Hash]: the state of
    each is its one field, a method is a [Definition] over it. The mutex of a
    container makes each method one atomic step, so it has no counterpart here. *)
From S2P Require Import Prelude Go Strconv.
From Stdlib Require Import Ascii.

(** ** Integers of the package: [parseInt] and [intToString] *)
Definition IntConversionError : error := errorf "hash value is not an integer".

(** [for i := start; i < len(s); i++] with [result] kept at 64 bits. *)
Fixpoint parseInt_loop (s : string) (result : Z) : option Z :=
  match s with
  | "" => Some result
  | String c s' =>
      if negb (is_digit c) then None
      else parseInt_loop s' (wrap64 (wrap64 (result * 10) + digit_val c))
  end.

Definition parseInt (s : string) : Z + error :=
  match s with
  | "" => inl 0
  | String c s' =>
      let negative := (c =? "-")%char in
      let body := if negative then s' else if (c =? "+")%char then s' else s in
      match parseInt_loop body 0 with
      | None => inr IntConversionError
      | Some result => inl (if negative then wrap64 (- result) else result)
      end
  end.

(** [for n > 0 { digits = append(digits, '0'+n%10); n /= 10 }]; 20 rounds are
    enough for 64 bits. *)
Fixpoint digits_loop (fuel : nat) (n : Z) (digits : list ascii) : option (list ascii) :=
  match fuel with
  | O => None
  | S fuel' =>
      if n >? 0 then
        digits_loop fuel' (Z.quot n 10) (digits ++ [digit_char (Z.rem n 10)])
      else Some digits
  end.

(** [digits[i], digits[len-1-i] = digits[len-1-i], digits[i]]. *)
Definition swap_ends (i : nat) (digits : list ascii) : list ascii :=
  let j := (length digits - 1 - i)%nat in
  match digits !! i, digits !! j with
  | Some x, Some y => <[j := x]> (<[i := y]> digits)
  | _, _ => digits
  end.

(** [for i := 0; i < len(digits)/2; i++]; [k] is the number of rounds left. *)
Fixpoint swap_loop (k i : nat) (digits : list ascii) : list ascii :=
  match k with
  | O => digits
  | S k' => swap_loop k' (S i) (swap_ends i digits)
  end.

Definition intToString (n : Z) : option string :=
  if n =? 0 then Some "0" else
  let negative := n <? 0 in
  let n := if negative then wrap64 (- n) else n in
  digits ← digits_loop 20 n [];
  let digits := swap_loop (length digits / 2) 0 digits in
  let s := String.string_of_list_ascii digits in
  Some (if negative then "-" +:+ s else s).

(** ** List *)
Module ListDS.
(** The state is the field [items]. *)
Definition NewList : list string := [].

Definition LPush (values : list string) : M (list string) Z :=
  _ ← for_each (λ value, modify (λ items, value :: items)) values;
  gets (λ items, zlen items).

Definition RPush (values : list string) : M (list string) Z :=
  _ ← modify (λ items, items ++ values);
  gets (λ items, zlen items).

Definition LPop : M (list string) (string * bool) :=
  items ← gets id;
  if zlen items =? 0 then mret ("", false) else
  value ← go_index items 0;
  items' ← go_slice items 1 (zlen items);
  _ ← modify (λ _, items');
  mret (value, true).

Definition RPop : M (list string) (string * bool) :=
  items ← gets id;
  if zlen items =? 0 then mret ("", false) else
  value ← go_index items (zlen items - 1);
  items' ← go_slice items 0 (zlen items - 1);
  _ ← modify (λ _, items');
  mret (value, true).

Definition LRange (start stop : Z) : M (list string) (list string) :=
  items ← gets id;
  let length := zlen items in
  if length =? 0 then mret [] else
  let start := if start <? 0 then wrap64 (length + start) else start in
  let stop := if stop <? 0 then wrap64 (length + stop) else stop in
  let start := if start <? 0 then 0 else start in
  let stop := if stop >=? length then length - 1 else stop in
  if (start >? stop) || (start >=? length) then mret [] else
  _ ← make_part (wrap64 (stop - start + 1));
  go_slice items start (wrap64 (stop + 1)).

Definition LLen : M (list string) Z := gets (λ items, zlen items).

Definition LIndex (index : Z) : M (list string) (string * bool) :=
  items ← gets id;
  let length := zlen items in
  let index := if index <? 0 then wrap64 (length + index) else index in
  if (index <? 0) || (index >=? length) then mret ("", false) else
  value ← go_index items index;
  mret (value, true).

Definition LSet (index : Z) (value : string) : M (list string) bool :=
  items ← gets id;
  let length := zlen items in
  let index := if index <? 0 then wrap64 (length + index) else index in
  if (index <? 0) || (index >=? length) then mret false else
  _ ← modify (λ items, <[Z.to_nat index := value]> items);
  mret true.

(** The bodies of the three loops of [LRem]; the locals are [removed] and
    [newItems]. *)
Definition LRem_all (value : string) (b : Z * list string) (item : string) :=
  let '(removed, newItems) := b in
  if bool_decide (item ≠ value) then (removed, newItems ++ [item])
  else (removed + 1, newItems).
Definition LRem_head (count : Z) (value : string) (b : Z * list string) (item : string) :=
  let '(removed, newItems) := b in
  if bool_decide (item = value) && (removed <? count) then (removed + 1, newItems)
  else (removed, newItems ++ [item]).
Definition LRem_tail (count : Z) (value : string) (b : Z * list string) (item : string) :=
  let '(removed, newItems) := b in
  if bool_decide (item = value) && (removed <? count) then (removed + 1, newItems)
  else (removed, item :: newItems).

Definition LRem (count : Z) (value : string) : M (list string) Z :=
  items ← gets id;
  let '(removed, newItems) :=
    if count =? 0 then foldl (LRem_all value) (0, []) items
    else if count >? 0 then foldl (LRem_head count value) (0, []) items
    else
      let count := wrap64 (- count) in
      foldl (LRem_tail count value) (0, []) (reverse items) in
  _ ← modify (λ _, newItems);
  mret removed.
End ListDS.

(** ** Set *)
Module SetDS.
(** The state is the field [items], a [map[string]struct{}]. A method that
    ranges over a map runs over the serial number of that [range]. *)
Definition NewSet : gmap string () := ∅.

Definition SAdd (members : list string) : M (gmap string ()) Z :=
  for_fold (λ added member items,
    match items !! member with
    | None => (Ok (added + 1), <[member := ()]> items)
    | Some _ => (Ok added, items)
    end) 0 members.

Definition SRem (members : list string) : M (gmap string ()) Z :=
  for_fold (λ removed member items,
    match items !! member with
    | Some _ => (Ok (removed + 1), delete member items)
    | None => (Ok removed, items)
    end) 0 members.

Definition SIsMember (items : gmap string ()) (member : string) : bool :=
  bool_decide (is_Some (items !! member)).

Definition SCard (items : gmap string ()) : Z := Z.of_nat (size items).

Section range.
Context `{GoEnv}.

Definition SMembers (items : gmap string ()) : M nat (list string) :=
  n ← tick;
  mret (map_range n items).*1.

(** The body of the [for] returns on its first round. *)
Definition SPop : M (nat * gmap string ()) (string * bool) := λ '(n, items),
  if Z.of_nat (size items) =? 0 then (Ok ("", false), (n, items)) else
  match map_range n items with
  | (member, _) :: _ => (Ok (member, true), (S n, delete member items))
  | [] => (Ok ("", false), (S n, items))
  end.

(** [inAll] after the inner loop, which stops at the first miss. *)
Definition SInter (items : gmap string ()) (others : list (gmap string ())) :
    M nat (list string) :=
  match others with
  | [] => SMembers items
  | _ =>
      n ← tick;
      mret (List.filter (λ member, forallb (λ other, SIsMember other member) others)
              (map_range n items).*1)
  end.

Definition SUnion (items : gmap string ()) (others : list (gmap string ())) :
    M nat (list string) :=
  n ← tick;
  let seen := foldl (λ seen member, <[member := ()]> seen) ∅ (map_range n items).*1 in
  seen ← for_fold (λ seen other,
           members ← SMembers other;
           mret (foldl (λ seen member, <[member := ()]> seen) seen members)) seen others;
  n ← tick;
  mret (map_range n seen).*1.

(** [inOther] after the inner loop, which stops at the first hit. *)
Definition SDiff (items : gmap string ()) (others : list (gmap string ())) :
    M nat (list string) :=
  n ← tick;
  mret (List.filter (λ member, negb (existsb (λ other, SIsMember other member) others))
          (map_range n items).*1).
End range.
End SetDS.

(** ** Hash *)
Module HashDS.
(** The state is the field [fields]. *)
Definition NewHash : gmap string string := ∅.

Definition HSet (field value : string) : M (gmap string string) bool :=
  exists_ ← gets (λ fields, bool_decide (is_Some (fields !! field)));
  _ ← modify (<[field := value]>);
  mret (negb exists_).

Definition HGet (fields : gmap string string) (field : string) : string * bool :=
  match fields !! field with Some value => (value, true) | None => ("", false) end.

Definition HDel (names : list string) : M (gmap string string) Z :=
  for_fold (λ deleted field fields,
    match fields !! field with
    | Some _ => (Ok (deleted + 1), delete field fields)
    | None => (Ok deleted, fields)
    end) 0 names.

Definition HExists (fields : gmap string string) (field : string) : bool :=
  bool_decide (is_Some (fields !! field)).

Definition HLen (fields : gmap string string) : Z := Z.of_nat (size fields).

Section range.
Context `{GoEnv}.

(** A copy of the map, filled in the order of the [range]. *)
Definition HGetAll (fields : gmap string string) : M nat (gmap string string) :=
  n ← tick;
  mret (foldl (λ result '(k, v), <[k := v]> result) ∅ (map_range n fields)).

Definition HKeys (fields : gmap string string) : M nat (list string) :=
  n ← tick;
  mret (map_range n fields).*1.

Definition HVals (fields : gmap string string) : M nat (list string) :=
  n ← tick;
  mret (map_range n fields).*2.

Definition HMSet (pairs : gmap string string) : M (nat * gmap string string) () :=
  λ '(n, fields),
    (Ok (), (S n, foldl (λ fields '(field, value), <[field := value]> fields) fields
                    (map_range n pairs))).
End range.

Definition HMGet (fields : gmap string string) (names : list string) : list string :=
  map (λ field, match fields !! field with Some value => value | None => "" end) names.

Definition HIncrBy (field : string) (increment : Z) : M (gmap string string) Z :=
  fields ← gets id;
  current ← (match fields !! field with
             | Some value =>
                 match parseInt value with
                 | inl current => mret current
                 | inr err => raise err
                 end
             | None => mret 0
             end : M (gmap string string) Z);
  let newValue := wrap64 (current + increment) in
  match intToString newValue with
  | Some s => _ ← modify (<[field := s]>); mret newValue
  | None => out_of_fuel
  end.
End HashDS.

(** ** [parseInt] agrees with [strconv.Atoi] where [Atoi] succeeds *)
Lemma wrap64_eq x y : x mod 2 ^ 64 = y mod 2 ^ 64 → wrap64 x = wrap64 y.
Proof.
  intros H. unfold wrap64. f_equal.
  rewrite (Z.add_mod x), (Z.add_mod y), H by lia. done.
Qed.

Lemma wrap64_mod z : wrap64 z mod 2 ^ 64 = z mod 2 ^ 64.
Proof.
  unfold wrap64. rewrite Zminus_mod_idemp_l. f_equal. lia.
Qed.

Lemma wrap64_step a d : wrap64 (wrap64 (wrap64 a * 10) + d) = wrap64 (a * 10 + d).
Proof.
  apply wrap64_eq. rewrite Z.add_mod, wrap64_mod, Z.mul_mod, wrap64_mod by lia.
  by rewrite <-Z.mul_mod, <-Z.add_mod by lia.
Qed.

Lemma wrap64_opp a : wrap64 (- wrap64 a) = wrap64 (- a).
Proof.
  apply wrap64_eq. rewrite <-!(Z.sub_0_l _), Zminus_mod, wrap64_mod, <-Zminus_mod. done.
Qed.

Lemma parseInt_loop_digits s a :
  all_digits s = true → parseInt_loop s (wrap64 a) = Some (wrap64 (dec_value s a)).
Proof.
  revert a. induction s as [|c s IH]; intros a; [done|].
  cbn. rewrite andb_true_iff. intros [-> Hs]. cbn. by rewrite wrap64_step, IH.
Qed.

Lemma parseInt_loop_None s a :
  all_digits s = false → parseInt_loop s a = None.
Proof.
  revert a. induction s as [|c s IH]; intros a; [done|]. cbn.
  destruct (is_digit c); cbn; [apply IH|done].
Qed.

Lemma parseInt_signed s neg d :
  signed_digits s neg d → d ≠ "" → all_digits d = true →
  parseInt s = inl (wrap64 (if neg then - dec_value d 0 else dec_value d 0)).
Proof.
  intros Hs Hne Hd.
  assert (Hloop : parseInt_loop d 0 = Some (wrap64 (dec_value d 0))).
  { by apply (parseInt_loop_digits d 0). }
  destruct Hs as [-> | [-> ->]].
  - destruct neg.
    + cbn. rewrite Hloop. cbn. by rewrite wrap64_opp.
    + destruct d as [|c d]; [done|]. pose proof Hd as Hd'.
      cbn in Hd'. apply andb_true_iff in Hd' as [Hc _].
      destruct (is_digit_not_sign c Hc) as [Hm Hp].
      unfold parseInt. rewrite Hm, Hp. by rewrite Hloop.
  - cbn. by rewrite Hloop.
Qed.

Lemma parseInt_Atoi s n : Atoi s = (n, None) → parseInt s = inl n.
Proof.
  intros (neg & d & Hs & Hne & Hd & Hn & Hin)%Atoi_inv.
  rewrite (parseInt_signed s neg d) by done. by rewrite <-Hn, wrap64_small.
Qed.

(** ** [intToString] is [strconv.Itoa] on all but one integer *)
Lemma swap_ends_length i l : length (swap_ends i l) = length l.
Proof. unfold swap_ends. repeat case_match; by rewrite ?length_insert. Qed.

Lemma swap_ends_lookup i l j :
  (i < length l)%nat →
  swap_ends i l !! j =
    if decide (j = i ∨ j = (length l - 1 - i)%nat)
    then l !! (length l - 1 - j)%nat else l !! j.
Proof.
  intros Hi. unfold swap_ends.
  destruct (lookup_lt_is_Some_2 l i Hi) as [x Hx].
  destruct (lookup_lt_is_Some_2 l (length l - 1 - i)) as [y Hy]; [lia|].
  rewrite Hx, Hy. destruct (decide (j = (length l - 1 - i)%nat)) as [->|Hne].
  - rewrite list_lookup_insert_eq by (rewrite length_insert; lia).
    rewrite decide_True by auto.
    by replace (length l - 1 - (length l - 1 - i))%nat with i by lia.
  - rewrite list_lookup_insert_ne by done.
    destruct (decide (j = i)) as [->|Hne'].
    + rewrite list_lookup_insert_eq by done. by rewrite decide_True by auto.
    + rewrite list_lookup_insert_ne by done. by rewrite decide_False by tauto.
Qed.

Lemma swap_loop_lookup k : ∀ i l j,
  (i + k)%nat = (length l / 2)%nat →
  swap_loop k i l !! j =
    if decide (i ≤ j ∧ j < length l - i)%nat
    then l !! (length l - 1 - j)%nat else l !! j.
Proof.
  pose proof (λ n, Nat.Div0.mul_div_le n 2) as Hdiv.
  induction k as [|k IH]; intros i l j Hik; cbn [swap_loop].
  - pose proof (Nat.div_mod_eq (length l) 2).
    pose proof (Nat.mod_upper_bound (length l) 2).
    case_decide; [|done]. f_equal. lia.
  - specialize (Hdiv (length l)).
    rewrite IH by (rewrite swap_ends_length; lia).
    rewrite swap_ends_length, !swap_ends_lookup by lia.
    repeat case_decide; try lia; try (f_equal; lia).
Qed.

Lemma swap_loop_reverse l : swap_loop (length l / 2) 0 l = reverse l.
Proof.
  apply list_eq. intros j. rewrite swap_loop_lookup by done.
  case_decide as Hj.
  - rewrite reverse_lookup by lia. f_equal. lia.
  - rewrite !lookup_ge_None_2; [done|rewrite length_reverse; lia|lia].
Qed.

Lemma string_of_list_ascii_app l1 l2 :
  String.string_of_list_ascii (l1 ++ l2) =
  String.string_of_list_ascii l1 +:+ String.string_of_list_ascii l2.
Proof. induction l1 as [|c l1 IH]; [done|]. cbn. by rewrite IH, string_app_cons. Qed.

(** The loop of [intToString] produces the digits of [dec_loop] backwards. *)
Lemma digits_loop_dec fuel : ∀ n ds,
  0 < n < 10 ^ Z.of_nat fuel →
  ∃ ds', digits_loop (S fuel) n ds = Some ds' ∧
    String.string_of_list_ascii (reverse ds') =
      dec_loop fuel n (String.string_of_list_ascii (reverse ds)).
Proof.
  induction fuel as [|fuel IH]; intros n ds Hn; [cbn in Hn; lia|].
  cbn [digits_loop]. rewrite Z.gtb_ltb. destruct (Z.ltb_spec 0 n); [|lia].
  rewrite Z.quot_div_nonneg, Z.rem_mod_nonneg by lia.
  cbn [dec_loop]. destruct (Z.ltb_spec n 10) as [Hlt|Hge].
  - exists (ds ++ [digit_char n]).
    rewrite Z.div_small, Z.mod_small by lia.
    split; [by destruct fuel|]. by rewrite reverse_snoc.
  - rewrite Nat2Z.inj_succ, Z.pow_succ_r in Hn by lia.
    destruct (IH (n / 10) (ds ++ [digit_char (n mod 10)])) as (ds' & Hrun & Heq).
    { split; [apply Z.div_str_pos; lia|]. apply Z.div_lt_upper_bound; lia. }
    exists ds'. split; [exact Hrun|]. by rewrite Heq, reverse_snoc.
Qed.

Lemma dec_loop_fuel f1 : ∀ f2 n acc,
  0 ≤ n < 10 ^ Z.of_nat f1 → 0 ≤ n < 10 ^ Z.of_nat f2 → 0 < n →
  dec_loop f1 n acc = dec_loop f2 n acc.
Proof.
  induction f1 as [|f1 IH]; intros f2 n acc H1 H2 Hn; [cbn in H1; lia|].
  destruct f2 as [|f2]; [cbn in H2; lia|]. cbn [dec_loop].
  destruct (Z.ltb_spec n 10); [done|].
  rewrite Nat2Z.inj_succ, Z.pow_succ_r in H1, H2 by lia.
  pose proof (Z.div_str_pos n 10 ltac:(lia)).
  apply IH; [split|split|]; try lia; apply Z.div_lt_upper_bound; lia.
Qed.

Lemma FormatUint_fuel n f :
  0 < n < 10 ^ Z.of_nat f → FormatUint n = dec_loop f n "".
Proof.
  intros Hn. unfold FormatUint. apply dec_loop_fuel; [|lia..].
  split; [lia|]. rewrite Nat2Z.inj_succ, Z2Nat.id by apply Z.log2_nonneg.
  destruct (Z.log2_spec n ltac:(lia)) as [_ Hlt].
  eapply Z.lt_le_trans; [exact Hlt|]. apply Z.pow_le_mono_l.
  pose proof (Z.log2_nonneg n). lia.
Qed.

Lemma digits_loop_format n :
  0 < n ≤ maxInt → ∃ ds, digits_loop 20 n [] = Some ds ∧
    String.string_of_list_ascii (swap_loop (length ds / 2) 0 ds) = FormatUint n.
Proof.
  intros Hn. assert (maxInt < 10 ^ 19) as Hmax by (vm_compute; done).
  destruct (digits_loop_dec 19 n []) as (ds & Hrun & Heq); [cbn in *; lia|].
  exists ds. split; [done|]. rewrite swap_loop_reverse, Heq.
  symmetry. apply FormatUint_fuel. cbn in *. lia.
Qed.

Lemma intToString_Itoa n : in_int n → n ≠ minInt → intToString n = Some (Itoa n).
Proof.
  intros Hn Hmin. unfold intToString, Itoa.
  destruct (Z.eqb_spec n 0) as [->|Hz]; [done|].
  destruct (Z.ltb_spec n 0) as [Hneg|Hpos].
  - rewrite wrap64_small by int_lia.
    destruct (digits_loop_format (- n)) as (ds & -> & Heq); [int_lia|].
    cbn [mbind option_bind]. by rewrite Heq.
  - destruct (digits_loop_format n) as (ds & -> & Heq); [int_lia|].
    cbn [mbind option_bind]. by rewrite Heq.
Qed.

Lemma intToString_total n : in_int n → is_Some (intToString n).
Proof.
  intros Hn. destruct (decide (n = minInt)) as [->|Hne]; [by eexists|].
  rewrite intToString_Itoa by done. by eexists.
Qed.

Lemma parseInt_intToString n s :
  in_int n → n ≠ minInt → intToString n = Some s → parseInt s = inl n.
Proof.
  intros Hn Hne. rewrite intToString_Itoa by done. intros [= <-].
  by apply parseInt_Atoi, Atoi_Itoa.
Qed.

(** ** List: functional behaviour *)
Module ListFacts.
Import ListDS.
Implicit Types (l values : list string) (v : string).

Lemma LPush_spec values l :
  LPush values l = (Ok (zlen values + zlen l), reverse values ++ l).
Proof.
  unfold LPush.
  assert (Heq : foldl (flip (λ value items, value :: items)) l values = reverse values ++ l).
  { revert l. induction values as [|v values IH]; intros l; [done|].
    cbn [foldl]. rewrite IH, reverse_cons, <-app_assoc. done. }
  rewrite (bind_ok _ _ _ () (reverse values ++ l))
    by (rewrite for_each_modify; f_equal; exact Heq).
  run. rewrite length_app, length_reverse. do 2 f_equal. lia.
Qed.

Lemma RPush_spec values l :
  RPush values l = (Ok (zlen l + zlen values), l ++ values).
Proof. unfold RPush. run. rewrite length_app. do 2 f_equal. lia. Qed.

Lemma LPop_nil : LPop [] = (Ok ("", false), []).
Proof. done. Qed.

Lemma LPop_cons v l : LPop (v :: l) = (Ok (v, true), l).
Proof.
  unfold LPop. run. destruct (Z.eqb_spec (zlen (v :: l)) 0); [done|].
  rewrite (bind_ok _ _ _ _ _ (go_index_ok (v :: l) 0 v _ ltac:(done) eq_refl)).
  rewrite (bind_ok _ _ _ _ _ (go_slice_ok (v :: l) 1 (zlen (v :: l)) _
    ltac:(lia) ltac:(cbn; lia) ltac:(lia))).
  run. cbn [id]. replace (Z.to_nat (zlen (v :: l) - 1)) with (length l) by (cbn; lia).
  change (drop (Z.to_nat 1) (v :: l)) with l. by rewrite firstn_all.
Qed.

Lemma RPop_nil : RPop [] = (Ok ("", false), []).
Proof. done. Qed.

Lemma RPop_snoc l v : RPop (l ++ [v]) = (Ok (v, true), l).
Proof.
  unfold RPop. run. destruct (Z.eqb_spec (zlen (l ++ [v])) 0) as [H|_].
  { rewrite length_app in H. cbn in H. lia. }
  assert (Hlen : zlen (l ++ [v]) - 1 = zlen l) by (rewrite length_app; cbn; lia).
  cbn [id]. rewrite Hlen.
  rewrite (bind_ok _ _ _ _ _ (go_index_ok (l ++ [v]) (zlen l) v _ ltac:(lia)
    ltac:(by rewrite Nat2Z.id; apply list_lookup_middle))).
  rewrite (bind_ok _ _ _ _ _ (go_slice_ok (l ++ [v]) 0 (zlen l) _
    ltac:(lia) ltac:(lia) ltac:(lia))).
  run. by rewrite Z.sub_0_r, Nat2Z.id, drop_0, take_app_length.
Qed.

(** Position of an index of the Redis protocol: negative ones count from the
    end. *)
Definition norm (len i : Z) : Z := if i <? 0 then len + i else i.

(** What LRANGE promises: the elements at positions [norm start] to
    [norm stop], both clipped to the list. *)
Definition range_spec (start stop : Z) l : list string :=
  let lo := Z.max 0 (norm (zlen l) start) in
  take (Z.to_nat (norm (zlen l) stop - lo + 1)) (drop (Z.to_nat lo) l).

Lemma norm_in_int len i :
  0 ≤ len ≤ maxInt → in_int i → in_int (norm len i) ∧
  (if i <? 0 then wrap64 (len + i) else i) = norm len i.
Proof.
  intros Hlen Hi. unfold norm. destruct (Z.ltb_spec i 0); [|done].
  split; [int_lia|]. apply wrap64_small. int_lia.
Qed.

Lemma LRange_spec start stop l :
  in_int start → in_int stop → zlen l < maxInt →
  LRange start stop l = (Ok (range_spec start stop l), l).
Proof.
  intros Hs Hp Hl. unfold LRange. run. cbn [id].
  destruct (Z.eqb_spec (zlen l) 0) as [H0|H0].
  { destruct l; [|done]. unfold range_spec. by rewrite drop_nil, take_nil. }
  destruct (norm_in_int (zlen l) start) as [Hns ->]; [lia|done|].
  destruct (norm_in_int (zlen l) stop) as [Hnp ->]; [lia|done|].
  unfold range_spec. set (s := norm (zlen l) start) in *. set (p := norm (zlen l) stop) in *.
  replace (if s <? 0 then 0 else s) with (Z.max 0 s)
    by (destruct (Z.ltb_spec s 0); lia).
  replace (if p >=? zlen l then zlen l - 1 else p) with (Z.min p (zlen l - 1))
    by (rewrite Z.geb_leb; destruct (Z.leb_spec (zlen l) p); lia).
  rewrite Z.gtb_ltb, Z.geb_leb.
  destruct (Z.ltb_spec (Z.min p (zlen l - 1)) (Z.max 0 s)) as [Hlt|Hge]; cbn [orb].
  { run. do 2 f_equal.
    destruct (decide (p < Z.max 0 s)) as [Hps|Hps].
    - replace (Z.to_nat (p - Z.max 0 s + 1)) with 0%nat by lia. by rewrite take_0.
    - rewrite drop_ge by lia. by rewrite take_nil. }
  destruct (Z.leb_spec (zlen l) (Z.max 0 s)) as [Hge'|Hlt']; [lia|].
  rewrite !wrap64_small by int_lia.
  rewrite (bind_ok _ _ _ _ _ (make_part_ok (Z.min p (zlen l - 1) - Z.max 0 s + 1) _
    ltac:(lia))).
  rewrite go_slice_ok by lia. do 2 f_equal.
  destruct (decide (p ≤ zlen l - 1)).
  - f_equal. lia.
  - rewrite !take_ge; [done|rewrite length_drop; lia..].
Qed.

Lemma LRange_all l : zlen l < maxInt → LRange 0 (-1) l = (Ok l, l).
Proof.
  intros Hl. rewrite LRange_spec by (done || int_lia). do 2 f_equal.
  unfold range_spec, norm. cbn [Z.ltb Z.compare Z.max]. rewrite drop_0.
  apply take_ge. lia.
Qed.

Lemma LIndex_spec i l :
  in_int i → zlen l ≤ maxInt →
  LIndex i l =
    (Ok (match (if norm (zlen l) i <? 0 then None else l !! Z.to_nat (norm (zlen l) i)) with
         | Some v => (v, true) | None => ("", false) end), l).
Proof.
  intros Hi Hl. unfold LIndex. run. cbn [id].
  destruct (norm_in_int (zlen l) i) as [Hn ->]; [lia|done|].
  set (k := norm (zlen l) i) in *. rewrite Z.geb_leb.
  destruct (Z.ltb_spec k 0); [done|]. cbn [orb].
  destruct (Z.leb_spec (zlen l) k).
  - by rewrite lookup_ge_None_2 by lia.
  - destruct (lookup_lt_is_Some_2 l (Z.to_nat k)) as [v Hv]; [lia|].
    rewrite Hv. by rewrite (bind_ok _ _ _ _ _ (go_index_ok l k v l ltac:(lia) Hv)).
Qed.

Lemma LSet_spec i v l :
  in_int i → zlen l ≤ maxInt →
  LSet i v l =
    let k := norm (zlen l) i in
    if (0 <=? k) && (k <? zlen l) then (Ok true, <[Z.to_nat k := v]> l)
    else (Ok false, l).
Proof.
  intros Hi Hl. unfold LSet. run. cbn [id].
  destruct (norm_in_int (zlen l) i) as [Hn ->]; [lia|done|].
  cbn zeta. set (k := norm (zlen l) i) in *.
  rewrite Z.geb_leb. destruct (Z.ltb_spec k 0), (Z.leb_spec 0 k); try lia; [done|].
  cbn [orb andb]. destruct (Z.leb_spec (zlen l) k), (Z.ltb_spec k (zlen l)); try lia; done.
Qed.

(** What LREM promises: [remove_first n v l] drops the first [n] occurrences
    of [v]. *)
Fixpoint remove_first (n : nat) v l : list string :=
  match n, l with
  | O, _ | _, [] => l
  | S n', x :: l' =>
      if bool_decide (x = v) then remove_first n' v l' else x :: remove_first n v l'
  end.

Lemma remove_first_0 v l : remove_first 0 v l = l.
Proof. by destruct l. Qed.

Lemma remove_first_length n v l : (length (remove_first n v l) ≤ length l)%nat.
Proof.
  revert n. induction l as [|x l IH]; intros [|n]; [done..|].
  cbn. case_bool_decide; cbn; [pose proof (IH n); lia|].
  pose proof (IH (S n)). lia.
Qed.

Lemma remove_first_all n v l :
  (length l ≤ n)%nat → remove_first n v l = filter (λ x, x ≠ v) l.
Proof.
  revert n. induction l as [|x l IH]; intros [|n] Hn; cbn in Hn; [done|done|lia|].
  cbn [remove_first]. rewrite filter_cons. case_bool_decide; case_decide; try done.
  - apply IH. lia.
  - f_equal. apply IH. lia.
Qed.

Lemma LRem_all_fold v l : ∀ removed acc,
  foldl (LRem_all v) (removed, acc) l =
    (removed + (zlen l - zlen (filter (λ x, x ≠ v) l)), acc ++ filter (λ x, x ≠ v) l).
Proof.
  induction l as [|x l IH]; intros removed acc.
  - rewrite filter_nil, app_nil_r. cbn. f_equal. lia.
  - cbn [foldl LRem_all]. rewrite filter_cons. case_bool_decide; case_decide; try done.
    + rewrite IH, <-app_assoc. f_equal. cbn [length]. lia.
    + rewrite IH. f_equal. cbn [length]. lia.
Qed.

Lemma LRem_head_fold count v l : ∀ removed acc,
  removed ≤ count →
  foldl (LRem_head count v) (removed, acc) l =
    let l' := remove_first (Z.to_nat (count - removed)) v l in
    (removed + (zlen l - zlen l'), acc ++ l').
Proof.
  induction l as [|x l IH]; intros removed acc Hle; cbn zeta.
  - destruct (Z.to_nat _); cbn; rewrite app_nil_r; f_equal; lia.
  - cbn [foldl LRem_head]. case_bool_decide as Hx; cbn [andb].
    + destruct (Z.ltb_spec removed count).
      * rewrite IH by lia. cbn zeta.
        replace (Z.to_nat (count - removed)) with (S (Z.to_nat (count - (removed + 1)))) by lia.
        cbn [remove_first]. rewrite bool_decide_true by done. f_equal. cbn [length]. lia.
      * replace (Z.to_nat (count - removed)) with 0%nat by lia.
        rewrite IH by lia. replace (Z.to_nat (count - removed)) with 0%nat by lia.
        cbn zeta. rewrite !remove_first_0, <-app_assoc. f_equal. lia.
    + rewrite IH by lia. cbn zeta.
      destruct (Z.to_nat (count - removed)) as [|n].
      * rewrite !remove_first_0, <-app_assoc. f_equal. cbn [length]. lia.
      * cbn [remove_first]. rewrite bool_decide_false, <-app_assoc by done.
        f_equal. cbn [length]. lia.
Qed.

(** The backward loop is the forward one on the reversed list. *)
Lemma LRem_tail_fold count v l : ∀ removed acc,
  foldl (LRem_tail count v) (removed, acc) l =
    prod_map id reverse (foldl (LRem_head count v) (removed, reverse acc) l).
Proof.
  induction l as [|x l IH]; intros removed acc.
  - exact (f_equal (pair removed) (eq_sym (reverse_involutive acc))).
  - cbn [foldl LRem_tail LRem_head]. destruct (bool_decide (x = v) && (removed <? count)).
    + by rewrite IH.
    + by rewrite IH, reverse_cons.
Qed.

(** The list [LREM count v] leaves behind. *)
Definition rem_spec (count : Z) v l : list string :=
  if count =? 0 then filter (λ x, x ≠ v) l
  else if count >? 0 then remove_first (Z.to_nat count) v l
  else reverse (remove_first (Z.to_nat (- count)) v (reverse l)).

Lemma LRem_spec count v l :
  in_int count → count ≠ minInt →
  LRem count v l = (Ok (zlen l - zlen (rem_spec count v l)), rem_spec count v l).
Proof.
  intros Hc Hmin. unfold LRem, rem_spec. run. cbn [id].
  destruct (Z.eqb_spec count 0) as [->|H0].
  { rewrite LRem_all_fold. done. }
  rewrite Z.gtb_ltb. destruct (Z.ltb_spec 0 count) as [Hpos|Hneg].
  { rewrite LRem_head_fold by lia. cbn zeta. by rewrite Z.sub_0_r. }
  rewrite wrap64_small by int_lia.
  rewrite LRem_tail_fold. change (reverse (A:=string) []) with (@nil string).
  rewrite LRem_head_fold by lia. cbn zeta. cbn [prod_map id fst snd].
  rewrite Z.sub_0_r, app_nil_l, length_reverse. run.
  by rewrite length_reverse.
Qed.

(** The one [count] whose absolute value is not an [int] removes nothing. *)
Lemma LRem_minInt v l : LRem minInt v l = (Ok 0, l).
Proof.
  unfold LRem. run. cbn [id].
  change (minInt =? 0) with false. change (minInt >? 0) with false.
  change (wrap64 (- minInt)) with minInt. cbn iota.
  rewrite LRem_tail_fold. change (reverse (A:=string) []) with (@nil string).
  assert (Haux : ∀ l acc, foldl (LRem_head minInt v) (0, acc) l = (0, acc ++ l)).
  { clear. intros l. induction l as [|x l IH]; intros acc; [by rewrite app_nil_r|].
    cbn [foldl LRem_head]. change (0 <? minInt) with false.
    rewrite andb_false_r, IH, <-app_assoc. done. }
  rewrite Haux. cbn [prod_map id app]. run. by rewrite reverse_involutive.
Qed.

Lemma LRem_length count v l :
  in_int count → (length ((LRem count v l).2) ≤ length l)%nat.
Proof.
  intros Hc. destruct (decide (count = minInt)) as [->|Hne].
  { by rewrite LRem_minInt. }
  rewrite LRem_spec by done. cbn. unfold rem_spec. repeat case_match.
  - apply length_filter.
  - apply remove_first_length.
  - rewrite length_reverse. etrans; [apply remove_first_length|]. by rewrite length_reverse.
Qed.
End ListFacts.

(** ** Set: functional behaviour

    A set is determined by its members, [dom items]. *)
Module SetFacts.
Import SetDS.
Implicit Types (items : gmap string ()) (members : list string).

Definition add_all members items : gmap string () :=
  foldl (λ s member, <[member := ()]> s) items members.
Definition remove_all members items : gmap string () :=
  foldl (λ s member, delete member s) items members.

Lemma add_all_dom members items :
  dom (add_all members items) = list_to_set members ∪ dom items.
Proof.
  revert items. induction members as [|m ms IH]; intros items; [set_solver|].
  unfold add_all in *. cbn [foldl]. rewrite IH, dom_insert_L. set_solver.
Qed.

Lemma remove_all_dom members items :
  dom (remove_all members items) = dom items ∖ list_to_set members.
Proof.
  revert items. induction members as [|m ms IH]; intros items; [set_solver|].
  unfold remove_all in *. cbn [foldl]. rewrite IH, dom_delete_L. set_solver.
Qed.

Lemma unit_map_eq (m1 m2 : gmap string ()) : dom m1 = dom m2 → m1 = m2.
Proof.
  intros Hd. apply map_eq. intros i.
  assert (i ∈ dom m1 ↔ i ∈ dom m2) as Hi by (by rewrite Hd).
  rewrite !elem_of_dom in Hi. destruct (m1 !! i) as [[]|], (m2 !! i) as [[]|]; try done.
  - by destruct (proj1 Hi (ex_intro _ () eq_refl)).
  - by destruct (proj2 Hi (ex_intro _ () eq_refl)).
Qed.

Lemma SAdd_spec members items :
  SAdd members items =
    (Ok (Z.of_nat (size (add_all members items)) - Z.of_nat (size items)),
     add_all members items).
Proof.
  unfold SAdd.
  assert (Hgen : ∀ added items, for_fold (λ added member items,
    match items !! member with
    | None => (Ok (added + 1), <[member := ()]> items)
    | Some _ => (Ok added, items)
    end) added members items =
    (Ok (added + (Z.of_nat (size (add_all members items)) - Z.of_nat (size items))),
     add_all members items)).
  { induction members as [|m ms IH]; intros added s.
    - cbn [for_fold]. run. do 2 f_equal. unfold add_all. cbn [foldl]. lia.
    - cbn [for_fold]. rewrite bind_eq. unfold add_all. cbn [foldl].
      fold (add_all ms (<[m:=()]> s)). destruct (s !! m) as [[]|] eqn:Hm.
      + rewrite insert_id by done. apply IH.
      + rewrite IH, map_size_insert_None by done. do 2 f_equal. lia. }
  apply Hgen.
Qed.

Lemma SRem_spec members items :
  SRem members items =
    (Ok (Z.of_nat (size items) - Z.of_nat (size (remove_all members items))),
     remove_all members items).
Proof.
  unfold SRem.
  assert (Hgen : ∀ removed items, for_fold (λ removed member items,
    match items !! member with
    | Some _ => (Ok (removed + 1), delete member items)
    | None => (Ok removed, items)
    end) removed members items =
    (Ok (removed + (Z.of_nat (size items) - Z.of_nat (size (remove_all members items)))),
     remove_all members items)).
  { induction members as [|m ms IH]; intros removed s.
    - cbn [for_fold]. run. do 2 f_equal. unfold remove_all. cbn [foldl]. lia.
    - cbn [for_fold]. rewrite bind_eq. unfold remove_all. cbn [foldl].
      fold (remove_all ms (delete m s)). destruct (s !! m) as [u|] eqn:Hm.
      + rewrite IH, map_size_delete_Some by eauto. do 2 f_equal.
        assert (size s ≠ 0)%nat; [|lia].
        intros H0%map_size_empty_inv. by rewrite H0, lookup_empty in Hm.
      + rewrite delete_id by done. apply IH. }
  apply Hgen.
Qed.

Lemma SIsMember_spec items m : SIsMember items m = true ↔ m ∈ dom items.
Proof. unfold SIsMember. by rewrite bool_decide_eq_true, elem_of_dom. Qed.

Section range.
Context `{GoEnvLaws}.

Lemma SMembers_spec n items :
  ∃ l, SMembers items n = (Ok l, S n) ∧ NoDup l ∧ ∀ m, m ∈ l ↔ m ∈ dom items.
Proof.
  eexists. split; [done|]. split; [apply map_range_NoDup|]. intros m.
  rewrite elem_of_dom, list_elem_of_fmap. split.
  - intros ([k u] & -> & Hk). apply map_range_elem in Hk. by eexists.
  - intros [u Hu]. exists (m, u). split; [done|]. by apply map_range_elem.
Qed.

Lemma SPop_spec n items :
  match SPop (n, items) with
  | (Ok (m, true), (_, items')) => m ∈ dom items ∧ items' = delete m items
  | (Ok (m, false), (_, items')) => m = "" ∧ items = ∅ ∧ items' = ∅
  | _ => False
  end.
Proof.
  unfold SPop. destruct (Z.eqb_spec (Z.of_nat (size items)) 0) as [Hz|Hz].
  { assert (items = ∅) by (apply map_size_empty_inv; lia). by subst. }
  destruct (map_range n items) as [|[m u] l] eqn:Hr.
  - apply map_range_nil in Hr. subst. by rewrite map_size_empty in Hz.
  - split; [|done]. apply elem_of_dom. exists u. apply (map_range_elem n).
    rewrite Hr. apply list_elem_of_here.
Qed.

(** The filter of a range keeps the order and has no duplicates. *)
Lemma range_filter n items (f : string → bool) :
  NoDup (List.filter f (map_range n items).*1) ∧
  ∀ m, m ∈ List.filter f (map_range n items).*1 ↔ m ∈ dom items ∧ f m = true.
Proof.
  destruct (SMembers_spec n items) as (l & [= <-] & Hnd & Hl).
  split; [apply NoDup_ListNoDup, NoDup_filter, NoDup_ListNoDup, Hnd|].
  intros m. rewrite list_elem_of_In, filter_In, <-list_elem_of_In, Hl. done.
Qed.

Lemma SInter_spec n items (others : list (gmap string ())) :
  ∃ l n', SInter items others n = (Ok l, n') ∧ NoDup l ∧
    ∀ m, m ∈ l ↔ m ∈ dom items ∧ Forall (λ other, m ∈ dom other) others.
Proof.
  unfold SInter. destruct others as [|o os].
  { destruct (SMembers_spec n items) as (l & Hl & Hnd & Hm).
    exists l, (S n). split; [done|]. split; [done|]. intros m. rewrite Hm.
    split; [intros ?; split; [done|constructor]|tauto]. }
  eexists _, _. split; [done|].
  destruct (range_filter n items
    (λ member, forallb (λ other, SIsMember other member) (o :: os))) as [Hnd Hm].
  split; [exact Hnd|]. intros m. rewrite Hm. apply and_iff_compat_l.
  rewrite forallb_forall, list.Forall_forall.
  setoid_rewrite <-list_elem_of_In. by setoid_rewrite SIsMember_spec.
Qed.

Lemma SDiff_spec n items (others : list (gmap string ())) :
  ∃ l n', SDiff items others n = (Ok l, n') ∧ NoDup l ∧
    ∀ m, m ∈ l ↔ m ∈ dom items ∧ Forall (λ other, m ∉ dom other) others.
Proof.
  eexists _, _. split; [done|].
  destruct (range_filter n items
    (λ member, negb (existsb (λ other, SIsMember other member) others))) as [Hnd Hm].
  split; [exact Hnd|]. intros m. rewrite Hm. apply and_iff_compat_l.
  rewrite negb_true_iff, <-not_true_iff_false, existsb_exists, list.Forall_forall.
  setoid_rewrite <-list_elem_of_In. setoid_rewrite SIsMember_spec. naive_solver.
Qed.

Lemma SUnion_loop (others : list (gmap string ())) : ∀ n (seen : gmap string ()),
  ∃ (seen' : gmap string ()) n', for_fold (λ (seen : gmap string ()) other,
      members ← SMembers other;
      mret (foldl (λ seen member, <[member := ()]> seen) seen members)) seen others n
    = (Ok seen', n') ∧
    ∀ m, m ∈ dom seen' ↔ m ∈ dom seen ∨ Exists (λ other, m ∈ dom other) others.
Proof.
  induction others as [|o os IH]; intros n seen.
  - exists seen, n. split; [done|]. intros m. rewrite Exists_nil. tauto.
  - destruct (SMembers_spec n o) as (l & Hl & _ & Hm).
    destruct (IH (S n) (add_all l seen)) as (seen' & n' & Hrun & Hseen').
    exists seen', n'. split.
    + cbn [for_fold]. erewrite bind_ok by (erewrite bind_ok by exact Hl; done).
      exact Hrun.
    + intros m. rewrite Hseen', add_all_dom, elem_of_union, elem_of_list_to_set, Hm,
        Exists_cons. tauto.
Qed.

Lemma SUnion_spec n items (others : list (gmap string ())) :
  ∃ l n', SUnion items others n = (Ok l, n') ∧ NoDup l ∧
    ∀ m, m ∈ l ↔ m ∈ dom items ∨ Exists (λ other, m ∈ dom other) others.
Proof.
  destruct (SMembers_spec n items) as (l0 & [= Hl0] & _ & Hm0).
  destruct (SUnion_loop others (S n) (add_all l0 ∅)) as (seen & n1 & Hrun & Hseen).
  destruct (SMembers_spec n1 seen) as (l & [= Hl] & Hnd & Hm).
  exists l, (S n1). split; [|split; [done|]].
  - unfold SUnion. erewrite bind_ok by done. cbn zeta. rewrite Hl0.
    erewrite bind_ok by exact Hrun. by rewrite <-Hl.
  - intros m. rewrite Hm, Hseen, add_all_dom, elem_of_union, elem_of_list_to_set, Hm0.
    rewrite dom_empty_L. set_solver.
Qed.
End range.
End SetFacts.

(** ** Hash: functional behaviour *)
Module HashFacts.
Import HashDS.
Implicit Types (fields pairs : gmap string string) (f v : string).

Lemma HSet_spec f v fields :
  HSet f v fields = (Ok (bool_decide (fields !! f = None)), <[f := v]> fields).
Proof.
  unfold HSet. run. do 2 f_equal.
  destruct (fields !! f) eqn:Hf; [|done]. by rewrite bool_decide_true by eauto.
Qed.

Definition del_all (names : list string) fields : gmap string string :=
  foldl (λ s f, delete f s) fields names.

Lemma del_all_lookup names fields f :
  del_all names fields !! f = if decide (f ∈ names) then None else fields !! f.
Proof.
  unfold del_all. revert fields. induction names as [|x names IH]; intros fields.
  - by rewrite decide_False by apply not_elem_of_nil.
  - cbn [foldl]. rewrite IH. destruct (decide (f = x)) as [->|Hne].
    + rewrite lookup_delete_eq, (decide_True (P:=x ∈ x :: names)) by apply list_elem_of_here.
      by case_decide.
    + rewrite lookup_delete_ne by done.
      repeat case_decide; try done; set_solver.
Qed.

Lemma HDel_spec names fields :
  HDel names fields =
    (Ok (Z.of_nat (size fields) - Z.of_nat (size (del_all names fields))),
     del_all names fields).
Proof.
  unfold HDel.
  assert (Hgen : ∀ deleted fields, for_fold (λ deleted field fields,
    match fields !! field with
    | Some _ => (Ok (deleted + 1), delete field fields)
    | None => (Ok deleted, fields)
    end) deleted names fields =
    (Ok (deleted + (Z.of_nat (size fields) - Z.of_nat (size (del_all names fields)))),
     del_all names fields)).
  { induction names as [|m ms IH]; intros deleted s.
    - cbn [for_fold]. run. do 2 f_equal. unfold del_all. cbn [foldl]. lia.
    - cbn [for_fold]. rewrite bind_eq. unfold del_all. cbn [foldl].
      fold (del_all ms (delete m s)). destruct (s !! m) as [u|] eqn:Hm.
      + rewrite IH, map_size_delete_Some by eauto. do 2 f_equal.
        assert (size s ≠ 0)%nat; [|lia].
        intros H0%map_size_empty_inv. by rewrite H0, lookup_empty in Hm.
      + rewrite delete_id by done. apply IH. }
  apply Hgen.
Qed.

(** Filling a map with the entries of another, in any order, is the union. *)
Lemma foldl_insert_union {A} (l : list (string * A)) (fields : gmap string A) :
  NoDup l.*1 →
  foldl (λ m '(k, v), <[k := v]> m) fields l = list_to_map l ∪ fields.
Proof.
  revert fields. induction l as [|[k v] l IH]; intros fields Hnd.
  - cbn. by rewrite (left_id_L ∅ (∪)).
  - cbn in Hnd. apply list.NoDup_cons in Hnd as [Hk Hnd]. cbn [foldl]. rewrite IH by done.
    cbn [list_to_map foldr fst snd uncurry].
    rewrite <-insert_union_r, insert_union_l; [done|].
    by apply not_elem_of_list_to_map_1.
Qed.

Section range.
Context `{GoEnvLaws}.

Lemma HGetAll_spec n fields : HGetAll fields n = (Ok fields, S n).
Proof.
  unfold HGetAll. run. unfold tick. rewrite bind_eq. run. do 2 f_equal.
  rewrite (foldl_insert_union _ ∅ (map_range_NoDup n fields)), list_to_map_range.
  apply (right_id_L ∅ (∪)).
Qed.

Lemma HMSet_spec n pairs fields :
  HMSet pairs (n, fields) = (Ok (), (S n, pairs ∪ fields)).
Proof.
  unfold HMSet.
  by rewrite (foldl_insert_union _ fields (map_range_NoDup n pairs)), list_to_map_range.
Qed.

Lemma HKeys_spec n fields :
  ∃ l, HKeys fields n = (Ok l, S n) ∧ l ≡ₚ (map_to_list fields).*1.
Proof. eexists. split; [done|]. by rewrite (map_range_perm n fields). Qed.

Lemma HVals_spec n fields :
  ∃ l, HVals fields n = (Ok l, S n) ∧ l ≡ₚ (map_to_list fields).*2.
Proof. eexists. split; [done|]. by rewrite (map_range_perm n fields). Qed.
End range.

(** [HIncrBy] on every branch. *)
Lemma HIncrBy_error f inc fields v e :
  fields !! f = Some v → parseInt v = inr e →
  HIncrBy f inc fields = (Err e, fields).
Proof. intros Hf Hv. unfold HIncrBy. run. by rewrite Hf, Hv. Qed.

Lemma HIncrBy_ok f inc fields cur :
  (fields !! f = None ∧ cur = 0 ∨
   ∃ v, fields !! f = Some v ∧ parseInt v = inl cur) →
  wrap64 (cur + inc) ≠ minInt →
  HIncrBy f inc fields =
    (Ok (wrap64 (cur + inc)), <[f := Itoa (wrap64 (cur + inc))]> fields).
Proof.
  intros Hcur Hmin.
  assert (Hits := intToString_Itoa _ (wrap64_in_int (cur + inc)) Hmin).
  destruct Hcur as [[Hf ->]|(v & Hf & Hv)]; unfold HIncrBy; run; rewrite Hf.
  - run. by rewrite Hits.
  - rewrite Hv. run. by rewrite Hits.
Qed.

(** The one integer that [intToString] does not print: the field is left
    holding a lone minus sign, which reads back as zero. *)
Lemma HIncrBy_minInt f fields :
  fields !! f = Some (Itoa (minInt + 1)) →
  HIncrBy f (-1) fields = (Ok minInt, <[f := "-"]> fields) ∧
  HIncrBy f 0 (<[f := "-"]> fields) = (Ok 0, <[f := "0"]> fields).
Proof.
  intros Hf. unfold HIncrBy. run. rewrite Hf, lookup_insert_eq. split.
  - rewrite (bind_ok _ _ _ (minInt + 1) fields) by done.
    by change (intToString (wrap64 (minInt + 1 + -1))) with (Some "-").
  - rewrite (bind_ok _ _ _ 0 (<[f := "-"]> fields)) by done.
    change (intToString (wrap64 (0 + 0))) with (Some "0"). run.
    by rewrite insert_insert_eq.
Qed.
End HashFacts.
