(* ===== verification/PubSub.v ===== *)
(** * PubSub: the publish/subscribe broker (src/pkg/pubsub/pubsub.go)

    A Go channel is a heap cell holding its buffered messages and whether it is
    closed; [subs] maps a channel name to the set of cells subscribed to it. *)
From S2P Require Import Prelude Go.

Record Message := mkMessage { Channel : string; Payload : string }.

(** The 16 of [make(chan Message, 16)]. *)
Definition chan_cap : nat := 16.
Record chan := mkChan { ch_buf : list Message; ch_closed : bool }.

Record PubSub := mkPubSub {
  subs : gmap string (gmap nat ());
  chans : gmap nat chan;
}.

Definition New : PubSub := mkPubSub ∅ ∅.

(** A channel not used before. *)
Definition fresh_chan (p : PubSub) : nat := fresh (dom (chans p)).

(** [make(chan Message, 16)]. *)
Definition make_chan : M PubSub nat := λ p,
  (Ok (fresh_chan p), mkPubSub (subs p) (<[fresh_chan p := mkChan [] false]> (chans p))).

(** [p.subs[channel][ch] = struct{}{}], in a new map when there is none. *)
Definition register (channel : string) (ch : nat) (p : PubSub) : PubSub :=
  mkPubSub (<[channel := <[ch := ()]> (default ∅ (subs p !! channel))]> (subs p)) (chans p).

Definition Subscribe (channel : string) : M PubSub nat :=
  ch ← make_chan;
  _ ← modify (register channel ch);
  mret ch.

(** [close(ch)] panics on a closed channel. *)
Definition close_chan (ch : nat) : M PubSub () := λ p,
  match chans p !! ch with
  | Some c =>
      if ch_closed c then (Panic "close of closed channel", p)
      else (Ok (), mkPubSub (subs p) (<[ch := mkChan (ch_buf c) true]> (chans p)))
  | None => (Panic "close of nil channel", p)
  end.

(** [delete(subs, ch)], and the name with its last subscriber. *)
Definition unregister (channel : string) (ch : nat) (p : PubSub) : PubSub :=
  match subs p !! channel with
  | Some ss =>
      let ss := delete ch ss in
      if (size ss =? 0)%nat then mkPubSub (delete channel (subs p)) (chans p)
      else mkPubSub (<[channel := ss]> (subs p)) (chans p)
  | None => p
  end.

Definition Unsubscribe (channel : string) (ch : nat) : M PubSub () :=
  _ ← modify (unregister channel ch);
  close_chan ch.

(** [select { case ch <- m: delivered++ default: }]: a full buffer drops the
    message, a closed channel panics. *)
Definition send (m : Message) (delivered : Z) (ch : nat) : M PubSub Z := λ p,
  match chans p !! ch with
  | Some c =>
      if ch_closed c then (Panic "send on closed channel", p)
      else if (length (ch_buf c) <? chan_cap)%nat then
        (Ok (delivered + 1),
         mkPubSub (subs p) (<[ch := mkChan (ch_buf c ++ [m]) false]> (chans p)))
      else (Ok delivered, p)
  | None => (Ok delivered, p)
  end.

Definition Publish `{GoEnv} (channel payload : string) : M (nat * PubSub) Z := λ '(n, p),
  match subs p !! channel with
  | None => (Ok 0, (n, p))
  | Some ss =>
      let '(r, p') :=
        for_fold (send (mkMessage channel payload)) 0 (map_range n ss).*1 p in
      (r, (S n, p'))
  end.

(** The receiving end, [for msg := range ch] of the forwarding goroutine: one
    buffered message, or [None] when the buffer is empty. *)
Definition Receive (ch : nat) : M PubSub (option Message) := λ p,
  match chans p !! ch with
  | Some (mkChan (m :: buf) closed) =>
      (Ok (Some m), mkPubSub (subs p) (<[ch := mkChan buf closed]> (chans p)))
  | _ => (Ok None, p)
  end.
