(* ===== verification/PubSubFacts.v ===== *)
(** * PubSubFacts: the broker's invariant and what PUBLISH delivers *)
From S2P Require Import Prelude Go PubSub.

(** The names in [subs] are the ones with subscribers; every registered cell is
    an open channel, registered under one name, and no buffer exceeds its
    capacity. *)
Record ps_wf (p : PubSub) : Prop := {
  ps_nonempty name ss : subs p !! name = Some ss → ss ≠ ∅;
  ps_open name ss ch : subs p !! name = Some ss → ch ∈ dom ss →
    ∃ buf, chans p !! ch = Some (mkChan buf false);
  ps_unique name1 name2 ss1 ss2 ch : subs p !! name1 = Some ss1 → subs p !! name2 = Some ss2 →
    ch ∈ dom ss1 → ch ∈ dom ss2 → name1 = name2;
  ps_bounded ch c : chans p !! ch = Some c → (length (ch_buf c) ≤ chan_cap)%nat;
}.

(** The cell [ch] is registered under [name]. *)
Definition registered (p : PubSub) (name : string) (ch : nat) : Prop :=
  ∃ ss, subs p !! name = Some ss ∧ ch ∈ dom ss.

Lemma New_wf : ps_wf New.
Proof. split; intros *; cbn; rewrite lookup_empty; done. Qed.

Lemma fresh_chan_None p : chans p !! fresh_chan p = None.
Proof. apply (not_elem_of_dom (D:=gset nat)). exact (is_fresh (dom (chans p) : gset nat)). Qed.

Lemma registered_not_fresh p name ch : ps_wf p → registered p name ch → ch ≠ fresh_chan p.
Proof.
  intros Hwf (ss & Hs & Hch) ->. destruct (ps_open p Hwf _ _ _ Hs Hch) as [buf Hbuf].
  by rewrite fresh_chan_None in Hbuf.
Qed.

(** The cell is a channel that is not closed. *)
Definition open (p : PubSub) (ch : nat) : Prop := ∃ buf, chans p !! ch = Some (mkChan buf false).
Definition unregistered (p : PubSub) (ch : nat) : Prop := ∀ name, ¬ registered p name ch.

Lemma registered_open p name ch : ps_wf p → registered p name ch → open p ch.
Proof. intros Hwf (ss & Hss & Hch). by eapply ps_open. Qed.

Lemma registered_unique p n1 n2 ch : ps_wf p → registered p n1 ch → registered p n2 ch → n1 = n2.
Proof. intros Hwf (ss1 & H1 & Hc1) (ss2 & H2 & Hc2). by eapply (ps_unique p). Qed.

Lemma registered_same p p' name ch : subs p' = subs p → registered p' name ch ↔ registered p name ch.
Proof. unfold registered. by intros ->. Qed.

(** What only changes the cells keeps the invariant when registered ones stay
    open. *)
Lemma chans_wf p p' :
  ps_wf p → subs p' = subs p → (∀ name ch, registered p name ch → open p' ch) →
  (∀ ch c, chans p' !! ch = Some c → (length (ch_buf c) ≤ chan_cap)%nat) → ps_wf p'.
Proof.
  intros Hwf Hs Hopen Hb. split; [rewrite Hs; by apply ps_nonempty| |rewrite Hs; by apply ps_unique|done].
  rewrite Hs. intros name ss ch Hss Hch. apply (Hopen name). by exists ss.
Qed.

Lemma chan_insert_bounded p ch c : ps_wf p → (length (ch_buf c) ≤ chan_cap)%nat →
  ∀ ch' c', <[ch := c]> (chans p) !! ch' = Some c' → (length (ch_buf c') ≤ chan_cap)%nat.
Proof.
  intros Hwf Hc ch' c'. rewrite lookup_insert_Some. intros [[_ <-]|[_ Hc']]; [done|by eapply ps_bounded].
Qed.

(** ** SUBSCRIBE *)
Lemma make_chan_wf p : ps_wf p → ps_wf (make_chan p).2.
Proof.
  intros Hwf. apply (chans_wf p); [done|done| |by apply chan_insert_bounded; cbn; [|lia]].
  intros name ch Hr. destruct (registered_open p name ch Hwf Hr) as [buf Hbuf]. exists buf. cbn.
  rewrite lookup_insert_ne; [done|]. intros <-. by rewrite fresh_chan_None in Hbuf.
Qed.

Lemma fresh_unregistered p : ps_wf p → unregistered p (fresh_chan p).
Proof. intros Hwf name Hr. by destruct (registered_not_fresh p name _ Hwf Hr). Qed.

Lemma register_registered name ch p name' ch' :
  registered (register name ch p) name' ch' ↔ registered p name' ch' ∨ name' = name ∧ ch' = ch.
Proof.
  unfold registered, register. cbn [subs]. split.
  - intros (ss & Hs & Hch). apply lookup_insert_Some in Hs as [[<- <-]|[Hne Hs]]; [|eauto].
    rewrite dom_insert_L, elem_of_union, elem_of_singleton in Hch.
    destruct Hch as [->|Hch]; [by right|].
    destruct (subs p !! name) as [ss|] eqn:Hss; cbn in Hch; [eauto|].
    by rewrite dom_empty_L in Hch.
  - intros [(ss & Hs & Hch)|[-> ->]].
    + destruct (decide (name' = name)) as [->|Hne].
      * eexists. split; [apply lookup_insert_eq|]. rewrite Hs. cbn.
        rewrite dom_insert_L. set_solver.
      * exists ss. by rewrite lookup_insert_ne.
    + eexists. split; [apply lookup_insert_eq|]. rewrite dom_insert_L. set_solver.
Qed.

Lemma register_wf name ch p :
  ps_wf p → open p ch → unregistered p ch → ps_wf (register name ch p).
Proof.
  intros Hwf Hopen Hun. assert (Hreg := register_registered name ch p). split.
  - intros n ss. cbn. rewrite lookup_insert_Some.
    intros [[_ <-]|[_ Hs]]; [apply insert_non_empty|by eapply ps_nonempty].
  - intros n ss c Hs Hc. destruct (proj1 (Hreg n c) (ex_intro _ ss (conj Hs Hc))) as [Hr|[_ ->]]; [|done].
    exact (registered_open p n c Hwf Hr).
  - intros n1 n2 ss1 ss2 c Hs1 Hs2 Hc1 Hc2.
    assert (H1 := proj1 (Hreg n1 c) (ex_intro _ ss1 (conj Hs1 Hc1))).
    assert (H2 := proj1 (Hreg n2 c) (ex_intro _ ss2 (conj Hs2 Hc2))).
    destruct H1 as [H1|[-> ->]], H2 as [H2|[-> Hf]]; [by eapply registered_unique| | |done].
    + subst c. by destruct (Hun n1).
    + by destruct (Hun n2).
  - intros c x. by apply (ps_bounded p).
Qed.

Lemma Subscribe_registered p name name' ch :
  let p' := (Subscribe name p).2 in
  registered p' name' ch ↔
    registered p name' ch ∨ name' = name ∧ ch = fresh_chan p.
Proof. exact (register_registered name (fresh_chan p) (make_chan p).2 name' ch). Qed.

Lemma Subscribe_wf name p : ps_wf p → ps_wf (Subscribe name p).2.
Proof.
  intros Hwf. apply (register_wf name (fresh_chan p) (make_chan p).2).
  - by apply make_chan_wf.
  - exists []. apply lookup_insert_eq.
  - by apply (fresh_unregistered p).
Qed.

(** ** UNSUBSCRIBE of a registered channel *)
Lemma unregister_lookup name ch p n s ss :
  subs p !! name = Some ss → subs (unregister name ch p) !! n = Some s →
  n = name ∧ s = delete ch ss ∧ s ≠ ∅ ∨ n ≠ name ∧ subs p !! n = Some s.
Proof.
  intros Hss. unfold unregister. rewrite Hss. destruct (Nat.eqb_spec (size (delete ch ss)) 0) as [Hz|Hz]; cbn.
  - rewrite lookup_delete_Some. naive_solver.
  - rewrite lookup_insert_Some. intros [[<- <-]|[Hn Hs]]; [left|right; naive_solver].
    split_and!; [done..|]. intros He. by rewrite He, map_size_empty in Hz.
Qed.

Lemma unregister_registered name ch p n c :
  ps_wf p → registered p name ch →
  registered (unregister name ch p) n c ↔ registered p n c ∧ c ≠ ch.
Proof.
  intros Hwf (ss & Hss & Hch). unfold registered. split.
  - intros (s & Hs & Hc). apply (unregister_lookup _ _ _ _ _ _ Hss) in Hs as [(-> & -> & _)|[Hn Hs]].
    + rewrite dom_delete_L in Hc. split; [exists ss|]; set_solver.
    + split; [by exists s|]. intros ->. by destruct (Hn (ps_unique p Hwf _ _ _ _ _ Hs Hss Hc Hch)).
  - intros [(s & Hs & Hc) Hne]. destruct (decide (n = name)) as [->|Hn].
    + rewrite Hss in Hs. injection Hs as <-. exists (delete ch ss).
      assert (c ∈ dom (delete ch ss)) as Hin by (rewrite dom_delete_L; set_solver).
      split; [|done]. unfold unregister. rewrite Hss.
      destruct (Nat.eqb_spec (size (delete ch ss)) 0) as [Hz|Hz]; [|apply lookup_insert_eq].
      apply map_size_empty_inv in Hz. rewrite Hz, dom_empty_L in Hin. set_solver.
    + exists s. split; [|done]. unfold unregister. rewrite Hss.
      destruct (_ =? _)%nat; [by cbn; rewrite lookup_delete_ne|by cbn; rewrite lookup_insert_ne].
Qed.

Lemma unregister_chans name ch p : chans (unregister name ch p) = chans p.
Proof. unfold unregister. destruct (subs p !! name); [by case_match|done]. Qed.

Lemma unregister_wf name ch p : ps_wf p → registered p name ch → ps_wf (unregister name ch p).
Proof.
  intros Hwf Hr. assert (Hreg := λ n c, unregister_registered name ch p n c Hwf Hr).
  pose proof Hr as (ss & Hss & Hch). split.
  - intros n s Hs. apply (unregister_lookup _ _ _ _ _ _ Hss) in Hs as [(_ & _ & ?)|[_ Hs]];
      [done|by eapply ps_nonempty].
  - intros n s c Hs Hc. rewrite unregister_chans.
    destruct (proj1 (Hreg n c) (ex_intro _ s (conj Hs Hc))) as [Hrc _].
    exact (registered_open p n c Hwf Hrc).
  - intros n1 n2 s1 s2 c Hs1 Hs2 Hc1 Hc2.
    destruct (proj1 (Hreg n1 c) (ex_intro _ s1 (conj Hs1 Hc1))) as [H1 _].
    destruct (proj1 (Hreg n2 c) (ex_intro _ s2 (conj Hs2 Hc2))) as [H2 _]. by eapply registered_unique.
  - rewrite unregister_chans. by apply ps_bounded.
Qed.

Definition closed (ch : nat) (buf : list Message) (p : PubSub) : PubSub :=
  mkPubSub (subs p) (<[ch := mkChan buf true]> (chans p)).

Lemma close_chan_run p ch buf :
  chans p !! ch = Some (mkChan buf false) → close_chan ch p = (Ok (), closed ch buf p).
Proof. unfold close_chan. by intros ->. Qed.

Lemma closed_wf p ch buf : ps_wf p → chans p !! ch = Some (mkChan buf false) → unregistered p ch →
  ps_wf (closed ch buf p).
Proof.
  intros Hwf Hbuf Hun. apply (chans_wf p); [done|done| |].
  - intros name c Hr. destruct (registered_open p name c Hwf Hr) as [b Hb]. exists b. cbn.
    rewrite lookup_insert_ne; [done|]. intros ->. by destruct (Hun name).
  - apply chan_insert_bounded; [done|]. exact (ps_bounded p Hwf ch _ Hbuf).
Qed.

Lemma Unsubscribe_run p name ch :
  ps_wf p → registered p name ch →
  ∃ p', Unsubscribe name ch p = (Ok (), p') ∧ ps_wf p' ∧
    (∀ name' ch', registered p' name' ch' ↔ registered p name' ch' ∧ ch' ≠ ch) ∧
    (∃ buf, chans p' !! ch = Some (mkChan buf true)).
Proof.
  intros Hwf Hr. destruct (registered_open p name ch Hwf Hr) as [buf Hbuf].
  assert (Hreg := λ n c, unregister_registered name ch p n c Hwf Hr).
  assert (Hbuf' : chans (unregister name ch p) !! ch = Some (mkChan buf false))
    by by rewrite unregister_chans.
  exists (closed ch buf (unregister name ch p)). split_and!.
  - by apply close_chan_run.
  - apply closed_wf; [by apply unregister_wf|done|]. intros n Hn. by apply Hreg in Hn as [_ Hne].
  - exact Hreg.
  - exists buf. apply lookup_insert_eq.
Qed.

(** ** PUBLISH *)

(** The buffer of a cell after one [send]. *)
Definition push_msg (m : Message) (c : chan) : chan :=
  if (length (ch_buf c) <? chan_cap)%nat then mkChan (ch_buf c ++ [m]) (ch_closed c) else c.

Definition has_room (p : PubSub) (ch : nat) : bool :=
  match chans p !! ch with
  | Some c => (length (ch_buf c) <? chan_cap)%nat
  | None => false
  end.

(** Sending to distinct open channels: each one with room gets the message
    once, the others are left alone, and the count is the number with room. *)
Lemma send_all m l : ∀ delivered p,
  NoDup l →
  Forall (λ ch, ∃ buf, chans p !! ch = Some (mkChan buf false)) l →
  ∃ p', for_fold (send m) delivered l p =
      (Ok (delivered + Z.of_nat (length (filter (λ ch, has_room p ch = true) l))), p') ∧
    subs p' = subs p ∧
    ∀ ch, chans p' !! ch = if decide (ch ∈ l) then push_msg m <$> chans p !! ch else chans p !! ch.
Proof.
  induction l as [|x l IH]; intros delivered p Hnd Hl.
  - exists p. cbn. split; [rewrite Z.add_0_r; done|]. split; [done|]. intros ch. done.
  - apply list.NoDup_cons in Hnd as [Hx Hnd]. apply list.Forall_cons in Hl as [[buf Hbuf] Hl].
    set (p1 := if has_room p x then mkPubSub (subs p) (<[x := mkChan (buf ++ [m]) false]> (chans p)) else p).
    assert (Hp1 : ∀ ch, ch ≠ x → chans p1 !! ch = chans p !! ch).
    { intros ch Hne. subst p1. destruct (has_room p x); [|done]. cbn. by rewrite lookup_insert_ne. }
    destruct (IH (if has_room p x then delivered + 1 else delivered) p1) as (p' & Hrun & Hsubs & Hch);
      [done| |].
    { rewrite list.Forall_forall in *. intros ch Hin. rewrite Hp1 by congruence. by apply Hl. }
    exists p'. split_and!.
    + cbn [for_fold].
      rewrite (bind_ok _ _ _ (if has_room p x then delivered + 1 else delivered) p1).
      * rewrite Hrun. do 2 f_equal. rewrite filter_cons.
        replace (filter (λ ch, has_room p1 ch = true) l) with (filter (λ ch, has_room p ch = true) l).
        2:{ apply list_filter_ext_in. intros ch Hin. unfold has_room.
            rewrite Hp1; [done|congruence]. }
        destruct (has_room p x) eqn:Hroom; case_decide; try done; cbn; lia.
      * cbn beta. unfold send. subst p1. unfold has_room. rewrite Hbuf. cbn -[Nat.ltb].
        by destruct (length buf <? chan_cap)%nat.
    + rewrite Hsubs. subst p1. by destruct (has_room p x).
    + intros ch. rewrite Hch. destruct (decide (ch = x)) as [->|Hne].
      * rewrite decide_False by done. rewrite decide_True by apply list_elem_of_here.
        subst p1. unfold has_room. rewrite Hbuf. cbn -[Nat.ltb]. unfold push_msg. cbn -[Nat.ltb].
        destruct (length buf <? chan_cap)%nat; cbn; [by rewrite lookup_insert_eq|done].
      * rewrite Hp1 by done. destruct (decide (ch ∈ l)) as [Hin|Hin].
        -- rewrite decide_True; [done|]. by right.
        -- rewrite decide_False; [done|]. intros Hin'. by apply elem_of_cons in Hin' as [?|?].
Qed.

Section publish.
Context `{GoEnvLaws}.

Definition subscribers (p : PubSub) (name : string) : gset nat :=
  dom (default ∅ (subs p !! name)).

Lemma Publish_run name payload n p :
  ps_wf p →
  let subs := subscribers p name in
  ∃ n' p', Publish name payload (n, p) =
      (Ok (Z.of_nat (size (filter (λ ch, has_room p ch = true) subs))), (n', p')) ∧
    PubSub.subs p' = PubSub.subs p ∧
    ∀ ch, chans p' !! ch =
      if decide (ch ∈ subs) then push_msg (mkMessage name payload) <$> chans p !! ch
      else chans p !! ch.
Proof.
  intros Hwf. cbn zeta. unfold Publish, subscribers.
  destruct (subs p !! name) as [ss|] eqn:Hss; cbn [default from_option id].
  2:{ exists n, p. rewrite (dom_empty_L (D:=gset nat)), (filter_empty_L (C:=gset nat) (λ ch, has_room p ch = true)), (size_empty (C:=gset nat)). split; [done|].
      split; [done|]. intros ch. rewrite decide_False by set_solver. done. }
  pose proof (map_range_NoDup n ss) as Hnd.
  assert (Hin : ∀ ch, ch ∈ (map_range n ss).*1 ↔ ch ∈ dom ss).
  { intros ch. rewrite elem_of_dom, list_elem_of_fmap. split.
    - intros ([k u] & -> & Hk). apply map_range_elem in Hk. by eexists.
    - intros [u Hu]. exists (ch, u). split; [done|]. by apply map_range_elem. }
  destruct (send_all (mkMessage name payload) (map_range n ss).*1 0 p Hnd)
    as (p' & Hrun & Hsubs & Hch).
  { rewrite list.Forall_forall. intros ch Hc. apply Hin in Hc. by eapply (ps_open p). }
  exists (S n), p'. rewrite Hrun. split_and!; [|done|].
  - rewrite Z.add_0_l. do 4 f_equal.
    rewrite <-(size_list_to_set (C:=gset nat)) by (by apply list.NoDup_filter).
    apply set_size_proper. intros ch. rewrite elem_of_list_to_set, list_elem_of_filter, elem_of_filter, Hin.
    done.
  - intros ch. rewrite Hch. by rewrite (decide_ext _ _ _ _ (Hin ch)).
Qed.

Lemma Publish_wf name payload n p :
  ps_wf p → ∃ v n' p', Publish name payload (n, p) = (Ok v, (n', p')) ∧ ps_wf p' ∧
    (∀ name' ch, registered p' name' ch ↔ registered p name' ch).
Proof.
  intros Hwf. destruct (Publish_run name payload n p Hwf) as (n' & p' & Hrun & Hsubs & Hch).
  eexists _, n', p'. split; [exact Hrun|].
  assert (Hpush : ∀ ch c', chans p' !! ch = Some c' → ∃ c, chans p !! ch = Some c ∧
            (c' = c ∨ c' = push_msg (mkMessage name payload) c)).
  { intros ch c'. rewrite Hch. case_decide; [|eauto].
    rewrite fmap_Some. intros (c & -> & ->). eauto. }
  split; [split|].
  - rewrite Hsubs. by apply ps_nonempty.
  - rewrite Hsubs. intros nm ss ch Hs Hc. destruct (ps_open p Hwf _ _ _ Hs Hc) as [buf Hbuf].
    rewrite Hch, Hbuf. case_decide; cbn; [|eauto]. unfold push_msg. case_match; eauto.
  - rewrite Hsubs. by apply ps_unique.
  - intros ch c' Hc'. destruct (Hpush _ _ Hc') as (c & Hc & [->| ->]);
      pose proof (ps_bounded p Hwf _ _ Hc) as Hb; [done|].
    unfold push_msg. destruct (Nat.ltb_spec (length (ch_buf c)) chan_cap); [|done].
    cbn. rewrite length_app. cbn. lia.
  - intros nm ch. unfold registered. by rewrite Hsubs.
Qed.

(** Filling a buffer of 16 keeps the first 16 messages. *)
Lemma push_msg_take m buf :
  (length buf ≤ chan_cap)%nat →
  push_msg m <$> Some (mkChan buf false) = Some (mkChan (take chan_cap (buf ++ [m])) false).
Proof.
  intros Hb. cbn. unfold push_msg. cbn -[Nat.ltb chan_cap take].
  destruct (Nat.ltb_spec (length buf) chan_cap).
  - rewrite (take_ge (buf ++ [m])); [done|]. rewrite length_app. change (length [m]) with 1%nat. unfold chan_cap in *. lia.
  - assert (length buf = 16%nat) as <- by (unfold chan_cap in *; lia). by rewrite take_app_length.
Qed.

(** A sequence of publications, seen from one subscribed channel. *)
Lemma publish_all name ch msgs : ∀ n p buf,
  ps_wf p → registered p name ch → chans p !! ch = Some (mkChan buf false) →
  ∃ n' p', for_each (λ m, _ ← Publish (Channel m) (Payload m); mret ()) msgs (n, p) = (Ok (), (n', p')) ∧
    chans p' !! ch = Some (mkChan (take chan_cap (buf ++ filter (λ m, Channel m = name) msgs)) false).
Proof.
  induction msgs as [|m msgs IH]; intros n p buf Hwf Hreg Hbuf.
  - exists n, p. split; [done|]. pose proof (ps_bounded p Hwf _ _ Hbuf) as Hb. cbn in Hb.
    rewrite app_nil_r, take_ge by done. done.
  - destruct (Publish_run (Channel m) (Payload m) n p Hwf) as (n1 & p1 & Hrun & Hsubs & Hch).
    destruct (Publish_wf (Channel m) (Payload m) n p Hwf) as (v & n2 & p2 & Hrun2 & Hwf2 & Hreg2).
    rewrite Hrun in Hrun2. injection Hrun2 as _ <- <-.
    pose proof (ps_bounded p Hwf _ _ Hbuf) as Hb. cbn in Hb.
    assert (Hsub : ch ∈ subscribers p (Channel m) ↔ Channel m = name).
    { destruct Hreg as (ss & Hss & Hin). unfold subscribers. split.
      - destruct (subs p !! Channel m) as [ss'|] eqn:Hm; cbn; [|set_solver].
        intros Hin'. by apply (ps_unique p Hwf _ _ _ _ _ Hm Hss Hin' Hin).
      - intros ->. by rewrite Hss. }
    set (buf1 := if decide (Channel m = name) then take chan_cap (buf ++ [m]) else buf).
    destruct (IH n1 p1 buf1) as (n' & p' & Hrest & Hfin); [done|by apply Hreg2| |].
    { rewrite Hch. subst buf1. destruct (decide (Channel m = name)) as [He|He].
      - rewrite decide_True by by apply Hsub. rewrite Hbuf.
        rewrite push_msg_take by done. by destruct m.
      - rewrite decide_False by (intros ?; by apply He, Hsub). done. }
    exists n', p'. split.
    + cbn [for_each]. erewrite bind_ok; [exact Hrest|]. by rewrite (bind_ok _ _ _ _ _ Hrun).
    + rewrite Hfin. subst buf1. rewrite filter_cons.
      destruct (decide (Channel m = name)) as [He|He]; [|done].
      by rewrite take_take_app, <-app_assoc.
Qed.
End publish.
