(* ===== verification/Database.v ===== *)
(** * Database: one logical database and the sixteen of them
    (src/pkg/commands/database.go)

    [Database] is the record of the five maps. A [*List] stored in [Lists] is
    reachable only through its key, and a handler runs to its end before the
    next one starts, so the pointer is modelled by its key: [on_list key m] runs
    the method [m] on the list stored there, in place. The locks have no
    counterpart in this sequential model. *)
From S2P Require Import Prelude Go Strconv Resp DataStruct PubSub.

Definition NumDatabases : nat := 16.

Record Database := mkDatabase {
  Store : gmap string string;
  Lists : gmap string (list string);
  Sets : gmap string (gmap string ());
  Hashes : gmap string (gmap string string);
  Expires : gmap string Z;        (* deadline in nanoseconds *)
  listCond : nat;                 (* broadcasts on the condition variable *)
}.

Definition set_Store f d :=
  mkDatabase (f (Store d)) (Lists d) (Sets d) (Hashes d) (Expires d) (listCond d).
Definition set_Lists f d :=
  mkDatabase (Store d) (f (Lists d)) (Sets d) (Hashes d) (Expires d) (listCond d).
Definition set_Sets f d :=
  mkDatabase (Store d) (Lists d) (f (Sets d)) (Hashes d) (Expires d) (listCond d).
Definition set_Hashes f d :=
  mkDatabase (Store d) (Lists d) (Sets d) (f (Hashes d)) (Expires d) (listCond d).
Definition set_Expires f d :=
  mkDatabase (Store d) (Lists d) (Sets d) (Hashes d) (f (Expires d)) (listCond d).
Definition set_listCond f d :=
  mkDatabase (Store d) (Lists d) (Sets d) (Hashes d) (Expires d) (f (listCond d)).

Definition newDatabase : Database := mkDatabase ∅ ∅ ∅ ∅ ∅ 0.

(** What a handler runs over: the database it was given, the broker shared by
    all databases, and the serial number of the next clock reading or [range]. *)
Record Sess := mkSess { s_tick : nat; s_db : Database; s_ps : PubSub }.

Definition set_db (f : Database → Database) (s : Sess) : Sess :=
  mkSess (s_tick s) (f (s_db s)) (s_ps s).
Definition modify_db (f : Database → Database) : M Sess () := modify (set_db f).
Definition gets_db {A} (f : Database → A) : M Sess A := gets (λ s, f (s_db s)).

(** Run a method that only takes serial numbers. *)
Definition ranged {A} (m : M nat A) : M Sess A :=
  zoom s_tick (λ n s, mkSess n (s_db s) (s_ps s)) m.

Definition ranged_ps {A} (m : M (nat * PubSub) A) : M Sess A :=
  zoom (λ s, (s_tick s, s_ps s)) (λ '(n, p) s, mkSess n (s_db s) p) m.

(** Methods of the container stored at a key. *)
Definition on_list {A} (key : string) (m : M (list string) A) : M Sess A := λ s,
  match Lists (s_db s) !! key with
  | Some l => let '(r, l') := m l in (r, set_db (set_Lists <[key := l']>) s)
  | None => (Panic "nil pointer dereference", s)
  end.

Definition on_set {A} (key : string) (m : M (nat * gmap string ()) A) : M Sess A := λ s,
  match Sets (s_db s) !! key with
  | Some x =>
      let '(r, (n, x')) := m (s_tick s, x) in
      (r, mkSess n (set_Sets <[key := x']> (s_db s)) (s_ps s))
  | None => (Panic "nil pointer dereference", s)
  end.

Definition on_hash {A} (key : string) (m : M (nat * gmap string string) A) : M Sess A := λ s,
  match Hashes (s_db s) !! key with
  | Some x =>
      let '(r, (n, x')) := m (s_tick s, x) in
      (r, mkSess n (set_Hashes <[key := x']> (s_db s)) (s_ps s))
  | None => (Panic "nil pointer dereference", s)
  end.

(** A container method that takes no serial number. *)
Definition still {S A} (m : M S A) : M (nat * S) A :=
  zoom snd (λ x s, (fst s, x)) m.

(** [signalListPush]: broadcast on the database's condition variable. *)
Definition signalListPush : M Sess () := modify_db (set_listCond S).

Section db.
Context `{GoEnv}.

Definition Now : M Sess Z := n ← ranged tick; mret (time_Now n).

(** [range] over one of the maps of the database. *)
Definition range_of {A} (m : gmap string A) : M Sess (list (string * A)) :=
  n ← ranged tick; mret (map_range n m).

(** The five [delete]s of an eviction. *)
Definition evict (key : string) (d : Database) : Database :=
  set_Expires (delete key) (set_Hashes (delete key)
    (set_Sets (delete key) (set_Lists (delete key) (set_Store (delete key) d)))).

Definition expireIfNeeded (key : string) : M Sess () :=
  exp ← gets_db (λ d, Expires d !! key);
  match exp with
  | None => mret ()
  | Some exp =>
      now ← Now;
      if now <? exp then mret () else modify_db (evict key)
  end.

Definition SweepExpired : M Sess () :=
  now ← Now;
  expires ← gets_db Expires;
  entries ← range_of expires;
  let expired := (List.filter (λ '(_, exp), now >? exp) entries).*1 in
  for_each expireIfNeeded expired.

Definition GetOrCreateList (key : string) : M Sess () :=
  _ ← expireIfNeeded key;
  list ← gets_db (λ d, Lists d !! key);
  match list with
  | Some _ => mret ()
  | None => modify_db (set_Lists <[key := ListDS.NewList]>)
  end.

Definition GetList (key : string) : M Sess (option (list string)) :=
  _ ← expireIfNeeded key;
  gets_db (λ d, Lists d !! key).

Definition GetOrCreateSet (key : string) : M Sess () :=
  _ ← expireIfNeeded key;
  set ← gets_db (λ d, Sets d !! key);
  match set with
  | Some _ => mret ()
  | None => modify_db (set_Sets <[key := SetDS.NewSet]>)
  end.

Definition GetSet (key : string) : M Sess (option (gmap string ())) :=
  _ ← expireIfNeeded key;
  gets_db (λ d, Sets d !! key).

Definition GetOrCreateHash (key : string) : M Sess () :=
  _ ← expireIfNeeded key;
  hash ← gets_db (λ d, Hashes d !! key);
  match hash with
  | Some _ => mret ()
  | None => modify_db (set_Hashes <[key := HashDS.NewHash]>)
  end.

Definition GetHash (key : string) : M Sess (option (gmap string string)) :=
  _ ← expireIfNeeded key;
  gets_db (λ d, Hashes d !! key).

(** [if _, exists := m[key]; exists { delete(m, key); deleted++ }]. *)
Definition delete_from {A} (get : Database → gmap string A)
    (set : (gmap string A → gmap string A) → Database → Database)
    (key : string) (deleted : Z) : M Sess Z :=
  x ← gets_db (λ d, get d !! key);
  match x with
  | Some _ => _ ← modify_db (set (delete key)); mret (deleted + 1)
  | None => mret deleted
  end.

Definition DeleteKey (key : string) : M Sess Z :=
  _ ← expireIfNeeded key;
  deleted ← delete_from Store set_Store key 0;
  deleted ← delete_from Lists set_Lists key deleted;
  deleted ← delete_from Sets set_Sets key deleted;
  deleted ← delete_from Hashes set_Hashes key deleted;
  _ ← modify_db (set_Expires (delete key));
  mret deleted.

(** [keyExistsLocked] of expire_commands.go, and the tail of [KeyExists]. *)
Definition keyExistsLocked (d : Database) (key : string) : bool :=
  if bool_decide (is_Some (Store d !! key)) then true
  else if bool_decide (is_Some (Lists d !! key)) then true
  else if bool_decide (is_Some (Sets d !! key)) then true
  else bool_decide (is_Some (Hashes d !! key)).

Definition KeyExists (key : string) : M Sess bool :=
  _ ← expireIfNeeded key;
  gets_db (λ d,
    if bool_decide (is_Some (Store d !! key)) then true
    else if bool_decide (is_Some (Lists d !! key)) then true
    else if bool_decide (is_Some (Sets d !! key)) then true
    else if bool_decide (is_Some (Hashes d !! key)) then true
    else false).

Definition GetKeyType (key : string) : M Sess string :=
  _ ← expireIfNeeded key;
  gets_db (λ d,
    if bool_decide (is_Some (Store d !! key)) then "string"
    else if bool_decide (is_Some (Lists d !! key)) then "list"
    else if bool_decide (is_Some (Sets d !! key)) then "set"
    else if bool_decide (is_Some (Hashes d !! key)) then "hash"
    else "none").
End db.

(** ** MultiDB *)
Record MultiDB := mkMultiDB { DBs : list Database; mdb_PubSub : PubSub }.

Definition NewMultiDB : MultiDB := mkMultiDB (replicate NumDatabases newDatabase) New.

(** The state that outlives a command: the databases, the broker and the
    serial numbers handed out so far. *)
Record World := mkWorld { w_tick : nat; w_mdb : MultiDB }.

(** [m.DBs[index]] is not checked: an index outside the array panics. *)
Definition with_DB {A} (index : Z) (m : M Sess A) : M World A := λ w,
  if index <? 0 then (Panic "runtime error: index out of range", w)
  else match DBs (w_mdb w) !! Z.to_nat index with
       | None => (Panic "runtime error: index out of range", w)
       | Some d =>
           let '(r, s) := m (mkSess (w_tick w) d (mdb_PubSub (w_mdb w))) in
           (r, mkWorld (s_tick s)
                 (mkMultiDB (<[Z.to_nat index := s_db s]> (DBs (w_mdb w))) (s_ps s)))
       end.

(** [MultiDB.SweepExpired]: every database in turn. *)
Definition SweepAll `{GoEnv} : M World () :=
  for_each (λ i, with_DB (Z.of_nat i) SweepExpired) (seq 0 NumDatabases).
