(* ===== verification/StringCmds.v ===== *)
(** * StringCmds: string and key commands (src/pkg/commands/string_commands.go) *)
From S2P Require Import Prelude Go Strconv Resp DataStruct PubSub Database.

(** The reply of a failed arity check. *)
Definition wrong_args (name : string) : Value :=
  vError ("ERR wrong number of arguments for '" +:+ name +:+ "' command").
Definition not_an_integer : Value :=
  vError "ERR value is not an integer or out of range".
Definition vOK : Value := vSimple "OK".

Section cmds.
Context `{GoEnv}.

Definition ping (args : list Value) : M Sess Value :=
  match args with
  | [] => mret (vSimple "PONG")
  | a :: _ => mret (vBulk (Str a))
  end.

Definition set (args : list Value) : M Sess Value :=
  match args with
  | [k; v] =>
      let key := Str k in
      let value := Str v in
      _ ← modify_db (set_Store <[key := value]>);
      _ ← modify_db (set_Expires (delete key));
      mret vOK
  | _ => mret (wrong_args "set")
  end.

Definition get (args : list Value) : M Sess Value :=
  match args with
  | [k] =>
      let key := Str k in
      _ ← expireIfNeeded key;
      value ← gets_db (λ d, Store d !! key);
      match value with
      | None => mret vNull
      | Some value => mret (vBulk value)
      end
  | _ => mret (wrong_args "get")
  end.

Definition del (args : list Value) : M Sess Value :=
  if (length args <? 1)%nat then mret (wrong_args "del") else
  deleted ← for_fold (λ deleted arg,
    n ← DeleteKey (Str arg); mret (deleted + n)) 0 args;
  mret (vInt deleted).

Definition exists_ (args : list Value) : M Sess Value :=
  if (length args <? 1)%nat then mret (wrong_args "exists") else
  count ← for_fold (λ count arg,
    b ← KeyExists (Str arg); mret (if b : bool then count + 1 else count)) 0 args;
  mret (vInt count).

(** [for i := 0; i < len(args); i += 2]. *)
Fixpoint mset_loop (args : list Value) : M Sess () :=
  match args with
  | k :: v :: args' =>
      _ ← modify_db (set_Store <[Str k := Str v]>);
      _ ← modify_db (set_Expires (delete (Str k)));
      mset_loop args'
  | _ => mret ()
  end.

Definition mset (args : list Value) : M Sess Value :=
  if (length args <? 2)%nat || negb (Nat.even (length args)) then
    mret (wrong_args "mset")
  else _ ← mset_loop args; mret vOK.

Definition mget (args : list Value) : M Sess Value :=
  if (length args <? 1)%nat then mret (wrong_args "mget") else
  _ ← for_each (λ arg, expireIfNeeded (Str arg)) args;
  result ← gets_db (λ d, map (λ arg,
    match Store d !! Str arg with
    | Some value => vBulk value
    | None => vNull
    end) args);
  mret (vArray result).

Definition typeCmd (args : list Value) : M Sess Value :=
  match args with
  | [k] => keyType ← GetKeyType (Str k); mret (vSimple keyType)
  | _ => mret (wrong_args "type")
  end.

Definition increment (key : string) (amount : Z) : M Sess Value :=
  _ ← expireIfNeeded key;
  val ← gets_db (λ d, default "0" (Store d !! key));
  match Atoi val with
  | (_, Some _) => mret not_an_integer
  | (n, None) =>
      let newVal := wrap64 (n + amount) in
      _ ← modify_db (set_Store <[key := Itoa newVal]>);
      mret (vInt newVal)
  end.

Definition incr (args : list Value) : M Sess Value :=
  match args with
  | [k] => increment (Str k) 1
  | _ => mret (wrong_args "incr")
  end.

Definition decr (args : list Value) : M Sess Value :=
  match args with
  | [k] => increment (Str k) (-1)
  | _ => mret (wrong_args "decr")
  end.

Definition incrby (args : list Value) : M Sess Value :=
  match args with
  | [k; v] =>
      match Atoi (Str v) with
      | (_, Some _) => mret not_an_integer
      | (n, None) => increment (Str k) n
      end
  | _ => mret (wrong_args "incrby")
  end.

Definition decrby (args : list Value) : M Sess Value :=
  match args with
  | [k; v] =>
      match Atoi (Str v) with
      | (_, Some _) => mret not_an_integer
      | (n, None) => increment (Str k) (wrap64 (- n))
      end
  | _ => mret (wrong_args "decrby")
  end.
End cmds.
