(* ===== verification/ListCmds.v ===== *)
(** * ListCmds: list commands (src/pkg/commands/list_commands.go) *)
From S2P Require Import Prelude Go Strconv Resp DataStruct PubSub Database StringCmds.
Import ListDS.

Section cmds.
Context `{GoEnv}.

(** [if list.LLen() == 0 { delete(db.Lists, key) }]. *)
Definition drop_empty_list (key : string) : M Sess () :=
  n ← on_list key LLen;
  if n =? 0 then modify_db (set_Lists (delete key)) else mret ().

Definition lpush (args : list Value) : M Sess Value :=
  match args with
  | k :: (_ :: _) as vs =>
      let key := Str k in
      let values := map Str vs in
      _ ← GetOrCreateList key;
      length ← on_list key (LPush values);
      _ ← signalListPush;
      mret (vInt length)
  | _ => mret (wrong_args "lpush")
  end.

Definition rpush (args : list Value) : M Sess Value :=
  match args with
  | k :: (_ :: _) as vs =>
      let key := Str k in
      let values := map Str vs in
      _ ← GetOrCreateList key;
      length ← on_list key (RPush values);
      _ ← signalListPush;
      mret (vInt length)
  | _ => mret (wrong_args "rpush")
  end.

Definition lpop (args : list Value) : M Sess Value :=
  match args with
  | [k] =>
      let key := Str k in
      list ← GetList key;
      match list with
      | None => mret vNull
      | Some _ =>
          '(value, ok) ← on_list key LPop;
          if negb ok then mret vNull else
          _ ← drop_empty_list key;
          mret (vBulk value)
      end
  | _ => mret (wrong_args "lpop")
  end.

Definition rpop (args : list Value) : M Sess Value :=
  match args with
  | [k] =>
      let key := Str k in
      list ← GetList key;
      match list with
      | None => mret vNull
      | Some _ =>
          '(value, ok) ← on_list key RPop;
          if negb ok then mret vNull else
          _ ← drop_empty_list key;
          mret (vBulk value)
      end
  | _ => mret (wrong_args "rpop")
  end.

(** One pass of the inner loop of [blockingPop] over the keys. *)
Fixpoint pop_first (keys : list string) (left : bool) : M Sess (option Value) :=
  match keys with
  | [] => mret None
  | key :: keys' =>
      list ← GetList key;
      match list with
      | None => pop_first keys' left
      | Some _ =>
          '(value, ok) ← on_list key (if left then LPop else RPop);
          if negb ok then pop_first keys' left else
          _ ← drop_empty_list key;
          mret (Some (vArray [vBulk key; vBulk value]))
      end
  end.

(** [waitForListSignal] as the waiting goroutine sees it: it reads the clock
    when it has a deadline, and comes back after some wake-up (a broadcast or
    the timer). *)
Definition waitForListSignal (deadline : Z) (hasDeadline : bool) : M Sess () :=
  if hasDeadline then
    now ← Now;
    if deadline - now <=? 0 then mret () else mret ()
  else mret ().

(** [for { poll; give up at the deadline; wait }]; [wakeups] bounds the number
    of rounds, so running out of it is a pop that is still blocked. *)
Fixpoint blocking_loop (wakeups : nat) (keys : list string) (left : bool)
    (hasDeadline : bool) (deadline : Z) : M Sess Value :=
  match wakeups with
  | O => out_of_fuel
  | S wakeups' =>
      r ← pop_first keys left;
      match r with
      | Some v => mret v
      | None =>
          late ← (if hasDeadline then now ← Now; mret (now >? deadline)
                  else mret false : M Sess bool);
          if late : bool then mret vNull else
          _ ← waitForListSignal deadline hasDeadline;
          blocking_loop wakeups' keys left hasDeadline deadline
      end
  end.

Definition blockingPop (wakeups : nat) (args : list Value) (left : bool) : M Sess Value :=
  if (length args <? 2)%nat then mret (wrong_args "blpop") else
  let keys := map Str (take (length args - 1) args) in
  match args !! (length args - 1)%nat with
  | None => mret (wrong_args "blpop")
  | Some t =>
      match ParseFloat (Str t) with
      | None => mret (vError "ERR timeout is not a float or out of range")
      | Some timeoutSec =>
          if float_neg timeoutSec then
            mret (vError "ERR timeout is not a float or out of range")
          else
            let hasDeadline := float_pos timeoutSec in
            deadline ← (if hasDeadline then
                          now ← Now; mret (now + float_seconds timeoutSec)
                        else mret 0 : M Sess Z);
            blocking_loop wakeups keys left hasDeadline deadline
      end
  end.

Definition blpop (wakeups : nat) (args : list Value) : M Sess Value :=
  blockingPop wakeups args true.
Definition brpop (wakeups : nat) (args : list Value) : M Sess Value :=
  blockingPop wakeups args false.

Definition lrange (args : list Value) : M Sess Value :=
  match args with
  | [k; a; b] =>
      let key := Str k in
      match Atoi (Str a), Atoi (Str b) with
      | (start, None), (stop, None) =>
          list ← GetList key;
          match list with
          | None => mret (vArray [])
          | Some _ =>
              elements ← on_list key (LRange start stop);
              mret (vArray (map vBulk elements))
          end
      | _, _ => mret not_an_integer
      end
  | _ => mret (wrong_args "lrange")
  end.

Definition llen (args : list Value) : M Sess Value :=
  match args with
  | [k] =>
      list ← GetList (Str k);
      match list with
      | None => mret (vInt 0)
      | Some _ => n ← on_list (Str k) LLen; mret (vInt n)
      end
  | _ => mret (wrong_args "llen")
  end.

Definition lindex (args : list Value) : M Sess Value :=
  match args with
  | [k; i] =>
      let key := Str k in
      match Atoi (Str i) with
      | (_, Some _) => mret not_an_integer
      | (index, None) =>
          list ← GetList key;
          match list with
          | None => mret vNull
          | Some _ =>
              '(value, ok) ← on_list key (LIndex index);
              if negb ok then mret vNull else mret (vBulk value)
          end
      end
  | _ => mret (wrong_args "lindex")
  end.

Definition lset (args : list Value) : M Sess Value :=
  match args with
  | [k; i; v] =>
      let key := Str k in
      match Atoi (Str i) with
      | (_, Some _) => mret not_an_integer
      | (index, None) =>
          let value := Str v in
          list ← GetList key;
          match list with
          | None => mret (vError "ERR no such key")
          | Some _ =>
              ok ← on_list key (LSet index value);
              if negb ok then mret (vError "ERR index out of range") else mret vOK
          end
      end
  | _ => mret (wrong_args "lset")
  end.

Definition lrem (args : list Value) : M Sess Value :=
  match args with
  | [k; c; v] =>
      let key := Str k in
      match Atoi (Str c) with
      | (_, Some _) => mret not_an_integer
      | (count, None) =>
          let value := Str v in
          list ← GetList key;
          match list with
          | None => mret (vInt 0)
          | Some _ =>
              removed ← on_list key (LRem count value);
              _ ← drop_empty_list key;
              mret (vInt removed)
          end
      end
  | _ => mret (wrong_args "lrem")
  end.
End cmds.
