(* ===== verification/SetCmds.v ===== *)
(** * SetCmds: set commands (src/pkg/commands/set_commands.go) *)
From S2P Require Import Prelude Go Strconv Resp DataStruct PubSub Database StringCmds.
Import SetDS.

Section cmds.
Context `{GoEnv}.

(** [if set.SCard() == 0 { delete(db.Sets, key) }]. *)
Definition drop_empty_set (key : string) : M Sess () :=
  n ← on_set key (still (gets SCard));
  if n =? 0 then modify_db (set_Sets (delete key)) else mret ().

Definition sadd (args : list Value) : M Sess Value :=
  match args with
  | k :: (_ :: _) as ms =>
      let key := Str k in
      let members := map Str ms in
      _ ← GetOrCreateSet key;
      added ← on_set key (still (SAdd members));
      mret (vInt added)
  | _ => mret (wrong_args "sadd")
  end.

Definition srem (args : list Value) : M Sess Value :=
  match args with
  | k :: (_ :: _) as ms =>
      let key := Str k in
      set ← GetSet key;
      match set with
      | None => mret (vInt 0)
      | Some _ =>
          let members := map Str ms in
          removed ← on_set key (still (SRem members));
          _ ← drop_empty_set key;
          mret (vInt removed)
      end
  | _ => mret (wrong_args "srem")
  end.

Definition sismember (args : list Value) : M Sess Value :=
  match args with
  | [k; m] =>
      set ← GetSet (Str k);
      match set with
      | None => mret (vInt 0)
      | Some set => mret (vInt (if SIsMember set (Str m) then 1 else 0))
      end
  | _ => mret (wrong_args "sismember")
  end.

Definition smembers (args : list Value) : M Sess Value :=
  match args with
  | [k] =>
      set ← GetSet (Str k);
      match set with
      | None => mret (vArray [])
      | Some set => members ← ranged (SMembers set); mret (vArray (map vBulk members))
      end
  | _ => mret (wrong_args "smembers")
  end.

Definition scard (args : list Value) : M Sess Value :=
  match args with
  | [k] =>
      set ← GetSet (Str k);
      match set with
      | None => mret (vInt 0)
      | Some set => mret (vInt (SCard set))
      end
  | _ => mret (wrong_args "scard")
  end.

Definition spop (args : list Value) : M Sess Value :=
  match args with
  | [k] =>
      let key := Str k in
      set ← GetSet key;
      match set with
      | None => mret vNull
      | Some _ =>
          '(member, ok) ← on_set key SPop;
          if negb ok then mret vNull else
          _ ← drop_empty_set key;
          mret (vBulk member)
      end
  | _ => mret (wrong_args "spop")
  end.

(** The loop of SINTER over the other keys: a missing one ends it. *)
Fixpoint get_all_sets (keys : list Value) (otherSets : list (gmap string ())) :
    M Sess (option (list (gmap string ()))) :=
  match keys with
  | [] => mret (Some otherSets)
  | k :: keys' =>
      set ← GetSet (Str k);
      match set with
      | None => mret None
      | Some set => get_all_sets keys' (otherSets ++ [set])
      end
  end.

(** The loop of SUNION and SDIFF: a missing key is skipped. *)
Definition get_present_sets (keys : list Value) : M Sess (list (gmap string ())) :=
  for_fold (λ otherSets k,
    set ← GetSet (Str k);
    match set with
    | None => mret otherSets
    | Some set => mret (otherSets ++ [set])
    end) [] keys.

Definition sinter (args : list Value) : M Sess Value :=
  match args with
  | k :: ks =>
      firstSet ← GetSet (Str k);
      match firstSet with
      | None => mret (vArray [])
      | Some firstSet =>
          otherSets ← get_all_sets ks [];
          match otherSets with
          | None => mret (vArray [])
          | Some otherSets =>
              members ← ranged (SInter firstSet otherSets);
              mret (vArray (map vBulk members))
          end
      end
  | _ => mret (wrong_args "sinter")
  end.

Definition sunion (args : list Value) : M Sess Value :=
  match args with
  | k :: ks =>
      firstSet ← GetSet (Str k);
      let firstSet := default NewSet firstSet in
      otherSets ← get_present_sets ks;
      members ← ranged (SUnion firstSet otherSets);
      mret (vArray (map vBulk members))
  | _ => mret (wrong_args "sunion")
  end.

Definition sdiff (args : list Value) : M Sess Value :=
  match args with
  | k :: ks =>
      firstSet ← GetSet (Str k);
      match firstSet with
      | None => mret (vArray [])
      | Some firstSet =>
          otherSets ← get_present_sets ks;
          members ← ranged (SDiff firstSet otherSets);
          mret (vArray (map vBulk members))
      end
  | _ => mret (wrong_args "sdiff")
  end.
End cmds.
