(* ===== verification/HashCmds.v ===== *)
(** * HashCmds: hash commands (src/pkg/commands/hash_commands.go) *)
From S2P Require Import Prelude Go Strconv Resp DataStruct PubSub Database StringCmds.
Import HashDS.

Section cmds.
Context `{GoEnv}.

Definition hset (args : list Value) : M Sess Value :=
  match args with
  | [k; f; v] =>
      let key := Str k in
      _ ← GetOrCreateHash key;
      isNew ← on_hash key (still (HSet (Str f) (Str v)));
      if isNew : bool then mret (vInt 1) else mret (vInt 0)
  | _ => mret (wrong_args "hset")
  end.

Definition hget (args : list Value) : M Sess Value :=
  match args with
  | [k; f] =>
      hash ← GetHash (Str k);
      match hash with
      | None => mret vNull
      | Some hash =>
          let '(value, ok) := HGet hash (Str f) in
          if negb ok then mret vNull else mret (vBulk value)
      end
  | _ => mret (wrong_args "hget")
  end.

(** [if hash.HLen() == 0 { delete(db.Hashes, key) }]. *)
Definition drop_empty_hash (key : string) : M Sess () :=
  n ← on_hash key (still (gets HLen));
  if n =? 0 then modify_db (set_Hashes (delete key)) else mret ().

Definition hdel (args : list Value) : M Sess Value :=
  match args with
  | k :: (_ :: _) as fs =>
      let key := Str k in
      hash ← GetHash key;
      match hash with
      | None => mret (vInt 0)
      | Some _ =>
          let fields := map Str fs in
          deleted ← on_hash key (still (HDel fields));
          _ ← drop_empty_hash key;
          mret (vInt deleted)
      end
  | _ => mret (wrong_args "hdel")
  end.

Definition hexists (args : list Value) : M Sess Value :=
  match args with
  | [k; f] =>
      hash ← GetHash (Str k);
      match hash with
      | None => mret (vInt 0)
      | Some hash => mret (vInt (if HExists hash (Str f) then 1 else 0))
      end
  | _ => mret (wrong_args "hexists")
  end.

Definition hgetall (args : list Value) : M Sess Value :=
  match args with
  | [k] =>
      hash ← GetHash (Str k);
      match hash with
      | None => mret (vArray [])
      | Some hash =>
          fields ← ranged (HGetAll hash);
          entries ← range_of fields;
          mret (vArray (foldl (λ result '(field, value),
            result ++ [vBulk field] ++ [vBulk value]) [] entries))
      end
  | _ => mret (wrong_args "hgetall")
  end.

Definition hkeys (args : list Value) : M Sess Value :=
  match args with
  | [k] =>
      hash ← GetHash (Str k);
      match hash with
      | None => mret (vArray [])
      | Some hash => keys ← ranged (HKeys hash); mret (vArray (map vBulk keys))
      end
  | _ => mret (wrong_args "hkeys")
  end.

Definition hvals (args : list Value) : M Sess Value :=
  match args with
  | [k] =>
      hash ← GetHash (Str k);
      match hash with
      | None => mret (vArray [])
      | Some hash => values ← ranged (HVals hash); mret (vArray (map vBulk values))
      end
  | _ => mret (wrong_args "hvals")
  end.

Definition hlen (args : list Value) : M Sess Value :=
  match args with
  | [k] =>
      hash ← GetHash (Str k);
      match hash with
      | None => mret (vInt 0)
      | Some hash => mret (vInt (HLen hash))
      end
  | _ => mret (wrong_args "hlen")
  end.

(** [for i := 1; i < len(args); i += 2 { pairs[field] = value }]. *)
Fixpoint collect_pairs (args : list Value) (pairs : gmap string string) :
    gmap string string :=
  match args with
  | f :: v :: args' => collect_pairs args' (<[Str f := Str v]> pairs)
  | _ => pairs
  end.

Definition hmset (args : list Value) : M Sess Value :=
  if (length args <? 3)%nat || Nat.even (length args) then mret (wrong_args "hmset")
  else
    match args with
    | k :: fvs =>
        let key := Str k in
        _ ← GetOrCreateHash key;
        let pairs := collect_pairs fvs ∅ in
        _ ← on_hash key (HMSet pairs);
        mret vOK
    | [] => mret (wrong_args "hmset")
    end.

Definition hmget (args : list Value) : M Sess Value :=
  match args with
  | k :: (_ :: _) as fs =>
      hash ← GetHash (Str k);
      let fields := map Str fs in
      let values :=
        match hash with
        | Some hash => HMGet hash fields
        | None => replicate (length fields) ""
        end in
      mret (vArray (zip_with (λ field v,
        if bool_decide (v = "") &&
           match hash with Some hash => negb (HExists hash field) | None => true end
        then vNull else vBulk v) fields values))
  | _ => mret (wrong_args "hmget")
  end.

(** The error of [HIncrBy] is caught and becomes the reply. *)
Definition try {S A} (m : M S A) : M S (A + error) := λ s,
  match m s with
  | (Ok a, s') => (Ok (inl a), s')
  | (Err e, s') => (Ok (inr e), s')
  | (Panic p, s') => (Panic p, s')
  | (NoFuel, s') => (NoFuel, s')
  end.

Definition hincrby (args : list Value) : M Sess Value :=
  match args with
  | [k; f; i] =>
      let key := Str k in
      match Atoi (Str i) with
      | (_, Some _) => mret not_an_integer
      | (increment, None) =>
          _ ← GetOrCreateHash key;
          r ← on_hash key (still (try (HIncrBy (Str f) increment)));
          match r with
          | inr err => mret (vError ("ERR " +:+ error_text err))
          | inl newValue => mret (vInt newValue)
          end
      end
  | _ => mret (wrong_args "hincrby")
  end.
End cmds.
