(* ===== verification/ExpireCmds.v ===== *)
(** * ExpireCmds: key expiration and PUBLISH
    (src/pkg/commands/expire_commands.go, pubsub_commands.go) *)
From S2P Require Import Prelude Go Strconv Resp DataStruct PubSub Database StringCmds.

(** [time.Second] and [time.Millisecond], in nanoseconds. *)
Definition Second : Z := 1000000000.
Definition Millisecond : Z := 1000000.

(** [time.Until] saturates at the bounds of a [time.Duration]. *)
Definition saturate (d : Z) : Z := Z.max minInt (Z.min maxInt d).

Section cmds.
Context `{GoEnv}.

Definition setExpire (key amountStr : string) (unit : Z) : M Sess Value :=
  match Atoi amountStr with
  | (_, Some _) => mret not_an_integer
  | (amount, None) =>
      _ ← expireIfNeeded key;
      known ← gets_db (λ d, keyExistsLocked d key);
      if negb known then mret (vInt 0) else
      now ← Now;
      _ ← modify_db (set_Expires <[key := now + wrap64 (amount * unit)]>);
      mret (vInt 1)
  end.

Definition expire (args : list Value) : M Sess Value :=
  match args with
  | [k; a] => setExpire (Str k) (Str a) Second
  | _ => mret (wrong_args "expire")
  end.

Definition pexpire (args : list Value) : M Sess Value :=
  match args with
  | [k; a] => setExpire (Str k) (Str a) Millisecond
  | _ => mret (wrong_args "pexpire")
  end.

Definition ttlValue (key : string) (unit : Z) : M Sess Value :=
  _ ← expireIfNeeded key;
  known ← gets_db (λ d, keyExistsLocked d key);
  if negb known then mret (vInt (-2)) else
  exp ← gets_db (λ d, Expires d !! key);
  match exp with
  | None => mret (vInt (-1))
  | Some exp =>
      now ← Now;
      let remaining := saturate (exp - now) in
      let remaining := if remaining <? 0 then 0 else remaining in
      mret (vInt (Z.quot remaining unit))
  end.

Definition ttl (args : list Value) : M Sess Value :=
  match args with
  | [k] => ttlValue (Str k) Second
  | _ => mret (wrong_args "ttl")
  end.

Definition pttl (args : list Value) : M Sess Value :=
  match args with
  | [k] => ttlValue (Str k) Millisecond
  | _ => mret (wrong_args "pttl")
  end.

Definition persist (args : list Value) : M Sess Value :=
  match args with
  | [k] =>
      let key := Str k in
      _ ← expireIfNeeded key;
      exp ← gets_db (λ d, Expires d !! key);
      match exp with
      | None => mret (vInt 0)
      | Some _ => _ ← modify_db (set_Expires (delete key)); mret (vInt 1)
      end
  | _ => mret (wrong_args "persist")
  end.

Definition publish (args : list Value) : M Sess Value :=
  match args with
  | [c; m] => count ← ranged_ps (Publish (Str c) (Str m)); mret (vInt count)
  | _ => mret (wrong_args "publish")
  end.
End cmds.
