(* ===== verification/DbFacts.v ===== *)
(** * DbFacts: what the methods of [Database] compute

    Each method in closed form. The accesses of the program all start with
    [expireIfNeeded], so the closed forms are stated over [purged key s], the
    state after the possible eviction of [key]. *)
From S2P Require Import Prelude Go Strconv Resp DataStruct PubSub Database.
From S2P Require Import StringCmds ExpireCmds.

(** ** Equality of databases up to the condition variable *)
Definition same_data (d d' : Database) : Prop :=
  Store d = Store d' ∧ Lists d = Lists d' ∧ Sets d = Sets d' ∧
  Hashes d = Hashes d' ∧ Expires d = Expires d'.

#[export] Instance same_data_equiv : Equivalence same_data.
Proof.
  split; unfold same_data.
  - intros d. auto 6.
  - intros d d' (?&?&?&?&?). auto 6.
  - intros d1 d2 d3 (?&?&?&?&?) (?&?&?&?&?). split_and!; by etrans.
Qed.

#[export] Instance set_Store_same f : Proper (same_data ==> same_data) (set_Store f).
Proof. intros d d' (?&?&?&?&?). unfold same_data; cbn. split_and!; congruence. Qed.
#[export] Instance set_Lists_same f : Proper (same_data ==> same_data) (set_Lists f).
Proof. intros d d' (?&?&?&?&?). unfold same_data; cbn. split_and!; congruence. Qed.
#[export] Instance set_Sets_same f : Proper (same_data ==> same_data) (set_Sets f).
Proof. intros d d' (?&?&?&?&?). unfold same_data; cbn. split_and!; congruence. Qed.
#[export] Instance set_Hashes_same f : Proper (same_data ==> same_data) (set_Hashes f).
Proof. intros d d' (?&?&?&?&?). unfold same_data; cbn. split_and!; congruence. Qed.
#[export] Instance set_Expires_same f : Proper (same_data ==> same_data) (set_Expires f).
Proof. intros d d' (?&?&?&?&?). unfold same_data; cbn. split_and!; congruence. Qed.

Lemma set_listCond_same f d : same_data (set_listCond f d) d.
Proof. by unfold same_data. Qed.

#[export] Hint Resolve set_listCond_same : shore.

Lemma set_db_id s : set_db id s = s.
Proof. by destruct s as [? []]. Qed.

(** Storing back what a key already holds changes nothing. *)
Lemma set_Lists_id key l d : Lists d !! key = Some l → set_Lists <[key := l]> d = d.
Proof. intros Hl. destruct d. unfold set_Lists; cbn in *. by rewrite insert_id. Qed.
Lemma set_Sets_id key x d : Sets d !! key = Some x → set_Sets <[key := x]> d = d.
Proof. intros Hl. destruct d. unfold set_Sets; cbn in *. by rewrite insert_id. Qed.
Lemma set_Hashes_id key x d : Hashes d !! key = Some x → set_Hashes <[key := x]> d = d.
Proof. intros Hl. destruct d. unfold set_Hashes; cbn in *. by rewrite insert_id. Qed.

(** Everything the database holds under a key. *)
Definition at_key (key : string) (d : Database) :=
  (Store d !! key, Lists d !! key, Sets d !! key, Hashes d !! key, Expires d !! key).

(** What stays when the keys are left alone. *)
Definition same_but (keys : list string) (d d' : Database) : Prop :=
  ∀ k, k ∉ keys → at_key k d' = at_key k d.

Lemma at_key_eq key d a b c e f :
  at_key key d = (a, b, c, e, f) ↔
  Store d !! key = a ∧ Lists d !! key = b ∧ Sets d !! key = c ∧ Hashes d !! key = e ∧
    Expires d !! key = f.
Proof. unfold at_key. naive_solver. Qed.

(** ** Eviction *)
Lemma evict_lookup {A} (get : Database → gmap string A) key d k :
  (∀ d, get (evict key d) = delete key (get d)) →
  get (evict key d) !! k = if decide (k = key) then None else get d !! k.
Proof.
  intros ->. case_decide as Hk; [subst; apply lookup_delete_eq|].
  by rewrite lookup_delete_ne by congruence.
Qed.

Section run.
Context `{GoEnv}.

(** The database after the lazy expiration of [key] at time [now]. *)
Definition purge (now : Z) (key : string) (d : Database) : Database :=
  match Expires d !! key with
  | Some exp => if now <? exp then d else evict key d
  | None => d
  end.

(** The same on a session: the clock is read only for a key with a deadline. *)
Definition purged (key : string) (s : Sess) : Sess :=
  mkSess (match Expires (s_db s) !! key with Some _ => S (s_tick s) | None => s_tick s end)
    (purge (time_Now (s_tick s)) key (s_db s)) (s_ps s).

Lemma expireIfNeeded_run key s : expireIfNeeded key s = (Ok (), purged key s).
Proof.
  unfold expireIfNeeded, purged, purge, gets_db. run.
  destruct (Expires (s_db s) !! key) as [exp|]; [|by destruct s].
  unfold Now, ranged, zoom, tick, modify_db. run. rewrite bind_eq; run.
  rewrite !bind_eq; run. by destruct (_ <? exp).
Qed.

Lemma purged_no_deadline key s : Expires (s_db s) !! key = None → purged key s = s.
Proof. intros Hk. unfold purged, purge. rewrite Hk. by destruct s. Qed.

Lemma purged_live key s exp :
  Expires (s_db s) !! key = Some exp → time_Now (s_tick s) < exp →
  s_db (purged key s) = s_db s.
Proof.
  intros Hk Hlt. unfold purged, purge; cbn. rewrite Hk. by destruct (Z.ltb_spec (time_Now (s_tick s)) exp); [|lia].
Qed.

Lemma purged_expired key s exp :
  Expires (s_db s) !! key = Some exp → exp ≤ time_Now (s_tick s) →
  s_db (purged key s) = evict key (s_db s).
Proof.
  intros Hk Hlt. unfold purged, purge; cbn. rewrite Hk. by destruct (Z.ltb_spec (time_Now (s_tick s)) exp); [lia|].
Qed.

Lemma GetList_run key s :
  GetList key s = (Ok (Lists (s_db (purged key s)) !! key), purged key s).
Proof. unfold GetList. by rewrite (bind_ok _ _ _ _ _ (expireIfNeeded_run key s)). Qed.
Lemma GetSet_run key s :
  GetSet key s = (Ok (Sets (s_db (purged key s)) !! key), purged key s).
Proof. unfold GetSet. by rewrite (bind_ok _ _ _ _ _ (expireIfNeeded_run key s)). Qed.
Lemma GetHash_run key s :
  GetHash key s = (Ok (Hashes (s_db (purged key s)) !! key), purged key s).
Proof. unfold GetHash. by rewrite (bind_ok _ _ _ _ _ (expireIfNeeded_run key s)). Qed.

(** [GetOrCreate*]: the stored container, or a new empty one. *)
Lemma GetOrCreateList_run key s :
  let s1 := purged key s in
  GetOrCreateList key s =
    (Ok (), set_db (set_Lists <[key := default [] (Lists (s_db s1) !! key)]>) s1).
Proof.
  cbn zeta. unfold GetOrCreateList. rewrite (bind_ok _ _ _ _ _ (expireIfNeeded_run key s)).
  generalize (purged key s) as s1. intros s1. unfold gets_db, modify_db. run.
  destruct (Lists (s_db s1) !! key) as [l|] eqn:Hl; cbn; run; [|done].
  unfold set_db. rewrite set_Lists_id by done. by destruct s1.
Qed.
Lemma GetOrCreateSet_run key s :
  let s1 := purged key s in
  GetOrCreateSet key s =
    (Ok (), set_db (set_Sets <[key := default ∅ (Sets (s_db s1) !! key)]>) s1).
Proof.
  cbn zeta. unfold GetOrCreateSet. rewrite (bind_ok _ _ _ _ _ (expireIfNeeded_run key s)).
  generalize (purged key s) as s1. intros s1. unfold gets_db, modify_db. run.
  destruct (Sets (s_db s1) !! key) as [l|] eqn:Hl; cbn; run; [|done].
  unfold set_db. rewrite set_Sets_id by done. by destruct s1.
Qed.
Lemma GetOrCreateHash_run key s :
  let s1 := purged key s in
  GetOrCreateHash key s =
    (Ok (), set_db (set_Hashes <[key := default ∅ (Hashes (s_db s1) !! key)]>) s1).
Proof.
  cbn zeta. unfold GetOrCreateHash. rewrite (bind_ok _ _ _ _ _ (expireIfNeeded_run key s)).
  generalize (purged key s) as s1. intros s1. unfold gets_db, modify_db. run.
  destruct (Hashes (s_db s1) !! key) as [l|] eqn:Hl; cbn; run; [|done].
  unfold set_db. rewrite set_Hashes_id by done. by destruct s1.
Qed.

(** [KeyExists] and [GetKeyType], on the state after the possible eviction. *)
Lemma KeyExists_run key s :
  KeyExists key s = (Ok (keyExistsLocked (s_db (purged key s)) key), purged key s).
Proof.
  unfold KeyExists. rewrite (bind_ok _ _ _ _ _ (expireIfNeeded_run key s)).
  unfold gets_db, keyExistsLocked. run. by repeat case_bool_decide.
Qed.

Lemma keyExistsLocked_spec d key :
  keyExistsLocked d key = true ↔
  is_Some (Store d !! key) ∨ is_Some (Lists d !! key) ∨ is_Some (Sets d !! key) ∨
    is_Some (Hashes d !! key).
Proof. unfold keyExistsLocked. repeat case_bool_decide; naive_solver. Qed.

Definition type_name (d : Database) (key : string) : string :=
  if bool_decide (is_Some (Store d !! key)) then "string"
  else if bool_decide (is_Some (Lists d !! key)) then "list"
  else if bool_decide (is_Some (Sets d !! key)) then "set"
  else if bool_decide (is_Some (Hashes d !! key)) then "hash"
  else "none".

Lemma GetKeyType_run key s :
  GetKeyType key s = (Ok (type_name (s_db (purged key s)) key), purged key s).
Proof.
  unfold GetKeyType. by rewrite (bind_ok _ _ _ _ _ (expireIfNeeded_run key s)).
Qed.

Lemma ttlValue_none key unit s :
  keyExistsLocked (s_db (purged key s)) key = false →
  ttlValue key unit s = (Ok (vInt (-2)), purged key s).
Proof.
  intros Hk. unfold ttlValue. rewrite (bind_ok _ _ _ _ _ (expireIfNeeded_run key s)).
  unfold gets_db. run. by rewrite Hk.
Qed.

Lemma persist_run k s :
  persist [k] s =
    match Expires (s_db (purged (Str k) s)) !! Str k with
    | None => (Ok (vInt 0), purged (Str k) s)
    | Some _ => (Ok (vInt 1), set_db (set_Expires (delete (Str k))) (purged (Str k) s))
    end.
Proof.
  unfold persist. rewrite (bind_ok _ _ _ _ _ (expireIfNeeded_run (Str k) s)).
  unfold gets_db. run. by destruct (Expires _ !! _).
Qed.

Lemma get_run k s :
  get [k] s =
    (Ok (match Store (s_db (purged (Str k) s)) !! Str k with
         | Some v => vBulk v | None => vNull end), purged (Str k) s).
Proof.
  unfold get. rewrite (bind_ok _ _ _ _ _ (expireIfNeeded_run (Str k) s)).
  unfold gets_db. run. by destruct (Store _ !! _).
Qed.

Lemma exists_single k s :
  exists_ [k] s =
    (Ok (vInt (if keyExistsLocked (s_db (purged (Str k) s)) (Str k) then 1 else 0)),
     purged (Str k) s).
Proof.
  unfold exists_. cbn [length Nat.ltb Nat.leb for_fold]. rewrite !bind_eq.
  rewrite KeyExists_run. run. by destruct (keyExistsLocked _ _).
Qed.

(** A reading of the clock on a session. *)
Lemma Now_run s : Now s = (Ok (time_Now (s_tick s)), mkSess (S (s_tick s)) (s_db s) (s_ps s)).
Proof. done. Qed.

Lemma ttlValue_deadline key unit s exp :
  keyExistsLocked (s_db (purged key s)) key = true →
  Expires (s_db (purged key s)) !! key = Some exp →
  ttlValue key unit s =
    (Ok (vInt (Z.quot (Z.max 0 (saturate (exp - time_Now (s_tick (purged key s))))) unit)),
     mkSess (S (s_tick (purged key s))) (s_db (purged key s)) (s_ps (purged key s))).
Proof.
  intros Hk Hexp. unfold ttlValue. rewrite (bind_ok _ _ _ _ _ (expireIfNeeded_run key s)).
  revert Hk Hexp. generalize (purged key s). intros s1 Hk Hexp. unfold gets_db. run. rewrite Hk. cbn [negb]. run. rewrite Hexp, (bind_ok _ _ _ _ _ (Now_run _)). run.
  do 4 f_equal. by destruct (Z.ltb_spec (saturate (exp - time_Now (s_tick s1))) 0); lia.
Qed.

(** EXPIRE and PEXPIRE of a key. *)
Lemma setExpire_run key str amount unit s :
  Atoi str = (amount, None) →
  setExpire key str unit s =
    if keyExistsLocked (s_db (purged key s)) key then
      (Ok (vInt 1),
       mkSess (S (s_tick (purged key s)))
         (set_Expires <[key := time_Now (s_tick (purged key s)) + wrap64 (amount * unit)]>
            (s_db (purged key s))) (s_ps (purged key s)))
    else (Ok (vInt 0), purged key s).
Proof.
  intros Ha. unfold setExpire. rewrite Ha, (bind_ok _ _ _ _ _ (expireIfNeeded_run key s)).
  generalize (purged key s). intros s1. unfold gets_db. run. destruct (keyExistsLocked _ _); [|done].
  cbn [negb]. by rewrite (bind_ok _ _ _ _ _ (Now_run _)).
Qed.

(** INCR and its variants: the number at the key, wrapped around. *)
Lemma increment_run key a s :
  increment key a s =
    match Atoi (default "0" (Store (s_db (purged key s)) !! key)) with
    | (_, Some _) => (Ok not_an_integer, purged key s)
    | (n, None) =>
        (Ok (vInt (wrap64 (n + a))),
         set_db (set_Store <[key := Itoa (wrap64 (n + a))]>) (purged key s))
    end.
Proof.
  unfold increment. rewrite (bind_ok _ _ _ _ _ (expireIfNeeded_run key s)).
  generalize (purged key s). intros s1. unfold gets_db. run. by destruct (Atoi _) as [n []].
Qed.

(** The number of types the key has a value of. *)
Definition types_at (d : Database) (key : string) : Z :=
  (if Store d !! key is Some _ then 1 else 0) + (if Lists d !! key is Some _ then 1 else 0) +
  (if Sets d !! key is Some _ then 1 else 0) + (if Hashes d !! key is Some _ then 1 else 0).

Lemma DeleteKey_run key s :
  DeleteKey key s =
    (Ok (types_at (s_db (purged key s)) key), set_db (evict key) (purged key s)).
Proof.
  unfold DeleteKey. rewrite (bind_ok _ _ _ _ _ (expireIfNeeded_run key s)).
  generalize (purged key s). intros [n [St L Se Ha Ex lc] ps]. unfold delete_from, gets_db, types_at, evict.
  cbn [s_db Store Lists Sets Hashes].
  assert (Hd : ∀ {A} (m : gmap string A), m !! key = None → delete key m = m)
    by (intros; by apply delete_id).
  destruct (St !! key) eqn:HS, (L !! key) eqn:HL, (Se !! key) eqn:HSe, (Ha !! key) eqn:HH;
    rewrite bind_eq; repeat progress (cbn; rewrite ?bind_eq, ?HS, ?HL, ?HSe, ?HH);
    unfold set_db, set_Store, set_Lists, set_Sets, set_Hashes, set_Expires; cbn;
    rewrite ?(Hd _ _ HS), ?(Hd _ _ HL), ?(Hd _ _ HSe), ?(Hd _ _ HH); reflexivity.
Qed.
End run.

(** ** The sweep of the expired keys *)
Section sweep.
Context `{GoEnvLaws}.

Definition past (now : Z) (d : Database) (key : string) : bool :=
  match Expires d !! key with Some exp => exp <? now | None => false end.

(** Evicting keys whose deadline lies before an earlier reading of the clock. *)
Lemma expire_all keys now : ∀ s,
  now ≤ time_Now (s_tick s) → NoDup keys →
  Forall (λ k, ∃ exp, Expires (s_db s) !! k = Some exp ∧ exp < now) keys →
  ∃ n, for_each expireIfNeeded keys s =
    (Ok (), mkSess n (foldl (flip evict) (s_db s) keys) (s_ps s)).
Proof.
  induction keys as [|k keys IH]; intros s Hnow Hnd Hk; [exists (s_tick s); by destruct s|].
  apply list.NoDup_cons in Hnd as [Hin Hnd].
  apply list.Forall_cons in Hk as [(exp & Hexp & Hlt) Hk].
  cbn [for_each]. rewrite (bind_ok _ _ _ _ _ (expireIfNeeded_run k s)).
  assert (Hdb : s_db (purged k s) = evict k (s_db s)) by (eapply purged_expired; [done|lia]).
  destruct (IH (purged k s)) as [n Hrun]; [|done| |].
  - unfold purged. cbn. rewrite Hexp. etrans; [exact Hnow|].
    apply (time_Now_mono (s_tick s) (S (s_tick s))). lia.
  - rewrite Hdb. rewrite list.Forall_forall in *. intros k' Hk'.
    destruct (Hk k' Hk') as (exp' & He' & Hl'). exists exp'. split; [|done].
    cbn. rewrite lookup_delete_ne; [done|]. intros ->. done.
  - exists n. rewrite Hrun, Hdb. done.
Qed.

Lemma SweepExpired_run s :
  ∃ n keys, SweepExpired s = (Ok (), mkSess n (foldl (flip evict) (s_db s) keys) (s_ps s)) ∧
    ∀ k, k ∈ keys ↔ past (time_Now (s_tick s)) (s_db s) k = true.
Proof.
  set (now := time_Now (s_tick s)).
  set (keys := (List.filter (λ '(_, exp), now >? exp) (map_range (S (s_tick s)) (Expires (s_db s)))).*1).
  assert (Hin : ∀ k, k ∈ keys ↔ ∃ exp, Expires (s_db s) !! k = Some exp ∧ exp < now).
  { intros k. subst keys. rewrite list_elem_of_fmap. split.
    - intros ([k' exp] & -> & Hk). apply list_elem_of_In, filter_In in Hk as [Hk Hlt].
      apply list_elem_of_In, map_range_elem in Hk. exists exp. split; [done|].
      apply Z.gtb_lt in Hlt. lia.
    - intros (exp & Hk & Hlt). exists (k, exp). split; [done|].
      apply list_elem_of_In, filter_In. split; [by apply list_elem_of_In, map_range_elem|].
      apply Z.gtb_lt. lia. }
  destruct (expire_all keys now (mkSess (S (S (s_tick s))) (s_db s) (s_ps s))) as [n Hrun].
  - subst now. apply time_Now_mono. cbn. lia.
  - subst keys. apply (NoDup_filter_fst _ _ (map_range_NoDup _ _)).
  - rewrite list.Forall_forall. intros k Hk. by apply Hin.
  - exists n, keys. split.
    + exact Hrun.
    + intros k. rewrite Hin. unfold past. destruct (Expires (s_db s) !! k); [|naive_solver].
      rewrite Z.ltb_lt. naive_solver.
Qed.

(** What an eviction of several keys leaves under a key. *)
Lemma at_key_evict_all keys d k :
  at_key k (foldl (flip evict) d keys) =
    if decide (k ∈ keys) then (None, None, None, None, None) else at_key k d.
Proof.
  revert d. induction keys as [|k' keys IH]; intros d; [by rewrite decide_False by set_solver|].
  cbn [foldl]. rewrite IH. destruct (decide (k ∈ keys)) as [Hin|Hin].
  - rewrite decide_True; [done|by right].
  - unfold at_key, evict, flip. cbn. destruct (decide (k = k')) as [->|Hne].
    + rewrite decide_True by left. by rewrite !lookup_delete_eq.
    + rewrite decide_False by (by rewrite elem_of_cons; intros [?|?]). by rewrite !lookup_delete_ne by done.
Qed.
End sweep.
