(* ===== verification/PubSubLocks.v ===== *)
(** * PubSubLocks: the broker and its mutex

    (src/pkg/pubsub/pubsub.go, and how src/pkg/server/tcp.go uses it)

    [Subscribe] and [Unsubscribe] lock the mutex of the broker, [Publish] locks
    it for reading and sends on each channel in turn, while the goroutines of the
    connections receive from them without a lock. A send on a closed channel and
    a second [close] panic: that neither happens rests on who may close which
    channel, and on the mutex. *)
From S2P Require Import Prelude Go Locks Steady PubSub PubSubFacts Database.

Definition psMu : nat := 0.
Abbreviation T := (task (nat * PubSub)).

(** ** The operations *)
Section ops.
Context `{GoEnv}.

Definition Subscribe (channel : string) : T nat :=
  ch ← do_step (still make_chan);
  write_locked psMu (_ ← do_step (still (modify (register channel ch))); mret ch).

Definition Unsubscribe (channel : string) (ch : nat) : T () :=
  write_locked psMu
    (_ ← do_step (still (modify (unregister channel ch)));
     do_step (still (close_chan ch))).

(** The lookup of the channel, and the order its subscribers are visited in. *)
Definition visit (channel : string) : M (nat * PubSub) (option (list nat)) := λ '(n, p),
  match subs p !! channel with
  | None => (Ok None, (n, p))
  | Some ss => (Ok (Some (map_range n ss).*1), (S n, p))
  end.

Definition Publish (channel payload : string) : T Z :=
  read_locked psMu
    (l ← do_step (visit channel);
     match l with
     | None => mret 0
     | Some chs =>
         task_for_fold (λ delivered ch, do_step (still (send (mkMessage channel payload) delivered ch))) 0 chs
     end).

(** ** What a connection does with it

    [own] is the [subs] of its goroutine. The replies are left to [Server] and
    [SafeWriter]. *)
Definition handleSubscribe (channels : list string) (own : gmap string nat) : T (gmap string nat) :=
  task_for_fold (λ own channel,
    match own !! channel with
    | Some _ => mret own
    | None => ch ← Subscribe channel; mret (<[channel := ch]> own)
    end) own channels.

(** [range subs]. *)
Definition range_own (own : gmap string nat) : M (nat * PubSub) (list (string * nat)) := λ '(n, p),
  (Ok (map_range n own), (S n, p)).

Definition handleUnsubscribe (channels : list string) (own : gmap string nat) : T (gmap string nat) :=
  names ← match channels with
          | [] => entries ← do_step (range_own own); mret entries.*1
          | _ => mret channels
          end;
  task_for_fold (λ own channel,
    match own !! channel with
    | Some ch => _ ← Unsubscribe channel ch; mret (delete channel own)
    | None => mret own
    end) own names.

(** The deferred cleanup. *)
Definition disconnect (own : gmap string nat) : T () :=
  entries ← do_step (range_own own);
  task_for_each (λ '(channel, ch), Unsubscribe channel ch) entries.

Inductive Request :=
  | SUBSCRIBE (channels : list string)
  | UNSUBSCRIBE (channels : list string)
  | PUBLISH (channel payload : string).

Definition handle (own : gmap string nat) (r : Request) : T (gmap string nat) :=
  match r with
  | SUBSCRIBE channels => handleSubscribe channels own
  | UNSUBSCRIBE channels => handleUnsubscribe channels own
  | PUBLISH channel payload => _ ← Publish channel payload; mret own
  end.

(** A connection, from its first request to its end. *)
Definition session (requests : list Request) : T () :=
  own ← task_for_fold handle ∅ requests; disconnect own.

(** The goroutines that forward messages, some rounds of theirs: which channel
    each receives from is only known when it runs, so any is allowed. *)
Definition forwarder (chs : list nat) : T () :=
  task_for_each (λ ch, _ ← do_step (still (Receive ch)); mret ()) chs.
End ops.

(** ** Alone, they are the operations of [PubSub] *)
Section alone.
Context `{GoEnv}.

Lemma Subscribe_alone channel n p :
  task_alone (Subscribe channel) (n, p) = still (PubSub.Subscribe channel) (n, p).
Proof. done. Qed.

Lemma Unsubscribe_alone channel ch n p :
  task_alone (Unsubscribe channel ch) (n, p) = still (PubSub.Unsubscribe channel ch) (n, p).
Proof.
  unfold Unsubscribe. rewrite task_alone_write_locked. cbn.
  unfold mbind, M_bind, still, zoom. cbn. change (PubSub.Unsubscribe channel ch p) with
    (close_chan ch (unregister channel ch p)). by destruct (close_chan _ _) as [[] ?].
Qed.

Lemma Publish_alone channel payload x :
  task_alone (Publish channel payload) x = PubSub.Publish channel payload x.
Proof.
  unfold Publish. rewrite task_alone_read_locked. destruct x as [n p]. cbn.
  unfold mbind, M_bind. cbn. destruct (subs p !! channel) as [ss|]; [|done].
  rewrite (task_alone_for_fold _ (λ d ch, still (send (mkMessage channel payload) d ch))) by
    (intros; apply task_alone_do).
  generalize 0 (map_range n ss).*1 p. intros d l. revert d. induction l as [|ch l IH]; intros d q; [done|].
  cbn [for_fold]. rewrite !bind_eq. unfold still at 1, zoom. cbn.
  destruct (send (mkMessage channel payload) d ch q) as [[d'|e|e|] q']; [apply IH|done..].
Qed.
End alone.

Section order.
Context `{GoEnv}.

(** ** One mutex, taken once at a time *)
Lemma ordered_Subscribe channel : ordered [] [] (Subscribe channel).
Proof. eapply ordered_bind; [apply ordered_do|]. intros ch. by apply ordered_write_locked. Qed.

Lemma ordered_Unsubscribe channel ch : ordered [] [] (Unsubscribe channel ch).
Proof. by apply ordered_write_locked. Qed.

Lemma ordered_Publish channel payload : ordered [] [] (Publish channel payload).
Proof.
  apply ordered_read_locked; [done|]. eapply ordered_bind; [apply ordered_do|]. intros [chs|]; [|done].
  apply ordered_fold. intros d ch. apply ordered_do.
Qed.

Lemma ordered_handle own r : ordered [] [] (handle own r).
Proof.
  destruct r as [channels|channels|channel payload].
  - apply ordered_fold. intros own' channel. destruct (own' !! channel); [done|].
    eapply ordered_bind; [apply ordered_Subscribe|done].
  - eapply ordered_bind; [by destruct channels|]. intros names. apply ordered_fold. intros own' channel.
    destruct (own' !! channel); [|done]. eapply ordered_bind; [apply ordered_Unsubscribe|done].
  - eapply ordered_bind; [apply ordered_Publish|done].
Qed.

Lemma ordered_session requests : ordered [] [] (session requests).
Proof.
  eapply ordered_bind; [apply ordered_fold, ordered_handle|]. intros own.
  eapply ordered_bind; [apply ordered_do|]. intros l. apply ordered_for_each.
  intros [channel ch]. apply ordered_Unsubscribe.
Qed.

Lemma ordered_forwarder chs : ordered [] [] (forwarder chs).
Proof. apply ordered_for_each. intros ch. eapply ordered_bind; [apply ordered_do|done]. Qed.
End order.
