(* ===== verification/PubSubSafe.v ===== *)
(** * PubSubSafe: connections that subscribe, publish and end together

    Each goroutine owns the channels it has made and not yet closed. A step of
    one leaves the channels of the others as their owners know them, and the
    subscriptions too while another holds the mutex: the rules of [Steady], for
    the operations of [PubSubLocks] and for a connection from its first request
    to its end. *)
From S2P Require Import Prelude Go Locks Steady PubSub PubSubFacts Database PubSubLocks.

(** ** Who owns which channel *)

(** Made and not yet registered; registered under a name; about to be closed. *)
Inductive Owned := Fresh | Under (name : string) | Leaving.

Definition owned_ok (p : PubSub) (c : nat) (o : Owned) : Prop :=
  match o with
  | Fresh => chans p !! c = Some (mkChan [] false) ∧ unregistered p c
  | Under name => registered p name c
  | Leaving => open p c ∧ unregistered p c
  end.

Abbreviation G := (gmap nat Owned).
Definition fits (g : G) (s : nat * PubSub) : Prop := ∀ c o, g !! c = Some o → owned_ok s.2 c o.

(** A message waits only for the subscribers of its channel. *)
Definition labelled (p : PubSub) : Prop := ∀ name c b, registered p name c →
  chans p !! c = Some b → Forall (λ m, Channel m = name) (ch_buf b).

Definition broker_ok (s : nat * PubSub) : Prop := ps_wf s.2 ∧ labelled s.2.

Definition locked_by (held : list Hold) : Prop := (psMu, HRead) ∈ held ∨ (psMu, HWrite) ∈ held.

(** The others leave my channels alone, and [subs] too while I hold the mutex. *)
Definition rely (held : list Hold) (g : G) (s s' : nat * PubSub) : Prop :=
  (fits g s → fits g s') ∧ (locked_by held → subs s'.2 = subs s.2).

Definition guar (held : list Hold) (g g' : G) (s s' : nat * PubSub) : Prop :=
  (∀ h, g ##ₘ h → fits h s → fits h s' ∧ g' ##ₘ h) ∧
  (subs s'.2 = subs s.2 ∨ (psMu, HWrite) ∈ held) ∧
  (∀ name c, registered s'.2 name c →
    registered s.2 name c ∧ (g !! c = Some (Under name) → g' !! c = Some (Under name)) ∨
    g' !! c = Some (Under name)).

(** Every subscription belongs to somebody. *)
Definition accounted (s : nat * PubSub) (gs : list G) : Prop := ∀ name c, registered s.2 name c →
  ∃ i g, gs !! i = Some g ∧ g !! c = Some (Under name).

#[export] Instance rely_order held g : PreOrder (rely held g).
Proof.
  split; [done|]. intros s1 s2 s3 [H1 H1'] [H2 H2'].
  split; [by intros Hf; apply H2, H1|]. intros Hl. rewrite H2' by done. auto.
Qed.

Abbreviation apart := (map_disjoint (M:=gmap nat) (A:=Owned)).

#[export] Instance broker_framed : Framed broker_ok fits apart rely guar accounted.
Proof.
  split.
  - intros g h. apply map_disjoint_sym.
  - intros held held' g g' h s s' Hex Hgh _ _ Hh (Hfr & Hsubs & _). destruct (Hfr h Hgh Hh) as [Hh' Hap].
    split_and!; [|done|done]. split; [done|]. destruct Hsubs as [|Hw]; [done|].
    destruct (Hex _ Hw). by intros [?|?].
  - intros held g g' gs i s s' _ _ Hacc Hi (_ & _ & Hreg) name c Hc.
    assert (Hlt : (i < length gs)%nat) by by eapply lookup_lt_Some.
    destruct (Hreg name c Hc) as [[Hold Hkeep]|Hnew].
    + destruct (Hacc name c Hold) as (j & gj & Hj & Hgj). destruct (decide (i = j)) as [<-|Hij].
      * exists i, g'. rewrite list_lookup_insert_eq by done. split; [done|]. apply Hkeep. congruence.
      * exists j, gj. by rewrite list_lookup_insert_ne.
    + exists i, g'. by rewrite list_lookup_insert_eq.
Qed.

Abbreviation steadyP := (steady broker_ok fits rely guar).

(** ** Steps *)
Lemma owned_open p c o : ps_wf p → owned_ok p c o → open p c.
Proof.
  intros Hwf. destruct o; cbn; [intros [Hc _]; by exists []|by apply registered_open|by intros []].
Qed.

Lemma owned_same p c o o' : ps_wf p → owned_ok p c (Under o) → owned_ok p c o' → o' = Under o.
Proof.
  intros Hwf Hr. destruct o' as [|name|]; cbn.
  - intros [_ Hun]. by destruct (Hun o).
  - intros Hr'. f_equal. by eapply registered_unique.
  - intros [_ Hun]. by destruct (Hun o).
Qed.

(** The condition on the others, one channel at a time. *)
Lemma guar_intro held g g' s s' :
  (∀ c o, g !! c = None → owned_ok s.2 c o → owned_ok s'.2 c o ∧ g' !! c = None) →
  (subs s'.2 = subs s.2 ∨ (psMu, HWrite) ∈ held) →
  (∀ name c, registered s'.2 name c →
    registered s.2 name c ∧ (g !! c = Some (Under name) → g' !! c = Some (Under name)) ∨
    g' !! c = Some (Under name)) →
  guar held g g' s s'.
Proof.
  intros Hot Hsubs Hreg. split_and!; [|done|done]. intros h Hgh Hh.
  assert (Hc : ∀ c o, h !! c = Some o → owned_ok s'.2 c o ∧ g' !! c = None).
  { intros c o Hc. apply Hot; [|by apply Hh]. by eapply map_disjoint_Some_r. }
  split; [intros c o Hco; by apply Hc|]. apply map_disjoint_spec. intros c o1 o2 H1 H2.
  destruct (Hc c o2 H2) as [_ Hno]. congruence.
Qed.

(** One step of the broker, by one who then owns [g']. *)
Lemma steady_broker {A} held g (m : M PubSub A) (R : A → G → Prop) s :
  (∀ n p, broker_ok (n, p) → fits g (n, p) → ∃ a p' g', m p = (Ok a, p') ∧ broker_ok (n, p') ∧
    fits g' (n, p') ∧ guar held g g' (n, p) (n, p') ∧ R a g') →
  steadyP held held g (do_step (still m)) (λ a g' _, R a g') s.
Proof.
  intros Hm. apply steady_do. intros [n p] _ Hok Hfit.
  destruct (Hm n p Hok Hfit) as (a & p' & g' & Hrun & Hok' & Hfit' & Hg & HR).
  exists a, (n, p'), g'. split_and!; [|done..]. unfold still, zoom. cbn. by rewrite Hrun.
Qed.

Lemma steady_make_chan held g s :
  steadyP held held g (do_step (still make_chan)) (λ ch g' _, g !! ch = None ∧ g' = <[ch := Fresh]> g) s.
Proof.
  apply steady_broker. intros n p [Hwf Hlab] Hfit. set (ch := fresh_chan p).
  assert (Hne : ∀ c o, owned_ok p c o → c ≠ ch).
  { intros c o Hc ->. destruct (owned_open p ch o Hwf Hc) as [buf Hbuf].
    by rewrite (fresh_chan_None p : chans p !! ch = None) in Hbuf. }
  set (p' := (make_chan p).2).
  assert (Hkeep : ∀ c o, owned_ok p c o → owned_ok p' c o).
  { intros c o Hc. pose proof (Hne c o Hc) as Hch. destruct o as [|name|]; [|done|];
      destruct Hc as [Hc Hun]; (split; [|exact Hun]).
    - cbn. by rewrite lookup_insert_ne.
    - destruct Hc as [buf Hbuf]. exists buf. cbn. by rewrite lookup_insert_ne. }
  assert (Hg : g !! ch = None).
  { destruct (g !! ch) as [o|] eqn:Hch; [|done]. by destruct (Hne ch o (Hfit ch o Hch)). }
  exists ch, p', (<[ch := Fresh]> g). split_and!; [done| | | |done|done].
  - split; [by apply make_chan_wf|]. intros name c b Hr Hb. cbn in Hb, Hr.
    apply lookup_insert_Some in Hb as [[_ <-]|[_ Hb]]; [constructor|by eapply Hlab].
  - intros c o. rewrite lookup_insert_Some. intros [[<- <-]|[_ Hc]]; [|by apply Hkeep, Hfit].
    split; [apply lookup_insert_eq|by apply (fresh_unregistered p)].
  - apply guar_intro.
    + intros c o Hc Ho. split; [by apply Hkeep|]. rewrite lookup_insert_ne; [done|].
      intros <-. by destruct (Hne ch o Ho).
    + by left.
    + intros name c Hr. left. split; [done|]. intros Hc. rewrite lookup_insert_ne; [done|]. congruence.
Qed.

Lemma steady_register channel ch held g s :
  (psMu, HWrite) ∈ held → g !! ch = Some Fresh →
  steadyP held held g (do_step (still (modify (register channel ch))))
    (λ _ g' _, g' = <[ch := Under channel]> g) s.
Proof.
  intros Hw Hch. apply steady_broker. intros n p [Hwf Hlab] Hfit.
  destruct (Hfit ch Fresh Hch) as [Hbuf Hun]. cbn in Hbuf, Hun.
  assert (Hreg := register_registered channel ch p).
  assert (Hkeep : ∀ c o, c ≠ ch → owned_ok p c o → owned_ok (register channel ch p) c o).
  { intros c o Hne. destruct o as [|name|]; cbn; [|intros Hc; apply Hreg; by left|];
      intros [Hc Hno]; (split; [done|]); intros name [Hr|[_ ->]]%Hreg; [by eapply Hno|done..|by eapply Hno|done]. }
  exists (), (register channel ch p), (<[ch := Under channel]> g). split_and!; [done| | | |done].
  - split; [apply register_wf; [done|by exists []|done]|]. intros name c b [Hr|[-> ->]]%Hreg Hb.
    + by eapply Hlab.
    + cbn in Hb. rewrite Hbuf in Hb. injection Hb as <-. constructor.
  - intros c o. rewrite lookup_insert_Some. intros [[<- <-]|[Hne Hc]].
    + apply Hreg. by right.
    + apply Hkeep; [done|by apply Hfit].
  - apply guar_intro.
    + intros c o Hc Ho. assert (c ≠ ch) by congruence. split; [by apply Hkeep|by rewrite lookup_insert_ne].
    + by right.
    + intros name c [Hr|[-> ->]]%Hreg; [left|right; apply lookup_insert_eq]. split; [done|].
      intros Hc. rewrite lookup_insert_ne; [done|]. congruence.
Qed.

Lemma steady_unregister channel ch held g s :
  (psMu, HWrite) ∈ held → g !! ch = Some (Under channel) →
  steadyP held held g (do_step (still (modify (unregister channel ch))))
    (λ _ g' _, g' = <[ch := Leaving]> g) s.
Proof.
  intros Hw Hch. apply steady_broker. intros n p [Hwf Hlab] Hfit.
  assert (Hr : registered p channel ch) by exact (Hfit ch _ Hch).
  assert (Hreg := λ name c, unregister_registered channel ch p name c Hwf Hr).
  set (p' := unregister channel ch p) in *.
  assert (Hchans : chans p' = chans p) by apply unregister_chans.
  assert (Hkeep : ∀ c o, c ≠ ch → owned_ok p c o → owned_ok p' c o).
  { intros c o Hne. unfold owned_ok, open. rewrite Hchans.
    destruct o as [|name|]; [|intros Hc; by apply Hreg|];
      intros [Hc Hno]; (split; [done|]); intros name [Hr' _]%Hreg; by eapply Hno. }
  exists (), p', (<[ch := Leaving]> g). split_and!; [done| | | |done].
  - split; [by apply unregister_wf|]. intros name c b [Hc _]%Hreg. cbn. rewrite Hchans. by apply Hlab.
  - intros c o. rewrite lookup_insert_Some. intros [[<- <-]|[Hne Hc]].
    + split; [|intros name [_ Hno]%Hreg; done]. cbn. unfold open. rewrite Hchans. by eapply registered_open.
    + apply Hkeep; [done|by apply Hfit].
  - apply guar_intro.
    + intros c o Hc Ho. assert (c ≠ ch) by congruence. split; [by apply Hkeep|by rewrite lookup_insert_ne].
    + by right.
    + intros name c [Hc Hne]%Hreg. left. split; [done|]. by rewrite lookup_insert_ne.
Qed.

Lemma steady_close ch held g s :
  g !! ch = Some Leaving →
  steadyP held held g (do_step (still (close_chan ch))) (λ _ g' _, g' = delete ch g) s.
Proof.
  intros Hch. apply steady_broker. intros n p [Hwf Hlab] Hfit.
  destruct (Hfit ch Leaving Hch) as [[buf Hbuf] Hun]. cbn in Hbuf, Hun.
  assert (Hkeep : ∀ c o, c ≠ ch → owned_ok p c o → owned_ok (closed ch buf p) c o).
  { intros c o Hne. unfold owned_ok, open. cbn. by rewrite lookup_insert_ne. }
  exists (), (closed ch buf p), (delete ch g). split_and!; [by apply close_chan_run| | | |done].
  - split; [by apply closed_wf|]. intros name c b Hr Hb. cbn in Hr, Hb.
    apply lookup_insert_Some in Hb as [[<- <-]|[_ Hb]]; [by destruct (Hun name)|by eapply Hlab].
  - intros c o. rewrite lookup_delete_Some. intros [Hne Hc]. apply Hkeep; [done|by apply Hfit].
  - apply guar_intro.
    + intros c o Hc Ho. assert (c ≠ ch) by congruence. split; [by apply Hkeep|by rewrite lookup_delete_ne].
    + by left.
    + intros name c Hr. left. split; [done|]. intros Hc. rewrite lookup_delete_ne; [done|]. congruence.
Qed.

(** A step that changes one cell's buffer, as its owner allows. *)
Lemma buffer_step held g n p ch cl buf buf' :
  broker_ok (n, p) → fits g (n, p) → chans p !! ch = Some (mkChan buf cl) →
  (length buf' ≤ chan_cap)%nat → (buf = [] → unregistered p ch → buf' = []) →
  (∀ name, registered p name ch → Forall (λ m, Channel m = name) buf') →
  let p' := mkPubSub (subs p) (<[ch := mkChan buf' cl]> (chans p)) in
  broker_ok (n, p') ∧ fits g (n, p') ∧ guar held g g (n, p) (n, p').
Proof.
  intros [Hwf Hlab] Hfit Hbuf Hlen Hempty Hnames p'.
  assert (Hopen : ∀ c, open p c → open p' c).
  { intros c [b Hb]. unfold open. cbn. destruct (decide (c = ch)) as [->|Hne].
    - rewrite Hbuf in Hb. injection Hb as _ ->. exists buf'. apply lookup_insert_eq.
    - exists b. by rewrite lookup_insert_ne. }
  assert (Hkeep : ∀ c o, owned_ok p c o → owned_ok p' c o).
  { intros c [|name|]; cbn; [|done|intros [Hc Hun]; split; [by apply Hopen|done]].
    intros [Hc Hun]. split; [|done]. destruct (decide (c = ch)) as [->|Hne]; [|by rewrite lookup_insert_ne].
    rewrite Hc in Hbuf. injection Hbuf as <- <-. rewrite lookup_insert_eq. by rewrite Hempty. }
  split_and!.
  - split; [apply (chans_wf p)|]; [done..| | |].
    + intros name c Hr. apply Hopen. by eapply registered_open.
    + by apply chan_insert_bounded.
    + intros name c b Hr Hb. cbn in Hr, Hb. apply lookup_insert_Some in Hb as [[<- <-]|[_ Hb]];
        [by apply Hnames|by eapply Hlab].
  - intros c o Hc. by apply Hkeep, Hfit.
  - apply guar_intro; [|by left|by left]. intros c o Hc Ho. split; [by apply Hkeep|done].
Qed.

Lemma steady_send channel payload delivered ch held g s :
  (∀ s', rely held g s s' → registered s'.2 channel ch) →
  steadyP held held g (do_step (still (send (mkMessage channel payload) delivered ch)))
    (λ _ g' s', g' = g ∧ rely held g s s') s.
Proof.
  intros Hr. apply steady_do. intros [n p] Hs Hok Hfit. specialize (Hr _ Hs).
  destruct (registered_open p channel ch (proj1 Hok) Hr) as [buf Hbuf].
  pose proof (ps_bounded p (proj1 Hok) ch _ Hbuf) as Hlen. cbn in Hlen.
  unfold still, zoom, send. cbn -[Nat.ltb]. rewrite Hbuf. cbn -[Nat.ltb].
  destruct (Nat.ltb_spec (length buf) chan_cap) as [Hroom|Hfull].
  - set (p' := mkPubSub (subs p) (<[ch := mkChan (buf ++ [mkMessage channel payload]) false]> (chans p))).
    destruct (buffer_step held g n p ch false buf (buf ++ [mkMessage channel payload]) Hok Hfit Hbuf)
      as (Hok' & Hfit' & Hg).
    + rewrite length_app. cbn in *. lia.
    + intros _ Hun. by destruct (Hun channel).
    + intros name Hname. assert (name = channel) as -> by by eapply registered_unique; [apply Hok|..].
      apply Forall_app. split; [by apply (proj2 Hok channel ch _ Hr Hbuf)|by repeat constructor].
    + exists (delivered + 1), (n, p'), g. split_and!; [done..|]. intros s3 Hs3. split; [done|].
      etrans; [exact Hs|]. etrans; [|exact Hs3]. by split.
  - exists delivered, (n, p), g. split_and!; [done..| |].
    + apply guar_intro; [done|by left|by left].
    + intros s3 Hs3. split; [done|]. by etrans.
Qed.

Lemma steady_receive ch held g s :
  steadyP held held g (do_step (still (Receive ch))) (λ _ g' _, g' = g) s.
Proof.
  apply steady_do. intros [n p] _ Hok Hfit. unfold still, zoom, Receive. cbn.
  assert (Hsame : guar held g g (n, p) (n, p)) by (apply guar_intro; [done|by left|by left]).
  destruct (chans p !! ch) as [[[|m buf] cl]|] eqn:Hbuf; [by eexists _, _, g| |by eexists _, _, g].
  destruct (buffer_step held g n p ch cl (m :: buf) buf Hok Hfit Hbuf) as (Hok' & Hfit' & Hg).
  - pose proof (ps_bounded p (proj1 Hok) ch _ Hbuf) as Hlen. cbn in Hlen. lia.
  - done.
  - intros name Hr. pose proof (proj2 Hok name ch _ Hr Hbuf) as Hl. by inversion Hl.
  - by eexists _, _, g.
Qed.

Section env.
Context `{GoEnvLaws}.

(** What the loop of [Publish] visits. *)
Lemma visit_elem channel n p ss ch :
  subs p !! channel = Some ss → ch ∈ (map_range n ss).*1 ↔ registered p channel ch.
Proof.
  intros Hss. unfold registered. rewrite list_elem_of_fmap. split.
  - intros ([k u] & -> & Hk%map_range_elem). exists ss. split; [done|]. apply elem_of_dom. by exists u.
  - intros (ss' & Hs & [u Hu]%elem_of_dom). rewrite Hss in Hs. injection Hs as <-.
    exists (ch, u). split; [done|]. by apply map_range_elem.
Qed.

Lemma steady_visit channel held g s :
  locked_by held →
  steadyP held held g (do_step (visit channel))
    (λ l g' s', g' = g ∧ Forall (λ ch, registered s'.2 channel ch) (default [] l)) s.
Proof.
  intros Hl. apply steady_do. intros [n p] _ Hok Hfit. unfold visit.
  assert (Hsame : ∀ n', guar held g g (n, p) (n', p)) by (intros n'; apply guar_intro; [done|by left|by left]).
  destruct (subs p !! channel) as [ss|] eqn:Hss; eexists _, _, g; (split_and!; [done|done|done|done|]).
  - intros s3 [_ Hsubs]. specialize (Hsubs Hl). cbn in Hsubs. split; [done|]. cbn [default from_option].
    apply list.Forall_forall. intros ch Hch. apply (registered_same p); [done|]. by eapply visit_elem.
  - intros s3 _. split; [done|]. constructor.
Qed.

Lemma steady_sends channel payload chs held g :
  locked_by held → ∀ delivered s, Forall (λ ch, registered s.2 channel ch) chs →
  steadyP held held g
    (task_for_fold (λ delivered ch, do_step (still (send (mkMessage channel payload) delivered ch)))
       delivered chs) (λ _ g' _, g' = g) s.
Proof.
  intros Hl. induction chs as [|ch chs IH]; intros delivered s Hchs; [done|].
  apply list.Forall_cons in Hchs as [Hch Hchs]. cbn [task_for_fold].
  assert (Hlater : ∀ ch s', rely held g s s' → registered s.2 channel ch → registered s'.2 channel ch).
  { intros c s' [_ Hsubs] Hc. apply (registered_same s.2); [by apply Hsubs|done]. }
  apply (steady_then broker_ok fits rely guar (λ _ g' s', g' = g ∧ rely held g s s')).
  - apply steady_send. intros s' Hs. by apply Hlater.
  - intros d g' s' Hs'. destruct (Hs' s' ltac:(reflexivity)) as [-> Hs].
    apply IH. eapply list.Forall_impl; [exact Hchs|]. intros c. by apply Hlater.
Qed.
(** ** Operations *)
Abbreviation then_ := (steady_then broker_ok fits rely guar).
Abbreviation write_locked_ := (steady_write_locked broker_ok fits rely guar).
Abbreviation read_locked_ := (steady_read_locked broker_ok fits rely guar).

Lemma steady_ret {A} held g (a : A) (Q : A → G → nat * PubSub → Prop) s :
  (∀ s', rely held g s s' → Q a g s') → steadyP held held g (mret a) Q s.
Proof. by intros HQ. Qed.

(** A step whose result only depends on what is owned. *)
Lemma steady_seq {A B} (R : A → G → Prop) held g (p : T A) (f : A → T B) Q s :
  steadyP held held g p (λ a g' _, R a g') s →
  (∀ a g' s', R a g' → steadyP held held g' (f a) Q s') → steadyP held held g (p ≫= f) Q s.
Proof.
  intros Hp Hf. eapply then_; [exact Hp|]. intros a g' s' HR. apply Hf, (HR s'). reflexivity.
Qed.

Lemma steady_Subscribe channel held g s :
  steadyP held held g (Subscribe channel)
    (λ ch g' _, g !! ch = None ∧ g' = <[ch := Under channel]> g) s.
Proof.
  eapply steady_seq; [apply steady_make_chan|]. intros ch g1 s1 [Hch ->].
  apply write_locked_. intros s2 _ s3 _. eapply steady_seq.
  - apply steady_register; [left|apply lookup_insert_eq].
  - intros u g2 s4 ->. apply steady_ret. intros s5 _ s6 _. split; [done|]. by rewrite insert_insert_eq.
Qed.

Lemma steady_Unsubscribe channel ch held g s :
  g !! ch = Some (Under channel) →
  steadyP held held g (Unsubscribe channel ch) (λ _ g' _, g' = delete ch g) s.
Proof.
  intros Hch. apply write_locked_. intros s2 _ s3 _. eapply steady_seq.
  - by apply steady_unregister; [left|].
  - intros u g2 s4 ->. eapply steady_imp; [|apply steady_close, lookup_insert_eq].
    intros v g3 s5 -> s6 _. by rewrite delete_insert_eq.
Qed.

Lemma steady_Publish channel payload held g s :
  steadyP held held g (Publish channel payload) (λ _ g' _, g' = g) s.
Proof.
  apply read_locked_. intros s1 _. assert (Hl : locked_by ((psMu, HRead) :: held)) by (left; left).
  eapply then_; [by apply steady_visit|]. intros l g1 s2 Hl2. destruct (Hl2 s2 ltac:(reflexivity)) as [-> Hchs].
  destruct l as [chs|]; [|by apply steady_ret].
  eapply steady_imp; [|by apply (steady_sends channel payload chs _ g Hl)]. intros d g2 s3 -> s4 _. done.
Qed.
(** ** Connections

    A connection owns the channels of its [own]. *)
Definition owns (own : gmap string nat) (g : G) : Prop := ∀ c o,
  g !! c = Some o ↔ ∃ name, o = Under name ∧ own !! name = Some c.

Lemma owns_none : owns ∅ ∅.
Proof. intros c o. rewrite lookup_empty. split; [done|]. intros (name & _ & Hn). by rewrite lookup_empty in Hn. Qed.

Lemma owns_empty g : owns ∅ g → g = ∅.
Proof.
  intros Ho. apply map_eq. intros c. rewrite lookup_empty. destruct (g !! c) as [o|] eqn:Hc; [|done].
  apply Ho in Hc as (name & _ & Hn). by rewrite lookup_empty in Hn.
Qed.

Lemma owns_lookup own g name c : owns own g → own !! name = Some c → g !! c = Some (Under name).
Proof. intros Ho Hc. apply Ho. by exists name. Qed.

Lemma owns_insert own g name c :
  owns own g → own !! name = None → g !! c = None → owns (<[name := c]> own) (<[c := Under name]> g).
Proof.
  intros Ho Hname Hc c' o. rewrite lookup_insert_Some, (Ho c' o). split.
  - intros [[<- <-]|[Hne (n & -> & Hn)]].
    + exists name. split; [done|]. apply lookup_insert_eq.
    + exists n. split; [done|]. rewrite lookup_insert_ne; [done|]. congruence.
  - intros (n & -> & [[<- <-]|[Hne Hn]]%lookup_insert_Some); [by left|right].
    split; [|by exists n]. intros <-. by rewrite (owns_lookup own g n c Ho Hn) in Hc.
Qed.

Lemma owns_delete own g name c :
  owns own g → own !! name = Some c → owns (delete name own) (delete c g).
Proof.
  intros Ho Hname c' o. rewrite lookup_delete_Some, (Ho c' o). split.
  - intros [Hne (n & -> & Hn)]. exists n. split; [done|]. rewrite lookup_delete_ne; [done|]. congruence.
  - intros (n & -> & [Hne Hn]%lookup_delete_Some). split; [|by exists n]. intros <-.
    pose proof (owns_lookup own g n c Ho Hn). pose proof (owns_lookup own g name c Ho Hname). congruence.
Qed.

(** A loop that keeps [own] and what is owned together. *)
Abbreviation keeps_owns p g s := (steadyP [] [] g p (λ own' g' _, owns own' g') s).

Lemma owns_loop {X} (f : gmap string nat → X → T (gmap string nat)) l : ∀ own g s,
  (∀ own g x s, owns own g → keeps_owns (f own x) g s) → owns own g →
  keeps_owns (task_for_fold f own l) g s.
Proof.
  induction l as [|x l IH]; intros own g s Hf Ho; [by apply steady_ret|].
  cbn [task_for_fold]. eapply steady_seq; [by apply Hf|]. intros own' g' s' Ho'. by apply IH.
Qed.

Lemma steady_range_own own held g s :
  steadyP held held g (do_step (range_own own))
    (λ l g' _, g' = g ∧ NoDup l.*1 ∧ ∀ name c, (name, c) ∈ l ↔ own !! name = Some c) s.
Proof.
  apply steady_do. intros [n p] _ Hok Hfit. eexists _, _, g. split_and!; [done..|apply guar_intro|].
  - done.
  - by left.
  - by left.
  - intros s3 _. split_and!; [done|apply map_range_NoDup|]. intros name c. apply map_range_elem.
Qed.

Lemma steady_handle own g r s : owns own g → keeps_owns (handle own r) g s.
Proof.
  intros Ho. destruct r as [channels|channels|channel payload]; cbn [handle].
  - apply owns_loop; [|done]. clear. intros own g channel s Ho.
    destruct (own !! channel) as [c|] eqn:Hc; [by apply steady_ret|].
    eapply steady_seq; [apply steady_Subscribe|]. intros ch g' s' [Hch ->].
    apply steady_ret. intros s2 _. by apply owns_insert.
  - eapply steady_seq.
    + instantiate (1 := λ _ g', g' = g). destruct channels as [|x channels]; [|by apply steady_ret].
      eapply steady_seq; [apply steady_range_own|]. intros l g' s' [-> _]. by apply steady_ret.
    + intros names g' s' ->. apply owns_loop; [|done]. clear. intros own g channel s Ho.
      destruct (own !! channel) as [c|] eqn:Hc; [|by apply steady_ret].
      eapply steady_seq; [by apply steady_Unsubscribe, (owns_lookup own)|]. intros u g' s' ->.
      apply steady_ret. intros s2 _. by apply owns_delete.
  - eapply steady_seq; [apply steady_Publish|]. intros d g' s' ->. by apply steady_ret.
Qed.

Lemma steady_disconnect own g s : owns own g → steadyP [] [] g (disconnect own) (λ _ g' _, g' = ∅) s.
Proof.
  intros Ho. eapply steady_seq; [apply (steady_range_own own)|]. intros l g' s' (-> & Hnd & Hl).
  clear s. revert own g s' Ho Hl. induction l as [|[name c] l IH]; intros own g s Ho Hl.
  - apply steady_ret. intros _ _. apply owns_empty. replace ∅ with own; [done|].
    apply map_empty. intros n. destruct (own !! n) as [x|] eqn:Hn; [|done]. apply Hl in Hn. by apply elem_of_nil in Hn.
  - cbn in Hnd. apply list.NoDup_cons in Hnd as [Hname Hnd]. cbn [task_for_each].
    assert (Hc : own !! name = Some c) by (apply Hl; left).
    eapply steady_seq; [by apply steady_Unsubscribe, (owns_lookup own)|]. intros u g' s' ->.
    apply (IH Hnd (delete name own)); [by apply owns_delete|]. intros n x. rewrite lookup_delete_Some, <-Hl.
    split.
    + intros Hin. split; [|by right]. intros <-. apply Hname, list_elem_of_fmap. by exists (name, x).
    + intros [Hne [[= <- <-]|Hin]%elem_of_cons]; done.
Qed.

Lemma steady_session requests s : steadyP [] [] ∅ (session requests) (λ _ g' _, g' = ∅) s.
Proof.
  eapply steady_seq; [apply owns_loop, owns_none|].
  - intros own g r s' Ho. by apply steady_handle.
  - intros own g s' Ho. by apply steady_disconnect.
Qed.

Lemma steady_forwarder chs s : steadyP [] [] ∅ (forwarder chs) (λ _ g' _, g' = ∅) s.
Proof.
  revert s. induction chs as [|ch chs IH]; intros s; [by apply steady_ret|].
  eapply (steady_seq (λ _ g', g' = ∅)); [|by intros u g' s' ->].
  eapply steady_seq; [apply steady_receive|]. intros m g' s' ->. by apply steady_ret.
Qed.

(** ** All of them together *)
Definition goroutine (p : T ()) : Prop :=
  (∃ requests, p = session requests) ∨ ∃ chs, p = forwarder chs.

Definition start (n : nat) (ps : list (T ())) : Tasks (nat * PubSub) () := mkTasks (n, New) ∅ ps.

Abbreviation broker_pool :=
  (pool_steady broker_ok fits apart rely guar accounted (λ (_ : ()) (g : G) (_ : nat * PubSub), g = ∅)).

Lemma New_unregistered name c : ¬ registered New name c.
Proof. intros (ss & Hss & _). cbn in Hss. by rewrite lookup_empty in Hss. Qed.

Lemma broker_start n ps : Forall goroutine ps → broker_pool (start n ps).
Proof.
  intros Hps. apply (pool_steady_start _ _ _ _ _ _ _ ∅).
  - split; [apply New_wf|]. intros name c b Hr. by apply New_unregistered in Hr.
  - intros c o. by rewrite lookup_empty.
  - apply map_disjoint_empty_l.
  - intros name c Hr. by apply New_unregistered in Hr.
  - eapply list.Forall_impl; [exact Hps|].
    intros p [[requests ->]|[chs ->]]; [apply steady_session|apply steady_forwarder].
Qed.

Lemma unsubscribed p : ps_wf p → (∀ name c, ¬ registered p name c) → subs p = ∅.
Proof.
  intros Hwf Hno. apply map_empty. intros name. destruct (subs p !! name) as [ss|] eqn:Hss; [|done].
  apply (ps_nonempty p Hwf) in Hss as Hne. apply map_choose in Hne as (c & u & Hc).
  destruct (Hno name c). exists ss. split; [done|]. apply elem_of_dom. by exists u.
Qed.

Lemma broker_finished c : broker_pool c → Forall (λ p, finished p = true) (tk_tasks c) →
  subs (tk_data c).2 = ∅.
Proof.
  intros Hc Hfin. destruct (pool_finished _ _ _ _ _ _ _ c Hc Hfin) as ([Hwf _] & gs & Hacc & Hgs).
  apply unsubscribed; [done|]. intros name ch Hr. destruct (Hacc name ch Hr) as (i & g & Hi & Hg).
  destruct (list.Forall2_lookup_l _ _ _ _ _ Hgs Hi) as (p & _ & a & _ & ->). by rewrite lookup_empty in Hg.
Qed.
End env.
