(* ===== verification/Glob.v ===== *)
(** * Glob: [filepath.Match] on Unix, as KEYS and SCAN use it

    A transcription of the standard library's matcher: a pattern is cut into
    chunks at its stars, a chunk is matched literally (with [?], [[...]] and
    backslash escapes), a star skips bytes other than the separator. *)
From S2P Require Import Prelude Go.
From Stdlib Require Import Ascii.

Definition Separator : ascii := "/".

(** ** [utf8.DecodeRuneInString]: the first rune and its width *)
Definition byte (c : ascii) : Z := Z.of_nat (nat_of_ascii c).
Definition RuneError : Z := 65533.

Definition cont (c : ascii) (lo hi : Z) : bool := (lo <=? byte c) && (byte c <=? hi).

Definition DecodeRune (s : string) : Z * nat :=
  match s with
  | "" => (RuneError, 0%nat)
  | String c0 s1 =>
      let b0 := byte c0 in
      if b0 <? 128 then (b0, 1%nat)
      else match s1 with
      | "" => (RuneError, 1%nat)
      | String c1 s2 =>
          if (194 <=? b0) && (b0 <=? 223) then
            if cont c1 128 191 then ((b0 - 192) * 64 + (byte c1 - 128), 2%nat)
            else (RuneError, 1%nat)
          else
            let lo := if b0 =? 224 then 160 else if b0 =? 240 then 144 else 128 in
            let hi := if b0 =? 237 then 159 else if b0 =? 244 then 143 else 191 in
            if negb (cont c1 lo hi) then (RuneError, 1%nat)
            else match s2 with
            | "" => (RuneError, 1%nat)
            | String c2 s3 =>
                if negb (cont c2 128 191) then (RuneError, 1%nat)
                else if (224 <=? b0) && (b0 <=? 239) then
                  ((b0 - 224) * 4096 + (byte c1 - 128) * 64 + (byte c2 - 128), 3%nat)
                else match s3 with
                | "" => (RuneError, 1%nat)
                | String c3 _ =>
                    if (240 <=? b0) && (b0 <=? 244) && cont c3 128 191 then
                      ((b0 - 240) * 262144 + (byte c1 - 128) * 4096
                        + (byte c2 - 128) * 64 + (byte c3 - 128), 4%nat)
                    else (RuneError, 1%nat)
                end
            end
      end
  end.

(** ** Chunks *)

(** [for len(pattern) > 0 && pattern[0] == '*']. *)
Fixpoint strip_stars (pattern : string) : bool * string :=
  match pattern with
  | String c p' => if (c =? "*")%char then (true, snd (strip_stars p')) else (false, pattern)
  | "" => (false, "")
  end.

(** The scan for the end of the chunk: it stops at a star outside a class. *)
Fixpoint scan_loop (inrange : bool) (pattern : string) : string * string :=
  match pattern with
  | "" => ("", "")
  | String c p' =>
      if (c =? "\")%char then
        match p' with
        | "" => (pattern, "")
        | String c' p'' =>
            let '(chunk, rest) := scan_loop inrange p'' in
            (String c (String c' chunk), rest)
        end
      else if (c =? "*")%char && negb inrange then ("", pattern)
      else
        let inrange :=
          if (c =? "[")%char then true else if (c =? "]")%char then false else inrange in
        let '(chunk, rest) := scan_loop inrange p' in (String c chunk, rest)
  end.

Definition scanChunk (pattern : string) : bool * string * string :=
  let '(star, p) := strip_stars pattern in
  let '(chunk, rest) := scan_loop false p in
  (star, chunk, rest).

(** A rune of a character class and what follows it; [None] is
    [ErrBadPattern]. *)
Definition getEsc (chunk : string) : option (Z * string) :=
  let decode chunk :=
    let '(r, n) := DecodeRune chunk in
    let nchunk := str_drop n chunk in
    if (r =? RuneError) && (n =? 1)%nat then None
    else if (String.length nchunk =? 0)%nat then None
    else Some (r, nchunk) in
  match chunk with
  | "" => None
  | String c chunk' =>
      if (c =? "-")%char || (c =? "]")%char then None
      else if (c =? "\")%char then
        match chunk' with "" => None | _ => decode chunk' end
      else decode chunk
  end.

(** The ranges of a class for the rune [r]: whether one of them holds it, and
    the chunk after the closing bracket. *)
Fixpoint class_loop (fuel : nat) (r : Z) (chunk : string) (matched : bool) (nrange : nat) :
    option (bool * string) :=
  match fuel with
  | O => None
  | S fuel' =>
      match chunk with
      | String "]" chunk' =>
          if (0 <? nrange)%nat then Some (matched, chunk') else None
      | _ =>
          '(lo, chunk) ← getEsc chunk;
          '(hi, chunk) ←
            match chunk with
            | String "-" chunk' => getEsc chunk'
            | _ => Some (lo, chunk)
            end;
          class_loop fuel' r chunk (matched || ((lo <=? r) && (r <=? hi))) (S nrange)
      end
  end.

(** [matchChunk]: [None] is a bad pattern, [Some None] a failed match, [Some
    (Some rest)] a match that leaves [rest] of the name. After a failure the
    chunk is still read to its end, for its syntax. *)
Fixpoint match_loop (fuel : nat) (chunk s : string) (failed : bool) :
    option (option string) :=
  match fuel with
  | O => None
  | S fuel' =>
      match chunk with
      | "" => Some (if failed then None else Some s)
      | String c chunk' =>
          let failed := failed || (String.length s =? 0)%nat in
          if (c =? "[")%char then
            let '(r, n) := if failed then (0, 0%nat) else DecodeRune s in
            let '(negated, chunk') :=
              match chunk' with
              | String "^" chunk'' => (true, chunk'')
              | _ => (false, chunk')
              end in
            '(matched, chunk') ← class_loop (S (String.length chunk')) r chunk' false 0;
            match_loop fuel' chunk' (str_drop n s) (failed || Bool.eqb matched negated)
          else if (c =? "?")%char then
            match s with
            | String c0 _ =>
                if failed then match_loop fuel' chunk' s failed
                else match_loop fuel' chunk' (str_drop (snd (DecodeRune s)) s)
                       (c0 =? Separator)%char
            | "" => match_loop fuel' chunk' s failed
            end
          else
            let literal c chunk' :=
              match s with
              | String c0 s' =>
                  if failed then match_loop fuel' chunk' s failed
                  else match_loop fuel' chunk' s' (negb (c =? c0)%char)
              | "" => match_loop fuel' chunk' s failed
              end in
            if (c =? "\")%char then
              match chunk' with
              | "" => None
              | String c' chunk'' => literal c' chunk''
              end
            else literal c chunk'
      end
  end.

Definition matchChunk (chunk s : string) : option (option string) :=
  match_loop (S (String.length chunk)) chunk s false.

(** [for i := 0; i < len(name) && name[i] != Separator; i++]: the rest of the
    name after a star has skipped at least one byte. *)
Fixpoint star_loop (chunk : string) (last : bool) (name : string) :
    option (option string) :=
  match name with
  | "" => Some None
  | String c name' =>
      if (c =? Separator)%char then Some None
      else
        match matchChunk chunk name' with
        | None => None
        | Some (Some t) =>
            if last && (0 <? String.length t)%nat then star_loop chunk last name'
            else Some (Some t)
        | Some None => star_loop chunk last name'
        end
  end.

Fixpoint contains (c : ascii) (s : string) : bool :=
  match s with "" => false | String c' s' => (c' =? c)%char || contains c s' end.

(** [None] is the error [ErrBadPattern]. Every round takes at least one byte of
    the pattern. *)
Fixpoint Match_loop (fuel : nat) (pattern name : string) : option bool :=
  match fuel with
  | O => None
  | S fuel' =>
      match pattern with
      | "" => Some (String.length name =? 0)%nat
      | _ =>
          let '(star, chunk, pattern) := scanChunk pattern in
          if star && (String.length chunk =? 0)%nat then
            Some (negb (contains Separator name))
          else
            let last := (String.length pattern =? 0)%nat in
            let after_star :=
              if star : bool then
                match star_loop chunk last name with
                | None => None
                | Some (Some t) => Match_loop fuel' pattern t
                | Some None => Some false
                end
              else Some false in
            match matchChunk chunk name with
            | None => None
            | Some (Some t) =>
                if (String.length t =? 0)%nat || negb last then Match_loop fuel' pattern t
                else after_star
            | Some None => after_star
            end
      end
  end.

Definition Match (pattern name : string) : option bool :=
  Match_loop (S (String.length pattern)) pattern name.

(** [matched, _ := filepath.Match(pattern, k)]: a bad pattern matches nothing. *)
Definition matched (pattern name : string) : bool :=
  match Match pattern name with Some b => b | None => false end.

(** ** The behaviour KEYS relies on *)
Lemma Match_star name : Match "*" name = Some (negb (contains Separator name)).
Proof. by unfold Match. Qed.

Example match_literal : matched "hello" "hello" = true. Proof. reflexivity. Qed.
Example match_prefix : matched "user:*" "user:42" = true. Proof. reflexivity. Qed.
Example match_infix : matched "a*b*c" "aXXbYYc" = true. Proof. reflexivity. Qed.
Example match_question : matched "h?llo" "hallo" = true. Proof. reflexivity. Qed.
Example match_class : matched "h[ae]llo" "hello" = true. Proof. reflexivity. Qed.
Example match_negated : matched "h[^e]llo" "hello" = false. Proof. reflexivity. Qed.
Example match_range : matched "k[0-9]" "k7" = true. Proof. reflexivity. Qed.
Example match_escape : matched "a\*" "a*" = true. Proof. reflexivity. Qed.
Example match_slash : matched "*" "a/b" = false. Proof. reflexivity. Qed.
Example match_bad : Match "[" "a" = None. Proof. reflexivity. Qed.
