(* ===== verification/Config.v ===== *)
(** * Config: the configuration file (src/pkg/persistence/config.go)

    The file is read line by line, as [bufio.Scanner] does; a line is a
    directive and its arguments, separated by white space. Unknown directives
    and lines that are too short are skipped. *)
From S2P Require Import Prelude Go Strconv Glob.
From Stdlib Require Import Ascii.

(** ** White space *)

(** [unicode.IsSpace]. *)
Definition IsSpace (r : Z) : bool :=
  bool_decide (r ∈ [9; 10; 11; 12; 13; 32; 133; 160; 5760; 8232; 8233; 8239; 8287; 12288])
  || ((8192 <=? r) && (r <=? 8202)).

(** The first rune of a string that is not empty takes at least one byte. *)
Definition rune_width (s : string) : nat := Nat.max 1 (snd (DecodeRune s)).

(** [strings.TrimLeftFunc(s, unicode.IsSpace)]. *)
Fixpoint TrimLeft_loop (fuel : nat) (s : string) : string :=
  match fuel, s with
  | O, _ | _, "" => s
  | S fuel', _ =>
      if IsSpace (fst (DecodeRune s)) then TrimLeft_loop fuel' (str_drop (rune_width s) s)
      else s
  end.

(** [strings.TrimRightFunc(s, unicode.IsSpace)]: the string up to its last rune
    that is not a space. *)
Fixpoint TrimRight_loop (fuel : nat) (s : string) : string :=
  match fuel, s with
  | O, _ | _, "" => s
  | S fuel', _ =>
      let rest := TrimRight_loop fuel' (str_drop (rune_width s) s) in
      if IsSpace (fst (DecodeRune s)) && (String.length rest =? 0)%nat then ""
      else str_take (rune_width s) s +:+ rest
  end.

Definition TrimSpace (s : string) : string :=
  let s := TrimLeft_loop (String.length s) s in TrimRight_loop (String.length s) s.

(** [strings.Fields]: the maximal runs of runes that are not spaces; [field] is
    the run being read. *)
Fixpoint Fields_loop (fuel : nat) (s field : string) : list string :=
  let flush := if (String.length field =? 0)%nat then [] else [field] in
  match fuel, s with
  | O, _ | _, "" => flush
  | S fuel', _ =>
      let rest := str_drop (rune_width s) s in
      if IsSpace (fst (DecodeRune s)) then flush ++ Fields_loop fuel' rest ""
      else Fields_loop fuel' rest (field +:+ str_take (rune_width s) s)
  end.

Definition Fields (s : string) : list string := Fields_loop (String.length s) s "".

(** ** [bufio.Scanner] with [bufio.ScanLines]

    A line ends at a newline, which is dropped with one carriage return before
    it; the last line may lack it. The scanner gives up at a line that fills its
    buffer. *)
Definition MaxScanTokenSize : Z := 65536.
Definition newline : ascii := "010".
Definition carriage_return : ascii := "013".

Fixpoint dropCR (line : string) : string :=
  match line with
  | "" => ""
  | String c "" => if (c =? carriage_return)%char then "" else line
  | String c line' => String c (dropCR line')
  end.

(** The line up to the first newline, and what follows it if there is one. *)
Fixpoint cut_line (s : string) : string * option string :=
  match s with
  | "" => ("", None)
  | String c s' =>
      if (c =? newline)%char then ("", Some s')
      else let '(line, rest) := cut_line s' in (String c line, rest)
  end.

Fixpoint scan_lines (fuel : nat) (text : string) : list string :=
  match fuel with
  | O => []
  | S fuel' =>
      match text with
      | "" => []
      | _ =>
          let '(line, rest) := cut_line text in
          if MaxScanTokenSize <=? slen line then []
          else dropCR line ::
            match rest with Some rest => scan_lines fuel' rest | None => [] end
      end
  end.

(** ** The configuration *)

(** [FSyncMode] is a string with three named values. *)
Definition Always : string := "always".
Definition EverySec : string := "everysec".
Definition No : string := "no".

Record RDBSnapshot := mkSnapshot { Secs : Z; KeysChanged : Z }.

Record Config := mkConfig {
  dir : string;
  cfg_rdb : list RDBSnapshot;
  rdbFn : string;
  aofEnabled : bool;
  aofFn : string;
  aofFsync : string;
  cfg_requirePass : string;
}.

Definition NewConfig : Config :=
  mkConfig "." [] "dump.rdb" false "appendonly.aof" EverySec "".

Definition set_dir x c :=
  mkConfig x (cfg_rdb c) (rdbFn c) (aofEnabled c) (aofFn c) (aofFsync c) (cfg_requirePass c).
Definition add_rdb x c :=
  mkConfig (dir c) (cfg_rdb c ++ [x]) (rdbFn c) (aofEnabled c) (aofFn c) (aofFsync c)
    (cfg_requirePass c).
Definition set_rdbFn x c :=
  mkConfig (dir c) (cfg_rdb c) x (aofEnabled c) (aofFn c) (aofFsync c) (cfg_requirePass c).
Definition set_aofEnabled x c :=
  mkConfig (dir c) (cfg_rdb c) (rdbFn c) x (aofFn c) (aofFsync c) (cfg_requirePass c).
Definition set_aofFn x c :=
  mkConfig (dir c) (cfg_rdb c) (rdbFn c) (aofEnabled c) x (aofFsync c) (cfg_requirePass c).
Definition set_aofFsync x c :=
  mkConfig (dir c) (cfg_rdb c) (rdbFn c) (aofEnabled c) (aofFn c) x (cfg_requirePass c).
Definition set_requirePass x c :=
  mkConfig (dir c) (cfg_rdb c) (rdbFn c) (aofEnabled c) (aofFn c) (aofFsync c) x.

Definition HasPrefix_hash (line : string) : bool :=
  match line with String c _ => (c =? "#")%char | "" => false end.

Section config.
Context `{GoEnv}.

(** The switch on the directive [d] with its first argument [a] and the
    arguments that follow. *)
Definition apply_directive (d a : string) (args : list string) (config : Config) : Config :=
  if String.eqb d "save" then
    match args with
    | [] => config
    | b :: _ => add_rdb (mkSnapshot (fst (Atoi a)) (fst (Atoi b))) config
    end
  else if String.eqb d "dbfilename" then set_rdbFn a config
  else if String.eqb d "appendfilename" then set_aofFn a config
  else if String.eqb d "appendfsync" then set_aofFsync a config
  else if String.eqb d "dir" then set_dir a config
  else if String.eqb d "appendonly" then set_aofEnabled (String.eqb a "yes") config
  else if String.eqb d "requirepass" then set_requirePass a config
  else config.

Definition parseLine (line : string) (config : Config) : Config :=
  let line := TrimSpace line in
  if (String.length line =? 0)%nat || HasPrefix_hash line then config else
  match Fields line with
  | d :: a :: args => apply_directive (ToLower d) a args config
  | _ => config
  end.

(** The loop of [ReadConfig] over the text of the file. *)
Definition scan_config (text : string) (config : Config) : Config :=
  foldl (λ config line, parseLine line config) config
    (scan_lines (S (String.length text)) text).
End config.

(** ** [filepath.Join] on Unix *)
Fixpoint split_path (s cur : string) : list string :=
  match s with
  | "" => [cur]
  | String c s' =>
      if (c =? Separator)%char then cur :: split_path s' ""
      else split_path s' (cur +:+ String c "")
  end.

(** One element of the path at a time; [out] holds the ones kept, the last
    first. *)
Definition clean_step (rooted : bool) (out : list string) (elem : string) : list string :=
  if (String.length elem =? 0)%nat || String.eqb elem "." then out
  else if String.eqb elem ".." then
    match out with
    | top :: out' => if String.eqb top ".." then elem :: out else out'
    | [] => if rooted then [] else [elem]
    end
  else elem :: out.

Fixpoint join_path (l : list string) : string :=
  match l with
  | [] => ""
  | [x] => x
  | x :: l' => x +:+ String Separator (join_path l')
  end.

Definition Clean (path : string) : string :=
  match path with
  | "" => "."
  | String c _ =>
      let rooted := (c =? Separator)%char in
      let out := rev (foldl (clean_step rooted) [] (split_path path "")) in
      if rooted then String Separator (join_path out)
      else match out with [] => "." | _ => join_path out end
  end.

Definition Join (a b : string) : string :=
  match a with
  | "" => match b with "" => "" | _ => Clean b end
  | _ => Clean (a +:+ String Separator b)
  end.

Definition GetFullPath (c : Config) (filename : string) : string := Join (dir c) filename.

Example clean_1 : Join "data" "dump.rdb" = "data/dump.rdb". Proof. reflexivity. Qed.
Example clean_2 : Join "." "dump.rdb" = "dump.rdb". Proof. reflexivity. Qed.
Example clean_3 : Join "/var//lib/../db/" "./x" = "/var/db/x". Proof. reflexivity. Qed.
Example clean_4 : Join "../a/.." "b/../.." = "../..". Proof. reflexivity. Qed.
Example clean_5 : Join "/.." "a" = "/a". Proof. reflexivity. Qed.

(** ** Reading back a file of one-word arguments *)

(** Visible ASCII: neither white space nor a control character. *)
Definition word_byte (c : ascii) : bool := (33 <=? byte c) && (byte c <=? 126).
Fixpoint word_bytes (s : string) : bool :=
  match s with "" => true | String c s' => word_byte c && word_bytes s' end.
Definition word (s : string) : Prop := s ≠ "" ∧ word_bytes s = true.

Lemma word_byte_rune c s : word_byte c = true →
  DecodeRune (String c s) = (byte c, 1%nat) ∧ IsSpace (byte c) = false.
Proof.
  intros Hc. assert ((byte c <? 128) = true ∧ IsSpace (byte c) = false) as [Hlt Hsp].
  { revert Hc. destruct c as [[] [] [] [] [] [] [] []]; vm_compute; auto. }
  split; [|done]. cbn [DecodeRune]. by rewrite Hlt.
Qed.

Lemma space_rune s : DecodeRune (String " " s) = (32, 1%nat).
Proof. done. Qed.

(** The fuel of the three loops is the length of the string. *)
Lemma TrimLeft_word c s fuel : word_byte c = true → TrimLeft_loop fuel (String c s) = String c s.
Proof.
  intros Hc. destruct fuel as [|fuel]; [done|]. cbn [TrimLeft_loop].
  destruct (word_byte_rune c s Hc) as [-> Hs]. cbn [fst]. by rewrite Hs.
Qed.

(** Words separated by single blanks. *)
Fixpoint join_words (ws : list string) : string :=
  match ws with
  | [] => ""
  | [w] => w
  | w :: ws' => w +:+ String " " (join_words ws')
  end.

(** Visible ASCII and blanks, ending in a visible character. *)
Inductive line_ok : string → Prop :=
  | line_last c : word_byte c = true → line_ok (String c "")
  | line_word c s : word_byte c = true → line_ok s → line_ok (String c s)
  | line_blank s : line_ok s → line_ok (String " " s).

Lemma line_ok_word w s : word_bytes w = true → line_ok s → line_ok (w +:+ s).
Proof.
  intros Hw Hs. induction w as [|c w IH]; [done|]. cbn in Hw.
  apply andb_true_iff in Hw as [Hc Hw]. apply line_word; auto.
Qed.

Lemma line_ok_last w : word w → line_ok w.
Proof.
  intros [Hne Hw]. induction w as [|c w IH]; [done|]. cbn in Hw.
  apply andb_true_iff in Hw as [Hc Hw]. destruct w as [|c' w]; [by apply line_last|].
  apply line_word; [done|]. by apply IH.
Qed.

Lemma line_ok_join ws : ws ≠ [] → Forall word ws → line_ok (join_words ws).
Proof.
  intros Hne HF. induction HF as [|w ws Hw HF IH]; [done|].
  destruct ws as [|w' ws]; [by apply line_ok_last|].
  cbn [join_words]. apply line_ok_word; [apply Hw|]. apply line_blank, IH. done.
Qed.

Lemma TrimRight_line s : line_ok s → ∀ fuel, TrimRight_loop fuel s = s.
Proof.
  induction 1 as [c Hc|c s Hc Hs IH|s Hs IH]; intros [|fuel]; try done; cbn [TrimRight_loop].
  - destruct (word_byte_rune c "" Hc) as [Hd Hsp]. unfold rune_width. rewrite Hd. cbn [fst snd Nat.max].
    rewrite Hsp. cbn. by destruct fuel.
  - destruct (word_byte_rune c s Hc) as [Hd Hsp]. unfold rune_width. rewrite Hd. cbn [fst snd Nat.max].
    rewrite Hsp. cbn. by rewrite IH.
  - unfold rune_width. rewrite space_rune. cbn [fst snd Nat.max str_drop]. rewrite IH.
    by destruct Hs.
Qed.

Lemma Fields_word w : ∀ s fuel field,
  word_bytes w = true → (String.length w ≤ fuel)%nat →
  Fields_loop fuel (w +:+ s) field = Fields_loop (fuel - String.length w) s (field +:+ w).
Proof.
  induction w as [|c w IH]; intros s fuel field Hw Hf.
  { cbn [String.length]. by rewrite Nat.sub_0_r, string_app_nil_l, string_app_nil_r. }
  cbn in Hw, Hf. apply andb_true_iff in Hw as [Hc Hw]. destruct fuel as [|fuel]; [lia|].
  rewrite string_app_cons. cbn [Fields_loop].
  destruct (word_byte_rune c (w +:+ s) Hc) as [Hd Hsp]. unfold rune_width.
  rewrite Hd. cbn [fst snd Nat.max]. rewrite Hsp. cbn [str_drop str_take String.length Nat.sub].
  rewrite IH by (done || lia). f_equal. by rewrite string_app_assoc.
Qed.

Lemma Fields_join ws : Forall word ws → ∀ fuel,
  (String.length (join_words ws) ≤ fuel)%nat → Fields_loop fuel (join_words ws) "" = ws.
Proof.
  intros HF. induction HF as [|w ws [Hne Hw] HF IH]; intros fuel Hf; [by destruct fuel|].
  assert (Hlen : (String.length w =? 0)%nat = false) by (by destruct w).
  destruct ws as [|w' ws]; cbn [join_words] in *.
  - rewrite <-(string_app_nil_r w) at 1. rewrite Fields_word by done. rewrite string_app_nil_l.
    destruct (fuel - _)%nat; cbn [Fields_loop]; by rewrite Hlen.
  - rewrite string_length_app in Hf. cbn [String.length] in Hf.
    rewrite Fields_word by (done || lia). rewrite string_app_nil_l.
    destruct (fuel - String.length w)%nat as [|fuel'] eqn:Hfuel; [lia|].
    cbn [Fields_loop]. unfold rune_width. rewrite space_rune. cbn [fst snd Nat.max str_drop].
    change (IsSpace 32) with true. cbn iota. rewrite Hlen. cbn [app]. f_equal. apply IH. lia.
Qed.

Lemma parseLine_words `{GoEnv} d a args config :
  Forall word (d :: a :: args) → HasPrefix_hash d = false →
  parseLine (join_words (d :: a :: args)) config = apply_directive (ToLower d) a args config.
Proof.
  intros HF Hh. unfold parseLine. pose proof (line_ok_join (d :: a :: args) ltac:(done) HF) as Hok.
  assert (Hd : word d) by (by inversion HF).
  destruct d as [|c d]; [by destruct Hd|].
  assert (Hc : word_byte c = true).
  { destruct Hd as [_ Hd]. cbn in Hd. by apply andb_true_iff in Hd as [? _]. }
  assert (Htrim : TrimSpace (join_words (String c d :: a :: args)) = join_words (String c d :: a :: args)).
  { unfold TrimSpace. cbn [join_words]. rewrite string_app_cons. rewrite TrimLeft_word by done.
    apply TrimRight_line. exact Hok. }
  rewrite Htrim. unfold Fields. rewrite Fields_join by done.
  cbn [join_words]. rewrite string_app_cons. cbn [String.length Nat.eqb orb HasPrefix_hash].
  cbn [HasPrefix_hash] in Hh. by rewrite Hh.
Qed.

(** *** Lines *)
Definition line_bytes (s : string) : Prop := Forall (λ c, c ≠ newline) (bytes s).

Lemma line_ok_bytes s : line_ok s → line_bytes s ∧ dropCR s = s.
Proof.
  assert (Hw : ∀ c, word_byte c = true → c ≠ newline ∧ c ≠ carriage_return)
    by (intros c Hc; split; intros ->; vm_compute in Hc; done).
  unfold line_bytes, bytes.
  induction 1 as [c Hc|c s Hc Hs [IH1 IH2]|s Hs [IH1 IH2]].
  - destruct (Hw c Hc) as [Hn Hr]. split; [by apply Forall_singleton|]. cbn.
    by destruct (Ascii.eqb_spec c carriage_return).
  - destruct (Hw c Hc). split; [by constructor|]. cbn [dropCR].
    destruct s; [by inversion Hs|]. by rewrite IH2.
  - split; [by constructor|]. cbn [dropCR]. destruct s; [by inversion Hs|]. by rewrite IH2.
Qed.

Lemma cut_line_newline l rest :
  line_bytes l → cut_line (l +:+ String newline rest) = (l, Some rest).
Proof.
  unfold line_bytes, bytes. induction l as [|c l IH]; intros HF; [done|].
  apply list.Forall_cons in HF as [Hc HF]. rewrite string_app_cons. cbn [cut_line].
  destruct (Ascii.eqb_spec c newline); [done|]. by rewrite IH.
Qed.

(** A text of lines, each ended by a newline. *)
Fixpoint unlines (ls : list string) : string :=
  match ls with [] => "" | l :: ls' => l +:+ String newline (unlines ls') end.

Lemma scan_unlines ls : ∀ fuel,
  Forall (λ l, line_ok l ∧ slen l < MaxScanTokenSize) ls →
  (String.length (unlines ls) < fuel)%nat → scan_lines fuel (unlines ls) = ls.
Proof.
  induction ls as [|l ls IH]; intros fuel HF Hf; (destruct fuel as [|fuel]; [lia|]); [done|].
  apply list.Forall_cons in HF as [[Hl Hlen] HF]. destruct (line_ok_bytes l Hl) as [Hb Hcr].
  cbn [unlines] in *. rewrite string_length_app in Hf. cbn [String.length] in Hf.
  cbn [scan_lines]. rewrite cut_line_newline by done.
  destruct (Z.leb_spec MaxScanTokenSize (slen l)); [lia|].
  rewrite Hcr, IH by (done || lia). by destruct l.
Qed.

(** ** A configuration written out *)
Definition save_line (s : RDBSnapshot) : list string := ["save"; Itoa (Secs s); Itoa (KeysChanged s)].

Definition config_lines (c : Config) : list (list string) :=
  ["dir"; dir c] :: map save_line (cfg_rdb c) ++
  [["dbfilename"; rdbFn c]; ["appendonly"; if aofEnabled c then "yes" else "no"];
   ["appendfilename"; aofFn c]; ["appendfsync"; aofFsync c]] ++
  (if String.eqb (cfg_requirePass c) "" then [] else [["requirepass"; cfg_requirePass c]]).

Definition config_text (c : Config) : string := unlines (map join_words (config_lines c)).

(** Every value is one word, short enough for the scanner; a password may be
    missing. *)
Definition short_word (s : string) : Prop := word s ∧ slen s ≤ 65000.
Record writable (c : Config) : Prop := {
  wr_dir : short_word (dir c);
  wr_rdbFn : short_word (rdbFn c);
  wr_aofFn : short_word (aofFn c);
  wr_aofFsync : short_word (aofFsync c);
  wr_requirePass : cfg_requirePass c = "" ∨ short_word (cfg_requirePass c);
  wr_rdb : Forall (λ s, in_int (Secs s) ∧ in_int (KeysChanged s)) (cfg_rdb c);
}.

Lemma word_Itoa n : in_int n → word (Itoa n).
Proof.
  intros Hn. split.
  - unfold Itoa. destruct (_ <? 0); [done|apply FormatUint_nonempty].
  - pose proof (Itoa_bytes n) as HF. unfold bytes in HF.
    induction (Itoa n) as [|c s IH]; [done|].
    cbn in HF. apply list.Forall_cons in HF as [Hc HF].
    cbn [word_bytes]. apply andb_true_iff. split; [|by apply IH].
    destruct Hc as [Hc| ->]; [|done]. revert Hc.
    destruct c as [[] [] [] [] [] [] [] []]; vm_compute; auto.
Qed.

Section config_text.
Context `{GoEnv}.

(** One line: a directive of visible letters with at least one argument. *)
Definition apply_words (ws : list string) (config : Config) : Config :=
  match ws with d :: a :: args => apply_directive (ToLower d) a args config | _ => config end.

Definition good_line (ws : list string) : Prop :=
  (2 ≤ length ws)%nat ∧ Forall word ws ∧ HasPrefix_hash (default "" (ws !! 0%nat)) = false ∧
  slen (join_words ws) < MaxScanTokenSize.

Lemma parse_good_lines L : ∀ c, Forall good_line L →
  foldl (λ config line, parseLine line config) c (map join_words L) =
  foldl (λ config ws, apply_words ws config) c L.
Proof.
  induction L as [|ws L IH]; intros c HF; [done|]. cbn [map foldl].
  apply list.Forall_cons in HF as [(Hlen & Hw & Hh & _) HF].
  destruct ws as [|d [|a args]]; cbn in Hlen; [lia..|].
  rewrite parseLine_words by done. by apply IH.
Qed.

Lemma scan_good_lines L c : Forall good_line L →
  scan_config (unlines (map join_words L)) c = foldl (λ config ws, apply_words ws config) c L.
Proof.
  intros HF. unfold scan_config. rewrite scan_unlines; [by apply parse_good_lines| |lia].
  apply list.Forall_forall. intros l (ws & -> & Hin)%list_elem_of_fmap.
  rewrite list.Forall_forall in HF. destruct (HF ws Hin) as (Hlen & Hw & _ & Hs).
  split; [|done]. apply line_ok_join; [|done]. intros ->. cbn in Hlen. lia.
Qed.

Lemma apply_saves rules c : Forall (λ s, in_int (Secs s) ∧ in_int (KeysChanged s)) rules →
  foldl (λ config ws, apply_words ws config) c (map save_line rules) =
  mkConfig (dir c) (cfg_rdb c ++ rules) (rdbFn c) (aofEnabled c) (aofFn c) (aofFsync c)
    (cfg_requirePass c).
Proof.
  intros HF. revert c. induction HF as [|[s k] rules [Hs Hk] HF IH]; intros c.
  - cbn. rewrite app_nil_r. by destruct c.
  - cbn [map foldl]. rewrite IH. cbn [save_line apply_words Secs KeysChanged] in *.
    change (ToLower "save") with "save". unfold apply_directive. cbn [String.eqb Ascii.eqb Bool.eqb].
    rewrite !Atoi_Itoa by done. cbn. by rewrite <-app_assoc.
Qed.

Lemma good_pair d a : word d → slen d ≤ 100 → HasPrefix_hash d = false → short_word a →
  good_line [d; a].
Proof.
  intros Hd Hl Hh [Ha Hla]. split; [cbn; lia|].
  split; [by apply list.Forall_cons_2, list.Forall_cons_2|].
  split; [done|]. cbn [join_words]. rewrite string_length_app. cbn [String.length].
  unfold MaxScanTokenSize. lia.
Qed.

Lemma good_save s : in_int (Secs s) → in_int (KeysChanged s) → good_line (save_line s).
Proof.
  intros Hs Hk. split; [cbn; lia|]. split.
  { apply list.Forall_cons_2; [done|].
    apply list.Forall_cons_2; [by apply word_Itoa|].
    apply list.Forall_cons_2; [by apply word_Itoa|constructor]. }
  split; [done|]. pose proof (Itoa_length _ Hs). pose proof (Itoa_length _ Hk).
  cbn [save_line join_words]. rewrite !string_length_app. cbn [String.length].
  rewrite string_length_app. cbn [String.length]. unfold MaxScanTokenSize. lia.
Qed.

Lemma config_lines_good c : writable c → Forall good_line (config_lines c).
Proof.
  intros []. unfold config_lines.
  assert (Hpair : ∀ d a, word_bytes d && negb (HasPrefix_hash d) && (slen d <=? 100) = true →
            d ≠ "" → short_word a → good_line [d; a]).
  { intros d a [[Hd Hh]%andb_true_iff Hl%Z.leb_le]%andb_true_iff Hne Ha.
    apply good_pair; [done|lia|by apply negb_true_iff in Hh|done]. }
  constructor; [by apply Hpair|]. apply Forall_app. split.
  { apply list.Forall_forall. intros ws (s & -> & Hin)%list_elem_of_fmap.
    rewrite list.Forall_forall in wr_rdb0. destruct (wr_rdb0 s Hin). by apply good_save. }
  constructor; [by apply Hpair|]. constructor.
  { apply Hpair; [done..|]. destruct (aofEnabled c); by repeat split. }
  constructor; [by apply Hpair|]. constructor; [by apply Hpair|].
  destruct (String.eqb_spec (cfg_requirePass c) "") as [|Hne]; [constructor|].
  destruct wr_requirePass0; [done|]. constructor; [by apply Hpair|constructor].
Qed.

Lemma scan_config_text c : writable c → scan_config (config_text c) NewConfig = c.
Proof.
  intros Hc. unfold config_text. rewrite scan_good_lines by by apply config_lines_good.
  unfold config_lines. cbn [foldl]. rewrite foldl_app, apply_saves by apply (wr_rdb c Hc).
  destruct c as [d rules rf en af fs pass]. cbn -[String.eqb].
  destruct (String.eqb_spec pass "") as [->|Hne]; by destruct en.
Qed.
End config_text.
