(* ===== verification/AdminCmds.v ===== *)
(** * AdminCmds: KEYS, SCAN, DBSIZE, HELLO, COMMAND
    (src/pkg/commands/admin_commands.go) *)
From S2P Require Import Prelude Go Strconv Resp DataStruct PubSub Database StringCmds Glob.
From Stdlib Require Import Ascii.

(** ** The table of commands *)
Record cmdSpec := mkSpec {
  name : string;
  arity : Z;
  flags : list string;
  firstKey : Z;
  lastKey : Z;
  step : Z;
}.

Definition commandSpecs : list cmdSpec :=
  [mkSpec "PING" (-1) ["fast"] 0 0 0;
   mkSpec "SET" 3 ["write"; "denyoom"] 1 1 1;
   mkSpec "GET" 2 ["readonly"; "fast"] 1 1 1;
   mkSpec "DEL" (-2) ["write"] 1 (-1) 1;
   mkSpec "EXISTS" (-2) ["readonly"; "fast"] 1 (-1) 1;
   mkSpec "MSET" (-3) ["write"; "denyoom"] 1 (-1) 2;
   mkSpec "MGET" (-2) ["readonly"; "fast"] 1 (-1) 1;
   mkSpec "TYPE" 2 ["readonly"; "fast"] 1 1 1;
   mkSpec "INCR" 2 ["write"; "fast"] 1 1 1;
   mkSpec "DECR" 2 ["write"; "fast"] 1 1 1;
   mkSpec "INCRBY" 3 ["write"; "fast"] 1 1 1;
   mkSpec "DECRBY" 3 ["write"; "fast"] 1 1 1;
   mkSpec "LPUSH" (-3) ["write"; "fast"] 1 1 1;
   mkSpec "RPUSH" (-3) ["write"; "fast"] 1 1 1;
   mkSpec "LPOP" 2 ["write"; "fast"] 1 1 1;
   mkSpec "RPOP" 2 ["write"; "fast"] 1 1 1;
   mkSpec "LRANGE" 4 ["readonly"] 1 1 1;
   mkSpec "LLEN" 2 ["readonly"; "fast"] 1 1 1;
   mkSpec "LINDEX" 3 ["readonly"] 1 1 1;
   mkSpec "LSET" 4 ["write"] 1 1 1;
   mkSpec "LREM" 4 ["write"] 1 1 1;
   mkSpec "BLPOP" (-3) ["write"; "blocking"] 1 (-2) 1;
   mkSpec "BRPOP" (-3) ["write"; "blocking"] 1 (-2) 1;
   mkSpec "SADD" (-3) ["write"; "fast"] 1 1 1;
   mkSpec "SREM" (-3) ["write"; "fast"] 1 1 1;
   mkSpec "SISMEMBER" 3 ["readonly"; "fast"] 1 1 1;
   mkSpec "SMEMBERS" 2 ["readonly"] 1 1 1;
   mkSpec "SCARD" 2 ["readonly"; "fast"] 1 1 1;
   mkSpec "SPOP" 2 ["write"; "fast"] 1 1 1;
   mkSpec "SINTER" (-2) ["readonly"] 1 (-1) 1;
   mkSpec "SUNION" (-2) ["readonly"] 1 (-1) 1;
   mkSpec "SDIFF" (-2) ["readonly"] 1 (-1) 1;
   mkSpec "HSET" 4 ["write"; "fast"] 1 1 1;
   mkSpec "HGET" 3 ["readonly"; "fast"] 1 1 1;
   mkSpec "HDEL" (-3) ["write"; "fast"] 1 1 1;
   mkSpec "HEXISTS" 3 ["readonly"; "fast"] 1 1 1;
   mkSpec "HGETALL" 2 ["readonly"] 1 1 1;
   mkSpec "HKEYS" 2 ["readonly"] 1 1 1;
   mkSpec "HVALS" 2 ["readonly"] 1 1 1;
   mkSpec "HLEN" 2 ["readonly"; "fast"] 1 1 1;
   mkSpec "HMSET" (-4) ["write"] 1 1 1;
   mkSpec "HMGET" (-3) ["readonly"] 1 1 1;
   mkSpec "HINCRBY" 4 ["write"; "fast"] 1 1 1;
   mkSpec "EXPIRE" 3 ["write"; "fast"] 1 1 1;
   mkSpec "PEXPIRE" 3 ["write"; "fast"] 1 1 1;
   mkSpec "TTL" 2 ["readonly"; "fast"] 1 1 1;
   mkSpec "PTTL" 2 ["readonly"; "fast"] 1 1 1;
   mkSpec "PERSIST" 2 ["write"; "fast"] 1 1 1;
   mkSpec "KEYS" 2 ["readonly"] 0 0 0;
   mkSpec "SCAN" (-2) ["readonly"] 0 0 0;
   mkSpec "DBSIZE" 1 ["readonly"; "fast"] 0 0 0;
   mkSpec "HELLO" (-1) ["fast"] 0 0 0;
   mkSpec "PUBLISH" 3 ["pubsub"; "fast"] 0 0 0;
   mkSpec "SUBSCRIBE" (-2) ["pubsub"] 0 0 0;
   mkSpec "UNSUBSCRIBE" (-1) ["pubsub"] 0 0 0;
   mkSpec "AUTH" (-2) ["fast"; "loading"; "stale"] 0 0 0;
   mkSpec "SELECT" 2 ["fast"; "loading"; "stale"] 0 0 0;
   mkSpec "SAVE" 1 ["admin"] 0 0 0;
   mkSpec "BGSAVE" 1 ["admin"] 0 0 0;
   mkSpec "LASTSAVE" 1 ["readonly"; "fast"] 0 0 0;
   mkSpec "COMMAND" (-1) ["loading"; "stale"] 0 0 0].

Section cmds.
Context `{GoEnv}.

Definition commandInfoValue (spec : cmdSpec) : Value :=
  vArray [vBulk (ToLower (name spec)); vInt (arity spec);
          vArray (map vSimple (flags spec));
          vInt (firstKey spec); vInt (lastKey spec); vInt (step spec)].

Definition allCommandInfo : list Value := map commandInfoValue commandSpecs.

Definition keys_in {A} (pattern : string) (m : gmap string A) : M Sess (list Value) :=
  entries ← range_of m;
  mret (map vBulk (List.filter (matched pattern) entries.*1)).

Definition keysCmd (args : list Value) : M Sess Value :=
  match args with
  | [p] =>
      _ ← SweepExpired;
      let pattern := Str p in
      d ← gets_db id;
      r1 ← keys_in pattern (Store d);
      r2 ← keys_in pattern (Lists d);
      r3 ← keys_in pattern (Sets d);
      r4 ← keys_in pattern (Hashes d);
      mret (vArray (r1 ++ r2 ++ r3 ++ r4))
  | _ => mret (wrong_args "keys")
  end.

Definition dbsize (args : list Value) : M Sess Value :=
  _ ← SweepExpired;
  total ← gets_db (λ d,
    Z.of_nat (size (Store d)) + Z.of_nat (size (Lists d))
    + Z.of_nat (size (Sets d)) + Z.of_nat (size (Hashes d)));
  mret (vInt total).

(** [for i := 1; i < len(args)-1; i++]: the last MATCH wins. *)
Fixpoint scan_pattern (args : list Value) (pattern : string) : string :=
  match args with
  | a :: (b :: _) as args' =>
      scan_pattern args'
        (if (String.eqb (Str a) "MATCH") || (String.eqb (Str a) "match") then Str b
         else pattern)
  | _ => pattern
  end.

Definition scan (args : list Value) : M Sess Value :=
  match args with
  | [] => mret (wrong_args "scan")
  | c :: args' =>
      match Atoi (Str c) with
      | (_, Some _) => mret (vError "ERR invalid cursor")
      | (_, None) =>
          let pattern := scan_pattern args' "*" in
          keysResp ← keysCmd [vBulk pattern];
          mret (vArray [vBulk "0"; keysResp])
      end
  end.

Definition hello (args : list Value) : M Sess Value :=
  let info := vArray
    [vBulk "server"; vBulk "shoredis"; vBulk "version"; vBulk "1.0";
     vBulk "proto"; vInt 2; vBulk "mode"; vBulk "standalone";
     vBulk "role"; vBulk "master"; vBulk "modules"; vArray []] in
  match args with
  | a :: _ =>
      if String.eqb (Str a) "3" then
        mret (vError "NOPROTO unsupported protocol version")
      else mret info
  | [] => mret info
  end.

Definition findCommandSpec (n : string) : option cmdSpec :=
  List.find (λ spec, String.eqb (name spec) (ToUpper n)) commandSpecs.

(** [for i := spec.firstKey - 1; i < last && i < len(cmdArgs); i += spec.step]. *)
Fixpoint getkeys_loop (fuel : nat) (cmdArgs : list Value) (i last stp : Z)
    (result : list Value) : M Sess (list Value) :=
  match fuel with
  | O => out_of_fuel
  | S fuel' =>
      if (i <? last) && (i <? zlen cmdArgs) then
        v ← go_index cmdArgs i;
        getkeys_loop fuel' cmdArgs (i + stp) last stp (result ++ [vBulk (Str v)])
      else mret result
  end.

Definition command_getkeys (args : list Value) : M Sess Value :=
  match args with
  | _ :: n :: cmdArgs =>
      match findCommandSpec (Str n) with
      | None => mret (vError "ERR The command has no key arguments")
      | Some spec =>
          if firstKey spec =? 0 then
            mret (vError "ERR The command has no key arguments")
          else
            let keyIdx := firstKey spec - 1 in
            if (keyIdx <? 0) || (keyIdx >=? zlen cmdArgs) then
              mret (vError "ERR Invalid arguments specified for command")
            else
              let last :=
                if lastKey spec <? 0 then zlen cmdArgs + lastKey spec + 1
                else lastKey spec in
              let last := if last <=? firstKey spec then firstKey spec else last in
              result ← getkeys_loop (S (length cmdArgs)) cmdArgs
                         (firstKey spec - 1) last (step spec) [];
              if (length result =? 0)%nat then
                mret (vError "ERR The command has no key arguments")
              else mret (vArray result)
      end
  | _ => mret (vError "ERR Unknown command name")
  end.

Definition command (args : list Value) : M Sess Value :=
  match args with
  | [] => mret (vArray allCommandInfo)
  | sub :: names =>
      let subcommand := ToUpper (Str sub) in
      if String.eqb subcommand "COUNT" then mret (vInt (zlen commandSpecs))
      else if String.eqb subcommand "LIST" then
        mret (vArray (map (λ spec, vBulk (ToLower (name spec))) commandSpecs))
      else if String.eqb subcommand "INFO" then
        match names with
        | [] => mret (vArray allCommandInfo)
        | _ =>
            mret (vArray (map (λ n,
              match findCommandSpec (Str n) with
              | Some spec => commandInfoValue spec
              | None => vNull
              end) names))
        end
      else if String.eqb subcommand "DOCS" then
        let names :=
          match names with
          | [] => map (λ spec, ToLower (name spec)) commandSpecs
          | _ => map Str names
          end in
        mret (vArray (foldl (λ result n,
          match findCommandSpec n with
          | Some spec => result ++ [vBulk (ToLower (name spec)); vArray []]
          | None => result
          end) [] names))
      else if String.eqb subcommand "GETKEYS" then command_getkeys args
      else
        mret (vError ("ERR Unknown subcommand or wrong number of arguments for '"
                      +:+ Str sub +:+ "'"))
  end.
End cmds.
