(* ===== verification/Handler.v ===== *)
(** * Handler: the table of command handlers (src/pkg/commands/handler.go) *)
From S2P Require Import Prelude Go Strconv Resp DataStruct PubSub Database.
From S2P Require Import StringCmds ListCmds SetCmds HashCmds ExpireCmds AdminCmds.

Definition CommandHandler : Type := list Value → M Sess Value.

(** A Go map literal: the keys are distinct, so the first match is the only
    one. *)
Fixpoint table_get {A} (k : string) (t : list (string * A)) : option A :=
  match t with
  | [] => None
  | (k', a) :: t' => if String.eqb k k' then Some a else table_get k t'
  end.

Section handlers.
Context `{GoEnv}.
(** The bound on the rounds of a blocking pop. *)
Context (wakeups : nat).

Definition CommandHandlers : list (string * CommandHandler) :=
  [("COMMAND", command);
   ("PING", ping);
   ("SET", set);
   ("GET", get);
   ("DEL", del);
   ("EXISTS", exists_);
   ("MSET", mset);
   ("MGET", mget);
   ("TYPE", typeCmd);
   ("INCR", incr);
   ("DECR", decr);
   ("DECRBY", decrby);
   ("INCRBY", incrby);
   ("LPUSH", lpush);
   ("RPUSH", rpush);
   ("LPOP", lpop);
   ("RPOP", rpop);
   ("LRANGE", lrange);
   ("LLEN", llen);
   ("LINDEX", lindex);
   ("LSET", lset);
   ("LREM", lrem);
   ("BLPOP", blpop wakeups);
   ("BRPOP", brpop wakeups);
   ("SADD", sadd);
   ("SREM", srem);
   ("SISMEMBER", sismember);
   ("SMEMBERS", smembers);
   ("SCARD", scard);
   ("SPOP", spop);
   ("SINTER", sinter);
   ("SUNION", sunion);
   ("SDIFF", sdiff);
   ("HSET", hset);
   ("HGET", hget);
   ("HDEL", hdel);
   ("HEXISTS", hexists);
   ("HGETALL", hgetall);
   ("HKEYS", hkeys);
   ("HVALS", hvals);
   ("HLEN", hlen);
   ("HMSET", hmset);
   ("HMGET", hmget);
   ("HINCRBY", hincrby);
   ("EXPIRE", expire);
   ("PEXPIRE", pexpire);
   ("TTL", ttl);
   ("PTTL", pttl);
   ("PERSIST", persist);
   ("KEYS", keysCmd);
   ("SCAN", scan);
   ("DBSIZE", dbsize);
   ("HELLO", hello);
   ("PUBLISH", publish)].

Definition handler_of (command : string) : option CommandHandler :=
  table_get command CommandHandlers.
End handlers.

Lemma table_get_In {A} k (t : list (string * A)) a :
  table_get k t = Some a → (k, a) ∈ t.
Proof.
  induction t as [|[k' a'] t IH]; [done|]. cbn.
  destruct (String.eqb_spec k k') as [->|]; [intros [= ->]; left|].
  intros H. right. by apply IH.
Qed.

(** A property of every handler is a property of whatever the table returns. *)
Lemma handler_of_Forall `{GoEnv} (P : CommandHandler → Prop) wakeups c h :
  Forall P (CommandHandlers wakeups).*2 → handler_of wakeups c = Some h → P h.
Proof.
  intros HP Hc. rewrite list.Forall_forall in HP. apply HP.
  apply table_get_In in Hc. by apply (list_elem_of_fmap_2' snd _ (c, h)).
Qed.
