(* ===== verification/StringLocks.v ===== *)
(** * StringLocks: the string commands and the mutex of the database
    (src/pkg/commands/string_commands.go, src/pkg/commands/database.go)

    The handlers of strings and keys again, as what they do under [db.Mu] and in
    between: under [Lock] or [RLock] each access to a map is a step of its own.
    The state is the serial number of the next clock reading, which
    [expireIfNeeded] takes under no lock, and the database. *)
From S2P Require Import Prelude Go Goroutine Locks Atomic Sections Strconv Resp DataStruct PubSub Database StringCmds.

(** The mutex of the database. *)
Definition dbMu : nat := 0.

Abbreviation St := (nat * Database)%type.
#[export] Instance db_guarded : Guarded St := one_mutex nat Database.
#[export] Instance db_guarded_laws : GuardedLaws St := one_mutex_laws nat Database.

Abbreviation P := (sections St).
Abbreviation T := (task Database).

(** [db.Mu.Lock(); ...; db.Mu.Unlock()], and with [RLock]. *)
Definition under_lock {X} (body : T X) : P X := SWrite dbMu body SDone.
Definition under_rlock {X} (body : T X) : P X := SRead dbMu body SDone.

Section ops.
Context `{GoEnv}.

Definition clock : M nat Z := λ n, (Ok (time_Now n), S n).

Definition expireIfNeeded (key : string) : P () :=
  exp ← under_rlock (look (λ d, Expires d !! key));
  match exp with
  | None => mret ()
  | Some exp =>
      now ← unlocked clock;
      if now <? exp then mret () else
      under_lock
        (_ ← change (set_Store (delete key));
         _ ← change (set_Lists (delete key));
         _ ← change (set_Sets (delete key));
         _ ← change (set_Hashes (delete key));
         change (set_Expires (delete key)))
  end.

(** [if _, exists := m[key]; exists { delete(m, key); deleted++ }]. *)
Definition delete_from {A} (get : Database → gmap string A)
    (set : (gmap string A → gmap string A) → Database → Database)
    (key : string) (deleted : Z) : T Z :=
  x ← look (λ d, get d !! key);
  match x with
  | Some _ => _ ← change (set (delete key)); mret (deleted + 1)
  | None => mret deleted
  end.

Definition DeleteKey (key : string) : P Z :=
  _ ← expireIfNeeded key;
  under_lock
    (deleted ← delete_from Store set_Store key 0;
     deleted ← delete_from Lists set_Lists key deleted;
     deleted ← delete_from Sets set_Sets key deleted;
     deleted ← delete_from Hashes set_Hashes key deleted;
     _ ← change (set_Expires (delete key));
     mret deleted).

(** Is there a value under the key in this map? *)
Definition has {A} (get : Database → gmap string A) (key : string) : T bool :=
  look (λ d, bool_decide (is_Some (get d !! key))).

Definition KeyExists (key : string) : P bool :=
  _ ← expireIfNeeded key;
  under_rlock
    (b ← has Store key; if b : bool then mret true else
     b ← has Lists key; if b : bool then mret true else
     b ← has Sets key; if b : bool then mret true else
     b ← has Hashes key; if b : bool then mret true else
     mret false).

Definition GetKeyType (key : string) : P string :=
  _ ← expireIfNeeded key;
  under_rlock
    (b ← has Store key; if b : bool then mret "string" else
     b ← has Lists key; if b : bool then mret "list" else
     b ← has Sets key; if b : bool then mret "set" else
     b ← has Hashes key; if b : bool then mret "hash" else
     mret "none").

(** ** The handlers *)
Definition set (args : list Value) : P Value :=
  match args with
  | [k; v] =>
      _ ← under_lock
        (_ ← change (set_Store <[Str k := Str v]>);
         change (set_Expires (delete (Str k))));
      mret vOK
  | _ => mret (wrong_args "set")
  end.

Definition get (args : list Value) : P Value :=
  match args with
  | [k] =>
      _ ← expireIfNeeded (Str k);
      value ← under_rlock (look (λ d, Store d !! Str k));
      match value with
      | None => mret vNull
      | Some value => mret (vBulk value)
      end
  | _ => mret (wrong_args "get")
  end.

Definition del (args : list Value) : P Value :=
  if (length args <? 1)%nat then mret (wrong_args "del") else
  deleted ← sections_for_fold (λ deleted arg,
    n ← DeleteKey (Str arg); mret (deleted + n)) 0 args;
  mret (vInt deleted).

Definition exists_ (args : list Value) : P Value :=
  if (length args <? 1)%nat then mret (wrong_args "exists") else
  count ← sections_for_fold (λ count arg,
    b ← KeyExists (Str arg); mret (if b : bool then count + 1 else count)) 0 args;
  mret (vInt count).

Fixpoint mset_loop (args : list Value) : T () :=
  match args with
  | k :: v :: args' =>
      _ ← change (set_Store <[Str k := Str v]>);
      _ ← change (set_Expires (delete (Str k)));
      mset_loop args'
  | _ => mret ()
  end.

Definition mset (args : list Value) : P Value :=
  if (length args <? 2)%nat || negb (Nat.even (length args)) then
    mret (wrong_args "mset")
  else _ ← under_lock (mset_loop args); mret vOK.

Definition mget (args : list Value) : P Value :=
  if (length args <? 1)%nat then mret (wrong_args "mget") else
  _ ← sections_for_each (λ arg, expireIfNeeded (Str arg)) args;
  result ← under_rlock (task_for_fold (λ result arg,
    value ← look (λ d, Store d !! Str arg);
    mret (result ++ [match value with Some value => vBulk value | None => vNull end])) [] args);
  mret (vArray result).

Definition typeCmd (args : list Value) : P Value :=
  match args with
  | [k] => keyType ← GetKeyType (Str k); mret (vSimple keyType)
  | _ => mret (wrong_args "type")
  end.

Definition increment (key : string) (amount : Z) : P Value :=
  _ ← expireIfNeeded key;
  under_lock
    (val ← look (λ d, Store d !! key);
     match Atoi (default "0" val) with
     | (_, Some _) => mret not_an_integer
     | (n, None) =>
         let newVal := wrap64 (n + amount) in
         _ ← change (set_Store <[key := Itoa newVal]>);
         mret (vInt newVal)
     end).

Definition incr (args : list Value) : P Value :=
  match args with
  | [k] => increment (Str k) 1
  | _ => mret (wrong_args "incr")
  end.

Definition decr (args : list Value) : P Value :=
  match args with
  | [k] => increment (Str k) (-1)
  | _ => mret (wrong_args "decr")
  end.

Definition incrby (args : list Value) : P Value :=
  match args with
  | [k; v] =>
      match Atoi (Str v) with
      | (_, Some _) => mret not_an_integer
      | (n, None) => increment (Str k) n
      end
  | _ => mret (wrong_args "incrby")
  end.

Definition decrby (args : list Value) : P Value :=
  match args with
  | [k; v] =>
      match Atoi (Str v) with
      | (_, Some _) => mret not_an_integer
      | (n, None) => increment (Str k) (wrap64 (- n))
      end
  | _ => mret (wrong_args "decrby")
  end.

Definition handlers : list (string * (list Value → P Value)) :=
  [("SET", set); ("GET", get); ("DEL", del); ("EXISTS", exists_); ("MSET", mset); ("MGET", mget);
   ("TYPE", typeCmd); ("INCR", incr); ("DECR", decr); ("INCRBY", incrby); ("DECRBY", decrby)].
End ops.
