(* ===== verification/StringLocksFacts.v ===== *)
(** * StringLocksFacts: a string command alone, and under the mutex

    A goroutine that nobody interferes with does what the sequential handler
    does; each keeps to the rules of [Atomic]. *)
From S2P Require Import Prelude Go Goroutine Locks Atomic Sections Strconv Resp DataStruct PubSub Database StringCmds.
From S2P Require Import StringLocks.

(** ** Alone *)
Section alone.
Context `{GoEnv}.

Definition agrees {A} (p : P A) (m : M Sess A) : Prop := ∀ n d ps,
  m (mkSess n d ps) = let '(r, (n', d')) := alone (atomic p) (n, d) in (r, mkSess n' d' ps).
Definition body_agrees {A} (b : T A) (m : M Sess A) : Prop := ∀ n d ps,
  m (mkSess n d ps) = let '(r, d') := task_alone b d in (r, mkSess n d' ps).

Lemma agrees_ret {A} (a : A) : agrees (mret a) (mret a).
Proof. done. Qed.

Lemma agrees_bind {A B} (p : P A) (m : M Sess A) (f : A → P B) (g : A → M Sess B) :
  agrees p m → (∀ a, agrees (f a) (g a)) → agrees (p ≫= f) (m ≫= g).
Proof.
  intros Hp Hf n d ps. rewrite alone_sections_bind, !bind_eq, Hp.
  destruct (alone (atomic p) (n, d)) as [[a|e|e|] [n' d']]; [apply Hf|done..].
Qed.

Lemma body_ret {A} (a : A) : body_agrees (mret a) (mret a).
Proof. done. Qed.

Lemma body_bind {A B} (b : T A) (m : M Sess A) (f : A → T B) (g : A → M Sess B) :
  body_agrees b m → (∀ a, body_agrees (f a) (g a)) → body_agrees (b ≫= f) (m ≫= g).
Proof.
  intros Hb Hf n d ps. rewrite task_alone_bind, !bind_eq, Hb.
  destruct (task_alone b d) as [[a|e|e|] d']; [apply Hf|done..].
Qed.

Lemma body_look {A} (f : Database → A) : body_agrees (look f) (gets_db f).
Proof. done. Qed.

Lemma body_change f : body_agrees (change f) (modify_db f).
Proof. done. Qed.

Lemma agrees_section {A} (b : T A) (m : M Sess A) (p : P A) :
  p = under_lock b ∨ p = under_rlock b → body_agrees b m → agrees p m.
Proof.
  intros Hp Hb n d ps. rewrite Hb.
  assert (alone (atomic p) (n, d) = on_part (HG:=db_guarded) dbMu (task_alone b) (n, d)) as ->.
  { destruct Hp as [-> | ->]; cbn; rewrite bind_eq; by destruct (on_part (HG:=db_guarded) dbMu (task_alone b) (n, d)) as [[] []]. }
  unfold on_part, zoom. cbn. by destruct (task_alone b d).
Qed.

Lemma agrees_lock {A} (b : T A) m : body_agrees b m → agrees (under_lock b) m.
Proof. apply agrees_section. by left. Qed.
Lemma agrees_rlock {A} (b : T A) m : body_agrees b m → agrees (under_rlock b) m.
Proof. apply agrees_section. by right. Qed.

Lemma agrees_for_each {X} (f : X → P ()) (g : X → M Sess ()) l :
  (∀ x, agrees (f x) (g x)) → agrees (sections_for_each f l) (for_each g l).
Proof. intros Hf. induction l as [|x l IH]; [done|]. by apply agrees_bind. Qed.

Lemma agrees_for_fold {X B} (f : B → X → P B) (g : B → X → M Sess B) l : ∀ b,
  (∀ b x, agrees (f b x) (g b x)) → agrees (sections_for_fold f b l) (for_fold g b l).
Proof. intros b Hf. revert b. induction l as [|x l IH]; intros b; [done|]. by apply agrees_bind. Qed.

Lemma agrees_clock : agrees (unlocked clock) Now.
Proof. done. Qed.

Lemma agrees_expire key : agrees (expireIfNeeded key) (Database.expireIfNeeded key).
Proof.
  apply agrees_bind; [apply agrees_rlock, body_look|]. intros [exp|]; [|done].
  apply agrees_bind; [apply agrees_clock|]. intros now. destruct (now <? exp); [done|].
  by apply agrees_lock.
Qed.

Lemma body_delete_from {A} (g : Database → gmap string A) s key n :
  body_agrees (delete_from g s key n) (Database.delete_from g s key n).
Proof. apply body_bind; [apply body_look|]. intros [x|]; [|apply body_ret]. by apply body_bind. Qed.

Lemma agrees_DeleteKey key : agrees (DeleteKey key) (Database.DeleteKey key).
Proof.
  apply agrees_bind; [apply agrees_expire|]. intros []. apply agrees_lock.
  do 4 (apply body_bind; [apply body_delete_from|intros ?]). by apply body_bind.
Qed.

Lemma agrees_KeyExists key : agrees (KeyExists key) (Database.KeyExists key).
Proof.
  apply agrees_bind; [apply agrees_expire|]. intros []. apply agrees_rlock. intros n d ps.
  unfold gets_db, has, look. cbn. unfold mbind, M_bind. cbn. unfold gets at 1. cbn [s_db].
  by do 4 (destruct (bool_decide _); [done|cbn; unfold mbind, M_bind; cbn]).
Qed.

Lemma agrees_GetKeyType key : agrees (GetKeyType key) (Database.GetKeyType key).
Proof.
  apply agrees_bind; [apply agrees_expire|]. intros []. apply agrees_rlock. intros n d ps.
  unfold gets_db, has, look. cbn. unfold mbind, M_bind. cbn. unfold gets at 1. cbn [s_db].
  by do 4 (destruct (bool_decide _); [done|cbn; unfold mbind, M_bind; cbn]).
Qed.

Definition agreeing (h : list Value → P Value) (h' : list Value → M Sess Value) : Prop :=
  ∀ args, agrees (h args) (h' args).

Lemma agrees_set : agreeing set StringCmds.set.
Proof.
  intros [|k [|v [|x l]]]; try apply agrees_ret. intros n d ps. done.
Qed.

Lemma agrees_get : agreeing get StringCmds.get.
Proof.
  intros [|k [|x l]]; try apply agrees_ret. apply agrees_bind; [apply agrees_expire|]. intros [].
  apply agrees_bind; [apply agrees_rlock, body_look|]. by intros [v|].
Qed.

Lemma agrees_del : agreeing del StringCmds.del.
Proof.
  intros args. unfold del, StringCmds.del. destruct (_ <? _)%nat; [done|].
  apply agrees_bind; [|done]. apply agrees_for_fold. intros b x.
  apply agrees_bind; [apply agrees_DeleteKey|done].
Qed.

Lemma agrees_exists : agreeing exists_ StringCmds.exists_.
Proof.
  intros args. unfold exists_, StringCmds.exists_. destruct (_ <? _)%nat; [done|].
  apply agrees_bind; [|done]. apply agrees_for_fold. intros b x.
  apply agrees_bind; [apply agrees_KeyExists|done].
Qed.

Lemma body_mset_loop args : body_agrees (mset_loop args) (StringCmds.mset_loop args).
Proof.
  assert (Hn : ∀ n args, (length args < n)%nat → body_agrees (mset_loop args) (StringCmds.mset_loop args)).
  { intros n. induction n as [|n IH]; intros l Hl; [lia|]. destruct l as [|k [|v l]]; [done|done|].
    apply body_bind; [done|]. intros _. apply body_bind; [done|]. intros _. apply IH. cbn in Hl. lia. }
  by apply (Hn (S (length args))); lia.
Qed.

Lemma agrees_mset : agreeing mset StringCmds.mset.
Proof.
  intros args. unfold mset, StringCmds.mset. destruct (_ || _); [done|].
  apply agrees_bind; [apply agrees_lock, body_mset_loop|done].
Qed.

(** The reads of MGET, one by one. *)
Lemma mget_loop_run args : ∀ result d,
  task_alone (task_for_fold (λ result arg,
    value ← look (λ d, Store d !! Str arg);
    mret (result ++ [match value with Some value => vBulk value | None => vNull end])) result args) d =
  (Ok (result ++ map (λ arg, match Store d !! Str arg with Some value => vBulk value | None => vNull end) args), d).
Proof.
  induction args as [|a args IH]; intros result d; [by rewrite app_nil_r|].
  cbn [task_for_fold]. rewrite task_alone_bind, bind_eq. cbn.
  unfold mbind, M_bind. cbn. rewrite IH. by rewrite <-app_assoc.
Qed.

Lemma agrees_mget : agreeing mget StringCmds.mget.
Proof.
  intros args. unfold mget, StringCmds.mget. destruct (_ <? _)%nat; [done|].
  apply agrees_bind; [apply agrees_for_each; intros x; apply agrees_expire|]. intros _.
  apply agrees_bind; [|done]. apply agrees_rlock. intros n d ps. by rewrite mget_loop_run.
Qed.

Lemma agrees_type : agreeing typeCmd StringCmds.typeCmd.
Proof.
  intros [|k [|x l]]; try apply agrees_ret. apply agrees_bind; [apply agrees_GetKeyType|done].
Qed.

Lemma agrees_increment key amount : agrees (increment key amount) (StringCmds.increment key amount).
Proof.
  apply agrees_bind; [apply agrees_expire|]. intros []. apply agrees_lock.
  intros n d ps. cbn. unfold mbind, M_bind. cbn. destruct (Atoi _) as [v [e|]]; done.
Qed.

Lemma agrees_incr : agreeing incr StringCmds.incr.
Proof. intros [|k [|x l]]; try apply agrees_ret. apply agrees_increment. Qed.
Lemma agrees_decr : agreeing decr StringCmds.decr.
Proof. intros [|k [|x l]]; try apply agrees_ret. apply agrees_increment. Qed.
Lemma agrees_incrby : agreeing incrby StringCmds.incrby.
Proof.
  intros [|k [|v [|x l]]]; try apply agrees_ret. unfold incrby, StringCmds.incrby.
  destruct (Atoi (Str v)) as [m [e|]]; [apply agrees_ret|apply agrees_increment].
Qed.
Lemma agrees_decrby : agreeing decrby StringCmds.decrby.
Proof.
  intros [|k [|v [|x l]]]; try apply agrees_ret. unfold decrby, StringCmds.decrby.
  destruct (Atoi (Str v)) as [m [e|]]; [apply agrees_ret|apply agrees_increment].
Qed.
End alone.

(** ** The rules of [Atomic] *)
Lemma lawful_lock {A} (b : T A) : writer b → lawful (under_lock b).
Proof. intros Hb. by apply (lawful_write dbMu). Qed.
Lemma lawful_rlock {A} (b : T A) : reader b → lawful (under_rlock b).
Proof. intros Hb. by apply (lawful_read dbMu). Qed.
#[export] Hint Resolve lawful_lock lawful_rlock : lawful.

Section lawful.
Context `{GoEnv}.

Lemma lawful_expire key : lawful (expireIfNeeded key).
Proof.
  apply lawful_bind; [auto with lawful|]. intros [exp|]; [|done].
  apply lawful_bind; [by split; [intros n; eexists _, _|]|]. intros now. destruct (now <? exp); [done|].
  auto 10 with lawful.
Qed.
#[local] Hint Resolve lawful_expire : lawful.

Lemma writer_delete_from {A} (g : Database → gmap string A) s key n : writer (delete_from g s key n).
Proof. apply writer_bind; [apply writer_look|]. intros [x|]; auto with lawful. Qed.
#[local] Hint Resolve writer_delete_from : lawful.

Lemma lawful_DeleteKey key : lawful (DeleteKey key).
Proof.
  apply lawful_bind; [auto with lawful|]. intros []. apply lawful_lock.
  do 4 (apply writer_bind; [apply writer_delete_from|intros ?]). auto with lawful.
Qed.

Lemma reader_has {A B} (g : Database → gmap string A) key (b : B) (t : T B) :
  reader t → reader (x ← has g key; if x : bool then mret b else t).
Proof. intros Ht. apply reader_bind; [apply reader_look|]. intros []; auto with lawful. Qed.

Lemma lawful_KeyExists key : lawful (KeyExists key).
Proof.
  apply lawful_bind; [auto with lawful|]. intros []. apply lawful_rlock.
  do 4 apply reader_has. apply reader_ret.
Qed.

Lemma lawful_GetKeyType key : lawful (GetKeyType key).
Proof.
  apply lawful_bind; [auto with lawful|]. intros []. apply lawful_rlock.
  do 4 apply reader_has. apply reader_ret.
Qed.

Lemma lawful_set args : lawful (set args).
Proof.
  destruct args as [|k [|v [|x l]]]; [done..| |done]. apply lawful_bind; [|done].
  apply lawful_lock, writer_bind; auto with lawful.
Qed.

Lemma lawful_get args : lawful (get args).
Proof.
  destruct args as [|k [|x l]]; [done| |done]. apply lawful_bind; [auto with lawful|]. intros [].
  apply lawful_bind; [auto with lawful|]. intros [v|]; auto with lawful.
Qed.

Lemma lawful_del args : lawful (del args).
Proof.
  unfold del. destruct (_ <? _)%nat; [done|]. apply lawful_bind; [|done].
  apply lawful_for_fold. intros b x. apply lawful_bind; [apply lawful_DeleteKey|done].
Qed.

Lemma lawful_exists args : lawful (exists_ args).
Proof.
  unfold exists_. destruct (_ <? _)%nat; [done|]. apply lawful_bind; [|done].
  apply lawful_for_fold. intros b x. apply lawful_bind; [apply lawful_KeyExists|done].
Qed.

Lemma writer_mset_loop n : ∀ args, (length args < n)%nat → writer (mset_loop args).
Proof.
  induction n as [|n IH]; intros l Hl; [lia|]. destruct l as [|k [|v l]]; [apply writer_ret..|].
  apply writer_bind; [apply writer_change|]. intros []. apply writer_bind; [apply writer_change|]. intros [].
  apply IH. cbn in Hl. lia.
Qed.

Lemma lawful_mset args : lawful (mset args).
Proof.
  unfold mset. destruct (_ || _); [done|]. apply lawful_bind; [|done].
  apply lawful_lock, (writer_mset_loop (S (length args))). lia.
Qed.

Lemma lawful_mget args : lawful (mget args).
Proof.
  unfold mget. destruct (_ <? _)%nat; [done|]. apply lawful_bind; [auto with lawful|]. intros [].
  apply lawful_bind; [|done]. apply lawful_rlock, reader_for_fold. intros b x. auto with lawful.
Qed.

Lemma lawful_type args : lawful (typeCmd args).
Proof.
  destruct args as [|k [|x l]]; [done| |done]. apply lawful_bind; [apply lawful_GetKeyType|done].
Qed.

Lemma lawful_increment key amount : lawful (increment key amount).
Proof.
  apply lawful_bind; [auto with lawful|]. intros []. apply lawful_lock.
  apply writer_bind; [auto with lawful|]. intros v. destruct (Atoi _) as [m [e|]]; auto with lawful.
Qed.
#[local] Hint Resolve lawful_increment : lawful.

Lemma lawful_incr args : lawful (incr args).
Proof. destruct args as [|k [|x l]]; [done|apply lawful_increment|done]. Qed.
Lemma lawful_decr args : lawful (decr args).
Proof. destruct args as [|k [|x l]]; [done|apply lawful_increment|done]. Qed.
Lemma lawful_incrby args : lawful (incrby args).
Proof.
  destruct args as [|k [|v [|x l]]]; [done..| |done]. cbn.
  destruct (Atoi (Str v)) as [m [e|]]; [done|apply lawful_increment].
Qed.
Lemma lawful_decrby args : lawful (decrby args).
Proof.
  destruct args as [|k [|v [|x l]]]; [done..| |done]. cbn.
  destruct (Atoi (Str v)) as [m [e|]]; [done|apply lawful_increment].
Qed.
End lawful.
