(* ===== verification/StringOrder.v ===== *)
(** * StringOrder: string commands happen one at a time

    Clients that send string commands at the same time, to keys without
    deadlines: a command takes effect in one of its critical sections, the last.
    What the clients are told, and what is left in the database, is what the
    sequential handlers do with the commands in some order. *)
From S2P Require Import Prelude Go Goroutine Locks Atomic Sections Clients Strconv Resp DataStruct PubSub Database.
From S2P Require Import StringCmds Handler StringLocks StringLocksFacts.

(** ** Commands *)
(** The string commands that hold the mutex once for all their keys. DEL and EXISTS
    take it once for each of their keys, so only those of one key are here; with
    more keys they are not atomic (StringOrderProps.del_not_atomic). *)
Inductive Command :=
  | SET (k v : string)
  | GET (k : string)
  | MSET (k v : string) (kvs : list (string * string))
  | MGET (k : string) (ks : list string)
  | DEL (k : string)
  | EXISTS (k : string)
  | TYPE (k : string)
  | INCR (k : string)
  | DECR (k : string)
  | INCRBY (k : string) (n : Z)
  | DECRBY (k : string) (n : Z).

Definition words (c : Command) : string * list string :=
  match c with
  | SET k v => ("SET", [k; v])
  | GET k => ("GET", [k])
  | MSET k v kvs => ("MSET", k :: v :: pairs kvs)
  | MGET k ks => ("MGET", k :: ks)
  | DEL k => ("DEL", [k])
  | EXISTS k => ("EXISTS", [k])
  | TYPE k => ("TYPE", [k])
  | INCR k => ("INCR", [k])
  | DECR k => ("DECR", [k])
  | INCRBY k n => ("INCRBY", [k; Itoa n])
  | DECRBY k n => ("DECRBY", [k; Itoa n])
  end.

(** The amounts are numbers of 64 bits. *)
Definition wide (c : Command) : Prop :=
  match c with INCRBY _ n | DECRBY _ n => in_int n | _ => True end.

Section commands.
Context `{GoEnv}.

(** A command by its entry in the tables: with the mutex, and sequentially. *)
Definition concurrent (c : Command) : P Value :=
  match table_get (fst (words c)) handlers with
  | Some h => h (map vBulk (snd (words c)))
  | None => mret vNull
  end.
Definition sequential (c : Command) : M Sess Value :=
  match handler_of 0 (fst (words c)) with
  | Some h => h (map vBulk (snd (words c)))
  | None => mret vNull
  end.

Lemma command_agrees c : agrees (concurrent c) (sequential c).
Proof.
  destruct c; [apply agrees_set|apply agrees_get|apply agrees_mset|apply agrees_mget|apply agrees_del|
    apply agrees_exists|apply agrees_type|apply agrees_incr|apply agrees_decr|apply agrees_incrby|
    apply agrees_decrby].
Qed.

Lemma command_lawful c : lawful (concurrent c).
Proof.
  destruct c; [apply lawful_set|apply lawful_get|apply lawful_mset|apply lawful_mget|apply lawful_del|
    apply lawful_exists|apply lawful_type|apply lawful_incr|apply lawful_decr|apply lawful_incrby|
    apply lawful_decrby].
Qed.

(** ** Where a command takes effect *)
Definition timeless (d : Database) : Prop := Expires d = ∅.

(** What handler [m] does to a database. *)
Definition handled (m : M Sess Value) (d : Database) (v : Value) (d' : Database) : Prop :=
  ∀ n ps, m (mkSess n d ps) = (Ok v, mkSess n d' ps).

(** The service: clients see the database; there are no deadlines. *)
#[export] Instance strings : Service Command St Value Database := {|
  serve := concurrent;
  does c := handled (sequential c);
  valid := wide;
  fine s := timeless s.2;
  later _ _ := True;
  shows d s := s.2 = d;
|}.

Abbreviation pendingS := (pending fine later shows).

(** Without deadlines [p] does what [m] does. *)
Definition same_as (m : M Sess Value) (p : P Value) : Prop := ∀ n d ps, timeless d →
  m (mkSess n d ps) = let '(r, (n', d')) := alone (atomic p) (n, d) in (r, mkSess n' d' ps).

(** It sets no deadlines. *)
Definition ageless {A} (b : T A) : Prop := ∀ d x d',
  timeless d → task_alone b d = (Ok x, d') → timeless d'.

Lemma ageless_ret {A} (a : A) : ageless (mret a).
Proof. by intros d x d' Hd [= _ <-]. Qed.
Lemma ageless_look {A} (f : Database → A) : ageless (look f).
Proof. by intros d x d' Hd [= _ <-]. Qed.
Lemma ageless_bind {A B} (b : T A) (f : A → T B) : ageless b → (∀ a, ageless (f a)) → ageless (b ≫= f).
Proof.
  intros Hb Hf d x d' Hd. rewrite task_alone_bind. intros (a & d1 & H1 & H2)%bind_ok_inv.
  eapply Hf; [|exact H2]. by eapply Hb.
Qed.
Lemma ageless_change f : (∀ d, timeless d → timeless (f d)) → ageless (change f).
Proof. intros Hf d x d' Hd [= _ <-]. by apply Hf. Qed.
Lemma ageless_reader {A} (b : T A) : reader b → ageless b.
Proof. intros Hr d x d' Hd Hb. by rewrite (reader_same b d x d' Hr Hb). Qed.

(** What does what [m] does takes effect at its end. *)
Definition effective (m : M Sess Value) (p : P Value) : Prop :=
  same_as m p → ∀ s, pendingS (handled m) p s.

(** The last section. *)
Lemma pending_last {X} (body : T X) (k : X → P Value) m p :
  p = SWrite dbMu body k ∨ p = SRead dbMu body k → (∀ x, ∃ v, k x = SDone v) → ageless body → effective m p.
Proof.
  intros Hp Hk Hbody Hsame s.
  assert (Hlast : ∀ s x d, timeless s.2 → task_alone body s.2 = (Ok x, d) →
    moves fine later s (s.1, d) ∧ ∃ v, k x = SDone v ∧ effect shows (handled m) s v (s.1, d)).
  { intros [n d] x d' Hd Hrun. split; [split; [by eapply Hbody|done]|].
    destruct (Hk x) as [v Hv]. exists v. split; [done|]. intros σ Hσ. cbn in Hσ. subst σ.
    exists d'. split; [|done]. intros n' ps. rewrite (Hsame n' d ps Hd).
    assert (alone (atomic p) (n', d) = (Ok v, (n', d'))) as ->; [|done].
    assert (Hpart : on_part (HG:=db_guarded) dbMu (task_alone body) (n', d) = (Ok x, (n', d'))).
    { unfold on_part, zoom. cbn [part put db_guarded one_mutex dbMu snd fst]. cbn [snd] in Hrun. by rewrite Hrun. }
    destruct Hp as [-> | ->]; cbn [atomic alone]; rewrite (bind_ok _ _ _ _ _ Hpart); by rewrite Hv. }
  destruct Hp as [-> | ->]; intros s1 x d _ Hs1 Hrun; destruct (Hlast s1 x d Hs1 Hrun) as [Hm He];
    (split; [exact Hm|by right]).
Qed.

Lemma effective_write {X} (body : T X) (k : X → P Value) m :
  (∀ x, ∃ v, k x = SDone v) → ageless body → effective m (SWrite dbMu body k).
Proof. apply pending_last. by left. Qed.

Lemma effective_read {X} (body : T X) (k : X → P Value) m :
  (∀ x, ∃ v, k x = SDone v) → reader body → effective m (SRead dbMu body k).
Proof. intros Hk Hr. eapply pending_last; [by right|exact Hk|by apply ageless_reader]. Qed.

(** The checks of deadlines before it. *)
Lemma effective_expire m key (k : option Z → P Value) :
  effective m (k None) → effective m (SRead dbMu (look (λ d, Expires d !! key)) k).
Proof.
  intros Hk Hs s [n d] x d' _ Hd Hrun. cbn in Hd. injection Hrun as <- <-. cbn. split; [done|]. left.
  rewrite Hd, lookup_empty. split; [by intros σ|]. apply Hk.
  intros n0 d0 ps Hd0. rewrite (Hs n0 d0 ps Hd0). cbn [atomic alone].
  rewrite (bind_ok _ _ _ None (n0, d0)); [done|]. unfold on_part, zoom. cbn.
  unfold mbind, M_bind, gets. by rewrite Hd0.
Qed.

Lemma effective_expires m keys (f : () → P Value) :
  effective m (f ()) → effective m (sections_for_each (λ a, expireIfNeeded (Str a)) keys ≫= f).
Proof.
  intros Hf. induction keys as [|key keys IH]; [done|]. by apply (effective_expire m (Str key)).
Qed.

Lemma agrees_same_as m p : agrees p m → same_as m p.
Proof. intros Ha n d ps _. apply Ha. Qed.

(** Changes of the maps other than new deadlines. *)
Lemma timeless_forget d k : timeless d → timeless (set_Expires (delete k) d).
Proof. unfold timeless. cbn. intros ->. apply delete_empty. Qed.

Lemma ageless_delete_from {A} (g : Database → gmap string A) s key n :
  (∀ f d, Expires (s f d) = Expires d) → ageless (delete_from g s key n).
Proof.
  intros Hs. apply ageless_bind; [apply ageless_look|]. intros [x|]; [|apply ageless_ret].
  apply ageless_bind; [|intros; apply ageless_ret]. apply ageless_change. intros d. unfold timeless. by rewrite Hs.
Qed.

Lemma ageless_store f : ageless (change (set_Store f)).
Proof. by apply ageless_change. Qed.
Lemma ageless_forget k : ageless (change (set_Expires (delete k))).
Proof. apply ageless_change. intros d. apply timeless_forget. Qed.

Lemma ageless_mset_loop n : ∀ args, (length args < n)%nat → ageless (mset_loop args).
Proof.
  induction n as [|n IH]; intros l Hl; [lia|]. destruct l as [|k [|v l]]; [apply ageless_ret..|].
  apply ageless_bind; [apply ageless_store|]. intros []. apply ageless_bind; [apply ageless_forget|]. intros [].
  apply IH. cbn in Hl. lia.
Qed.

Lemma effective_increment m key amount : effective m (increment key amount).
Proof.
  apply effective_expire. apply effective_write; [by intros v; eexists|].
  apply ageless_bind; [apply ageless_look|]. intros v. destruct (Atoi _) as [z [e|]]; [apply ageless_ret|].
  apply ageless_bind; [apply ageless_store|intros; apply ageless_ret].
Qed.

Lemma effective_command c : wide c → effective (sequential c) (concurrent c).
Proof.
  intros Hc. destruct c as [k v|k|k v kvs|k ks|k|k|k|k|k|k n|k n].
  - apply effective_write; [by eexists|].
    apply ageless_bind; [apply ageless_store|intros; apply ageless_forget].
  - apply effective_expire, effective_read; [|apply reader_look]. intros [v|]; by eexists.
  - change (concurrent _) with (mset (map vBulk (k :: v :: pairs kvs))). unfold mset.
    cbn [map length Nat.ltb Nat.leb orb]. rewrite Nat.even_succ_succ, length_map, pairs_even.
    apply effective_write; [by eexists|]. eapply ageless_mset_loop, Nat.lt_succ_diag_r.
  - change (concurrent _) with (mget (vBulk k :: map vBulk ks)). unfold mget. cbn [length Nat.ltb Nat.leb].
    apply effective_expires, effective_read; [by eexists|].
    apply reader_for_fold. intros b x. auto with lawful.
  - apply effective_expire, effective_write; [by eexists|].
    do 4 (apply ageless_bind; [by apply ageless_delete_from|intros ?]).
    apply ageless_bind; [apply ageless_forget|intros; apply ageless_ret].
  - apply effective_expire, effective_read; [by eexists|]. do 4 apply reader_has. apply reader_ret.
  - apply effective_expire, effective_read; [by eexists|]. do 4 apply reader_has. apply reader_ret.
  - apply effective_increment.
  - apply effective_increment.
  - change (concurrent _) with (incrby [vBulk k; vBulk (Itoa n)]). cbn. rewrite Atoi_Itoa by done.
    apply effective_increment.
  - change (concurrent _) with (decrby [vBulk k; vBulk (Itoa n)]). cbn. rewrite Atoi_Itoa by done.
    apply effective_increment.
Qed.

#[export] Instance strings_laws : ServiceLaws Command St Value Database.
Proof.
  split; [by split|apply command_lawful|]. intros c s Hc _.
  apply effective_command; [done|]. apply agrees_same_as, command_agrees.
Qed.

(** The commands in an order, by the sequential handlers. *)
Fixpoint one_by_one (cs : list Command) : M Sess (list Value) :=
  match cs with
  | [] => mret []
  | c :: cs => v ← sequential c; vs ← one_by_one cs; mret (v :: vs)
  end.

Lemma chain_one_by_one h d d' : chain h d d' → ∀ n ps,
  one_by_one h.*1 (mkSess n d ps) = (Ok h.*2, mkSess n d' ps).
Proof.
  revert d. induction h as [|[c v] h IH]; intros d; [by intros -> n ps|].
  intros (d1 & Hc & Hh) n ps. cbn [fmap list_fmap one_by_one fst snd].
  by rewrite (bind_ok _ _ _ _ _ (Hc n ps)), (bind_ok _ _ _ _ _ (IH d1 Hh n ps)).
Qed.
End commands.
