(* ===== verification/CmdFacts.v ===== *)
(** * CmdFacts: the command handlers in closed form

    The containers behind a key, the handlers of the list, set and hash
    commands as one update of the database, and the replies they give. *)
From S2P Require Import Prelude Go Strconv Resp DataStruct PubSub Database DbFacts.
From S2P Require Import StringCmds ListCmds SetCmds HashCmds ExpireCmds.
Import ListFacts SetFacts HashFacts.

(** ** Updates of one key *)

(** Store a container at a key, dropping the key when it is empty. *)
Definition put_list (key : string) (l : list string) : Database → Database :=
  set_Lists (λ m, if decide (l = []) then delete key m else <[key := l]> m).
Definition put_set (key : string) (x : gmap string ()) : Database → Database :=
  set_Sets (λ m, if decide (x = ∅) then delete key m else <[key := x]> m).
Definition put_hash (key : string) (x : gmap string string) : Database → Database :=
  set_Hashes (λ m, if decide (x = ∅) then delete key m else <[key := x]> m).

Lemma put_list_insert key l l' d : put_list key l (set_Lists <[key := l']> d) = put_list key l d.
Proof.
  unfold put_list, set_Lists. cbn. f_equal. case_decide;
    [apply delete_insert_eq|apply insert_insert_eq].
Qed.
Lemma put_set_insert key l l' d : put_set key l (set_Sets <[key := l']> d) = put_set key l d.
Proof.
  unfold put_set, set_Sets. cbn. f_equal. case_decide;
    [apply delete_insert_eq|apply insert_insert_eq].
Qed.
Lemma put_hash_insert key l l' d :
  put_hash key l (set_Hashes <[key := l']> d) = put_hash key l d.
Proof.
  unfold put_hash, set_Hashes. cbn. f_equal. case_decide;
    [apply delete_insert_eq|apply insert_insert_eq].
Qed.

Lemma set_Lists_insert key l l' d :
  set_Lists <[key := l]> (set_Lists <[key := l']> d) = set_Lists <[key := l]> d.
Proof. unfold set_Lists. cbn. by rewrite insert_insert_eq. Qed.
Lemma set_Sets_insert key l l' d :
  set_Sets <[key := l]> (set_Sets <[key := l']> d) = set_Sets <[key := l]> d.
Proof. unfold set_Sets. cbn. by rewrite insert_insert_eq. Qed.
Lemma set_Hashes_insert key l l' d :
  set_Hashes <[key := l]> (set_Hashes <[key := l']> d) = set_Hashes <[key := l]> d.
Proof. unfold set_Hashes. cbn. by rewrite insert_insert_eq. Qed.

(** The arguments of MSET and HMSET: names and values in turn. *)
Definition flat (kvs : list (Value * Value)) : list Value := concat (map (λ '(k, v), [k; v]) kvs).

Lemma flat_length kvs : length (flat kvs) = (2 * length kvs)%nat.
Proof. induction kvs as [|[k v] kvs IH]; [done|]. unfold flat in *. cbn. rewrite IH. lia. Qed.

(** ** Methods of the container behind a key *)
Lemma on_list_run {A} key (m : M (list string) A) l r l' s :
  Lists (s_db s) !! key = Some l → m l = (r, l') →
  on_list key m s = (r, set_db (set_Lists <[key := l']>) s).
Proof. unfold on_list. by intros -> ->. Qed.

Lemma on_list_read {A} key (m : M (list string) A) l r s :
  Lists (s_db s) !! key = Some l → m l = (r, l) → on_list key m s = (r, s).
Proof.
  intros Hl Hm. rewrite (on_list_run _ _ _ _ _ _ Hl Hm). unfold set_db.
  rewrite set_Lists_id by done. by destruct s.
Qed.

Lemma on_set_run {A} key (m : M (nat * gmap string ()) A) x r n x' s :
  Sets (s_db s) !! key = Some x → m (s_tick s, x) = (r, (n, x')) →
  on_set key m s = (r, mkSess n (set_Sets <[key := x']> (s_db s)) (s_ps s)).
Proof. unfold on_set. by intros -> ->. Qed.

Lemma on_set_still {A} key (m : M (gmap string ()) A) x r x' s :
  Sets (s_db s) !! key = Some x → m x = (r, x') →
  on_set key (still m) s = (r, set_db (set_Sets <[key := x']>) s).
Proof.
  intros Hx Hm. apply (on_set_run _ _ _ _ (s_tick s) _ _ Hx). unfold still, zoom.
  cbn. by rewrite Hm.
Qed.

Lemma on_hash_run {A} key (m : M (nat * gmap string string) A) x r n x' s :
  Hashes (s_db s) !! key = Some x → m (s_tick s, x) = (r, (n, x')) →
  on_hash key m s = (r, mkSess n (set_Hashes <[key := x']> (s_db s)) (s_ps s)).
Proof. unfold on_hash. by intros -> ->. Qed.

Lemma on_hash_still {A} key (m : M (gmap string string) A) x r x' s :
  Hashes (s_db s) !! key = Some x → m x = (r, x') →
  on_hash key (still m) s = (r, set_db (set_Hashes <[key := x']>) s).
Proof.
  intros Hx Hm. apply (on_hash_run _ _ _ _ (s_tick s) _ _ Hx). unfold still, zoom.
  cbn. by rewrite Hm.
Qed.

Lemma drop_empty_list_run key l s :
  Lists (s_db s) !! key = Some l → drop_empty_list key s = (Ok (), set_db (put_list key l) s).
Proof.
  intros Hl. unfold drop_empty_list.
  rewrite (bind_ok _ _ _ _ _ (on_list_read key ListDS.LLen l _ s Hl eq_refl)).
  unfold put_list. destruct l as [|x l]; cbn; [done|].
  run. unfold set_db, put_list. cbn. f_equal.
  replace (set_Lists _ (s_db s)) with (s_db s) by (symmetry; by apply set_Lists_id).
  by destruct s.
Qed.

Lemma drop_empty_set_run key x s :
  Sets (s_db s) !! key = Some x → drop_empty_set key s = (Ok (), set_db (put_set key x) s).
Proof.
  intros Hx. unfold drop_empty_set.
  rewrite (bind_ok _ _ _ _ _ (on_set_still key (gets SetDS.SCard) x _ _ s Hx eq_refl)).
  unfold set_db, SetDS.SCard. rewrite set_Sets_id by done. unfold put_set.
  destruct (Z.eqb_spec (Z.of_nat (size x)) 0) as [Hz|Hz].
  - assert (x = ∅) as -> by (apply map_size_empty_inv; lia). by destruct s.
  - destruct (decide (x = ∅)) as [->|_]; [by rewrite map_size_empty in Hz|].
    run. unfold set_db. do 2 f_equal. by apply eq_sym, set_Sets_id.
Qed.

Lemma drop_empty_hash_run key x s :
  Hashes (s_db s) !! key = Some x → drop_empty_hash key s = (Ok (), set_db (put_hash key x) s).
Proof.
  intros Hx. unfold drop_empty_hash.
  rewrite (bind_ok _ _ _ _ _ (on_hash_still key (gets HashDS.HLen) x _ _ s Hx eq_refl)).
  unfold set_db, HashDS.HLen. rewrite set_Hashes_id by done. unfold put_hash.
  destruct (Z.eqb_spec (Z.of_nat (size x)) 0) as [Hz|Hz].
  - assert (x = ∅) as -> by (apply map_size_empty_inv; lia). by destruct s.
  - destruct (decide (x = ∅)) as [->|_]; [by rewrite map_size_empty in Hz|].
    run. unfold set_db. do 2 f_equal. by apply eq_sym, set_Hashes_id.
Qed.

(** ** List commands *)

(** The two ends of a list: what a pop takes and what it leaves. *)
Definition pop_end (left : bool) (l : list string) : option (string * list string) :=
  if left then match l with [] => None | v :: l' => Some (v, l') end
  else match reverse l with [] => None | v :: r => Some (v, reverse r) end.

Lemma pop_end_None left l : pop_end left l = None ↔ l = [].
Proof.
  destruct left; cbn; [by destruct l|].
  destruct (reverse l) as [|v r] eqn:Hr; split; try done.
  - intros _. by rewrite <-(reverse_involutive l), Hr.
  - intros ->. done.
Qed.

Lemma pop_run (left : bool) (l : list string) :
  (if left return M (list string) (string * bool) then ListDS.LPop else ListDS.RPop) l =
    match pop_end left l with
    | None => (Ok ("", false), l)
    | Some (v, l') => (Ok (v, true), l')
    end.
Proof.
  destruct left; cbn.
  - destruct l; [apply LPop_nil|apply LPop_cons].
  - destruct (reverse l) as [|v r] eqn:Hr.
    + assert (l = []) as -> by (by rewrite <-(reverse_involutive l), Hr). apply RPop_nil.
    + assert (l = reverse r ++ [v]) as -> by (by rewrite <-reverse_cons, <-Hr, reverse_involutive).
      apply RPop_snoc.
Qed.

Section list_cmds.
Context `{GoEnv}.
Implicit Types (s : Sess).

(** The list stored at a key after the possible eviction, if any. *)
Abbreviation list_at key s := (Lists (s_db (purged key s)) !! key).

Lemma push_run {B} (m : list string → list string → list string) (P : list string → M (list string) Z)
    key values (k : Z → M Sess B) s :
  (∀ l, P values l = (Ok (zlen (m values l)), m values l)) →
  let l' := m values (default [] (list_at key s)) in
  (_ ← GetOrCreateList key; n ← on_list key (P values); k n) s =
    k (zlen l') (set_db (set_Lists <[key := l']>) (purged key s)).
Proof.
  intros HP l'. rewrite (bind_ok _ _ _ _ _ (GetOrCreateList_run key s)).
  erewrite bind_ok; [|apply (on_list_run key _ (default [] (list_at key s)) _ l'); [|apply HP]].
  - unfold set_db. cbn. by rewrite set_Lists_insert.
  - cbn. apply lookup_insert_eq.
Qed.

Lemma lpush_run k v vs s :
  let l' := reverse (map Str (v :: vs)) ++ default [] (list_at (Str k) s) in
  lpush (k :: v :: vs) s =
    (Ok (vInt (zlen l')), set_db (λ d, set_listCond S (set_Lists <[Str k := l']> d))
                            (purged (Str k) s)).
Proof.
  unfold lpush. cbn zeta.
  rewrite (push_run (λ values l, reverse values ++ l) ListDS.LPush); [done|].
  intros l. rewrite LPush_spec, length_app, length_reverse. do 2 f_equal. lia.
Qed.

Lemma rpush_run k v vs s :
  let l' := default [] (list_at (Str k) s) ++ map Str (v :: vs) in
  rpush (k :: v :: vs) s =
    (Ok (vInt (zlen l')), set_db (λ d, set_listCond S (set_Lists <[Str k := l']> d))
                            (purged (Str k) s)).
Proof.
  unfold rpush. cbn zeta.
  rewrite (push_run (λ values l, l ++ values) ListDS.RPush); [done|].
  intros l. rewrite RPush_spec, length_app. do 2 f_equal. lia.
Qed.

(** A pop of a stored list followed by the removal of the emptied key. *)
Lemma pop_drop_run {B} (left : bool) key l v l' (k : string * bool → M Sess B) (k' : string → M Sess B) s :
  Lists (s_db s) !! key = Some l → pop_end left l = Some (v, l') →
  (∀ s, k (v, true) s = (_ ← drop_empty_list key; k' v) s) →
  (on_list key (if left then ListDS.LPop else ListDS.RPop) ≫= k) s =
    k' v (set_db (put_list key l') s).
Proof.
  intros Hl Hv Hk. erewrite bind_ok;
    [|apply (on_list_run key _ l _ l' s Hl); rewrite pop_run, Hv; done].
  cbn. rewrite Hk. erewrite bind_ok;
    [|apply (drop_empty_list_run key l'); cbn; apply lookup_insert_eq].
  unfold set_db. cbn. by rewrite put_list_insert.
Qed.

Lemma pop_none_run {B} (left : bool) key l (k : string * bool → M Sess B) s :
  Lists (s_db s) !! key = Some l → pop_end left l = None →
  (on_list key (if left then ListDS.LPop else ListDS.RPop) ≫= k) s =
    k ("", false) s.
Proof.
  intros Hl Hv. erewrite bind_ok; [done|].
  apply (on_list_read key _ l _ s Hl). by rewrite pop_run, Hv.
Qed.

(** LPOP and RPOP: the end of the list, or a null reply. *)
Definition pop_result (left : bool) (key : string) (s : Sess) : res Value * Sess :=
  let s1 := purged key s in
  match list_at key s ≫= pop_end left with
  | None => (Ok vNull, s1)
  | Some (v, l') => (Ok (vBulk v), set_db (put_list key l') s1)
  end.

Lemma lpop_run k s : lpop [k] s = pop_result true (Str k) s.
Proof.
  unfold lpop, pop_result. cbn zeta. rewrite (bind_ok _ _ _ _ _ (GetList_run _ s)).
  destruct (list_at (Str k) s) as [l|] eqn:Hl; cbn [mbind option_bind]; [|done].
  destruct (pop_end true l) as [[v l']|] eqn:Hv.
  - by rewrite (pop_drop_run true _ _ _ _ _ (λ v, mret (vBulk v)) _ Hl Hv).
  - by rewrite (pop_none_run true _ _ _ _ Hl Hv).
Qed.

Lemma rpop_run k s : rpop [k] s = pop_result false (Str k) s.
Proof.
  unfold rpop, pop_result. cbn zeta. rewrite (bind_ok _ _ _ _ _ (GetList_run _ s)).
  destruct (list_at (Str k) s) as [l|] eqn:Hl; cbn [mbind option_bind]; [|done].
  destruct (pop_end false l) as [[v l']|] eqn:Hv.
  - by rewrite (pop_drop_run false _ _ _ _ _ (λ v, mret (vBulk v)) _ Hl Hv).
  - by rewrite (pop_none_run false _ _ _ _ Hl Hv).
Qed.

(** One pass over the keys of a blocking pop. *)
Lemma pop_first_cons key keys left s :
  pop_first (key :: keys) left s =
    match list_at key s ≫= pop_end left with
    | None => pop_first keys left (purged key s)
    | Some (v, l') =>
        (Ok (Some (vArray [vBulk key; vBulk v])), set_db (put_list key l') (purged key s))
    end.
Proof.
  cbn [pop_first]. rewrite (bind_ok _ _ _ _ _ (GetList_run _ s)).
  destruct (list_at key s) as [l|] eqn:Hl; cbn [mbind option_bind]; [|done].
  destruct (pop_end left l) as [[v l']|] eqn:Hv.
  - by rewrite (pop_drop_run left _ _ _ _ _
      (λ v, mret (Some (vArray [vBulk key; vBulk v]))) _ Hl Hv).
  - by rewrite (pop_none_run left _ _ _ _ Hl Hv).
Qed.

(** LREM on a stored list. *)
Lemma lrem_run {B} key l count value (k : Z → M Sess B) s :
  Lists (s_db s) !! key = Some l → in_int count →
  ∃ n l', ListDS.LRem count value l = (Ok n, l') ∧ (length l' ≤ length l)%nat ∧
    (n ← on_list key (ListDS.LRem count value); _ ← drop_empty_list key; k n) s =
      k n (set_db (put_list key l') s).
Proof.
  intros Hl Hc. pose proof (LRem_length count value l Hc) as Hlen.
  destruct (ListDS.LRem count value l) as [r l'] eqn:Hr. cbn in Hlen.
  assert (∃ n, r = Ok n) as [n ->].
  { destruct (decide (count = minInt)) as [->|Hne].
    - rewrite LRem_minInt in Hr. injection Hr as <- <-. by eexists.
    - rewrite LRem_spec in Hr by done. injection Hr as <- <-. by eexists. }
  exists n, l'. split_and!; [done..|].
  rewrite (bind_ok _ _ _ _ _ (on_list_run key _ l _ l' s Hl Hr)).
  erewrite bind_ok; [|apply (drop_empty_list_run key l'); cbn; apply lookup_insert_eq].
  unfold set_db. cbn. by rewrite put_list_insert.
Qed.
End list_cmds.

(** ** Set commands *)
Section set_cmds.
Context `{GoEnvLaws}.
Implicit Types (s : Sess).

Abbreviation set_at key s := (Sets (s_db (purged key s)) !! key).

Lemma sadd_run k m ms s :
  let x := default ∅ (set_at (Str k) s) in
  let x' := add_all (map Str (m :: ms)) x in
  sadd (k :: m :: ms) s =
    (Ok (vInt (Z.of_nat (size x') - Z.of_nat (size x))),
     set_db (set_Sets <[Str k := x']>) (purged (Str k) s)).
Proof.
  cbn zeta. unfold sadd. rewrite (bind_ok _ _ _ _ _ (GetOrCreateSet_run _ s)).
  erewrite bind_ok; [|apply (on_set_still (Str k) _ (default ∅ (set_at (Str k) s)));
    [cbn; apply lookup_insert_eq|apply SAdd_spec]].
  run. unfold set_db. cbn. by rewrite set_Sets_insert.
Qed.

Lemma srem_run k m ms s :
  srem (k :: m :: ms) s =
    match set_at (Str k) s with
    | None => (Ok (vInt 0), purged (Str k) s)
    | Some x =>
        let x' := remove_all (map Str (m :: ms)) x in
        (Ok (vInt (Z.of_nat (size x) - Z.of_nat (size x'))),
         set_db (put_set (Str k) x') (purged (Str k) s))
    end.
Proof.
  unfold srem. rewrite (bind_ok _ _ _ _ _ (GetSet_run _ s)).
  destruct (set_at (Str k) s) as [x|] eqn:Hx; [|done]. cbn zeta.
  erewrite bind_ok; [|apply (on_set_still (Str k) _ x); [done|apply SRem_spec]].
  erewrite bind_ok; [|apply drop_empty_set_run; cbn; apply lookup_insert_eq].
  run. unfold set_db. cbn. by rewrite put_set_insert.
Qed.

(** SPOP: some member, whichever the [range] meets first. *)
Lemma spop_run k s :
  match set_at (Str k) s with
  | None => spop [k] s = (Ok vNull, purged (Str k) s)
  | Some x =>
      ∃ n v x', spop [k] s =
        (Ok v, mkSess n (set_Sets (if decide (x = ∅) then <[Str k := ∅]>
                                   else λ m, if decide (x' = ∅) then delete (Str k) m
                                             else <[Str k := x']> m)
                           (s_db (purged (Str k) s))) (s_ps s)) ∧
        (x = ∅ ∧ v = vNull ∨ ∃ m, m ∈ dom x ∧ v = vBulk m ∧ x' = delete m x)
  end.
Proof.
  unfold spop. rewrite (bind_ok _ _ _ _ _ (GetSet_run _ s)).
  destruct (set_at (Str k) s) as [x|] eqn:Hx; [|done].
  pose proof (SPop_spec (s_tick (purged (Str k) s)) x) as Hspec.
  destruct (SetDS.SPop (s_tick (purged (Str k) s), x)) as [[[m ok]| | |] [n x']] eqn:Hp;
    try done.
  erewrite bind_ok; [|exact (on_set_run _ _ _ _ _ _ _ Hx Hp)]. cbn [negb].
  destruct ok; cbn [negb].
  - destruct Hspec as [Hm ->]. eexists _, (vBulk m), (delete m x). split; [|naive_solver].
    erewrite bind_ok; [|apply drop_empty_set_run; cbn; apply lookup_insert_eq].
    run. unfold set_db. cbn. rewrite put_set_insert.
    rewrite decide_False; [done|]. intros ->. set_solver.
  - destruct Hspec as (_ & -> & ->). eexists _, vNull, ∅. split; [|naive_solver]. by run.
Qed.
End set_cmds.

(** ** Hash commands *)
Section hash_cmds.
Context `{GoEnvLaws}.
Implicit Types (s : Sess).

Abbreviation hash_at key s := (Hashes (s_db (purged key s)) !! key).

Lemma hset_run k f v s :
  let x := default ∅ (hash_at (Str k) s) in
  hset [k; f; v] s =
    (Ok (vInt (if decide (x !! Str f = None) then 1 else 0)),
     set_db (set_Hashes <[Str k := <[Str f := Str v]> x]>) (purged (Str k) s)).
Proof.
  cbn zeta. unfold hset. rewrite (bind_ok _ _ _ _ _ (GetOrCreateHash_run _ s)).
  erewrite bind_ok; [|apply (on_hash_still (Str k) _ (default ∅ (hash_at (Str k) s)));
    [cbn; apply lookup_insert_eq|apply HSet_spec]].
  unfold set_db. cbn. rewrite set_Hashes_insert.
  destruct (decide (_ = None)) as [->|Hne]; [done|].
  by rewrite bool_decide_false.
Qed.

Lemma hdel_run k f fs s :
  hdel (k :: f :: fs) s =
    match hash_at (Str k) s with
    | None => (Ok (vInt 0), purged (Str k) s)
    | Some x =>
        let x' := del_all (map Str (f :: fs)) x in
        (Ok (vInt (Z.of_nat (size x) - Z.of_nat (size x'))),
         set_db (put_hash (Str k) x') (purged (Str k) s))
    end.
Proof.
  unfold hdel. rewrite (bind_ok _ _ _ _ _ (GetHash_run _ s)).
  destruct (hash_at (Str k) s) as [x|] eqn:Hx; [|done]. cbn zeta.
  erewrite bind_ok; [|apply (on_hash_still (Str k) _ x); [done|apply HDel_spec]].
  erewrite bind_ok; [|apply drop_empty_hash_run; cbn; apply lookup_insert_eq].
  run. unfold set_db. cbn. by rewrite put_hash_insert.
Qed.

Lemma on_hash_HMSet key pairs x s :
  Hashes (s_db s) !! key = Some x →
  on_hash key (HashDS.HMSet pairs) s =
    (Ok (), mkSess (S (s_tick s)) (set_Hashes <[key := pairs ∪ x]> (s_db s)) (s_ps s)).
Proof. intros Hx. apply (on_hash_run _ _ x); [done|]. apply HMSet_spec. Qed.

(** [HIncrBy] always returns: a new number, or the error with the field
    left alone. *)
Lemma HIncrBy_total f inc fields :
  (∃ n str, HashDS.HIncrBy f inc fields = (Ok n, <[f := str]> fields)) ∨
  (∃ v e, fields !! f = Some v ∧ HashDS.HIncrBy f inc fields = (Err e, fields)).
Proof.
  unfold HashDS.HIncrBy. run. cbn [id].
  destruct (fields !! f) as [v|] eqn:Hf.
  - destruct (parseInt v) as [cur|e]; [|right; by eexists _, _].
    left. run. destruct (intToString_total (wrap64 (cur + inc)) (wrap64_in_int _)) as [str ->].
    by eexists _, str.
  - left. run. destruct (intToString_total (wrap64 (0 + inc)) (wrap64_in_int _)) as [str ->].
    by eexists _, str.
Qed.
End hash_cmds.
