(* ===== verification/HashLocks.v ===== *)
(** * HashLocks: the hash commands and their mutexes
    (src/pkg/commands/hash_commands.go, the type Hash of src/pkg/datastruct/datastruct.go,
    src/pkg/commands/database.go)

    The hash commands again, as the critical sections they run under [db.Mu] and
    under the mutex of each hash, never both at once. Under a mutex each access
    to a map is a step of its own, a [range] over one is one step. The map
    [hd_Hashes] holds addresses, so a hash outlives its key in the hands of a
    goroutine. What nobody has made yet is an empty hash. *)
From S2P Require Import Prelude Go Goroutine Locks Atomic Sections Strconv Resp DataStruct PubSub Database.
From S2P Require Import StringCmds HashCmds.

Abbreviation Hash := (gmap string string).

(** What [db.Mu] protects, with the number of hashes made so far. *)
Record HDb := mkHDb {
  hd_Store : gmap string string;
  hd_Lists : gmap string (list string);
  hd_Sets : gmap string (gmap string ());
  hd_Hashes : gmap string nat;
  hd_Expires : gmap string Z;
  hd_listCond : nat;
  hd_made : nat;
}.
Definition upd_Store f d := mkHDb (f (hd_Store d)) (hd_Lists d) (hd_Sets d) (hd_Hashes d) (hd_Expires d) (hd_listCond d) (hd_made d).
Definition upd_Lists f d := mkHDb (hd_Store d) (f (hd_Lists d)) (hd_Sets d) (hd_Hashes d) (hd_Expires d) (hd_listCond d) (hd_made d).
Definition upd_Sets f d := mkHDb (hd_Store d) (hd_Lists d) (f (hd_Sets d)) (hd_Hashes d) (hd_Expires d) (hd_listCond d) (hd_made d).
Definition upd_Hashes f d := mkHDb (hd_Store d) (hd_Lists d) (hd_Sets d) (f (hd_Hashes d)) (hd_Expires d) (hd_listCond d) (hd_made d).
Definition upd_Expires f d := mkHDb (hd_Store d) (hd_Lists d) (hd_Sets d) (hd_Hashes d) (f (hd_Expires d)) (hd_listCond d) (hd_made d).
Definition upd_made f d := mkHDb (hd_Store d) (hd_Lists d) (hd_Sets d) (hd_Hashes d) (hd_Expires d) (hd_listCond d) (f (hd_made d)).

(** The state: the serial number of the next clock reading or [range], the
    database, and the hashes by their addresses. *)
Record St := mkSt { st_tick : nat; st_db : HDb; st_hashes : gmap nat Hash }.
Definition hash_at (s : St) (c : nat) : Hash := default HashDS.NewHash (st_hashes s !! c).

(** The mutex of the database, and that of the hash at an address. *)
Definition dbMu : nat := 0.
Definition hashMu (c : nat) : nat := S c.

#[export] Instance hash_guarded : Guarded St := {|
  Part l := match l with O => HDb | S _ => Hash end;
  part l := match l with O => st_db | S c => λ s, hash_at s c end;
  put l := match l with
    | O => λ d s, mkSt (st_tick s) d (st_hashes s)
    | S c => λ h s, mkSt (st_tick s) (st_db s) (<[c := h]> (st_hashes s))
    end;
  free := st_tick;
  put_free n s := mkSt n (st_db s) (st_hashes s);
|}.

#[export] Instance hash_guarded_laws : GuardedLaws St.
Proof.
  split.
  - intros [|c] d s; [done|]. cbn. unfold hash_at. cbn. by rewrite lookup_insert_eq.
  - intros [|c] [|c'] d s Hl; try done. cbn. unfold hash_at. cbn. by rewrite lookup_insert_ne by congruence.
  - by intros [|c] d s.
  - done.
  - by intros [|c] n s.
Qed.

Abbreviation P := (sections St).
Abbreviation TD := (task HDb).
Abbreviation TH := (task Hash).

(** [db.Mu.Lock(); ...; db.Mu.Unlock()], with [RLock], and with the mutex of a
    hash. *)
Definition db_lock {X} (body : TD X) : P X := SWrite dbMu body SDone.
Definition db_rlock {X} (body : TD X) : P X := SRead dbMu body SDone.
Definition hash_lock (c : nat) {X} (body : TH X) : P X := SWrite (hashMu c) body SDone.
Definition hash_rlock (c : nat) {X} (body : TH X) : P X := SRead (hashMu c) body SDone.

Section ops.
Context `{GoEnv}.

(** ** The database *)
Definition clock : P Z := SFree (λ n, (Ok (time_Now n), S n)) SDone.
Definition serial : P nat := SFree (λ n, (Ok n, S n)) SDone.

Definition expireIfNeeded (key : string) : P () :=
  exp ← db_rlock (look (λ d, hd_Expires d !! key));
  match exp with
  | None => mret ()
  | Some exp =>
      now ← clock;
      if now <? exp then mret () else
      db_lock
        (_ ← change (upd_Store (delete key));
         _ ← change (upd_Lists (delete key));
         _ ← change (upd_Sets (delete key));
         _ ← change (upd_Hashes (delete key));
         change (upd_Expires (delete key)))
  end.

Definition GetHash (key : string) : P (option nat) :=
  _ ← expireIfNeeded key;
  db_rlock (look (λ d, hd_Hashes d !! key)).

Definition NewHash : TD nat :=
  c ← look hd_made;
  _ ← change (upd_made S);
  mret c.

Definition GetOrCreateHash (key : string) : P nat :=
  _ ← expireIfNeeded key;
  db_lock
    (hash ← look (λ d, hd_Hashes d !! key);
     match hash with
     | Some hash => mret hash
     | None =>
         hash ← NewHash;
         _ ← change (upd_Hashes <[key := hash]>);
         mret hash
     end).

(** ** The methods of [Hash] *)
Definition get_field (field : string) : TH (option string) := look (λ h, h !! field).
Definition set_field (field value : string) : TH () := change <[field := value]>.

Definition HSet (h : nat) (field value : string) : P bool :=
  hash_lock h
    (old ← get_field field;
     _ ← set_field field value;
     mret (negb (bool_decide (is_Some old)))).

Definition HGet (h : nat) (field : string) : P (string * bool) :=
  hash_rlock h
    (value ← get_field field;
     mret match value with Some value => (value, true) | None => ("", false) end).

Definition HDel (h : nat) (fields : list string) : P Z :=
  hash_lock h
    (task_for_fold (λ deleted field,
       old ← get_field field;
       match old with
       | Some _ => _ ← change (delete field); mret (deleted + 1)
       | None => mret deleted
       end) 0 fields).

Definition HExists (h : nat) (field : string) : P bool :=
  hash_rlock h (value ← get_field field; mret (bool_decide (is_Some value))).

Definition HLen (h : nat) : P Z := hash_rlock h (look HashDS.HLen).

(** The order of a [range] is fixed when it starts, by a serial number drawn
    before. *)
Definition HGetAll (h : nat) : P Hash :=
  n ← serial;
  hash_rlock h (entries ← look (map_range n);
                mret (foldl (λ result '(k, v), <[k := v]> result) ∅ entries)).
Definition HKeys (h : nat) : P (list string) :=
  n ← serial; hash_rlock h (entries ← look (map_range n); mret entries.*1).
Definition HVals (h : nat) : P (list string) :=
  n ← serial; hash_rlock h (entries ← look (map_range n); mret entries.*2).

Definition HMSet (h : nat) (pairs : Hash) : P () :=
  n ← serial;
  hash_lock h (task_for_each (λ '(field, value), set_field field value) (map_range n pairs)).

Definition HMGet (h : nat) (fields : list string) : P (list string) :=
  hash_rlock h
    (task_for_fold (λ values field, value ← get_field field; mret (values ++ [default "" value])) [] fields).

Definition HIncrBy (h : nat) (field : string) (increment : Z) : P (Z + error) :=
  hash_lock h
    (value ← get_field field;
     match match value with Some value => parseInt value | None => inl 0 end with
     | inr err => mret (inr err)
     | inl current =>
         let newValue := wrap64 (current + increment) in
         match intToString newValue with
         | Some s => _ ← set_field field s; mret (inl newValue)
         | None => do_step out_of_fuel
         end
     end).

(** ** The handlers *)
Definition hset (args : list Value) : P Value :=
  match args with
  | [k; f; v] =>
      hash ← GetOrCreateHash (Str k);
      isNew ← HSet hash (Str f) (Str v);
      if isNew : bool then mret (vInt 1) else mret (vInt 0)
  | _ => mret (wrong_args "hset")
  end.

(** [hash, exists := db.GetHash(key); if !exists { return none }]. *)
Definition with_hash (k : Value) (none : Value) (some : nat → P Value) : P Value :=
  hash ← GetHash (Str k);
  match hash with
  | None => mret none
  | Some hash => some hash
  end.

Definition hget (args : list Value) : P Value :=
  match args with
  | [k; f] =>
      with_hash k vNull (λ hash,
        '(value, ok) ← HGet hash (Str f);
        if negb ok then mret vNull else mret (vBulk value))
  | _ => mret (wrong_args "hget")
  end.

Definition hdel (args : list Value) : P Value :=
  match args with
  | k :: (_ :: _) as fs =>
      with_hash k (vInt 0) (λ hash,
        deleted ← HDel hash (map Str fs);
        n ← HLen hash;
        _ ← (if n =? 0 then db_lock (change (upd_Hashes (delete (Str k)))) else mret ());
        mret (vInt deleted))
  | _ => mret (wrong_args "hdel")
  end.

Definition hexists (args : list Value) : P Value :=
  match args with
  | [k; f] =>
      with_hash k (vInt 0) (λ hash, b ← HExists hash (Str f); mret (vInt (if b : bool then 1 else 0)))
  | _ => mret (wrong_args "hexists")
  end.

(** The serial number of the [range] over the copy is drawn first too. *)
Definition hgetall (args : list Value) : P Value :=
  match args with
  | [k] =>
      with_hash k (vArray []) (λ hash,
        n ← serial;
        fields ← HGetAll hash;
        mret (vArray (foldl (λ result '(field, value),
          result ++ [vBulk field] ++ [vBulk value]) [] (map_range n fields))))
  | _ => mret (wrong_args "hgetall")
  end.

Definition hkeys (args : list Value) : P Value :=
  match args with
  | [k] => with_hash k (vArray []) (λ hash, keys ← HKeys hash; mret (vArray (map vBulk keys)))
  | _ => mret (wrong_args "hkeys")
  end.

Definition hvals (args : list Value) : P Value :=
  match args with
  | [k] => with_hash k (vArray []) (λ hash, values ← HVals hash; mret (vArray (map vBulk values)))
  | _ => mret (wrong_args "hvals")
  end.

Definition hlen (args : list Value) : P Value :=
  match args with
  | [k] => with_hash k (vInt 0) (λ hash, n ← HLen hash; mret (vInt n))
  | _ => mret (wrong_args "hlen")
  end.

Definition hmset (args : list Value) : P Value :=
  if (length args <? 3)%nat || Nat.even (length args) then mret (wrong_args "hmset")
  else
    match args with
    | k :: fvs =>
        hash ← GetOrCreateHash (Str k);
        _ ← HMSet hash (collect_pairs fvs ∅);
        mret vOK
    | [] => mret (wrong_args "hmset")
    end.

(** For an empty value it asks again whether the field is there. *)
Definition hmget (args : list Value) : P Value :=
  match args with
  | k :: (_ :: _) as fs =>
      hash ← GetHash (Str k);
      let fields := map Str fs in
      values ← (match hash with
                | Some hash => HMGet hash fields
                | None => mret (replicate (length fields) "")
                end : P (list string));
      result ← sections_for_fold (λ result '(field, v),
        if bool_decide (v = "") then
          there ← (match hash with Some hash => HExists hash field | None => mret false end : P bool);
          mret (result ++ [if there : bool then vBulk v else vNull])
        else mret (result ++ [vBulk v])) [] (zip fields values);
      mret (vArray result)
  | _ => mret (wrong_args "hmget")
  end.

Definition hincrby (args : list Value) : P Value :=
  match args with
  | [k; f; i] =>
      match Atoi (Str i) with
      | (_, Some _) => mret not_an_integer
      | (increment, None) =>
          hash ← GetOrCreateHash (Str k);
          r ← HIncrBy hash (Str f) increment;
          match r with
          | inr err => mret (vError ("ERR " +:+ error_text err))
          | inl newValue => mret (vInt newValue)
          end
      end
  | _ => mret (wrong_args "hincrby")
  end.

Definition hash_handlers : list (string * (list Value → P Value)) :=
  [("HSET", hset); ("HGET", hget); ("HDEL", hdel); ("HEXISTS", hexists); ("HGETALL", hgetall);
   ("HKEYS", hkeys); ("HVALS", hvals); ("HLEN", hlen); ("HMSET", hmset); ("HMGET", hmget);
   ("HINCRBY", hincrby)].
End ops.
