(* ===== verification/HashOrder.v ===== *)
(** * HashOrder: hash commands take effect one at a time

    Clients that send hash commands at the same time, to keys without deadlines:
    a command finds or makes its hash under [db.Mu], and takes effect under the
    mutex of that hash, or when it finds none. An empty hash that somebody has
    just made is to everybody what no hash is. HDEL and HMGET are not such
    commands. *)
From S2P Require Import Prelude Go Goroutine Locks Atomic Sections Clients Strconv Resp DataStruct PubSub.
From S2P Require Import Database StringCmds HashCmds DbFacts CmdFacts Handler HashLocks.
Import HashFacts.

(** ** Commands *)
Inductive Command :=
  | HSET (k f v : string)
  | HGET (k f : string)
  | HEXISTS (k f : string)
  | HGETALL (k : string)
  | HKEYS (k : string)
  | HVALS (k : string)
  | HLEN (k : string)
  | HMSET (k f v : string) (fvs : list (string * string))
  | HINCRBY (k f : string) (n : Z).

Definition words (c : Command) : string * list string :=
  match c with
  | HSET k f v => ("HSET", [k; f; v])
  | HGET k f => ("HGET", [k; f])
  | HEXISTS k f => ("HEXISTS", [k; f])
  | HGETALL k => ("HGETALL", [k])
  | HKEYS k => ("HKEYS", [k])
  | HVALS k => ("HVALS", [k])
  | HLEN k => ("HLEN", [k])
  | HMSET k f v fvs => ("HMSET", k :: f :: v :: pairs fvs)
  | HINCRBY k f n => ("HINCRBY", [k; f; Itoa n])
  end.

Definition wide (c : Command) : Prop :=
  match c with HINCRBY _ _ n => in_int n | _ => True end.

(** ** What the data shows *)
Definition hash_of (d : Database) (key : string) : Hash := default ∅ (Hashes d !! key).
Definition hash_in (s : St) (key : string) : Hash :=
  match hd_Hashes (st_db s) !! key with Some c => hash_at s c | None => ∅ end.

Record showing (d : Database) (s : St) : Prop := {
  sh_maps : Store d = hd_Store (st_db s) ∧ Lists d = hd_Lists (st_db s) ∧ Sets d = hd_Sets (st_db s) ∧
    Expires d = hd_Expires (st_db s) ∧ listCond d = hd_listCond (st_db s);
  sh_hashes key : hash_of d key = hash_in s key;
}.

(** A key is bound to a hash of its own, and stays so; no hash is in use before
    it is made. Something has happened before. *)
Definition bound (s : St) (key : string) (c : nat) : Prop := hd_Hashes (st_db s) !! key = Some c.
Record bound_well (s : St) : Prop := {
  bw_timeless : hd_Expires (st_db s) = ∅;
  bw_tick : (0 < st_tick s)%nat;
  bw_made key c : bound s key c → (c < hd_made (st_db s))%nat;
  bw_own k1 k2 c : bound s k1 c → bound s k2 c → k1 = k2;
  bw_fresh c : (hd_made (st_db s) ≤ c)%nat → hash_at s c = ∅;
}.
Definition bound_after (s s' : St) : Prop := ∀ key c, bound s key c → bound s' key c.
#[export] Instance bound_after_order : PreOrder bound_after.
Proof. split; [by intros s key c|]. intros s1 s2 s3 H1 H2 key c Hc. by apply H2, H1. Qed.

Section commands.
Context `{GoEnvLaws}.

Definition concurrent (c : Command) : P Value :=
  match table_get (fst (words c)) hash_handlers with
  | Some h => h (map vBulk (snd (words c)))
  | None => mret vNull
  end.
Definition sequential (c : Command) : M Sess Value :=
  match handler_of 0 (fst (words c)) with
  | Some h => h (map vBulk (snd (words c)))
  | None => mret vNull
  end.

(** What handler [m] does to a database, with some order of its [range]s. *)
Definition handled (m : M Sess Value) (d : Database) (v : Value) (d' : Database) : Prop :=
  ∃ n n', ∀ ps, m (mkSess n d ps) = (Ok v, mkSess n' d' ps).

#[export] Instance hashes : Service Command St Value Database := {|
  serve := concurrent;
  does c := handled (sequential c);
  valid := wide;
  fine := bound_well;
  later := bound_after;
  shows := showing;
|}.

Abbreviation pendingH := (pending fine later shows).

(** ** The sequential handlers *)
(** [m] replies [r n h] about the hash [h] of [key], and leaves it. *)
Definition reads_hash (m : M Sess Value) (key : string) (r : nat → Hash → Value) : Prop := ∀ n d,
  Expires d = ∅ → ∃ n', ∀ ps, m (mkSess n d ps) = (Ok (r n (hash_of d key)), mkSess n' d ps).
(** [m] replies and leaves what [g] says of the hash of [key]. *)
Definition writes_hash (m : M Sess Value) (key : string) (g : Hash → Value * Hash) : Prop := ∀ n d,
  Expires d = ∅ → ∃ n', ∀ ps, m (mkSess n d ps) = (Ok (g (hash_of d key)).1,
    mkSess n' (set_Hashes <[key := (g (hash_of d key)).2]> d) ps).

Lemma showing_insert d s key c h : showing d s → bound_well s → bound s key c →
  showing (set_Hashes <[key := h]> d) (put (hashMu c) h s).
Proof.
  intros [Hm Hh] Hb Hc. split; [exact Hm|]. intros k. unfold hash_of, hash_in. cbn.
  destruct (decide (key = k)) as [<-|Hk].
  - rewrite lookup_insert_eq. unfold bound in Hc. rewrite Hc. unfold hash_at. cbn. by rewrite lookup_insert_eq.
  - rewrite lookup_insert_ne by done. specialize (Hh k). unfold hash_of, hash_in in Hh. rewrite Hh.
    destruct (hd_Hashes (st_db s) !! k) as [c'|] eqn:Hc'; [|done]. unfold hash_at. cbn.
    rewrite lookup_insert_ne; [done|]. intros ->. by apply Hk, (bw_own s Hb key k c').
Qed.

(** The hash it is bound to is the one shown. *)
Lemma shown_hash d s key c : showing d s → bound s key c → hash_of d key = hash_at s c.
Proof. intros Hs Hc. rewrite (sh_hashes d s Hs). unfold hash_in. unfold bound in Hc. by rewrite Hc. Qed.

(** The same but for the bookkeeping. *)
Lemma showing_same d s s' : st_db s' = st_db s → (∀ c, hash_at s' c = hash_at s c) → showing d s → showing d s'.
Proof.
  intros Hdb Hh [Hm Hd]. split; [by rewrite Hdb|]. intros key. rewrite Hd. unfold hash_in. rewrite Hdb.
  by destruct (hd_Hashes (st_db s) !! key).
Qed.

Lemma moves_same s s' : st_db s' = st_db s → (∀ c, hash_at s' c = hash_at s c) → (st_tick s ≤ st_tick s')%nat →
  bound_well s → moves fine later s s'.
Proof.
  intros Hdb Hh Ht [Hb1 Hb2 Hb3 Hb4 Hb5]. split.
  - split; unfold bound; rewrite ?Hdb; [done|lia|done|done|]. intros c Hc. rewrite Hh. by apply Hb5.
  - intros key c. unfold bound. by rewrite Hdb.
Qed.

Lemma hash_at_put c h s c' : hash_at (put (hashMu c) h s) c' = if decide (c = c') then h else hash_at s c'.
Proof.
  unfold hash_at. cbn. case_decide as Hc; [subst; by rewrite lookup_insert_eq|by rewrite lookup_insert_ne].
Qed.

Lemma moves_write s key c h : bound_well s → bound s key c → moves fine later s (put (hashMu c) h s).
Proof.
  intros [Hb1 Hb2 Hb3 Hb4 Hb5] Hc. split; [|by intros k c']. split; [done|done|done|done|].
  intros c' Hc'. rewrite hash_at_put, decide_False; [by apply Hb5|]. intros <-.
  apply Hb3 in Hc. cbn in Hc'. lia.
Qed.

(** ** The stages of a command *)
Implicit Types (spec : Database → Value → Database → Prop).

Lemma put_db s : @put St hash_guarded dbMu (st_db s) s = s.
Proof. by destruct s. Qed.

Lemma stays s : bound_well s → moves fine later s s ∧ silent showing s s.
Proof. intros Hb. split; [by apply moves_same|by intros σ]. Qed.

(** The deadline is looked up and there is none. *)
Lemma pending_expire spec key (k : option Z → P Value) s :
  (∀ s', bound_after s s' → bound_well s' → pendingH spec (k None) s') →
  pendingH spec (SRead dbMu (look (λ d, hd_Expires d !! key)) k) s.
Proof.
  intros Hk s1 x d Hs1 Hb [= <- <-]. change (part dbMu s1) with (st_db s1). rewrite put_db.
  rewrite (bw_timeless s1 Hb), lookup_empty. destruct (stays s1 Hb) as [Hm Hsil].
  split; [exact Hm|]. left. split; [exact Hsil|]. by apply Hk.
Qed.

(** A serial number is drawn. *)
Lemma pending_serial spec (k : nat → P Value) s :
  (∀ n s', (0 < n)%nat → bound_after s s' → bound_well s' → pendingH spec (k n) s') →
  pendingH spec (serial ≫= k) s.
Proof.
  intros Hk s1 n f Hs1 Hb [= <- <-].
  assert (Hm : moves fine later s1 (mkSt (S (st_tick s1)) (st_db s1) (st_hashes s1)))
    by (apply moves_same; [done|done|cbn; lia|done]).
  split; [exact Hm|]. split; [by intros σ; apply showing_same|].
  destruct Hm as [Hb' Ha]. apply Hk; [apply Hb|by etrans|exact Hb'].
Qed.

(** [GetHash], and what follows: the command has its effect when it finds none. *)
Lemma pending_with_hash m k r some s :
  reads_hash m (Str k) r → (∀ n, r n ∅ = r 0%nat ∅) →
  (∀ c s', bound_after s s' → bound_well s' → bound s' (Str k) c → pendingH (handled m) (some c) s') →
  pendingH (handled m) (with_hash k (r 0%nat ∅) some) s.
Proof.
  intros Hm Hr Hsome. apply pending_expire. intros s1 Hs1 Hb1 s2 x d Hs2 Hb [= <- <-].
  change (part dbMu s2) with (st_db s2). rewrite put_db. destruct (stays s2 Hb) as [Hstay Hsil].
  split; [exact Hstay|]. destruct (hd_Hashes (st_db s2) !! Str k) as [c|] eqn:Hc.
  - left. split; [exact Hsil|]. apply Hsome; [|done|done]. by etrans.
  - right. exists (r 0%nat ∅). split; [done|]. intros σ Hσ. exists σ. split; [|done].
    destruct (Hm 0%nat σ) as [n' Hn]; [destruct Hσ as [(_ & _ & _ & -> & _) _]; apply Hb|].
    exists 0%nat, n'. intros ps. rewrite Hn. rewrite (sh_hashes σ s2 Hσ). unfold hash_in. by rewrite Hc.
Qed.

(** A body under the mutex of the hash that reads it, and one that changes it. *)
Lemma pending_read {X} m key r n c (body : TH X) (k : X → P Value) s :
  reads_hash m key r → bound s key c → reader body →
  (∀ h x, task_alone body h = (Ok x, h) → k x = SDone (r n h)) →
  pendingH (handled m) (SRead (hashMu c) body k) s.
Proof.
  intros Hm Hc Hread Hbody s1 x h Hs1 Hb Hrun. specialize (Hs1 key c Hc).
  pose proof (reader_same body _ _ _ Hread Hrun) as ->.
  assert (Hsame : ∀ c', hash_at (put (hashMu c) (hash_at s1 c) s1) c' = hash_at s1 c').
  { intros c'. rewrite hash_at_put. by case_decide as Hcc; [rewrite Hcc|]. }
  split; [apply moves_same; [done|exact Hsame|done|exact Hb]|]. right. exists (r n (hash_at s1 c)). split; [by apply Hbody|].
  intros σ Hσ. exists σ.
  split; [|by apply (showing_same _ s1)].
  destruct (Hm n σ) as [n' Hn]; [destruct Hσ as [(_ & _ & _ & -> & _) _]; apply Hb|].
  exists n, n'. intros ps. by rewrite Hn, (shown_hash σ s1 key c Hσ Hs1).
Qed.

Lemma pending_write {X} m key g c (body : TH X) (k : X → P Value) s :
  writes_hash m key g → bound s key c →
  (∀ h x h', task_alone body h = (Ok x, h') → k x = SDone (g h).1 ∧ h' = (g h).2) →
  pendingH (handled m) (SWrite (hashMu c) body k) s.
Proof.
  intros Hm Hc Hbody s1 x h Hs1 Hb Hrun. specialize (Hs1 key c Hc). destruct (Hbody _ _ _ Hrun) as [Hk ->].
  split; [by eapply moves_write|]. right. exists (g (hash_at s1 c)).1. split; [done|].
  intros σ Hσ. eexists. split; [|by eapply showing_insert].
  destruct (Hm 0%nat σ) as [n' Hn]; [destruct Hσ as [(_ & _ & _ & -> & _) _]; apply Hb|].
  exists 0%nat, n'. intros ps. by rewrite Hn, (shown_hash σ s1 key c Hσ Hs1).
Qed.

(** [GetOrCreateHash], and what follows. *)
Definition with_new (key : string) (s : St) : St :=
  let d := st_db s in
  mkSt (st_tick s) (upd_Hashes <[key := hd_made d]> (upd_made S d)) (st_hashes s).

Lemma bound_new key s k c : hd_Hashes (st_db s) !! key = None → bound (with_new key s) k c →
  (k = key ∧ c = hd_made (st_db s)) ∨ (k ≠ key ∧ bound s k c).
Proof. intros Hkey. unfold bound. cbn. rewrite lookup_insert_Some. naive_solver. Qed.

Lemma moves_new key s : bound_well s → hd_Hashes (st_db s) !! key = None → moves fine later s (with_new key s).
Proof.
  intros [Hb1 Hb2 Hb3 Hb4 Hb5] Hkey. split.
  - split; [done|done| | |].
    + intros k c [[-> ->]|[_ Hc%Hb3]]%bound_new; [cbn; lia|cbn; lia|done].
    + intros k1 k2 c [[-> ->]|[Hk1 H1]]%bound_new [[-> Hc]|[Hk2 H2]]%bound_new; try done.
      * apply Hb3 in H2. lia.
      * subst. apply Hb3 in H1. lia.
      * by eapply Hb4.
    + intros c Hc. apply (Hb5 c). cbn in Hc. lia.
  - intros k c Hc. unfold bound. cbn. rewrite lookup_insert_ne; [done|]. intros <-. unfold bound in Hc. congruence.
Qed.

Lemma silent_new key s : bound_well s → hd_Hashes (st_db s) !! key = None → silent showing s (with_new key s).
Proof.
  intros Hb Hkey σ [Hm Hh]. split; [exact Hm|]. intros k. rewrite Hh. unfold hash_in. cbn.
  destruct (decide (key = k)) as [<-|Hk].
  - rewrite lookup_insert_eq, Hkey. symmetry. by apply (bw_fresh s Hb).
  - by rewrite lookup_insert_ne.
Qed.

Lemma pending_with_new spec key f s :
  (∀ c s', bound_well s' → bound s' key c → pendingH spec (f c) s') →
  pendingH spec (GetOrCreateHash key ≫= f) s.
Proof.
  intros Hf. apply pending_expire. intros s1 Hs1 Hb1 s2 x d Hs2 Hb Hrun.
  change (part dbMu s2) with (st_db s2) in Hrun. cbn in Hrun. unfold mbind, M_bind, gets in Hrun. cbn in Hrun.
  destruct (hd_Hashes (st_db s2) !! key) as [c|] eqn:Hc.
  - injection Hrun as <- <-. rewrite put_db. destruct (stays s2 Hb) as [Hstay Hsil].
    split; [exact Hstay|]. left. split; [exact Hsil|]. by apply Hf.
  - injection Hrun as <- <-.
    change (put dbMu _ s2) with (with_new key s2). pose proof (moves_new key s2 Hb Hc) as Hmv.
    split; [exact Hmv|]. left. split; [by apply silent_new|].
    apply Hf; [apply Hmv|]. unfold bound. cbn. by rewrite lookup_insert_eq.
Qed.

(** ** The commands that read *)
Lemma GetHash_timeless key n d ps : Expires d = ∅ →
  Database.GetHash key (mkSess n d ps) = (Ok (Hashes d !! key), mkSess n d ps).
Proof. intros Hd. rewrite GetHash_run, purged_no_deadline; [done|]. cbn. by rewrite Hd. Qed.

Lemma reads_hget k f : reads_hash (HashCmds.hget [k; f]) (Str k)
  (λ _ h, match h !! Str f with Some v => vBulk v | None => vNull end).
Proof.
  intros n d Hd. exists n. intros ps. unfold HashCmds.hget.
  rewrite (bind_ok _ _ _ _ _ (GetHash_timeless (Str k) n d ps Hd)). unfold hash_of.
  destruct (Hashes d !! Str k) as [h|]; [|done]. cbn. unfold HashDS.HGet. by destruct (h !! Str f).
Qed.

Lemma reads_hexists k f : reads_hash (HashCmds.hexists [k; f]) (Str k)
  (λ _ h, vInt (if HashDS.HExists h (Str f) then 1 else 0)).
Proof.
  intros n d Hd. exists n. intros ps. unfold HashCmds.hexists.
  rewrite (bind_ok _ _ _ _ _ (GetHash_timeless (Str k) n d ps Hd)). unfold hash_of.
  by destruct (Hashes d !! Str k) as [h|].
Qed.

Lemma reads_hlen k : reads_hash (HashCmds.hlen [k]) (Str k) (λ _ h, vInt (HashDS.HLen h)).
Proof.
  intros n d Hd. exists n. intros ps. unfold HashCmds.hlen.
  rewrite (bind_ok _ _ _ _ _ (GetHash_timeless (Str k) n d ps Hd)). unfold hash_of.
  by destruct (Hashes d !! Str k) as [h|].
Qed.

Lemma range_empty {K A} `{Countable K} n : map_range n (∅ : gmap K A) = [].
Proof. by apply map_range_nil. Qed.

Lemma reads_hkeys k : reads_hash (HashCmds.hkeys [k]) (Str k) (λ n h, vArray (map vBulk (map_range n h).*1)).
Proof.
  intros n d Hd. unfold hash_of. destruct (Hashes d !! Str k) as [h|] eqn:Hh.
  - exists (S n). intros ps. unfold HashCmds.hkeys.
    by rewrite (bind_ok _ _ _ _ _ (GetHash_timeless (Str k) n d ps Hd)), Hh.
  - exists n. intros ps. unfold HashCmds.hkeys.
    rewrite (bind_ok _ _ _ _ _ (GetHash_timeless (Str k) n d ps Hd)), Hh. cbn. by rewrite range_empty.
Qed.

Lemma reads_hvals k : reads_hash (HashCmds.hvals [k]) (Str k) (λ n h, vArray (map vBulk (map_range n h).*2)).
Proof.
  intros n d Hd. unfold hash_of. destruct (Hashes d !! Str k) as [h|] eqn:Hh.
  - exists (S n). intros ps. unfold HashCmds.hvals.
    by rewrite (bind_ok _ _ _ _ _ (GetHash_timeless (Str k) n d ps Hd)), Hh.
  - exists n. intros ps. unfold HashCmds.hvals.
    rewrite (bind_ok _ _ _ _ _ (GetHash_timeless (Str k) n d ps Hd)), Hh. cbn. by rewrite range_empty.
Qed.

Definition entries (n : nat) (h : Hash) : Value :=
  vArray (foldl (λ result '(field, value), result ++ [vBulk field] ++ [vBulk value]) [] (map_range n h)).

Lemma reads_hgetall k : reads_hash (HashCmds.hgetall [k]) (Str k) (λ n h, entries (S n) h).
Proof.
  intros n d Hd. unfold hash_of. destruct (Hashes d !! Str k) as [h|] eqn:Hh.
  - exists (S (S n)). intros ps. unfold HashCmds.hgetall.
    rewrite (bind_ok _ _ _ _ _ (GetHash_timeless (Str k) n d ps Hd)), Hh.
    erewrite bind_ok; [|unfold ranged, zoom; cbn [s_tick]; by rewrite HGetAll_spec]. done.
  - exists n. intros ps. unfold HashCmds.hgetall.
    rewrite (bind_ok _ _ _ _ _ (GetHash_timeless (Str k) n d ps Hd)), Hh. unfold entries. cbn.
    by rewrite range_empty.
Qed.

(** ** The commands that write *)
Lemma purged_timeless key n d ps : Expires d = ∅ → purged key (mkSess n d ps) = mkSess n d ps.
Proof. intros Hd. apply purged_no_deadline. cbn. by rewrite Hd. Qed.

Lemma GetOrCreate_timeless key n d ps : Expires d = ∅ →
  Database.GetOrCreateHash key (mkSess n d ps) = (Ok (), mkSess n (set_Hashes <[key := hash_of d key]> d) ps).
Proof. intros Hd. by rewrite GetOrCreateHash_run, purged_timeless. Qed.

Lemma writes_hset k f v : writes_hash (HashCmds.hset [k; f; v]) (Str k)
  (λ h, (vInt (if decide (h !! Str f = None) then 1 else 0), <[Str f := Str v]> h)).
Proof. intros n d Hd. exists n. intros ps. by rewrite hset_run, purged_timeless. Qed.

Lemma writes_hmset k f v fvs : Nat.even (length fvs) = true →
  writes_hash (HashCmds.hmset (k :: f :: v :: fvs)) (Str k)
    (λ h, (vOK, collect_pairs (f :: v :: fvs) ∅ ∪ h)).
Proof.
  intros Heven n d Hd. exists (S n). intros ps. unfold HashCmds.hmset.
  assert ((length (k :: f :: v :: fvs) <? 3)%nat || Nat.even (length (k :: f :: v :: fvs)) = false) as ->.
  { cbn [length]. rewrite orb_false_iff. split; [by apply Nat.ltb_ge; lia|].
    rewrite Nat.even_succ_succ, Nat.even_succ, <-Nat.negb_even, Heven. done. }
  rewrite (bind_ok _ _ _ _ _ (GetOrCreate_timeless (Str k) n d ps Hd)).
  erewrite bind_ok; [|apply (on_hash_HMSet (Str k) _ (hash_of d (Str k))); cbn; apply lookup_insert_eq].
  cbn. unfold mret, M_ret. by rewrite set_Hashes_insert.
Qed.

(** What HINCRBY finds, replies and leaves. *)
Definition incremented (f : string) (i : Z) (h : Hash) : Value * Hash :=
  match match h !! f with Some value => parseInt value | None => inl 0 end with
  | inr err => (vError ("ERR " +:+ error_text err), h)
  | inl current =>
      let newValue := wrap64 (current + i) in
      (vInt newValue, match intToString newValue with Some s => <[f := s]> h | None => h end)
  end.

Lemma HIncrBy_incremented f i h :
  match try (HashDS.HIncrBy f i) h with
  | (Ok (inr err), h') => (vError ("ERR " +:+ error_text err), h') = incremented f i h
  | (Ok (inl n), h') => (vInt n, h') = incremented f i h
  | _ => False
  end.
Proof.
  unfold incremented, try, HashDS.HIncrBy. run. cbn [id].
  destruct (h !! f) as [v|] eqn:Hf; [destruct (parseInt v) as [cur|e]|]; run; try done.
  - destruct (intToString_total (wrap64 (cur + i)) (wrap64_in_int _)) as [str ->]. done.
  - destruct (intToString_total (wrap64 (0 + i)) (wrap64_in_int _)) as [str ->]. done.
Qed.

Lemma writes_hincrby k f i inc : Atoi (Str i) = (inc, None) →
  writes_hash (HashCmds.hincrby [k; f; i]) (Str k) (incremented (Str f) inc).
Proof.
  intros Hi n d Hd. exists n. intros ps. unfold HashCmds.hincrby. rewrite Hi.
  rewrite (bind_ok _ _ _ _ _ (GetOrCreate_timeless (Str k) n d ps Hd)).
  pose proof (HIncrBy_incremented (Str f) inc (hash_of d (Str k))) as Hr.
  destruct (try (HashDS.HIncrBy (Str f) inc) (hash_of d (Str k))) as [[[m|e]|e|e|] h'] eqn:Htry; try done;
    rewrite <-Hr; (erewrite bind_ok; [|apply (on_hash_still (Str k) _ (hash_of d (Str k))); [cbn; apply lookup_insert_eq|exact Htry]]);
    unfold set_db; cbn; by rewrite set_Hashes_insert.
Qed.

(** ** Each command, under its locks *)
Lemma set_fields_run l : ∀ h, task_alone (task_for_each (λ '(field, value), set_field field value) l) h =
  (Ok (), foldl (λ fields '(field, value), <[field := value]> fields) h l).
Proof. induction l as [|[f v] l IH]; intros h; [done|]. exact (IH _). Qed.

Lemma set_all_run n (pairs h : Hash) :
  task_alone (task_for_each (λ '(field, value), set_field field value) (map_range n pairs)) h = (Ok (), pairs ∪ h).
Proof.
  rewrite set_fields_run. by rewrite (foldl_insert_union _ h (map_range_NoDup n pairs)), list_to_map_range.
Qed.

Lemma copy_range n (h : Hash) : foldl (λ result '(k, v), <[k := v]> result) ∅ (map_range n h) = h.
Proof.
  rewrite (foldl_insert_union _ ∅ (map_range_NoDup n h)), list_to_map_range. apply (right_id_L ∅ (∪)).
Qed.

Lemma reader_field {A} f (g : option string → A) : reader (x ← get_field f; mret (g x)).
Proof. apply reader_bind; [apply reader_look|]. intros x. apply reader_ret. Qed.
Lemma reader_range {A} n (g : list (string * string) → A) : reader (x ← look (map_range n : Hash → _); mret (g x)).
Proof. apply reader_bind; [apply reader_look|]. intros x. apply reader_ret. Qed.

Lemma hset_pending k f v s : pendingH (handled (HashCmds.hset [k; f; v])) (hset [k; f; v]) s.
Proof.
  apply pending_with_new. intros c s' _ Hc. eapply pending_write; [apply writes_hset|done|].
  intros h x h' [= <- <-]. split; [|done]. cbn. destruct (h !! Str f); [|done].
  by rewrite bool_decide_true, decide_False by eauto.
Qed.

Lemma hget_pending k f s : pendingH (handled (HashCmds.hget [k; f])) (hget [k; f]) s.
Proof.
  apply (pending_with_hash _ _ _ _ _ (reads_hget k f)); [done|]. intros c s' _ _ Hc.
  eapply (pending_read _ _ _ 0 _ _ _ _ (reads_hget k f)); [done|apply reader_field|].
  intros h x [= <-]. cbn. by destruct (h !! Str f).
Qed.

Lemma hexists_pending k f s : pendingH (handled (HashCmds.hexists [k; f])) (hexists [k; f]) s.
Proof.
  apply (pending_with_hash _ _ _ _ _ (reads_hexists k f)); [done|]. intros c s' _ _ Hc.
  eapply (pending_read _ _ _ 0 _ _ _ _ (reads_hexists k f)); [done|apply reader_field|]. by intros h x [= <-].
Qed.

Lemma hlen_pending k s : pendingH (handled (HashCmds.hlen [k])) (hlen [k]) s.
Proof.
  apply (pending_with_hash _ _ _ _ _ (reads_hlen k)); [done|]. intros c s' _ _ Hc.
  eapply (pending_read _ _ _ 0 _ _ _ _ (reads_hlen k)); [done|apply reader_look|]. by intros h x [= <-].
Qed.

(** What a [range] over no hash replies. *)
Lemma nothing_ranged {A} (f : list (string * string) → A) n : f (map_range n ∅) = f [].
Proof. by rewrite range_empty. Qed.

Lemma hkeys_pending k s : pendingH (handled (HashCmds.hkeys [k])) (hkeys [k]) s.
Proof.
  pose proof (nothing_ranged (λ l, vArray (map vBulk l.*1))) as Hnone. cbn in Hnone.
  unfold hkeys. rewrite <-(Hnone 0%nat).
  apply (pending_with_hash _ _ _ _ _ (reads_hkeys k)); [intros n; by rewrite !Hnone|]. intros c s' _ _ Hc.
  apply pending_serial. intros n s2 _ Hs2 _. specialize (Hs2 _ _ Hc).
  eapply (pending_read _ _ _ n _ _ _ _ (reads_hkeys k)); [done|apply reader_range|]. by intros h x [= <-].
Qed.

Lemma hvals_pending k s : pendingH (handled (HashCmds.hvals [k])) (hvals [k]) s.
Proof.
  pose proof (nothing_ranged (λ l, vArray (map vBulk l.*2))) as Hnone. cbn in Hnone.
  unfold hvals. rewrite <-(Hnone 0%nat).
  apply (pending_with_hash _ _ _ _ _ (reads_hvals k)); [intros n; by rewrite !Hnone|]. intros c s' _ _ Hc.
  apply pending_serial. intros n s2 _ Hs2 _. specialize (Hs2 _ _ Hc).
  eapply (pending_read _ _ _ n _ _ _ _ (reads_hvals k)); [done|apply reader_range|]. by intros h x [= <-].
Qed.

Lemma entries_empty n : entries n ∅ = vArray [].
Proof. unfold entries. by rewrite range_empty. Qed.

Lemma hgetall_pending k s : pendingH (handled (HashCmds.hgetall [k])) (hgetall [k]) s.
Proof.
  unfold hgetall. rewrite <-(entries_empty 1).
  apply (pending_with_hash _ _ _ _ _ (reads_hgetall k)); [intros n; by rewrite !entries_empty|]. intros c s' _ _ Hc.
  apply pending_serial. intros m s2 Hm Hs2 _. apply pending_serial. intros n s3 _ Hs3 _.
  eapply (pending_read _ _ _ (pred m) _ _ _ _ (reads_hgetall k)); [by apply Hs3, Hs2|apply reader_range|].
  intros h x [= <-]. cbn. by rewrite copy_range, Nat.succ_pred_pos.
Qed.

Lemma hmset_pending k f v fvs s : Nat.even (length fvs) = true →
  pendingH (handled (HashCmds.hmset (k :: f :: v :: fvs))) (hmset (k :: f :: v :: fvs)) s.
Proof.
  intros Heven. unfold hmset.
  assert ((length (k :: f :: v :: fvs) <? 3)%nat || Nat.even (length (k :: f :: v :: fvs)) = false) as ->.
  { cbn [length]. rewrite orb_false_iff. split; [by apply Nat.ltb_ge; lia|].
    rewrite Nat.even_succ_succ, Nat.even_succ, <-Nat.negb_even, Heven. done. }
  apply pending_with_new. intros c s' Hs' Hc. apply pending_serial. intros n s2 _ Hs2 _. specialize (Hs2 _ _ Hc).
  eapply pending_write; [by apply writes_hmset|done|]. intros h x h'. rewrite set_all_run. by intros [= <- <-].
Qed.

Lemma hincrby_pending k f i inc s : Atoi (Str i) = (inc, None) →
  pendingH (handled (HashCmds.hincrby [k; f; i])) (hincrby [k; f; i]) s.
Proof.
  intros Hi. unfold hincrby. rewrite Hi.
  apply pending_with_new. intros c s' Hs' Hc. eapply pending_write; [by eapply writes_hincrby|done|].
  intros h x h'. unfold incremented. cbn. unfold mbind, M_bind, gets.
  destruct (match h !! Str f with Some value => parseInt value | None => inl 0 end) as [cur|e];
    [|by intros [= <- <-]].
  destruct (intToString_total (wrap64 (cur + inc)) (wrap64_in_int _)) as [str ->]. by intros [= <- <-].
Qed.

Lemma command_pending c s : wide c → pendingH (handled (sequential c)) (concurrent c) s.
Proof.
  intros Hc. destruct c as [k f v|k f|k f|k|k|k|k|k f v fvs|k f n].
  - apply hset_pending.
  - apply hget_pending.
  - apply hexists_pending.
  - apply hgetall_pending.
  - apply hkeys_pending.
  - apply hvals_pending.
  - apply hlen_pending.
  - apply (hmset_pending (vBulk k) (vBulk f) (vBulk v) (map vBulk (pairs fvs))). by rewrite length_map, pairs_even.
  - apply (hincrby_pending _ _ _ n). by apply Atoi_Itoa.
Qed.

(** ** The rules of [Atomic] *)
Lemma lawful_serial : lawful serial.
Proof. split; [|done]. intros n. by eexists _, _. Qed.
Lemma lawful_clock : lawful clock.
Proof. split; [|done]. intros n. by eexists _, _. Qed.
Lemma lawful_db_lock {A} (b : TD A) : writer b → lawful (db_lock b).
Proof. intros Hb. by apply (lawful_write dbMu). Qed.
Lemma lawful_db_rlock {A} (b : TD A) : reader b → lawful (db_rlock b).
Proof. intros Hb. by apply (lawful_read dbMu). Qed.
Lemma lawful_hash_lock {A} c (b : TH A) : writer b → lawful (hash_lock c b).
Proof. intros Hb. by apply (lawful_write (hashMu c)). Qed.
Lemma lawful_hash_rlock {A} c (b : TH A) : reader b → lawful (hash_rlock c b).
Proof. intros Hb. by apply (lawful_read (hashMu c)). Qed.
#[local] Hint Resolve lawful_serial lawful_clock lawful_db_lock lawful_db_rlock lawful_hash_lock
  lawful_hash_rlock : lawful.

Lemma lawful_expireIfNeeded key : lawful (expireIfNeeded key).
Proof.
  apply lawful_bind; [auto with lawful|]. intros [exp|]; [|done].
  apply lawful_bind; [auto with lawful|]. intros now. destruct (now <? exp); [done|]. auto 10 with lawful.
Qed.
#[local] Hint Resolve lawful_expireIfNeeded : lawful.

Lemma lawful_GetOrCreate key : lawful (GetOrCreateHash key).
Proof.
  apply lawful_bind; [auto with lawful|]. intros []. apply lawful_db_lock.
  apply writer_bind; [auto with lawful|]. intros [c|]; [auto with lawful|]. unfold NewHash. auto 10 with lawful.
Qed.

Lemma lawful_with_hash k none some : (∀ c, lawful (some c)) → lawful (with_hash k none some).
Proof.
  intros Hs. apply lawful_bind; [apply lawful_bind; auto with lawful|]. intros [c|]; [apply Hs|done].
Qed.

Lemma writer_HIncrBy f i : writer (value ← get_field f;
     match match value with Some value => parseInt value | None => inl 0 end with
     | inr err => mret (inr err)
     | inl current =>
         let newValue := wrap64 (current + i) in
         match intToString newValue with
         | Some s => _ ← set_field f s; mret (inl newValue)
         | None => do_step out_of_fuel
         end
     end).
Proof.
  apply writer_bind; [apply writer_look|]. intros v. destruct (match v with Some _ => _ | None => _ end) as [cur|e];
    [|apply writer_ret]. cbn zeta.
  destruct (intToString_total (wrap64 (cur + i)) (wrap64_in_int _)) as [str ->].
  apply writer_bind; [apply writer_change|auto with lawful].
Qed.

Lemma lawful_hset args : lawful (hset args).
Proof.
  destruct args as [|k [|f [|v [|x l]]]]; try done. apply lawful_bind; [apply lawful_GetOrCreate|]. intros c.
  apply lawful_bind; [|by intros []]. apply lawful_hash_lock. apply writer_bind; [apply writer_look|]. intros old.
  apply writer_bind; [apply writer_change|auto with lawful].
Qed.

Lemma lawful_hget args : lawful (hget args).
Proof.
  destruct args as [|k [|f [|x l]]]; try done. apply lawful_with_hash. intros c.
  apply lawful_bind; [apply lawful_hash_rlock, reader_field|]. by intros [v []].
Qed.

Lemma lawful_hdel args : lawful (hdel args).
Proof.
  destruct args as [|k [|f fs]]; try done. apply lawful_with_hash. intros c. apply lawful_bind.
  - apply lawful_hash_lock, writer_for_fold. intros n x. apply writer_bind; [apply writer_look|].
    intros [v|]; [|apply writer_ret]. apply writer_bind; [apply writer_change|auto with lawful].
  - intros deleted. apply lawful_bind; [apply lawful_hash_rlock, reader_look|]. intros n.
    apply lawful_bind; [|done]. destruct (n =? 0); [|done]. apply lawful_db_lock, writer_change.
Qed.

Lemma lawful_hexists args : lawful (hexists args).
Proof.
  destruct args as [|k [|f [|x l]]]; try done. apply lawful_with_hash. intros c.
  apply lawful_bind; [apply lawful_hash_rlock, reader_field|done].
Qed.

Lemma lawful_hgetall args : lawful (hgetall args).
Proof.
  destruct args as [|k [|x l]]; try done. apply lawful_with_hash. intros c.
  apply lawful_bind; [apply lawful_serial|]. intros m. apply lawful_bind; [|done].
  apply lawful_bind; [apply lawful_serial|]. intros n. apply lawful_hash_rlock, reader_range.
Qed.

Lemma lawful_hkeys args : lawful (hkeys args).
Proof.
  destruct args as [|k [|x l]]; try done. apply lawful_with_hash. intros c. apply lawful_bind; [|done].
  apply lawful_bind; [apply lawful_serial|]. intros n. apply lawful_hash_rlock, reader_range.
Qed.

Lemma lawful_hvals args : lawful (hvals args).
Proof.
  destruct args as [|k [|x l]]; try done. apply lawful_with_hash. intros c. apply lawful_bind; [|done].
  apply lawful_bind; [apply lawful_serial|]. intros n. apply lawful_hash_rlock, reader_range.
Qed.

Lemma lawful_hlen args : lawful (hlen args).
Proof.
  destruct args as [|k [|x l]]; try done. apply lawful_with_hash. intros c.
  apply lawful_bind; [apply lawful_hash_rlock, reader_look|done].
Qed.

Lemma lawful_hmset args : lawful (hmset args).
Proof.
  unfold hmset. destruct (_ || _); [done|]. destruct args as [|k fvs]; [done|].
  apply lawful_bind; [apply lawful_GetOrCreate|]. intros c. apply lawful_bind; [|done].
  apply lawful_bind; [apply lawful_serial|]. intros n. apply lawful_hash_lock, writer_for_each.
  intros [f v]. apply writer_change.
Qed.

Lemma lawful_hmget args : lawful (hmget args).
Proof.
  destruct args as [|k [|f fs]]; try done. apply lawful_bind; [apply lawful_bind; auto with lawful|].
  intros c. cbn zeta. apply lawful_bind.
  - destruct c as [c|]; [|done]. apply lawful_hash_rlock, reader_for_fold. intros vs x. apply reader_field.
  - intros values. apply lawful_bind; [|done]. apply lawful_for_fold. intros result [x v].
    destruct (bool_decide (v = "")); [|done]. apply lawful_bind; [|done].
    destruct c as [c|]; [apply lawful_hash_rlock, reader_field|done].
Qed.

Lemma lawful_hincrby args : lawful (hincrby args).
Proof.
  destruct args as [|k [|f [|i [|x l]]]]; try done. unfold hincrby. destruct (Atoi (Str i)) as [inc [e|]]; [done|].
  apply lawful_bind; [apply lawful_GetOrCreate|]. intros c.
  apply lawful_bind; [apply lawful_hash_lock, writer_HIncrBy|]. by intros [m|e].
Qed.

Lemma handlers_lawful name h args : table_get name hash_handlers = Some h → lawful (h args).
Proof.
  intros Hh%table_get_In. unfold hash_handlers in Hh. rewrite !elem_of_cons in Hh.
  repeat destruct Hh as [[= _ ->]|Hh]; [..|by apply elem_of_nil in Hh];
    auto using lawful_hset, lawful_hget, lawful_hdel, lawful_hexists, lawful_hgetall, lawful_hkeys,
      lawful_hvals, lawful_hlen, lawful_hmset, lawful_hmget, lawful_hincrby.
Qed.

Lemma hash_command_lawful c : lawful (concurrent c).
Proof.
  unfold concurrent. destruct (table_get (words c).1 hash_handlers) as [h|] eqn:Hh; [|done].
  by eapply handlers_lawful.
Qed.

#[export] Instance hashes_laws : ServiceLaws Command St Value Database.
Proof. split; [apply _|apply hash_command_lawful|]. intros c s Hc _. by apply command_pending. Qed.
End commands.
