(* ===== verification/HashAlone.v ===== *)
(** * HashAlone: a hash command that nobody interferes with is its sequential handler *)
From S2P Require Import Prelude Go Goroutine Locks Atomic Sections Clients Strconv Resp DataStruct PubSub.
From S2P Require Import Database StringCmds HashCmds DbFacts CmdFacts Handler HashLocks HashOrder.
Import HashFacts.

Section alone.
Context `{GoEnvLaws}.

(** ** HDEL and HMGET when nobody interferes *)
Definition same_maps (d d' : HDb) : Prop := hd_Store d' = hd_Store d ∧ hd_Lists d' = hd_Lists d ∧
  hd_Sets d' = hd_Sets d ∧ hd_Expires d' = hd_Expires d ∧ hd_listCond d' = hd_listCond d.
Definition same_but_hashes (d d' : Database) : Prop := Store d' = Store d ∧ Lists d' = Lists d ∧
  Sets d' = Sets d ∧ Expires d' = Expires d ∧ listCond d' = listCond d.

Lemma alone_section {A X} l (body : task (Part l) X) (k : X → P A) p s x d :
  p = SWrite l body k ∨ p = SRead l body k → task_alone body (part l s) = (Ok x, d) →
  alone (atomic p) s = alone (atomic (k x)) (put l d s).
Proof.
  intros Hp Hb. pose proof (on_part_run l _ s x d Hb) as Hrun.
  destruct Hp as [-> | ->]; cbn [atomic alone]; by rewrite (bind_ok _ _ _ _ _ Hrun).
Qed.

Lemma alone_GetHash {A} key (f : option nat → P A) s : hd_Expires (st_db s) = ∅ →
  alone (atomic (GetHash key ≫= f)) s = alone (atomic (f (hd_Hashes (st_db s) !! key))) s.
Proof.
  intros Hs. change (GetHash key ≫= f) with
    (SRead dbMu (look (λ d, hd_Expires d !! key)) (λ exp, ((match exp with
      | None => mret ()
      | Some exp => now ← clock; if now <? exp then mret () else
          db_lock (_ ← change (upd_Store (delete key)); _ ← change (upd_Lists (delete key));
            _ ← change (upd_Sets (delete key)); _ ← change (upd_Hashes (delete key));
            change (upd_Expires (delete key)))
      end : P ()) ≫= λ _, db_rlock (look (λ d, hd_Hashes d !! key))) ≫= f)).
  erewrite (alone_section dbMu); [|by right|]; [|cbn; unfold mbind, M_bind, gets; by rewrite Hs].
  change (put dbMu _ s) with (@put St hash_guarded dbMu (st_db s) s). rewrite put_db.
  erewrite (alone_section dbMu); [|by right|done]. by rewrite put_db.
Qed.

Lemma HDel_run fs h : task_alone (task_for_fold (λ deleted field,
       old ← get_field field;
       match old with
       | Some _ => _ ← change (delete field); mret (deleted + 1)
       | None => mret deleted
       end) 0 fs) h = HashDS.HDel fs h.
Proof.
  unfold HashDS.HDel. erewrite task_alone_for_fold; [done|]. intros b f h'. cbn.
  unfold mbind, M_bind, gets. cbn. by destruct (h' !! f).
Qed.

(** Where the hash of one key is another. *)
Lemma showing_changed key h d d' s s' :
  showing d s → same_maps (st_db s) (st_db s') → same_but_hashes d d' →
  (∀ k, hash_of d' k = if decide (key = k) then h else hash_of d k) →
  (∀ k, hash_in s' k = if decide (key = k) then h else hash_in s k) → showing d' s'.
Proof.
  intros [(H1 & H2 & H3 & H4 & H5) Hh] (M1 & M2 & M3 & M4 & M5) (D1 & D2 & D3 & D4 & D5) Hd Hs.
  split; [split_and!; congruence|]. intros k. rewrite Hd, Hs, Hh. done.
Qed.

Lemma hdel_sequential k f fs d : Expires d = ∅ →
  let h' := del_all (map Str (f :: fs)) (hash_of d (Str k)) in
  ∃ d', (∀ n ps, HashCmds.hdel (k :: f :: fs) (mkSess n d ps) =
      (Ok (vInt (Z.of_nat (size (hash_of d (Str k))) - Z.of_nat (size h'))), mkSess n d' ps)) ∧
    same_but_hashes d d' ∧ ∀ k', hash_of d' k' = if decide (Str k = k') then h' else hash_of d k'.
Proof.
  intros Hexp. cbn zeta. unfold hash_of. destruct (Hashes d !! Str k) as [x|] eqn:Hx.
  - exists (put_hash (Str k) (del_all (map Str (f :: fs)) x) d). split_and!.
    + intros n ps. rewrite hdel_run, purged_timeless by done. cbn [s_db]. by rewrite Hx.
    + done.
    + intros k'. unfold put_hash. cbn. repeat case_decide; subst.
      * by rewrite lookup_delete_eq.
      * by rewrite lookup_delete_ne.
      * by rewrite lookup_insert_eq.
      * by rewrite lookup_insert_ne.
  - assert (Hnone : del_all (map Str (f :: fs)) ∅ = ∅).
    { apply map_eq. intros x. rewrite del_all_lookup. by case_decide. }
    exists d. split_and!; [|done|].
    + intros n ps. rewrite hdel_run, purged_timeless by done. cbn [s_db default]. rewrite Hx, Hnone. done.
    + intros k'. cbn [default]. rewrite Hnone. case_decide; [subst; by rewrite Hx|done].
Qed.

(** A key that goes away. *)
Lemma bound_well_delete key s : bound_well s →
  bound_well (@put St hash_guarded dbMu (upd_Hashes (delete key) (st_db s)) s).
Proof.
  intros [Hb1 Hb2 Hb3 Hb4 Hb5].
  assert (Hback : ∀ k c, bound (@put St hash_guarded dbMu (upd_Hashes (delete key) (st_db s)) s) k c → bound s k c).
  { intros k c. unfold bound. cbn. intros [_ ?]%lookup_delete_Some. done. }
  split; [done|done| | |done].
  - intros k c Hc%Hback. by apply (Hb3 k).
  - intros k1 k2 c Hc1%Hback Hc2%Hback. by apply (Hb4 k1 k2 c).
Qed.

Lemma hdel_alone k f fs d s : bound_well s → showing d s →
  ∃ v s' d', alone (atomic (hdel (k :: f :: fs))) s = (Ok v, s') ∧
    handled (HashCmds.hdel (k :: f :: fs)) d v d' ∧ showing d' s' ∧ bound_well s'.
Proof.
  intros Hb Hd. assert (Hexp : Expires d = ∅) by (destruct Hd as [(_ & _ & _ & -> & _) _]; apply Hb).
  destruct (hdel_sequential k f fs d Hexp) as (d' & Hseq & Hsame & Hh).
  set (h' := del_all (map Str (f :: fs)) (hash_of d (Str k))) in *.
  unfold hdel, with_hash. rewrite alone_GetHash by apply Hb.
  assert (Hhandled : handled (HashCmds.hdel (k :: f :: fs)) d
    (vInt (Z.of_nat (size (hash_of d (Str k))) - Z.of_nat (size h'))) d').
  { exists 0%nat, 0%nat. apply Hseq. }
  destruct (hd_Hashes (st_db s) !! Str k) as [c|] eqn:Hc.
  - pose proof (shown_hash d s _ c Hd Hc) as Hx.
    set (s1 := @put St hash_guarded (hashMu c) h' (@put St hash_guarded (hashMu c) h' s)).
    assert (Hs1 : ∀ k', hash_in s1 k' = if decide (Str k = k') then h' else hash_in s k').
    { intros k'. unfold hash_in. change (st_db s1) with (st_db s). case_decide as Hk.
      - subst k'. rewrite Hc. unfold s1. by rewrite hash_at_put, decide_True.
      - destruct (hd_Hashes (st_db s) !! k') as [c'|] eqn:Hc'; [|done]. unfold s1. rewrite !hash_at_put.
        rewrite !decide_False; [done|..]; intros <-; apply Hk; by eapply (bw_own s Hb). }
    set (s2 := if HashDS.HLen h' =? 0 then @put St hash_guarded dbMu (upd_Hashes (delete (Str k)) (st_db s1)) s1 else s1).
    exists (vInt (Z.of_nat (size (hash_of d (Str k))) - Z.of_nat (size h'))), s2, d'. split_and!; [|exact Hhandled| |].
    + erewrite (alone_section (hashMu c)); [|by left|rewrite HDel_run; cbn [part hash_guarded hashMu]; rewrite <-Hx; apply HDel_spec].
      fold h'. erewrite (alone_section (hashMu c)); [|by right|done]. rewrite part_put. fold s1. cbn beta.
      unfold s2. cbn [sections_bind]. destruct (HashDS.HLen h' =? 0); [|done].
      by erewrite (alone_section dbMu); [|by left|done].
    + apply (showing_changed (Str k) h' d d' s); [done|by unfold s2; destruct (_ =? 0)|done|done|].
      intros k'. rewrite <-Hs1. unfold s2. destruct (Z.eqb_spec (HashDS.HLen h') 0) as [Hz|]; [|done].
      assert (Hempty : h' = ∅) by (apply map_size_empty_inv; unfold HashDS.HLen in Hz; lia).
      destruct (decide (Str k = k')) as [<-|Hk].
      * rewrite Hs1, decide_True, Hempty by done. unfold hash_in. cbn. by rewrite lookup_delete_eq.
      * unfold hash_in. cbn. by rewrite lookup_delete_ne.
    + assert (Hwell : bound_well s1).
      { assert (H1 : bound_well (@put St hash_guarded (hashMu c) h' s)) by (by apply (moves_write s (Str k) c)).
        by apply (moves_write _ (Str k) c). }
      unfold s2. destruct (_ =? 0); [by apply bound_well_delete|done].
  - assert (Hnone : hash_of d (Str k) = ∅) by (rewrite (sh_hashes d s Hd); unfold hash_in; by rewrite Hc).
    assert (Hh' : h' = ∅).
    { apply map_eq. intros x. unfold h'. rewrite Hnone, del_all_lookup. by case_decide. }
    rewrite Hnone, Hh' in Hhandled. exists (vInt 0), s, d'. split_and!; [done|exact Hhandled| |done].
    apply (showing_changed (Str k) h' d d' s); [done..|]. intros k'. case_decide as Hk; [|done].
    subst k'. unfold hash_in. by rewrite Hc, Hh'.
Qed.

Definition field_reply (h : Hash) '((f, v) : string * string) : Value :=
  if bool_decide (v = "") && negb (HashDS.HExists h f) then vNull else vBulk v.

Lemma HMGet_run fs (h : Hash) : ∀ values,
  task_alone (task_for_fold (λ values field, value ← get_field field; mret (values ++ [default "" value])) values fs) h =
    (Ok (values ++ HashDS.HMGet h fs), h).
Proof.
  induction fs as [|f fs IH]; intros values; [by rewrite app_nil_r|].
  cbn [task_for_fold]. rewrite task_alone_bind, bind_eq. cbn. unfold mbind, M_bind, gets. cbn.
  rewrite IH, <-app_assoc. cbn. by destruct (h !! f).
Qed.

(** Reading changes nothing that is seen. *)
Definition seen_same (s s' : St) : Prop :=
  st_db s' = st_db s ∧ st_tick s' = st_tick s ∧ ∀ c, hash_at s' c = hash_at s c.
Lemma seen_put c s : seen_same s (@put St hash_guarded (hashMu c) (hash_at s c) s).
Proof. split_and!; [done..|]. intros c'. rewrite hash_at_put. by case_decide as Hc; [rewrite Hc|]. Qed.

Lemma hmget_loop_run c h l : ∀ result s, hash_at s c = h →
  ∃ s', alone (atomic (sections_for_fold (λ result '(field, v),
      if bool_decide (v = "") then
        there ← HExists c field; mret (result ++ [if there : bool then vBulk v else vNull])
      else mret (result ++ [vBulk v])) result l)) s = (Ok (result ++ map (field_reply h) l), s') ∧ seen_same s s'.
Proof.
  induction l as [|[f v] l IH]; intros result s Hh; [exists s; by rewrite app_nil_r|].
  cbn [sections_for_fold map field_reply]. destruct (bool_decide (v = "")).
  - destruct (IH (result ++ [if HashDS.HExists h f then vBulk v else vNull])
      (@put St hash_guarded (hashMu c) (hash_at s c) s)) as (s' & Hs' & Hdb & Htick & Hseen).
    { by rewrite (proj2 (proj2 (seen_put c s))). }
    exists s'. split.
    + erewrite (alone_section (hashMu c)); [|by right|done]. cbn beta.
      cbn [part hash_guarded hashMu]. rewrite Hh in *. rewrite <-app_assoc in Hs'. cbn [app] in Hs'.
      rewrite andb_true_l, if_negb. exact Hs'.
    + split_and!; [done..|]. intros c'. by rewrite Hseen, (proj2 (proj2 (seen_put c s))).
  - destruct (IH (result ++ [vBulk v]) s Hh) as (s' & Hs' & Hseen). exists s'. split; [|done].
    rewrite <-app_assoc in Hs'. exact Hs'.
Qed.

Lemma hmget_none_run (fs : list string) : ∀ result s,
  alone (atomic (sections_for_fold (λ result '(field, v),
      if bool_decide (v = "") then
        there ← (mret false : P bool); mret (result ++ [if there : bool then vBulk v else vNull])
      else mret (result ++ [vBulk v])) result (zip fs (replicate (length fs) "")))) s =
    (Ok (result ++ map (λ _, vNull) fs), s).
Proof.
  induction fs as [|f fs IH]; intros result s; [by rewrite app_nil_r|].
  cbn [length replicate zip zip_with sections_for_fold map]. rewrite bool_decide_true by done.
  specialize (IH (result ++ [vNull]) s). rewrite <-app_assoc in IH. exact IH.
Qed.

Lemma hmget_sequential k f fs d : Expires d = ∅ → ∀ n ps,
  HashCmds.hmget (k :: f :: fs) (mkSess n d ps) =
    (Ok (vArray (map (field_reply (hash_of d (Str k)))
      (zip (map Str (f :: fs)) (HashDS.HMGet (hash_of d (Str k)) (map Str (f :: fs)))))), mkSess n d ps).
Proof.
  intros Hexp n ps. unfold HashCmds.hmget.
  rewrite (bind_ok _ _ _ _ _ (GetHash_timeless (Str k) n d ps Hexp)). cbn zeta. unfold hash_of, mret, M_ret.
  do 3 f_equal. generalize (map Str (f :: fs)) as l. intros l. unfold HashDS.HMGet.
  destruct (Hashes d !! Str k) as [h|]; induction l as [|x l IH]; [done| |done|]; cbn; by f_equal.
Qed.

Lemma hmget_alone k f fs d s : bound_well s → showing d s →
  ∃ v s', alone (atomic (hmget (k :: f :: fs))) s = (Ok v, s') ∧
    handled (HashCmds.hmget (k :: f :: fs)) d v d ∧ showing d s' ∧ bound_well s'.
Proof.
  intros Hb Hd. assert (Hexp : Expires d = ∅) by (destruct Hd as [(_ & _ & _ & -> & _) _]; apply Hb).
  pose proof (hmget_sequential k f fs d Hexp) as Hseq.
  assert (Hhandled : ∀ v, v = vArray (map (field_reply (hash_of d (Str k)))
      (zip (map Str (f :: fs)) (HashDS.HMGet (hash_of d (Str k)) (map Str (f :: fs))))) →
    handled (HashCmds.hmget (k :: f :: fs)) d v d).
  { intros v ->. exists 0%nat, 0%nat. apply Hseq. }
  unfold hmget. rewrite alone_GetHash by apply Hb. cbn zeta. revert Hhandled.
  generalize (map Str (f :: fs)) as names. intros names Hhandled.
  destruct (hd_Hashes (st_db s) !! Str k) as [c|] eqn:Hc.
  - pose proof (shown_hash d s _ c Hd Hc) as Hx.
    erewrite (alone_section (hashMu c)); [|by right|apply HMGet_run]. cbn [app].
    set (s1 := put (hashMu c) _ s). rewrite alone_sections_bind.
    assert (Hs1 : seen_same s s1) by apply seen_put.
    destruct (hmget_loop_run c (hash_of d (Str k)) (zip names (HashDS.HMGet (hash_at s c) names)) [] s1)
      as (s2 & Hrun & Hdb & Htick & Hseen); [by rewrite (proj2 (proj2 Hs1))|].
    assert (Hat : ∀ c', hash_at s2 c' = hash_at s c') by (intros c'; by rewrite Hseen, (proj2 (proj2 Hs1))).
    eexists _, s2. split_and!; [by rewrite (bind_ok _ _ _ _ _ Hrun)|apply Hhandled; by rewrite Hx| |].
    + by apply (showing_same d s).
    + apply (moves_same s); [done|exact Hat|by rewrite Htick|done].
  - rewrite alone_sections_bind, (bind_ok _ _ _ (replicate (length names) "") s) by done.
    rewrite alone_sections_bind. eexists _, s. split; [by rewrite (bind_ok _ _ _ _ _ (hmget_none_run names [] s))|]. split; [|done].
    apply Hhandled. rewrite (sh_hashes d s Hd). unfold hash_in. rewrite Hc. f_equal. clear.
    induction names as [|x names IH]; [done|]. cbn. by f_equal.
Qed.

(** ** All handlers *)
Definition refines (p : P Value) (m : M Sess Value) : Prop := ∀ d s, bound_well s → showing d s →
  ∃ v s' d', alone (atomic p) s = (Ok v, s') ∧ handled m d v d' ∧ showing d' s' ∧ bound_well s'.

Lemma refines_ret v : refines (mret v) (mret v).
Proof. intros d s Hs Hd. exists v, s, d. split_and!; [done| |done|done]. by exists 0%nat, 0%nat. Qed.

Lemma refines_pending p m : lawful p → (∀ s, pending bound_well bound_after showing (handled m) p s) → refines p m.
Proof.
  intros Hlaw Hp d s Hs Hd. by apply (pending_alone bound_well bound_after showing (handled m) p s d).
Qed.

Lemma refines_hset args : refines (hset args) (HashCmds.hset args).
Proof.
  destruct args as [|k [|f [|v [|x l]]]]; try apply refines_ret.
  apply refines_pending; [apply lawful_hset|apply hset_pending].
Qed.
Lemma refines_hget args : refines (hget args) (HashCmds.hget args).
Proof.
  destruct args as [|k [|f [|x l]]]; try apply refines_ret.
  apply refines_pending; [apply lawful_hget|apply hget_pending].
Qed.
Lemma refines_hexists args : refines (hexists args) (HashCmds.hexists args).
Proof.
  destruct args as [|k [|f [|x l]]]; try apply refines_ret.
  apply refines_pending; [apply lawful_hexists|apply hexists_pending].
Qed.
Lemma refines_hgetall args : refines (hgetall args) (HashCmds.hgetall args).
Proof.
  destruct args as [|k [|x l]]; try apply refines_ret.
  apply refines_pending; [apply lawful_hgetall|apply hgetall_pending].
Qed.
Lemma refines_hkeys args : refines (hkeys args) (HashCmds.hkeys args).
Proof.
  destruct args as [|k [|x l]]; try apply refines_ret.
  apply refines_pending; [apply lawful_hkeys|apply hkeys_pending].
Qed.
Lemma refines_hvals args : refines (hvals args) (HashCmds.hvals args).
Proof.
  destruct args as [|k [|x l]]; try apply refines_ret.
  apply refines_pending; [apply lawful_hvals|apply hvals_pending].
Qed.
Lemma refines_hlen args : refines (hlen args) (HashCmds.hlen args).
Proof.
  destruct args as [|k [|x l]]; try apply refines_ret.
  apply refines_pending; [apply lawful_hlen|apply hlen_pending].
Qed.
Lemma refines_hincrby args : refines (hincrby args) (HashCmds.hincrby args).
Proof.
  destruct args as [|k [|f [|i [|x l]]]]; try apply refines_ret.
  destruct (Atoi (Str i)) as [inc [e|]] eqn:Hi.
  - unfold hincrby, HashCmds.hincrby. rewrite Hi. apply refines_ret.
  - apply refines_pending; [apply lawful_hincrby|]. intros s. by eapply hincrby_pending.
Qed.
Lemma refines_hmset args : refines (hmset args) (HashCmds.hmset args).
Proof.
  destruct ((length args <? 3)%nat || Nat.even (length args)) eqn:Hlen.
  - unfold hmset, HashCmds.hmset. rewrite Hlen. apply refines_ret.
  - apply orb_false_iff in Hlen as [Hlen Heven]. apply Nat.ltb_ge in Hlen.
    destruct args as [|k [|f [|v fvs]]]; [cbn in Hlen; lia..|].
    apply refines_pending; [apply lawful_hmset|]. intros s. apply hmset_pending.
    cbn [length] in Heven. rewrite Nat.even_succ_succ, Nat.even_succ, <-Nat.negb_even in Heven.
    by apply negb_false_iff in Heven.
Qed.
Lemma refines_hdel args : refines (hdel args) (HashCmds.hdel args).
Proof. destruct args as [|k [|f fs]]; try apply refines_ret. intros d s. apply hdel_alone. Qed.
Lemma refines_hmget args : refines (hmget args) (HashCmds.hmget args).
Proof.
  destruct args as [|k [|f fs]]; try apply refines_ret. intros d s Hs Hd.
  destruct (hmget_alone k f fs d s Hs Hd) as (v & s' & ?). by exists v, s', d.
Qed.

Lemma handlers_refine name h h' args : table_get name hash_handlers = Some h → handler_of 0 name = Some h' →
  refines (h args) (h' args).
Proof.
  intros Hh%table_get_In Hh'. unfold hash_handlers in Hh. rewrite !elem_of_cons in Hh.
  repeat destruct Hh as [[= -> ->]|Hh]; [..|by apply elem_of_nil in Hh]; injection Hh' as <-;
    auto using refines_hset, refines_hget, refines_hdel, refines_hexists, refines_hgetall, refines_hkeys,
      refines_hvals, refines_hlen, refines_hmset, refines_hmget, refines_hincrby.
Qed.
(** States with the same data show the same. *)
Lemma same_parts_fine (s1 s2 : St) d : same_parts s1 s2 → bound_well s2 → showing d s2 →
  bound_well s1 ∧ showing d s1.
Proof.
  intros [Ht Hp] Hb Hd. pose proof (Hp dbMu) as Hdb. cbn in Ht, Hdb.
  assert (Hh : ∀ c, hash_at s1 c = hash_at s2 c) by (intros c; exact (Hp (hashMu c))).
  split; [|by apply (showing_same d s2)]. apply (moves_same s2); [done|done|by rewrite Ht|done].
Qed.

Lemma locked_refines p m d s : refines p m → bound_well s → showing d s →
  ∃ v s' d', task_alone (locked p) s = (Ok v, s') ∧ handled m d v d' ∧ showing d' s' ∧ bound_well s'.
Proof.
  intros Hp Hs Hd. destruct (Hp d s Hs Hd) as (v & s2 & d' & Hrun & Hm & Hd' & Hs2).
  destruct (locked_alone p s s v s2) as (s1 & Hrun1 & Hsame); [by split|done|].
  destruct (same_parts_fine s1 s2 d' Hsame Hs2 Hd') as [Hb1 Hd1]. by exists v, s1, d'.
Qed.
End alone.
