(* ===== verification/Invariant.v ===== *)
(** * Invariant: every handler returns a reply and keeps the database
    well-formed *)
From S2P Require Import Prelude Go Strconv Resp DataStruct PubSub PubSubFacts.
From S2P Require Import Database DbFacts.
From S2P Require Import StringCmds ListCmds SetCmds HashCmds ExpireCmds AdminCmds Handler CmdFacts.
Import ListFacts SetFacts HashFacts.

(** No key holds an empty container. *)
Record data_wf (d : Database) : Prop := {
  wf_list key : Lists d !! key ≠ Some [];
  wf_set key : Sets d !! key ≠ Some ∅;
  wf_hash key : Hashes d !! key ≠ Some ∅;
}.

(** The length of a slice is an [int]. *)
Definition fits (d : Database) : Prop := ∀ key l, Lists d !! key = Some l → zlen l < maxInt.

#[export] Instance fits_dec d : Decision (fits d).
Proof.
  refine (cast_if (decide (map_Forall (λ _ l, zlen l < maxInt) (Lists d)))); done.
Defined.

Lemma newDatabase_wf : data_wf newDatabase.
Proof. split; intros key; cbn; by rewrite lookup_empty. Qed.

Lemma newDatabase_fits : fits newDatabase.
Proof. intros key l. cbn. by rewrite lookup_empty. Qed.

(** ** The updates of the handlers keep it *)
Lemma set_Store_wf f d : data_wf d → data_wf (set_Store f d).
Proof. by intros []. Qed.
Lemma set_Expires_wf f d : data_wf d → data_wf (set_Expires f d).
Proof. by intros []. Qed.
Lemma set_listCond_wf f d : data_wf d → data_wf (set_listCond f d).
Proof. by intros []. Qed.

Lemma delete_wf {A} (m : gmap string A) key k a : m !! k ≠ Some a → delete key m !! k ≠ Some a.
Proof. intros Hm Hd. apply lookup_delete_Some in Hd as [_ Hd]. done. Qed.

Lemma insert_wf {A} (m : gmap string A) key k a x : m !! k ≠ Some a → x ≠ a → <[key := x]> m !! k ≠ Some a.
Proof. intros Hm Hx [[_ ->]|[_ Hi]]%lookup_insert_Some; done. Qed.

#[export] Hint Resolve set_Store_wf set_Expires_wf set_listCond_wf delete_wf insert_wf : shore.

Lemma delete_Lists_wf key d : data_wf d → data_wf (set_Lists (delete key) d).
Proof. intros []. split; cbn; auto with shore. Qed.
Lemma delete_Sets_wf key d : data_wf d → data_wf (set_Sets (delete key) d).
Proof. intros []. split; cbn; auto with shore. Qed.
Lemma delete_Hashes_wf key d : data_wf d → data_wf (set_Hashes (delete key) d).
Proof. intros []. split; cbn; auto with shore. Qed.

#[export] Hint Resolve delete_Lists_wf delete_Sets_wf delete_Hashes_wf : shore.

Lemma insert_Lists_wf key l d : data_wf d → l ≠ [] → data_wf (set_Lists <[key := l]> d).
Proof. intros []. split; cbn; auto with shore. Qed.
Lemma insert_Sets_wf key x d : data_wf d → x ≠ ∅ → data_wf (set_Sets <[key := x]> d).
Proof. intros []. split; cbn; auto with shore. Qed.
Lemma insert_Hashes_wf key x d : data_wf d → x ≠ ∅ → data_wf (set_Hashes <[key := x]> d).
Proof. intros []. split; cbn; auto with shore. Qed.

Lemma put_list_wf key l d : data_wf d → data_wf (put_list key l d).
Proof.
  intros Hd. unfold put_list. destruct (decide (l = [])).
  - by apply delete_Lists_wf.
  - by apply insert_Lists_wf.
Qed.
Lemma put_set_wf key x d : data_wf d → data_wf (put_set key x d).
Proof.
  intros Hd. unfold put_set. destruct (decide (x = ∅)).
  - by apply delete_Sets_wf.
  - by apply insert_Sets_wf.
Qed.
Lemma put_hash_wf key x d : data_wf d → data_wf (put_hash key x d).
Proof.
  intros Hd. unfold put_hash. destruct (decide (x = ∅)).
  - by apply delete_Hashes_wf.
  - by apply insert_Hashes_wf.
Qed.

Lemma evict_wf key d : data_wf d → data_wf (evict key d).
Proof. intros Hd. unfold evict. auto 10 with shore. Qed.

#[export] Hint Resolve put_list_wf put_set_wf put_hash_wf evict_wf : shore.

Section keeps.
Context `{GoEnvLaws}.

Lemma purge_wf now key d : data_wf d → data_wf (purge now key d).
Proof. intros Hd. unfold purge. repeat case_match; auto with shore. Qed.

Lemma purge_fits now key d : fits d → fits (purge now key d).
Proof.
  intros Hd. unfold purge. repeat case_match; [done| |done].
  intros k l. cbn. rewrite lookup_delete_Some. intros [_ Hl]. by eapply Hd.
Qed.

(** ** Methods that keep the session well-formed

    [p0] is the broker at the start: a command leaves the registrations as
    they are. [blocked] is what holds where a method runs out of fuel (a blocked
    pop); for the other commands it can be [False]. *)
Context (p0 : PubSub) (blocked : Sess → Prop).

Definition Inv (s : Sess) : Prop :=
  data_wf (s_db s) ∧ ps_wf (s_ps s) ∧
  ∀ name ch, registered (s_ps s) name ch ↔ registered p0 name ch.

Definition keeps {A} (m : M Sess A) : Prop := ∀ s, Inv s → wp blocked m (λ _, Inv) s.

Lemma keeps_eq {A} (m : M Sess A) s a s' : m s = (Ok a, s') → Inv s' → wp blocked m (λ _, Inv) s.
Proof. intros Hm HI. by eapply wp_eq. Qed.

Lemma set_db_Inv f s : (data_wf (s_db s) → data_wf (f (s_db s))) → Inv s → Inv (set_db f s).
Proof. intros Hf (?&?&?). split_and!; auto. Qed.

Lemma mkSess_Inv n d s : Inv s → data_wf d → Inv (mkSess n d (s_ps s)).
Proof. intros (?&?&?) ?. by split_and!. Qed.

Lemma purged_Inv key s : Inv s → Inv (purged key s).
Proof. intros (?&?&?). split_and!; [by apply purge_wf|done..]. Qed.

Lemma keeps_ret {A} (a : A) : keeps (mret a).
Proof. intros s HI. by apply wp_ret. Qed.

Lemma keeps_fuel {A} : (∀ s, Inv s → blocked s) → keeps (out_of_fuel : M Sess A).
Proof. intros HE s HI. by apply HE. Qed.

Lemma keeps_bind {A B} (m : M Sess A) (f : A → M Sess B) :
  keeps m → (∀ a, keeps (f a)) → keeps (m ≫= f).
Proof.
  intros Hm Hf s HI. apply wp_bind. eapply wp_mono; [|by apply Hm].
  cbn. intros a s' HI'. by apply Hf.
Qed.

Lemma keeps_gets {A} (f : Database → A) : keeps (gets_db f).
Proof. intros s HI. by apply wp_gets. Qed.

Lemma keeps_modify f : (∀ d, data_wf d → data_wf (f d)) → keeps (modify_db f).
Proof. intros Hf s HI. apply wp_modify. apply set_db_Inv; auto. Qed.

Lemma keeps_for_each {X} (body : X → M Sess ()) l :
  (∀ x, keeps (body x)) → keeps (for_each body l).
Proof. intros Hb s HI. apply wp_for_each; [|done]. intros x s' _. apply Hb. Qed.

Lemma keeps_for_fold {X B} (body : B → X → M Sess B) b l :
  (∀ b x, keeps (body b x)) → keeps (for_fold body b l).
Proof.
  intros Hb s HI. apply (wp_for_fold blocked body (λ _, Inv)); [|done].
  intros b' x s'. apply Hb.
Qed.

(** A method over the serial numbers alone, when it returns. *)
Lemma keeps_ranged {A} (m : M nat A) : (∀ n, ∃ a n', m n = (Ok a, n')) → keeps (ranged m).
Proof.
  intros Hm s HI. destruct (Hm (s_tick s)) as (a & n' & Ha).
  apply (keeps_eq _ s a (mkSess n' (s_db s) (s_ps s))).
  - unfold ranged, zoom. by rewrite Ha.
  - destruct HI. by apply mkSess_Inv.
Qed.

Lemma keeps_tick : keeps (ranged tick).
Proof. apply keeps_ranged. intros n. by exists n, (S n). Qed.

Lemma keeps_Now : keeps Now.
Proof. apply keeps_bind; [apply keeps_tick|]. intros. apply keeps_ret. Qed.

Lemma keeps_range_of {A} (m : gmap string A) : keeps (range_of m).
Proof. apply keeps_bind; [apply keeps_tick|]. intros. apply keeps_ret. Qed.

Lemma keeps_expire key : keeps (expireIfNeeded key).
Proof. intros s HI. eapply keeps_eq; [apply expireIfNeeded_run|by apply purged_Inv]. Qed.
End keeps.

#[export] Hint Resolve keeps_ret keeps_gets keeps_Now keeps_range_of keeps_expire : shore.

(** Composite methods: split binds, loops and branches, then the lemmas. *)
Ltac keeps :=
  intros;
  repeat first
    [ progress intros
    | solve [eauto with shore]
    | apply keeps_bind
    | apply keeps_for_each
    | apply keeps_for_fold
    | (apply keeps_modify; solve [eauto with shore])
    | case_match ].

(** ** The handlers *)
Section handlers.
Context `{GoEnvLaws}.
Context (p0 : PubSub) (blocked : Sess → Prop).
Abbreviation keeps := (keeps p0 blocked).
Abbreviation Inv := (Inv p0).

Lemma keeps_GetList key : keeps (GetList key).
Proof. unfold GetList. keeps. Qed.
Lemma keeps_GetSet key : keeps (GetSet key).
Proof. unfold GetSet. keeps. Qed.
Lemma keeps_GetHash key : keeps (GetHash key).
Proof. unfold GetHash. keeps. Qed.

Lemma keeps_delete_from {A} get set key deleted :
  (∀ d, data_wf d → data_wf (set (delete key) d)) → keeps (@delete_from A get set key deleted).
Proof. intros Hs. unfold delete_from. keeps. Qed.

Lemma keeps_DeleteKey key : keeps (DeleteKey key).
Proof.
  unfold DeleteKey. keeps; apply keeps_delete_from; intros; eauto with shore.
Qed.

Lemma keeps_KeyExists key : keeps (KeyExists key).
Proof. unfold KeyExists. keeps. Qed.

Lemma keeps_GetKeyType key : keeps (GetKeyType key).
Proof. unfold GetKeyType. keeps. Qed.

Lemma keeps_SweepExpired : keeps SweepExpired.
Proof. unfold SweepExpired. keeps. Qed.

Hint Resolve keeps_GetList keeps_GetSet keeps_GetHash keeps_DeleteKey keeps_KeyExists
  keeps_GetKeyType keeps_SweepExpired : shore.

(** *** Strings and keys *)
Lemma keeps_ping args : keeps (ping args). Proof. unfold ping. keeps. Qed.
Lemma keeps_set args : keeps (set args). Proof. unfold set. keeps. Qed.
Lemma keeps_get args : keeps (get args). Proof. unfold get. keeps. Qed.
Lemma keeps_del args : keeps (del args). Proof. unfold del. keeps. Qed.
Lemma keeps_exists args : keeps (exists_ args). Proof. unfold exists_. keeps. Qed.
Lemma keeps_mget args : keeps (mget args). Proof. unfold mget. keeps. Qed.
Lemma keeps_typeCmd args : keeps (typeCmd args). Proof. unfold typeCmd. keeps. Qed.

Lemma keeps_mset_loop n : ∀ args, (length args ≤ n)%nat → keeps (mset_loop args).
Proof.
  induction n as [|n IH]; intros [|k [|v args]] Hn; cbn in Hn; try lia; cbn [mset_loop];
    try apply keeps_ret.
  keeps. apply IH. lia.
Qed.
Lemma keeps_mset args : keeps (mset args).
Proof. unfold mset. keeps. by eapply keeps_mset_loop. Qed.

Lemma keeps_increment key n : keeps (increment key n).
Proof. unfold increment. keeps. Qed.
Hint Resolve keeps_increment : shore.
Lemma keeps_incr args : keeps (incr args). Proof. unfold incr. keeps. Qed.
Lemma keeps_decr args : keeps (decr args). Proof. unfold decr. keeps. Qed.
Lemma keeps_incrby args : keeps (incrby args). Proof. unfold incrby. keeps. Qed.
Lemma keeps_decrby args : keeps (decrby args). Proof. unfold decrby. keeps. Qed.

(** *** Lists *)
Lemma push_nonempty (l1 l2 : list string) v vs :
  reverse (map Str (v :: vs)) ++ l1 ≠ [] ∧ l2 ++ map Str (v :: vs) ≠ [].
Proof.
  split.
  - intros Happ. apply app_eq_nil in Happ as [Hr _].
    apply (f_equal length) in Hr. rewrite length_reverse in Hr. done.
  - intros Happ. by apply app_eq_nil in Happ as [_ Hr].
Qed.

Lemma keeps_lpush args : keeps (lpush args).
Proof.
  destruct args as [|k [|v vs]]; [apply keeps_ret..|]. intros s HI.
  eapply keeps_eq; [apply lpush_run|]. apply set_db_Inv; [|by apply purged_Inv].
  intros Hd. apply set_listCond_wf, insert_Lists_wf; [done|]. by apply (push_nonempty _ []).
Qed.

Lemma keeps_rpush args : keeps (rpush args).
Proof.
  destruct args as [|k [|v vs]]; [apply keeps_ret..|]. intros s HI.
  eapply keeps_eq; [apply rpush_run|]. apply set_db_Inv; [|by apply purged_Inv].
  intros Hd. apply set_listCond_wf, insert_Lists_wf; [done|]. by apply (push_nonempty []).
Qed.

Lemma keeps_pop_result (m : M Sess Value) left key :
  (∀ s, m s = pop_result left key s) → keeps m.
Proof.
  intros Hm s HI. unfold wp. rewrite Hm. unfold pop_result.
  destruct (_ ≫= pop_end left) as [[v l']|]; [|by apply purged_Inv].
  apply set_db_Inv; [auto with shore|by apply purged_Inv].
Qed.

Lemma keeps_lpop args : keeps (lpop args).
Proof.
  destruct args as [|k [|]]; [apply keeps_ret| |apply keeps_ret].
  eapply keeps_pop_result. apply lpop_run.
Qed.
Lemma keeps_rpop args : keeps (rpop args).
Proof.
  destruct args as [|k [|]]; [apply keeps_ret| |apply keeps_ret].
  eapply keeps_pop_result. apply rpop_run.
Qed.

Lemma keeps_pop_first keys left : keeps (pop_first keys left).
Proof.
  induction keys as [|key keys IH]; [apply keeps_ret|]. intros s HI.
  unfold wp. rewrite pop_first_cons.
  destruct (_ ≫= pop_end left) as [[v l']|].
  - apply set_db_Inv; [auto with shore|by apply purged_Inv].
  - apply (IH (purged key s)). by apply purged_Inv.
Qed.
Hint Resolve keeps_pop_first : shore.

Lemma keeps_waitForListSignal deadline b : keeps (waitForListSignal deadline b).
Proof. unfold waitForListSignal. keeps. Qed.
Hint Resolve keeps_waitForListSignal : shore.

Lemma keeps_blocking_loop wakeups keys left b deadline :
  (∀ s, Inv s → blocked s) → keeps (blocking_loop wakeups keys left b deadline).
Proof.
  intros HE. induction wakeups as [|n IH]; [by apply keeps_fuel|]. cbn [blocking_loop]. keeps.
Qed.
Hint Resolve keeps_blocking_loop : shore.

Lemma keeps_blockingPop wakeups args left : 
  (∀ s, Inv s → blocked s) → keeps (blockingPop wakeups args left).
Proof. unfold blockingPop. keeps. Qed.

(** A reading method of a stored list. *)
Lemma keeps_list_read {A} (m : M (list string) A) key (k : A → M Sess Value) s l a :
  Inv s → Lists (s_db s) !! key = Some l → m l = (Ok a, l) → (∀ a, keeps (k a)) →
  wp blocked (on_list key m ≫= k) (λ _, Inv) s.
Proof.
  intros HI Hl Hm Hk. apply wp_bind. eapply wp_eq; [by eapply on_list_read|].
  cbn. by apply Hk.
Qed.

Lemma keeps_llen args : keeps (llen args).
Proof.
  destruct args as [|k [|]]; [apply keeps_ret| |apply keeps_ret]. intros s HI.
  unfold llen. apply wp_bind. eapply wp_eq; [apply GetList_run|]. cbn.
  apply (purged_Inv p0 (Str k)) in HI. destruct (Lists _ !! _) as [l|] eqn:Hl; [|done].
  eapply keeps_list_read; [done|done|done|]. keeps.
Qed.

(** LRANGE, LINDEX, LSET and LREM on a list whose length is an [int]. *)
Lemma keeps_lrange args s : Inv s → fits (s_db s) → wp blocked (lrange args) (λ _, Inv) s.
Proof.
  intros HI Hfit. unfold lrange.
  destruct args as [|k [|a [|b [|]]]]; try by apply wp_ret.
  destruct (Atoi (Str a)) as [start [e|]] eqn:Ha; [by apply wp_ret|].
  destruct (Atoi (Str b)) as [stop [e|]] eqn:Hb; [by apply wp_ret|].
  apply wp_bind. eapply wp_eq; [apply GetList_run|].
  apply (purged_Inv p0 (Str k)) in HI.
  assert (Hf : fits (s_db (purged (Str k) s))) by (by apply purge_fits).
  destruct (Lists _ !! _) as [l|] eqn:Hl; [|by apply wp_ret].
  eapply keeps_list_read; [done|done| |keeps].
  apply LRange_spec; [by eapply Atoi_in_int..|by eapply Hf].
Qed.

Lemma keeps_lindex args s : Inv s → fits (s_db s) → wp blocked (lindex args) (λ _, Inv) s.
Proof.
  intros HI Hfit. unfold lindex.
  destruct args as [|k [|a [|]]]; try by apply wp_ret.
  destruct (Atoi (Str a)) as [i [e|]] eqn:Ha; [by apply wp_ret|].
  apply wp_bind. eapply wp_eq; [apply GetList_run|].
  apply (purged_Inv p0 (Str k)) in HI.
  assert (Hf : fits (s_db (purged (Str k) s))) by (by apply purge_fits).
  destruct (Lists _ !! _) as [l|] eqn:Hl; [|by apply wp_ret].
  eapply keeps_list_read; [done|done| |keeps].
  apply LIndex_spec; [by eapply Atoi_in_int|]. apply Hf in Hl. lia.
Qed.

Lemma keeps_lset args s : Inv s → fits (s_db s) → wp blocked (lset args) (λ _, Inv) s.
Proof.
  intros HI Hfit. unfold lset.
  destruct args as [|k [|a [|v [|]]]]; try by apply wp_ret.
  destruct (Atoi (Str a)) as [i [e|]] eqn:Ha; [by apply wp_ret|].
  apply wp_bind. eapply wp_eq; [apply GetList_run|].
  apply (purged_Inv p0 (Str k)) in HI.
  assert (Hf : fits (s_db (purged (Str k) s))) by (by apply purge_fits).
  destruct (Lists _ !! _) as [l|] eqn:Hl; [|by apply wp_ret].
  apply wp_bind. assert (Hset := LSet_spec i (Str v) l ltac:(by eapply Atoi_in_int)
    ltac:(apply Hf in Hl; lia)). cbn zeta in Hset.
  assert (l ≠ []) as Hne by (intros ->; by destruct (wf_list _ (proj1 HI) (Str k))).
  destruct ((0 <=? norm (zlen l) i) && (norm (zlen l) i <? zlen l)) eqn:Hb.
  - eapply wp_eq; [eapply (on_list_run _ _ l); [done|apply Hset]|]. cbn.
    apply set_db_Inv; [|done]. intros Hd. apply insert_Lists_wf; [done|].
    intros Hnil. apply (f_equal length) in Hnil. rewrite length_insert in Hnil.
    by destruct l.
  - eapply wp_eq; [by eapply (on_list_read _ _ l)|]. done.
Qed.

Lemma keeps_lrem args : keeps (lrem args).
Proof.
  intros s HI. unfold lrem.
  destruct args as [|k [|a [|v [|]]]]; try by apply wp_ret.
  destruct (Atoi (Str a)) as [i [e|]] eqn:Ha; [by apply wp_ret|].
  apply wp_bind. eapply wp_eq; [apply GetList_run|].
  apply (purged_Inv p0 (Str k)) in HI.
  destruct (Lists _ !! _) as [l|] eqn:Hl; [|by apply wp_ret].
  destruct (lrem_run (Str k) l i (Str v) (λ n, mret (vInt n)) _ Hl
    ltac:(by eapply Atoi_in_int)) as (n & l' & _ & _ & Hrun).
  unfold wp. rewrite Hrun. cbn. apply set_db_Inv; [auto with shore|done].
Qed.

(** *** Sets *)
Lemma add_all_nonempty m ms x : add_all (m :: ms) x ≠ ∅.
Proof.
  intros He. apply (f_equal dom) in He. rewrite add_all_dom, dom_empty_L in He. set_solver.
Qed.

Lemma keeps_sadd args : keeps (sadd args).
Proof.
  destruct args as [|k [|m ms]]; [apply keeps_ret..|]. intros s HI.
  eapply keeps_eq; [apply sadd_run|]. apply set_db_Inv; [|by apply purged_Inv].
  intros Hd. apply insert_Sets_wf; [done|]. apply add_all_nonempty.
Qed.

Lemma keeps_srem args : keeps (srem args).
Proof.
  destruct args as [|k [|m ms]]; [apply keeps_ret..|]. intros s HI. unfold wp.
  rewrite srem_run. destruct (Sets _ !! _); [|by apply purged_Inv].
  apply set_db_Inv; [auto with shore|by apply purged_Inv].
Qed.

Lemma keeps_spop args : keeps (spop args).
Proof.
  destruct args as [|k [|]]; [apply keeps_ret| |apply keeps_ret]. intros s HI.
  pose proof (spop_run k s) as Hrun. pose proof (purged_Inv p0 (Str k) s HI) as HI1.
  destruct (Sets _ !! _) as [x|] eqn:Hx; [|by eapply keeps_eq].
  assert (x ≠ ∅) as Hne by (intros ->; by destruct (wf_set _ (proj1 HI1) (Str k))).
  destruct Hrun as (n & v & x' & Hrun & _). rewrite decide_False in Hrun by done.
  eapply keeps_eq; [exact Hrun|]. apply (mkSess_Inv p0); [done|]. apply (put_set_wf _ x'), HI1.
Qed.

Lemma keeps_get_all_sets keys acc : keeps (get_all_sets keys acc).
Proof.
  revert acc. induction keys as [|k keys IH]; intros acc; [apply keeps_ret|].
  cbn [get_all_sets]. keeps.
Qed.
Lemma keeps_get_present_sets keys : keeps (get_present_sets keys).
Proof. unfold get_present_sets. keeps. Qed.

Lemma keeps_SMembers x : keeps (ranged (SetDS.SMembers x)).
Proof. apply keeps_ranged. intros n. destruct (SMembers_spec n x) as (l & Hl & _). eauto. Qed.
Lemma keeps_SInter x others : keeps (ranged (SetDS.SInter x others)).
Proof. apply keeps_ranged. intros n. destruct (SInter_spec n x others) as (l & n' & Hl & _). eauto. Qed.
Lemma keeps_SUnion x others : keeps (ranged (SetDS.SUnion x others)).
Proof. apply keeps_ranged. intros n. destruct (SUnion_spec n x others) as (l & n' & Hl & _). eauto. Qed.
Lemma keeps_SDiff x others : keeps (ranged (SetDS.SDiff x others)).
Proof. apply keeps_ranged. intros n. destruct (SDiff_spec n x others) as (l & n' & Hl & _). eauto. Qed.
Hint Resolve keeps_get_all_sets keeps_get_present_sets keeps_SMembers keeps_SInter
  keeps_SUnion keeps_SDiff : shore.

Lemma keeps_sismember args : keeps (sismember args). Proof. unfold sismember. keeps. Qed.
Lemma keeps_smembers args : keeps (smembers args). Proof. unfold smembers. keeps. Qed.
Lemma keeps_scard args : keeps (scard args). Proof. unfold scard. keeps. Qed.
Lemma keeps_sinter args : keeps (sinter args). Proof. unfold sinter. keeps. Qed.
Lemma keeps_sunion args : keeps (sunion args). Proof. unfold sunion. keeps. Qed.
Lemma keeps_sdiff args : keeps (sdiff args). Proof. unfold sdiff. keeps. Qed.

(** *** Hashes *)
Lemma keeps_hset args : keeps (hset args).
Proof.
  destruct args as [|k [|f [|v [|]]]]; try apply keeps_ret. intros s HI.
  eapply keeps_eq; [apply hset_run|]. apply set_db_Inv; [|by apply purged_Inv].
  intros Hd. apply insert_Hashes_wf; [done|]. apply insert_non_empty.
Qed.

Lemma keeps_hdel args : keeps (hdel args).
Proof.
  destruct args as [|k [|m ms]]; [apply keeps_ret..|]. intros s HI. unfold wp.
  rewrite hdel_run. destruct (Hashes _ !! _); [|by apply purged_Inv].
  apply set_db_Inv; [auto with shore|by apply purged_Inv].
Qed.

Lemma collect_pairs_nonempty n : ∀ args pairs,
  (length args ≤ n)%nat → pairs ≠ ∅ → collect_pairs args pairs ≠ ∅.
Proof.
  induction n as [|n IH]; intros [|f [|v args]] pairs Hn Hp; cbn in Hn; try lia; try done.
  cbn [collect_pairs]. apply IH; [lia|]. apply insert_non_empty.
Qed.

Lemma keeps_hmset args : keeps (hmset args).
Proof.
  unfold hmset. destruct ((length args <? 3)%nat || Nat.even (length args)) eqn:Hlen;
    [apply keeps_ret|].
  destruct args as [|k [|f [|v args]]]; [done..|]. cbn [collect_pairs]. intros s HI.
  apply wp_bind. eapply wp_eq; [apply GetOrCreateHash_run|].
  apply wp_bind. eapply wp_eq; [apply on_hash_HMSet; cbn; apply lookup_insert_eq|].
  apply wp_ret. apply (purged_Inv p0 (Str k)) in HI.
  apply (mkSess_Inv p0 _ _ (purged (Str k) s)); [done|]. cbn. rewrite set_Hashes_insert.
  apply insert_Hashes_wf; [apply HI|]. intros Hu.
  apply map_positive_l in Hu. revert Hu.
  eapply collect_pairs_nonempty; [done|apply insert_non_empty].
Qed.

Lemma keeps_hincrby args : keeps (hincrby args).
Proof.
  unfold hincrby. destruct args as [|k [|f [|i [|]]]]; try apply keeps_ret.
  destruct (Atoi (Str i)) as [inc [e|]]; [apply keeps_ret|]. intros s HI.
  apply (purged_Inv p0 (Str k)) in HI.
  apply wp_bind. eapply wp_eq; [apply GetOrCreateHash_run|].
  set (x := default ∅ (Hashes (s_db (purged (Str k) s)) !! Str k)).
  assert (Hlook : Hashes (s_db (set_db (set_Hashes <[Str k := x]>) (purged (Str k) s))) !! Str k
            = Some x) by apply lookup_insert_eq.
  destruct (HIncrBy_total (Str f) inc x) as [(n & str & Hr)|(v & e & Hv & Hr)].
  - apply wp_bind. eapply wp_eq.
    { apply (on_hash_still _ _ x (Ok (inl n)) (<[Str f := str]> x)); [exact Hlook|].
      unfold try. by rewrite Hr. }
    apply wp_ret. unfold set_db. cbn. rewrite set_Hashes_insert.
    apply (mkSess_Inv p0 _ _ (purged (Str k) s)); [done|].
    apply insert_Hashes_wf; [apply HI|apply insert_non_empty].
  - apply wp_bind. eapply wp_eq.
    { apply (on_hash_still _ _ x (Ok (inr e)) x); [exact Hlook|].
      unfold try. by rewrite Hr. }
    apply wp_ret. unfold set_db. cbn. rewrite set_Hashes_insert.
    apply (mkSess_Inv p0 _ _ (purged (Str k) s)); [done|].
    apply insert_Hashes_wf; [apply HI|]. intros He. by rewrite He, lookup_empty in Hv.
Qed.

Lemma keeps_HGetAll x : keeps (ranged (HashDS.HGetAll x)).
Proof. apply keeps_ranged. intros n. rewrite HGetAll_spec. eauto. Qed.
Lemma keeps_HKeys x : keeps (ranged (HashDS.HKeys x)).
Proof. apply keeps_ranged. intros n. destruct (HKeys_spec n x) as (l & Hl & _). eauto. Qed.
Lemma keeps_HVals x : keeps (ranged (HashDS.HVals x)).
Proof. apply keeps_ranged. intros n. destruct (HVals_spec n x) as (l & Hl & _). eauto. Qed.
Hint Resolve keeps_HGetAll keeps_HKeys keeps_HVals : shore.

Lemma keeps_hget args : keeps (hget args). Proof. unfold hget. keeps. Qed.
Lemma keeps_hexists args : keeps (hexists args). Proof. unfold hexists. keeps. Qed.
Lemma keeps_hgetall args : keeps (hgetall args). Proof. unfold hgetall. keeps. Qed.
Lemma keeps_hkeys args : keeps (hkeys args). Proof. unfold hkeys. keeps. Qed.
Lemma keeps_hvals args : keeps (hvals args). Proof. unfold hvals. keeps. Qed.
Lemma keeps_hlen args : keeps (hlen args). Proof. unfold hlen. keeps. Qed.
Lemma keeps_hmget args : keeps (hmget args). Proof. unfold hmget. keeps. Qed.

(** *** Expiration and PUBLISH *)
Lemma keeps_setExpire k a u : keeps (setExpire k a u). Proof. unfold setExpire. keeps. Qed.
Lemma keeps_ttlValue k u : keeps (ttlValue k u). Proof. unfold ttlValue. keeps. Qed.
Hint Resolve keeps_setExpire keeps_ttlValue : shore.
Lemma keeps_expire_cmd args : keeps (expire args). Proof. unfold expire. keeps. Qed.
Lemma keeps_pexpire args : keeps (pexpire args). Proof. unfold pexpire. keeps. Qed.
Lemma keeps_ttl args : keeps (ttl args). Proof. unfold ttl. keeps. Qed.
Lemma keeps_pttl args : keeps (pttl args). Proof. unfold pttl. keeps. Qed.
Lemma keeps_persist args : keeps (persist args). Proof. unfold persist. keeps. Qed.

Lemma keeps_publish args : keeps (publish args).
Proof.
  unfold publish. destruct args as [|c [|m [|]]]; try apply keeps_ret.
  intros s (Hd & Hps & Hreg).
  destruct (Publish_wf (Str c) (Str m) (s_tick s) (s_ps s) Hps) as (v & n' & p' & Hrun & Hwf & Hr).
  apply wp_bind. eapply wp_eq; [unfold ranged_ps, zoom; by rewrite Hrun|].
  apply wp_ret. split_and!; [done..|]. intros name ch. cbn. by rewrite Hr, Hreg.
Qed.

(** *** Administration *)
Lemma keeps_keys_in {A} pattern (m : gmap string A) : keeps (keys_in pattern m).
Proof. unfold keys_in. keeps. Qed.
Hint Resolve keeps_keys_in : shore.
Lemma keeps_keysCmd args : keeps (keysCmd args). Proof. unfold keysCmd. keeps. Qed.
Hint Resolve keeps_keysCmd : shore.
Lemma keeps_dbsize args : keeps (dbsize args). Proof. unfold dbsize. keeps. Qed.
Lemma keeps_scan args : keeps (scan args). Proof. unfold scan. keeps. Qed.
Lemma keeps_hello args : keeps (hello args). Proof. unfold hello. keeps. Qed.

(** COMMAND GETKEYS: the loop visits positions inside the arguments and
    ends. *)
Lemma getkeys_loop_run cmdArgs last stp fuel : ∀ i result (s : Sess),
  0 ≤ i → 1 ≤ stp → zlen cmdArgs - i < Z.of_nat fuel → (0 < fuel)%nat →
  ∃ keys, getkeys_loop fuel cmdArgs i last stp result s = (Ok (result ++ map vBulk keys), s) ∧
    Forall (λ k, k ∈ map Str cmdArgs) keys.
Proof.
  induction fuel as [|fuel IH]; intros i result s Hi Hs Hf Hpos; [lia|].
  cbn [getkeys_loop]. destruct (Z.ltb_spec i last); cbn [andb].
  2:{ exists []. by rewrite app_nil_r. }
  destruct (Z.ltb_spec i (zlen cmdArgs)) as [Hlt|].
  2:{ exists []. by rewrite app_nil_r. }
  destruct (lookup_lt_is_Some_2 cmdArgs (Z.to_nat i)) as [v Hv]; [lia|].
  rewrite (bind_ok _ _ _ _ _ (go_index_ok cmdArgs i v s Hi Hv)).
  destruct (IH (i + stp) (result ++ [vBulk (Str v)]) s) as (keys & Hrun & Hkeys); [lia..|].
  exists (Str v :: keys). rewrite Hrun, <-app_assoc. split; [done|]. constructor; [|done].
  apply list_elem_of_fmap. exists v. split; [done|]. by eapply list_elem_of_lookup_2.
Qed.

Lemma command_steps :
  Forall (λ spec, firstKey spec = 0 ∨ 1 ≤ firstKey spec ∧ 1 ≤ step spec) commandSpecs.
Proof.
  apply (list.Forall_impl (λ spec, (firstKey spec =? 0) || ((1 <=? firstKey spec) && (1 <=? step spec)) = true)).
  - repeat constructor.
  - intros spec. rewrite orb_true_iff, andb_true_iff, Z.eqb_eq, !Z.leb_le. tauto.
Qed.

Lemma findCommandSpec_In n spec : findCommandSpec n = Some spec → spec ∈ commandSpecs.
Proof. intros [Hf _]%find_some. by apply list_elem_of_In. Qed.

Lemma keeps_command_getkeys args : keeps (command_getkeys args).
Proof.
  unfold command_getkeys. destruct args as [|a [|n cmdArgs]]; try apply keeps_ret.
  destruct (findCommandSpec (Str n)) as [spec|] eqn:Hspec; [|apply keeps_ret].
  destruct (Z.eqb_spec (firstKey spec) 0) as [|Hk]; [apply keeps_ret|].
  assert (1 ≤ firstKey spec ∧ 1 ≤ step spec) as [Hk1 Hst].
  { destruct (proj1 (list.Forall_forall _ _) command_steps spec) as [|];
      [by eapply findCommandSpec_In|done|done]. }
  destruct (_ || _) eqn:Hb; [apply keeps_ret|]. intros s HI.
  apply orb_false_iff in Hb as [_ Hb]. rewrite Z.geb_leb in Hb. apply Z.leb_gt in Hb.
  cbn zeta. match goal with |- context [getkeys_loop ?f ?c ?i ?l ?st []] =>
    destruct (getkeys_loop_run c l st f i [] s) as (keys & Hrun & _); [lia..|] end.
  apply wp_bind. eapply wp_eq; [exact Hrun|]. cbn.
  by destruct keys.
Qed.
Hint Resolve keeps_command_getkeys : shore.

Lemma keeps_command args : keeps (command args).
Proof. unfold command. keeps. Qed.

(** *** The table *)
Definition handler_keeps (h : CommandHandler) : Prop :=
  ∀ args s, Inv s → fits (s_db s) → wp blocked (h args) (λ _, Inv) s.

Lemma keeps_handler (h : CommandHandler) : (∀ args, keeps (h args)) → handler_keeps h.
Proof. intros Hh args s HI _. by apply Hh. Qed.

Definition blocking (c : string) : bool := (String.eqb c "BLPOP") || (String.eqb c "BRPOP").

Lemma handlers_keep wakeups :
  Forall (λ '(c, h), blocking c = false ∨ (∀ s, Inv s → blocked s) → handler_keeps h)
    (CommandHandlers wakeups).
Proof.
  repeat apply list.Forall_cons_2; try apply list.Forall_nil_2; intros Hb;
  first
    [ by intros args s HI Hf; apply keeps_lrange
    | by intros args s HI Hf; apply keeps_lindex
    | by intros args s HI Hf; apply keeps_lset
    | by destruct Hb as [Hb|Hb]; [discriminate Hb|];
      apply keeps_handler; intros args; apply keeps_blockingPop
    | apply keeps_handler; intros args ].
  - apply keeps_command.
  - apply keeps_ping.
  - apply keeps_set.
  - apply keeps_get.
  - apply keeps_del.
  - apply keeps_exists.
  - apply keeps_mset.
  - apply keeps_mget.
  - apply keeps_typeCmd.
  - apply keeps_incr.
  - apply keeps_decr.
  - apply keeps_decrby.
  - apply keeps_incrby.
  - apply keeps_lpush.
  - apply keeps_rpush.
  - apply keeps_lpop.
  - apply keeps_rpop.
  - apply keeps_llen.
  - apply keeps_lrem.
  - apply keeps_sadd.
  - apply keeps_srem.
  - apply keeps_sismember.
  - apply keeps_smembers.
  - apply keeps_scard.
  - apply keeps_spop.
  - apply keeps_sinter.
  - apply keeps_sunion.
  - apply keeps_sdiff.
  - apply keeps_hset.
  - apply keeps_hget.
  - apply keeps_hdel.
  - apply keeps_hexists.
  - apply keeps_hgetall.
  - apply keeps_hkeys.
  - apply keeps_hvals.
  - apply keeps_hlen.
  - apply keeps_hmset.
  - apply keeps_hmget.
  - apply keeps_hincrby.
  - apply keeps_expire_cmd.
  - apply keeps_pexpire.
  - apply keeps_ttl.
  - apply keeps_pttl.
  - apply keeps_persist.
  - apply keeps_keysCmd.
  - apply keeps_scan.
  - apply keeps_dbsize.
  - apply keeps_hello.
  - apply keeps_publish.
Qed.

Lemma handler_of_keeps wakeups c h :
  handler_of wakeups c = Some h → blocking c = false ∨ (∀ s, Inv s → blocked s) → handler_keeps h.
Proof.
  intros Hh Hb. apply table_get_In in Hh.
  by apply (proj1 (list.Forall_forall _ _) (handlers_keep wakeups) (c, h)).
Qed.
End handlers.
