(* ===== verification/Interleave.v ===== *)
(** * Interleave: the list commands between goroutines
    (src/pkg/commands/list_commands.go, src/pkg/commands/database.go)

    One logical database as several goroutines see it. A [*List] is a cell of a
    heap, [Lists] maps keys to cells, and a handler holds on to the cell it
    looked up while others unlink or refill it. Each critical section of the
    code, under [db.Mu], under the mutex of one list or under [listMu], is one
    section of a goroutine ([atomically]); so is each reading of the clock. Sets
    have cells of their own, for [SetLocks]; the map of hashes matters only in
    that an eviction and DEL delete from it. *)
From S2P Require Import Prelude Go Goroutine Strconv Resp DataStruct PubSub Database.
From S2P Require Import StringCmds ListCmds Handler.
Import ListDS.

Record Shared := mkShared {
  sh_tick : nat;                  (* serial number of the next clock reading *)
  sh_Store : gmap string string;
  sh_Lists : gmap string nat;     (* the cell of each list *)
  sh_Sets : gmap string nat;      (* the cell of each set *)
  sh_Hashes : gmap string (gmap string string);
  sh_Expires : gmap string Z;
  sh_listCond : nat;              (* broadcasts on the condition variable *)
  sh_objects : list (list string); (* every list ever made *)
  sh_sets : list (gmap string ())  (* every set ever made *)
}.

Definition upd_Store f s := mkShared (sh_tick s) (f (sh_Store s)) (sh_Lists s) (sh_Sets s)
  (sh_Hashes s) (sh_Expires s) (sh_listCond s) (sh_objects s) (sh_sets s).
Definition upd_Lists f s := mkShared (sh_tick s) (sh_Store s) (f (sh_Lists s)) (sh_Sets s)
  (sh_Hashes s) (sh_Expires s) (sh_listCond s) (sh_objects s) (sh_sets s).
Definition upd_Sets f s := mkShared (sh_tick s) (sh_Store s) (sh_Lists s) (f (sh_Sets s))
  (sh_Hashes s) (sh_Expires s) (sh_listCond s) (sh_objects s) (sh_sets s).
Definition upd_Hashes f s := mkShared (sh_tick s) (sh_Store s) (sh_Lists s) (sh_Sets s)
  (f (sh_Hashes s)) (sh_Expires s) (sh_listCond s) (sh_objects s) (sh_sets s).
Definition upd_Expires f s := mkShared (sh_tick s) (sh_Store s) (sh_Lists s) (sh_Sets s)
  (sh_Hashes s) (f (sh_Expires s)) (sh_listCond s) (sh_objects s) (sh_sets s).
Definition upd_listCond f s := mkShared (sh_tick s) (sh_Store s) (sh_Lists s) (sh_Sets s)
  (sh_Hashes s) (sh_Expires s) (f (sh_listCond s)) (sh_objects s) (sh_sets s).
Definition upd_objects f s := mkShared (sh_tick s) (sh_Store s) (sh_Lists s) (sh_Sets s)
  (sh_Hashes s) (sh_Expires s) (sh_listCond s) (f (sh_objects s)) (sh_sets s).
Definition upd_sets f s := mkShared (sh_tick s) (sh_Store s) (sh_Lists s) (sh_Sets s)
  (sh_Hashes s) (sh_Expires s) (sh_listCond s) (sh_objects s) (f (sh_sets s)).

(** A goroutine over one database. *)
Abbreviation G := (prog Shared).

Definition read {A} (f : Shared → A) : G A := atomically (gets f).
Definition update (f : Shared → Shared) : G () := atomically (modify f).

(** A method of the list in a cell, under that list's mutex. *)
Definition on_object {A} (cell : nat) (m : M (list string) A) : M Shared A := λ s,
  match sh_objects s !! cell with
  | Some l => let '(r, l') := m l in (r, upd_objects <[cell := l']> s)
  | None => (Panic "nil pointer dereference", s)
  end.
Definition locked {A} (cell : nat) (m : M (list string) A) : G A :=
  atomically (on_object cell m).

(** The local variables of the [for] loop of [blockingPop]. *)
Record Loop := mkLoop {
  l_keys : list string;
  l_left : bool;
  l_hasDeadline : bool;
  l_deadline : Z;
}.

(** How a stretch of a handler ends: with the reply, at the head of the loop,
    or parked on the condition variable. *)
Inductive Outcome :=
  | Reply (v : Value)
  | Again (l : Loop)
  | Wait (l : Loop) (since : nat).    (* the broadcasts there had been by then *)

Section ops.
Context `{GoEnv}.

Definition serial : M Shared nat := λ s,
  (Ok (sh_tick s),
   mkShared (S (sh_tick s)) (sh_Store s) (sh_Lists s) (sh_Sets s) (sh_Hashes s)
     (sh_Expires s) (sh_listCond s) (sh_objects s) (sh_sets s)).
Definition clock : M Shared Z := n ← serial; mret (time_Now n).

Definition evict (key : string) (s : Shared) : Shared :=
  upd_Expires (delete key) (upd_Hashes (delete key)
    (upd_Sets (delete key) (upd_Lists (delete key) (upd_Store (delete key) s)))).

(** The lock is released between looking at the deadline and the eviction. *)
Definition expireIfNeeded (key : string) : G () :=
  exp ← read (λ s, sh_Expires s !! key);
  match exp with
  | None => mret ()
  | Some exp =>
      now ← atomically clock;
      if now <? exp then mret () else update (evict key)
  end.

Definition SweepExpired : G () :=
  expired ← atomically (
    now ← clock;
    expires ← gets sh_Expires;
    n ← serial;
    mret (List.filter (λ '(_, exp), now >? exp) (map_range n expires)).*1);
  prog_for_each expireIfNeeded expired.

Definition find_or_create (key : string) : M Shared nat := λ s,
  match sh_Lists s !! key with
  | Some cell => (Ok cell, s)
  | None =>
      let cell := length (sh_objects s) in
      (Ok cell, upd_Lists <[key := cell]> (upd_objects (λ o, o ++ [NewList]) s))
  end.

Definition GetOrCreateList (key : string) : G nat :=
  _ ← expireIfNeeded key;
  atomically (find_or_create key).

Definition GetList (key : string) : G (option nat) :=
  _ ← expireIfNeeded key;
  read (λ s, sh_Lists s !! key).

Definition delete_locked {A} (get : Shared → gmap string A)
    (upd : (gmap string A → gmap string A) → Shared → Shared)
    (key : string) (deleted : Z) : M Shared Z :=
  x ← gets (λ s, get s !! key);
  match x with
  | Some _ => _ ← modify (upd (delete key)); mret (deleted + 1)
  | None => mret deleted
  end.

Definition DeleteKey (key : string) : G Z :=
  _ ← expireIfNeeded key;
  atomically (
    deleted ← delete_locked sh_Store upd_Store key 0;
    deleted ← delete_locked sh_Lists upd_Lists key deleted;
    deleted ← delete_locked sh_Sets upd_Sets key deleted;
    deleted ← delete_locked sh_Hashes upd_Hashes key deleted;
    _ ← modify (upd_Expires (delete key));
    mret deleted).

Definition signalListPush : G () := update (upd_listCond S).

(** [listMu] is held from the look at the clock until the goroutine is on the
    condition variable; [None] when it does not wait at all. *)
Definition waitForListSignal (deadline : Z) (hasDeadline : bool) : G (option nat) :=
  atomically (
    if hasDeadline then
      now ← clock;
      if deadline - now <=? 0 then mret None
      else n ← gets sh_listCond; mret (Some n)
    else n ← gets sh_listCond; mret (Some n)).

(** ** The handlers *)
Definition drop_empty_list (key : string) (cell : nat) : G () :=
  n ← locked cell LLen;
  if n =? 0 then update (upd_Lists (delete key)) else mret ().

Definition lpush (args : list Value) : G Value :=
  match args with
  | k :: (_ :: _) as vs =>
      let key := Str k in
      let values := map Str vs in
      list ← GetOrCreateList key;
      length ← locked list (LPush values);
      _ ← signalListPush;
      mret (vInt length)
  | _ => mret (wrong_args "lpush")
  end.

Definition rpush (args : list Value) : G Value :=
  match args with
  | k :: (_ :: _) as vs =>
      let key := Str k in
      let values := map Str vs in
      list ← GetOrCreateList key;
      length ← locked list (RPush values);
      _ ← signalListPush;
      mret (vInt length)
  | _ => mret (wrong_args "rpush")
  end.

Definition lpop (args : list Value) : G Value :=
  match args with
  | [k] =>
      let key := Str k in
      list ← GetList key;
      match list with
      | None => mret vNull
      | Some list =>
          '(value, ok) ← locked list LPop;
          if negb ok then mret vNull else
          _ ← drop_empty_list key list;
          mret (vBulk value)
      end
  | _ => mret (wrong_args "lpop")
  end.

Definition rpop (args : list Value) : G Value :=
  match args with
  | [k] =>
      let key := Str k in
      list ← GetList key;
      match list with
      | None => mret vNull
      | Some list =>
          '(value, ok) ← locked list RPop;
          if negb ok then mret vNull else
          _ ← drop_empty_list key list;
          mret (vBulk value)
      end
  | _ => mret (wrong_args "rpop")
  end.

Fixpoint pop_first (keys : list string) (left : bool) : G (option Value) :=
  match keys with
  | [] => mret None
  | key :: keys' =>
      list ← GetList key;
      match list with
      | None => pop_first keys' left
      | Some list =>
          '(value, ok) ← locked list (if left then LPop else RPop);
          if negb ok then pop_first keys' left else
          _ ← drop_empty_list key list;
          mret (Some (vArray [vBulk key; vBulk value]))
      end
  end.

(** One round of the [for] of [blockingPop]. *)
Definition blocking_round (l : Loop) : G Outcome :=
  r ← pop_first (l_keys l) (l_left l);
  match r with
  | Some v => mret (Reply v)
  | None =>
      late ← (if l_hasDeadline l then now ← atomically clock; mret (now >? l_deadline l)
              else mret false : G bool);
      if late : bool then mret (Reply vNull) else
      w ← waitForListSignal (l_deadline l) (l_hasDeadline l);
      match w with
      | None => mret (Again l)
      | Some since => mret (Wait l since)
      end
  end.

Definition blockingPop (args : list Value) (left : bool) : G Outcome :=
  if (length args <? 2)%nat then mret (Reply (wrong_args "blpop")) else
  let keys := map Str (take (length args - 1) args) in
  match args !! (length args - 1)%nat with
  | None => mret (Reply (wrong_args "blpop"))
  | Some t =>
      match ParseFloat (Str t) with
      | None => mret (Reply (vError "ERR timeout is not a float or out of range"))
      | Some timeoutSec =>
          if float_neg timeoutSec then
            mret (Reply (vError "ERR timeout is not a float or out of range"))
          else
            let hasDeadline := float_pos timeoutSec in
            deadline ← (if hasDeadline then
                          now ← atomically clock; mret (now + float_seconds timeoutSec)
                        else mret 0 : G Z);
            mret (Again (mkLoop keys left hasDeadline deadline))
      end
  end.

Definition lrange (args : list Value) : G Value :=
  match args with
  | [k; a; b] =>
      match Atoi (Str a), Atoi (Str b) with
      | (start, None), (stop, None) =>
          list ← GetList (Str k);
          match list with
          | None => mret (vArray [])
          | Some list =>
              elements ← locked list (LRange start stop);
              mret (vArray (map vBulk elements))
          end
      | _, _ => mret not_an_integer
      end
  | _ => mret (wrong_args "lrange")
  end.

Definition llen (args : list Value) : G Value :=
  match args with
  | [k] =>
      list ← GetList (Str k);
      match list with
      | None => mret (vInt 0)
      | Some list => n ← locked list LLen; mret (vInt n)
      end
  | _ => mret (wrong_args "llen")
  end.

Definition lindex (args : list Value) : G Value :=
  match args with
  | [k; i] =>
      match Atoi (Str i) with
      | (_, Some _) => mret not_an_integer
      | (index, None) =>
          list ← GetList (Str k);
          match list with
          | None => mret vNull
          | Some list =>
              '(value, ok) ← locked list (LIndex index);
              if negb ok then mret vNull else mret (vBulk value)
          end
      end
  | _ => mret (wrong_args "lindex")
  end.

Definition lset (args : list Value) : G Value :=
  match args with
  | [k; i; v] =>
      match Atoi (Str i) with
      | (_, Some _) => mret not_an_integer
      | (index, None) =>
          list ← GetList (Str k);
          match list with
          | None => mret (vError "ERR no such key")
          | Some list =>
              ok ← locked list (LSet index (Str v));
              if negb ok then mret (vError "ERR index out of range") else mret vOK
          end
      end
  | _ => mret (wrong_args "lset")
  end.

Definition lrem (args : list Value) : G Value :=
  match args with
  | [k; c; v] =>
      match Atoi (Str c) with
      | (_, Some _) => mret not_an_integer
      | (count, None) =>
          list ← GetList (Str k);
          match list with
          | None => mret (vInt 0)
          | Some list =>
              removed ← locked list (LRem count (Str v));
              _ ← drop_empty_list (Str k) list;
              mret (vInt removed)
          end
      end
  | _ => mret (wrong_args "lrem")
  end.

Definition set (args : list Value) : G Value :=
  match args with
  | [k; v] =>
      _ ← update (λ s, upd_Expires (delete (Str k)) (upd_Store <[Str k := Str v]> s));
      mret vOK
  | _ => mret (wrong_args "set")
  end.

Definition get (args : list Value) : G Value :=
  match args with
  | [k] =>
      _ ← expireIfNeeded (Str k);
      value ← read (λ s, sh_Store s !! Str k);
      match value with
      | None => mret vNull
      | Some value => mret (vBulk value)
      end
  | _ => mret (wrong_args "get")
  end.

Definition del (args : list Value) : G Value :=
  if (length args <? 1)%nat then mret (wrong_args "del") else
  deleted ← prog_for_fold (λ deleted arg,
    n ← DeleteKey (Str arg); mret (deleted + n)) 0 args;
  mret (vInt deleted).

Definition plain_handlers : list (string * (list Value → G Value)) :=
  [("SET", set); ("GET", get); ("DEL", del);
   ("LPUSH", lpush); ("RPUSH", rpush); ("LPOP", lpop); ("RPOP", rpop);
   ("LRANGE", lrange); ("LLEN", llen); ("LINDEX", lindex); ("LSET", lset); ("LREM", lrem)].

Definition blocking_handlers : list (string * (list Value → G Outcome)) :=
  [("BLPOP", λ args, blockingPop args true); ("BRPOP", λ args, blockingPop args false)].

(** ** Goroutines *)

(** What a goroutine is asked to do: run a command, or one round of the
    sweeper, which replies nothing. *)
Inductive Request :=
  | Command (name : string) (args : list Value)
  | Sweep.

Definition start (r : Request) : G Outcome :=
  match r with
  | Command name args =>
      match table_get name plain_handlers, table_get name blocking_handlers with
      | Some h, _ => v ← h args; mret (Reply v)
      | None, Some h => h args
      | None, None => mret (Reply (vError ("ERR unknown command '" +:+ name +:+ "'")))
      end
  | Sweep => _ ← SweepExpired; mret (Reply vNull)
  end.

Inductive Activity :=
  | Idle
  | Busy (r : Request) (p : G Outcome)
  | Waiting (r : Request) (l : Loop) (since : nat).

Record Client := mkClient {
  cl_todo : list Request;                   (* requests not yet read *)
  cl_now : Activity;
  cl_done : list (Request * Value);         (* requests answered, oldest first *)
}.

(** The next step of a client's goroutine. A goroutine on the condition
    variable stays there until a broadcast. *)
Definition client_step (c : Client) : M Shared Client :=
  match cl_now c with
  | Idle =>
      match cl_todo c with
      | [] => mret c
      | r :: todo => mret (mkClient todo (Busy r (start r)) (cl_done c))
      end
  | Busy r (Done (Reply v)) => mret (mkClient (cl_todo c) Idle (cl_done c ++ [(r, v)]))
  | Busy r (Done (Again l)) => mret (mkClient (cl_todo c) (Busy r (blocking_round l)) (cl_done c))
  | Busy r (Done (Wait l since)) => mret (mkClient (cl_todo c) (Waiting r l since) (cl_done c))
  | Busy r (Sec m k) => x ← m; mret (mkClient (cl_todo c) (Busy r (k x)) (cl_done c))
  | Waiting r l since =>
      n ← gets sh_listCond;
      if (since <? n)%nat then mret (mkClient (cl_todo c) (Busy r (blocking_round l)) (cl_done c))
      else mret c
  end.

(** The timer of [waitForListSignal], which broadcasts when it is due. *)
Definition timer_step (c : Client) : M Shared () :=
  match cl_now c with
  | Waiting _ l _ =>
      if l_hasDeadline l then
        now ← clock;
        if now >=? l_deadline l then modify (upd_listCond S) else mret ()
      else mret ()
  | _ => mret ()
  end.

Record Config := mkConfig { cf_shared : Shared; cf_clients : list Client }.

(** The scheduler's choices: a goroutine takes its next step, a timer looks at
    the clock, or time passes. *)
Inductive Event := Run (i : nat) | Timer (i : nat) | Pass.

Definition on_shared {A} (m : M Shared A) : M Config A :=
  zoom cf_shared (λ s c, mkConfig s (cf_clients c)) m.

Definition exec (e : Event) : M Config () :=
  match e with
  | Run i =>
      c ← gets (λ cf, cf_clients cf !! i);
      match c with
      | None => mret ()
      | Some c =>
          c' ← on_shared (client_step c);
          modify (λ cf, mkConfig (cf_shared cf) (<[i := c']> (cf_clients cf)))
      end
  | Timer i =>
      c ← gets (λ cf, cf_clients cf !! i);
      match c with None => mret () | Some c => on_shared (timer_step c) end
  | Pass => _ ← on_shared clock; mret ()
  end.

Definition run (es : list Event) : M Config () := for_each exec es.

(** Clients that have their requests to send. *)
Definition clients_of (scripts : list (list Request)) : list Client :=
  map (λ todo, mkClient todo Idle []) scripts.
End ops.

(** An empty database. *)
Definition new_shared : Shared := mkShared 0 ∅ ∅ ∅ ∅ ∅ 0 [] [].
