(* ===== verification/InterleaveFacts.v ===== *)
(** * InterleaveFacts: a goroutine alone is the sequential handler

    [view] reads the database of the sequential model off the shared state, each
    key with the contents of its cell. [sim] relates a run of sections in a row
    to a run of the sequential definitions over the views. *)
From S2P Require Import Prelude Go Goroutine Strconv Resp DataStruct PubSub Database.
From S2P Require Import StringCmds ListCmds Handler DbFacts Interleave.

Definition contents (s : Shared) (cell : nat) : list string := default [] (sh_objects s !! cell).

Definition members (s : Shared) (cell : nat) : gmap string () := default ∅ (sh_sets s !! cell).

Definition view_db (s : Shared) : Database :=
  mkDatabase (sh_Store s) (contents s <$> sh_Lists s) (members s <$> sh_Sets s) (sh_Hashes s)
    (sh_Expires s) (sh_listCond s).
Definition view (ps : PubSub) (s : Shared) : Sess := mkSess (sh_tick s) (view_db s) ps.

(** The cells of the keys exist and are not shared. *)
Record heap_ok (s : Shared) : Prop := {
  cell_valid key cell : sh_Lists s !! key = Some cell → (cell < length (sh_objects s))%nat;
  cell_inj k1 k2 cell : sh_Lists s !! k1 = Some cell → sh_Lists s !! k2 = Some cell → k1 = k2;
  set_valid key cell : sh_Sets s !! key = Some cell → (cell < length (sh_sets s))%nat;
  set_inj k1 k2 cell : sh_Sets s !! k1 = Some cell → sh_Sets s !! k2 = Some cell → k1 = k2;
}.

Lemma heap_ok_delete key s : heap_ok s → heap_ok (upd_Lists (delete key) s).
Proof.
  intros [Hv Hi HSv HSi]. split; cbn; [| |done|done].
  - intros k c [_ Hk]%lookup_delete_Some. by eapply Hv.
  - intros k1 k2 c [_ H1]%lookup_delete_Some [_ H2]%lookup_delete_Some. by eapply Hi.
Qed.

Lemma heap_ok_delete_set key s : heap_ok s → heap_ok (upd_Sets (delete key) s).
Proof.
  intros [Hv Hi HSv HSi]. split; cbn; [done|done| |].
  - intros k c [_ Hk]%lookup_delete_Some. by eapply HSv.
  - intros k1 k2 c [_ H1]%lookup_delete_Some [_ H2]%lookup_delete_Some. by eapply HSi.
Qed.

Lemma heap_ok_evict key s : heap_ok s → heap_ok (Interleave.evict key s).
Proof.
  intros Hs. by destruct (heap_ok_delete_set key _ (heap_ok_delete key s Hs)).
Qed.

Lemma heap_ok_insert c l s : heap_ok s → heap_ok (upd_objects <[c := l]> s).
Proof.
  intros [Hv Hi HSv HSi]. split; cbn; [|done..]. intros k x Hx. rewrite length_insert. by eapply Hv.
Qed.

Lemma heap_ok_new key s : heap_ok s →
  heap_ok (upd_Lists <[key := length (sh_objects s)]> (upd_objects (λ o, o ++ [ListDS.NewList]) s)).
Proof.
  intros [Hv Hi HSv HSi]. split; cbn; [| |done|done].
  - intros k c. rewrite length_app, lookup_insert_Some. cbn.
    intros [[_ <-]|[_ Hk%Hv]]; lia.
  - intros k1 k2 c. rewrite !lookup_insert_Some.
    intros [[<- <-]|[_ H1]] [[<- Hc]|[_ H2]]; try done.
    + apply Hv in H2. lia.
    + apply Hv in H1. lia.
    + by eapply Hi.
Qed.

Lemma heap_new : heap_ok new_shared.
Proof. by split; cbn. Qed.

(** ** Simulation *)
Definition sim {A B} (R : A → B → Shared → Prop) (m : M Shared A) (m' : M Sess B)
    (s : Shared) : Prop :=
  ∀ ps, match m s with
        | (Ok a, s') => ∃ b, m' (view ps s) = (Ok b, view ps s') ∧ heap_ok s' ∧ R a b s'
        | (Err e, _) => fst (m' (view ps s)) = Err e
        | (Panic p, _) => fst (m' (view ps s)) = Panic p
        | (NoFuel, _) => fst (m' (view ps s)) = NoFuel
        end.

Definition same {A} : A → A → Shared → Prop := λ a b _, a = b.

Lemma sim_ok {A} ps (m : M Shared A) (m' : M Sess A) s b t :
  sim same m m' s → m' (view ps s) = (Ok b, t) →
  ∃ s', m s = (Ok b, s') ∧ view ps s' = t ∧ heap_ok s'.
Proof.
  intros Hsim Hm. specialize (Hsim ps). rewrite Hm in Hsim.
  destruct (m s) as [[a|e|e|] s']; cbn in Hsim; [|discriminate..].
  destruct Hsim as (b' & [= -> ->] & Hok & Heq). unfold same in Heq. subst. by exists s'.
Qed.

Section sim.
Context `{GoEnv}.

Lemma sim_ret {A B} (R : A → B → Shared → Prop) a b s :
  heap_ok s → R a b s → sim R (alone (mret a)) (mret b) s.
Proof. intros Hs HR ps. cbn. by exists b. Qed.

Lemma sim_done {A} (a : A) s : heap_ok s → sim same (alone (mret a)) (mret a) s.
Proof. intros Hs. by apply sim_ret. Qed.

Lemma sim_bind {A A' B B'} (R : A → B → Shared → Prop) (R' : A' → B' → Shared → Prop)
    (p : G A) (f : A → G A') (m : M Sess B) (g : B → M Sess B') s :
  sim R (alone p) m s →
  (∀ a b s', heap_ok s' → R a b s' → sim R' (alone (f a)) (g b) s') →
  sim R' (alone (p ≫= f)) (m ≫= g) s.
Proof.
  intros Hm Hf ps. rewrite alone_bind. unfold mbind, M_bind. specialize (Hm ps).
  destruct (alone p s) as [[a|e|e|] s'].
  { destruct Hm as (b & -> & Hok & HR). by apply (Hf a b s'). }
  all: destruct (m (view ps s)) as [[] ?]; cbn in Hm |- *; congruence.
Qed.

Lemma sim_imp {A B} (R R' : A → B → Shared → Prop) m (m' : M Sess B) s :
  (∀ a b s', R a b s' → R' a b s') → sim R m m' s → sim R' m m' s.
Proof.
  intros HR Hm ps. specialize (Hm ps). destruct (m s) as [[a|e|e|] s']; try done.
  destruct Hm as (b & Hb & Hok & Hr). exists b. auto.
Qed.

Lemma sim_read {A B} (R : A → B → Shared → Prop) (f : Shared → A) (g : Database → B) s :
  heap_ok s → R (f s) (g (view_db s)) s → sim R (alone (read f)) (gets_db g) s.
Proof. intros Hs HR ps. cbn. by eexists. Qed.

Lemma sim_upd (f : Shared → Shared) (g : Database → Database) s :
  heap_ok (f s) → sh_tick (f s) = sh_tick s → view_db (f s) = g (view_db s) →
  sim same (alone (update f)) (modify_db g) s.
Proof.
  intros Hs Ht Hv ps. cbn. exists (). split; [|done]. unfold modify_db, modify, set_db, view. cbn.
  by rewrite <- Hv, Ht.
Qed.

Lemma sim_now s : heap_ok s →
  sim (λ a b s', a = b ∧ sh_Lists s' = sh_Lists s) clock Now s.
Proof. intros [Hv Hi HSv HSi] ps. cbn. eexists. repeat split; done. Qed.

(** Inside one section. *)
Lemma sim_then {A A' B B'} (R : A → B → Shared → Prop) (R' : A' → B' → Shared → Prop)
    (p : M Shared A) (f : A → M Shared A') (m : M Sess B) (g : B → M Sess B') s :
  sim R p m s →
  (∀ a b s', heap_ok s' → R a b s' → sim R' (f a) (g b) s') →
  sim R' (p ≫= f) (m ≫= g) s.
Proof.
  intros Hm Hf ps. unfold mbind, M_bind. specialize (Hm ps).
  destruct (p s) as [[a|e|e|] s'].
  { destruct Hm as (b & -> & Hok & HR). by apply (Hf a b s'). }
  all: destruct (m (view ps s)) as [[] ?]; cbn in Hm |- *; congruence.
Qed.

Lemma sim_atomically {A B} (R : A → B → Shared → Prop) (m : M Shared A) (m' : M Sess B) s :
  sim R m m' s → sim R (alone (atomically m)) m' s.
Proof. intros Hm ps. rewrite alone_atomically. apply Hm. Qed.

Lemma sim_clock s : heap_ok s →
  sim (λ a b s', a = b ∧ sh_Lists s' = sh_Lists s) (alone (atomically clock)) Now s.
Proof. intros Hs. by apply sim_atomically, sim_now. Qed.
End sim.

(** What one cell holds. *)
Lemma contents_insert_ne s c c' l : c ≠ c' → contents (upd_objects <[c := l]> s) c' = contents s c'.
Proof. intros Hc. unfold contents. cbn. by rewrite list_lookup_insert_ne. Qed.

Lemma view_insert s key c l : heap_ok s → sh_Lists s !! key = Some c →
  view_db (upd_objects <[c := l]> s) = set_Lists <[key := l]> (view_db s).
Proof.
  intros [Hv Hi] Hk. unfold view_db, set_Lists. cbn. f_equal. apply map_eq. intros k.
  destruct (decide (k = key)) as [->|Hne].
  - rewrite lookup_insert_eq, lookup_fmap, Hk. cbn. unfold contents. cbn.
    rewrite list_lookup_insert_eq; [done|]. by eapply Hv.
  - rewrite lookup_insert_ne, !lookup_fmap by done.
    destruct (sh_Lists s !! k) as [c'|] eqn:Hk'; [|done]. cbn. f_equal.
    apply contents_insert_ne. intros <-. by apply Hne, (Hi k key c).
Qed.

Lemma view_delete key s : view_db (upd_Lists (delete key) s) = set_Lists (delete key) (view_db s).
Proof. unfold view_db, set_Lists. cbn. f_equal. by rewrite fmap_delete. Qed.

Lemma view_new key s : heap_ok s →
  view_db (upd_Lists <[key := length (sh_objects s)]> (upd_objects (λ o, o ++ [ListDS.NewList]) s)) =
  set_Lists <[key := ListDS.NewList]> (view_db s).
Proof.
  intros [Hv _ _ _]. unfold view_db, set_Lists. cbn. f_equal. apply map_eq. intros k.
  destruct (decide (k = key)) as [->|Hne].
  - rewrite lookup_fmap, !lookup_insert_eq. cbn. unfold contents. cbn.
    by rewrite lookup_app_r, Nat.sub_diag by lia.
  - rewrite lookup_fmap, !lookup_insert_ne, lookup_fmap by done.
    destruct (sh_Lists s !! k) as [c|] eqn:Hk; [|done]. cbn. f_equal.
    unfold contents. cbn. by rewrite lookup_app_l by (by eapply Hv).
Qed.

Lemma view_evict key s : view_db (Interleave.evict key s) = Database.evict key (view_db s).
Proof.
  unfold view_db, Interleave.evict, Database.evict, set_Lists, set_Store, set_Sets, set_Hashes,
    set_Expires. cbn. f_equal; by rewrite fmap_delete.
Qed.

Lemma view_lookup s key : Lists (view_db s) !! key = contents s <$> sh_Lists s !! key.
Proof. apply lookup_fmap. Qed.

(** ** The methods of the database *)
Section ops.
Context `{GoEnv}.

Lemma sim_expireIfNeeded key s : heap_ok s →
  sim same (alone (Interleave.expireIfNeeded key)) (Database.expireIfNeeded key) s.
Proof.
  intros Hs. eapply (sim_bind same); [by apply sim_read|].
  intros exp _ s1 Hs1 <-. destruct exp as [exp|]; [|by apply sim_ret].
  eapply sim_bind; [by apply sim_clock|]. intros now _ s2 Hs2 [<- _].
  destruct (now <? exp); [by apply sim_ret|].
  apply sim_upd; [by apply heap_ok_evict|done|apply view_evict].
Qed.

(** What [GetOrCreateList] and [GetList] return, against the lists they find. *)
Definition at_cell (key : string) (c : nat) (s : Shared) : Prop := sh_Lists s !! key = Some c.
Definition same_list (key : string) (c : option nat) (l : option (list string)) (s : Shared) :=
  match c, l with
  | Some c, Some l => at_cell key c s
  | None, None => True
  | _, _ => False
  end.

Lemma sim_GetOrCreateList key s : heap_ok s →
  sim (λ c _, at_cell key c) (alone (Interleave.GetOrCreateList key)) (Database.GetOrCreateList key) s.
Proof.
  intros Hs. eapply sim_bind; [by apply sim_expireIfNeeded|]. intros _ _ s1 Hs1 _.
  apply sim_atomically. intros ps. unfold find_or_create.
  destruct (sh_Lists s1 !! key) as [c|] eqn:Hk.
  - exists (). split_and!; [|done|done]. unfold mbind, M_bind, gets_db, gets.
    cbn [s_db view]. by rewrite view_lookup, Hk.
  - exists (). split_and!; [|by apply heap_ok_new|].
    + unfold mbind, M_bind, gets_db, gets. cbn [s_db view]. rewrite view_lookup, Hk. cbn [fmap option_fmap option_map].
      unfold modify_db, modify, view, set_db. cbn [s_tick s_db s_ps]. by rewrite view_new.
    + unfold at_cell. cbn. by rewrite lookup_insert_eq.
Qed.

Lemma sim_GetList key s : heap_ok s →
  sim (same_list key) (alone (Interleave.GetList key)) (Database.GetList key) s.
Proof.
  intros Hs. eapply sim_bind; [by apply sim_expireIfNeeded|]. intros _ _ s1 Hs1 _.
  apply sim_read; [done|]. unfold same_list, at_cell. rewrite view_lookup.
  by destruct (sh_Lists s1 !! key).
Qed.

(** A method of the list at a key; the key keeps its cell. *)
Lemma sim_locked {A} key c (m : M (list string) A) s : heap_ok s → at_cell key c s →
  sim (λ a b s', a = b ∧ at_cell key c s') (alone (locked c m)) (on_list key m) s.
Proof.
  intros Hs Hk. apply sim_atomically. intros ps. unfold on_object, on_list. cbn.
  rewrite lookup_fmap, Hk. cbn. unfold contents.
  destruct (lookup_lt_is_Some_2 (sh_objects s) c) as [l Hl]; [by eapply cell_valid|].
  rewrite Hl. cbn. destruct (m l) as [[a|e|e|] l']; try done.
  eexists. split_and!; [|by apply heap_ok_insert|done|done].
  unfold view, set_db. cbn. by rewrite view_insert with (key := key).
Qed.

Lemma sim_drop_empty_list key c s : heap_ok s → at_cell key c s →
  sim same (alone (Interleave.drop_empty_list key c)) (ListCmds.drop_empty_list key) s.
Proof.
  intros Hs Hk. eapply sim_bind; [by apply sim_locked|]. intros n _ s1 Hs1 [<- _].
  destruct (n =? 0); [|by apply sim_ret].
  apply sim_upd; [by apply heap_ok_delete|done|apply view_delete].
Qed.

Lemma sim_signal s : heap_ok s →
  sim same (alone Interleave.signalListPush) Database.signalListPush s.
Proof. intros Hs. apply sim_upd; [|done..]. by destruct Hs. Qed.

Lemma sim_for_each {A} (f : A → G ()) (g : A → M Sess ()) l s :
  (∀ x s, heap_ok s → sim same (alone (f x)) (g x) s) → heap_ok s →
  sim same (alone (prog_for_each f l)) (for_each g l) s.
Proof.
  intros Hf. revert s. induction l as [|x l IH]; intros s Hs; [by apply sim_ret|].
  cbn [prog_for_each for_each]. eapply sim_bind; [by apply Hf|]. intros _ _ s' Hs' _. by apply IH.
Qed.

Lemma sim_for_fold {A B} (f : B → A → G B) (g : B → A → M Sess B) l b s :
  (∀ b x s, heap_ok s → sim same (alone (f b x)) (g b x) s) → heap_ok s →
  sim same (alone (prog_for_fold f b l)) (for_fold g b l) s.
Proof.
  intros Hf. revert b s. induction l as [|x l IH]; intros b s Hs; [by apply sim_ret|].
  cbn [prog_for_fold for_fold]. eapply sim_bind; [by apply Hf|]. intros b' _ s' Hs' <-. by apply IH.
Qed.

(** One map of DEL. *)
Lemma sim_delete_from {A B} get (get' : Database → gmap string B) upd upd' key deleted s :
  heap_ok s → (is_Some (get s !! key : option A) ↔ is_Some (get' (view_db s) !! key)) →
  heap_ok (upd (delete key) s) → sh_tick (upd (delete key) s) = sh_tick s →
  view_db (upd (delete key) s) = upd' (delete key) (view_db s) →
  sim same (delete_locked get upd key deleted) (delete_from get' upd' key deleted) s.
Proof.
  intros Hs Hget Hok Htick Hview ps. unfold delete_locked, delete_from, mbind, M_bind, gets_db, gets.
  cbn [s_db view]. destruct (get s !! key) as [x|], (get' (view_db s) !! key) as [y|];
    cbn; [|by destruct Hget as [Hg _]; destruct (Hg (mk_is_Some _ _ eq_refl))
          |by destruct Hget as [_ Hg]; destruct (Hg (mk_is_Some _ _ eq_refl))|by eexists].
  eexists. split_and!; [|done|done]. unfold set_db, view. cbn. by rewrite Hview, Htick.
Qed.

Lemma sim_DeleteKey key s : heap_ok s →
  sim same (alone (Interleave.DeleteKey key)) (Database.DeleteKey key) s.
Proof.
  intros Hs. eapply sim_bind; [by apply sim_expireIfNeeded|]. intros _ _ s1 Hs1 _.
  apply sim_atomically.
  eapply (sim_then same); [by apply sim_delete_from; try done; destruct Hs1|].
  intros n1 _ s2 Hs2 <-.
  eapply (sim_then same).
  { apply sim_delete_from; [done| |by apply heap_ok_delete|done|apply view_delete].
    rewrite view_lookup. by rewrite fmap_is_Some. }
  intros n2 _ s3 Hs3 <-.
  eapply (sim_then same).
  { apply sim_delete_from; [done| |by apply heap_ok_delete_set|done|].
    - cbn. by rewrite lookup_fmap, fmap_is_Some.
    - unfold view_db, set_Sets. cbn. by rewrite fmap_delete. }
  intros n3 _ s4 Hs4 <-.
  eapply (sim_then same); [by apply sim_delete_from; try done; destruct Hs4|].
  intros n4 _ s5 Hs5 <- ps. exists n4. split_and!; [done| |done]. by destruct Hs5.
Qed.

Lemma sim_SweepExpired s : heap_ok s →
  sim same (alone Interleave.SweepExpired) Database.SweepExpired s.
Proof.
  intros Hs ps. set (keys := (List.filter (λ '(_, exp), time_Now (sh_tick s) >? exp)
    (map_range (S (sh_tick s)) (sh_Expires s))).*1).
  set (s2 := snd (serial (snd (serial s)))).
  assert (Hs2 : heap_ok s2) by (by destruct Hs).
  change (alone Interleave.SweepExpired s) with
    (alone (prog_for_each Interleave.expireIfNeeded keys) s2).
  change (Database.SweepExpired (view ps s)) with
    (for_each Database.expireIfNeeded keys (view ps s2)).
  apply sim_for_each; [|done]. intros key s' Hs'. by apply sim_expireIfNeeded.
Qed.

(** ** The handlers *)

(** [list ← GetList key] and what follows. *)
Lemma sim_with_list {A} key (f : option nat → G A) (g : option (list string) → M Sess A) s :
  heap_ok s →
  (∀ s1, heap_ok s1 → sim same (alone (f None)) (g None) s1) →
  (∀ c l s1, heap_ok s1 → at_cell key c s1 → sim same (alone (f (Some c))) (g (Some l)) s1) →
  sim same (alone (Interleave.GetList key ≫= f)) (Database.GetList key ≫= g) s.
Proof.
  intros Hs Hnone Hsome. eapply sim_bind; [by apply sim_GetList|].
  intros [c|] [l|] s1 Hs1 Hl; try done; auto.
Qed.

(** One method of that list, and a pure end. *)
Lemma sim_method {A B} key c (m : M (list string) A) (f : A → G B) (g : A → M Sess B) s :
  heap_ok s → at_cell key c s →
  (∀ a s1, heap_ok s1 → at_cell key c s1 → sim same (alone (f a)) (g a) s1) →
  sim same (alone (locked c m ≫= f)) (on_list key m ≫= g) s.
Proof.
  intros Hs Hk Hf. eapply sim_bind; [by apply sim_locked|]. intros a _ s1 Hs1 [<- Hc]. auto.
Qed.

Ltac sim_step := match goal with
  | |- sim same (alone (Interleave.GetList _ ≫= _)) _ _ => apply sim_with_list; [done|intros..]
  | |- sim same (alone (locked _ _ ≫= _)) _ _ => eapply sim_method; [done|done|intros]
  | |- sim same (alone (mret _)) _ _ => by apply sim_done
  | |- sim same (alone (match ?x with _ => _ end)) _ _ => destruct x; cbn [negb]
  end.

Definition sim_handler (h : list Value → G Value) (h' : list Value → M Sess Value) : Prop :=
  ∀ args s, heap_ok s → sim same (alone (h args)) (h' args) s.

Lemma sim_push_list (m : M (list string) Z) key s : heap_ok s →
  sim same
    (alone (list ← Interleave.GetOrCreateList key; length ← locked list m;
            _ ← Interleave.signalListPush; mret (vInt length)))
    (_ ← Database.GetOrCreateList key; length ← on_list key m;
     _ ← Database.signalListPush; mret (vInt length)) s.
Proof.
  intros Hs. eapply sim_bind; [by apply sim_GetOrCreateList|]. intros c u s1 Hs1 Hc.
  eapply sim_method; [done|done|]. intros n s2 Hs2 _.
  eapply sim_bind; [by apply sim_signal|]. intros _ _ s3 Hs3 _. by apply sim_done.
Qed.

Lemma sim_lpush : sim_handler Interleave.lpush ListCmds.lpush.
Proof.
  intros [|k [|v vs]] s Hs; [by apply sim_done..|].
  exact (sim_push_list (ListDS.LPush (map Str (v :: vs))) (Str k) s Hs).
Qed.

Lemma sim_rpush : sim_handler Interleave.rpush ListCmds.rpush.
Proof.
  intros [|k [|v vs]] s Hs; [by apply sim_done..|].
  exact (sim_push_list (ListDS.RPush (map Str (v :: vs))) (Str k) s Hs).
Qed.

(** Taking one element off the list at a key. *)
Lemma sim_pop {B} key c (m : M (list string) (string * bool)) (none : G B) none'
    (some : string → B) s : heap_ok s → at_cell key c s →
  (∀ s1, heap_ok s1 → sim same (alone none) none' s1) →
  sim same
    (alone ('(value, ok) ← locked c m; if negb ok then none else
            _ ← Interleave.drop_empty_list key c; mret (some value)))
    ('(value, ok) ← on_list key m; if negb ok then none' else
     _ ← ListCmds.drop_empty_list key; mret (some value)) s.
Proof.
  intros Hs Hk Hnone. eapply sim_method; [done|done|]. intros [v []] s1 Hs1 Hc; cbn [negb].
  - eapply sim_bind; [by apply sim_drop_empty_list|]. intros _ _ s2 Hs2 _. by apply sim_done.
  - by apply Hnone.
Qed.

Lemma sim_lpop : sim_handler Interleave.lpop ListCmds.lpop.
Proof.
  intros [|k [|v vs]] s Hs; [by apply sim_done| |by apply sim_done].
  unfold Interleave.lpop, ListCmds.lpop.
  sim_step; [sim_step|]. apply sim_pop; [done|done|]. intros. sim_step.
Qed.

Lemma sim_rpop : sim_handler Interleave.rpop ListCmds.rpop.
Proof.
  intros [|k [|v vs]] s Hs; [by apply sim_done| |by apply sim_done].
  unfold Interleave.rpop, ListCmds.rpop.
  sim_step; [sim_step|]. apply sim_pop; [done|done|]. intros. sim_step.
Qed.

Lemma sim_pop_first left keys s : heap_ok s →
  sim same (alone (Interleave.pop_first keys left)) (ListCmds.pop_first keys left) s.
Proof.
  revert s. induction keys as [|key keys IH]; intros s Hs; [by apply sim_done|].
  cbn [Interleave.pop_first ListCmds.pop_first]. sim_step; [by apply IH|].
  by apply (sim_pop key c _ _ _ (λ v, Some (vArray [vBulk key; vBulk v]))).
Qed.

Lemma sim_lrange : sim_handler Interleave.lrange ListCmds.lrange.
Proof.
  intros [|k [|a [|b [|x l]]]] s Hs; try by apply sim_done.
  unfold Interleave.lrange, ListCmds.lrange.
  destruct (Atoi (Str a)) as [start []]; [by apply sim_done|].
  destruct (Atoi (Str b)) as [stop []]; [by apply sim_done|]. repeat sim_step.
Qed.

Lemma sim_llen : sim_handler Interleave.llen ListCmds.llen.
Proof.
  intros [|k [|v l]] s Hs; try by apply sim_done. unfold Interleave.llen, ListCmds.llen.
  repeat sim_step.
Qed.

Lemma sim_lindex : sim_handler Interleave.lindex ListCmds.lindex.
Proof.
  intros [|k [|a [|b l]]] s Hs; try by apply sim_done. unfold Interleave.lindex, ListCmds.lindex.
  destruct (Atoi (Str a)) as [i []]; [by apply sim_done|]. repeat sim_step.
Qed.

Lemma sim_lset : sim_handler Interleave.lset ListCmds.lset.
Proof.
  intros [|k [|a [|b [|x l]]]] s Hs; try by apply sim_done. unfold Interleave.lset, ListCmds.lset.
  destruct (Atoi (Str a)) as [i []]; [by apply sim_done|]. repeat sim_step.
Qed.

Lemma sim_lrem : sim_handler Interleave.lrem ListCmds.lrem.
Proof.
  intros [|k [|a [|b [|x l]]]] s Hs; try by apply sim_done. unfold Interleave.lrem, ListCmds.lrem.
  destruct (Atoi (Str a)) as [i []]; [by apply sim_done|]. repeat sim_step.
  eapply sim_bind; [by apply sim_drop_empty_list|]. intros _ _ s2 Hs2 _. by apply sim_done.
Qed.

Lemma sim_set : sim_handler Interleave.set StringCmds.set.
Proof.
  intros [|k [|v [|x l]]] s Hs; try by apply sim_done.
  intros ps. cbn. eexists. split_and!; [|by destruct Hs|done]. done.
Qed.

Lemma sim_get : sim_handler Interleave.get StringCmds.get.
Proof.
  intros [|k [|v l]] s Hs; try by apply sim_done.
  eapply sim_bind; [by apply sim_expireIfNeeded|]. intros _ _ s1 Hs1 _.
  eapply (sim_bind same); [by apply sim_read|]. intros v _ s2 Hs2 <-. destruct v; by apply sim_done.
Qed.

Lemma sim_del : sim_handler Interleave.del StringCmds.del.
Proof.
  intros args s Hs. unfold Interleave.del, StringCmds.del.
  destruct (length args <? 1)%nat; [by apply sim_done|].
  eapply (sim_bind same); [|intros n _ s1 Hs1 <-; by apply sim_done].
  apply sim_for_fold; [|done]. intros b x s1 Hs1.
  eapply sim_bind; [by apply sim_DeleteKey|]. intros n _ s2 Hs2 <-. by apply sim_done.
Qed.

(** ** Blocking pops *)

(** A goroutine nobody interrupts that comes back from [wakeups] waits at most. *)
Fixpoint alone_loop (wakeups : nat) (l : Loop) : M Shared Value :=
  match wakeups with
  | O => out_of_fuel
  | S wakeups' =>
      o ← alone (blocking_round l);
      match o with
      | Reply v => mret v
      | Again l' | Wait l' _ => alone_loop wakeups' l'
      end
  end.

Definition alone_request (wakeups : nat) (r : Request) : M Shared Value :=
  o ← alone (start r);
  match o with
  | Reply v => mret v
  | Again l | Wait l _ => alone_loop wakeups l
  end.

(** What a round makes of the loop. *)
Definition next_of (l : Loop) (o : Outcome) (r : option Value) (_ : Shared) : Prop :=
  match o, r with
  | Reply v, Some v' => v = v'
  | Again l', None | Wait l' _, None => l' = l
  | _, _ => False
  end.

Lemma sim_wait d h s : heap_ok s →
  sim (λ _ _ _, True) (alone (Interleave.waitForListSignal d h)) (ListCmds.waitForListSignal d h) s.
Proof.
  intros Hs. apply sim_atomically. unfold ListCmds.waitForListSignal. destruct h.
  - eapply sim_then; [by apply sim_now|]. intros now _ s1 Hs1 [<- _].
    destruct (d - now <=? 0); intros ps; by exists ().
  - intros ps. by exists ().
Qed.

(** The same, with a tail outside the goroutine. *)
Lemma sim_bind_tail {A A' C B B'} (R : A → B → Shared → Prop) (R' : C → B' → Shared → Prop)
    (p : G A) (f : A → G A') (h : A' → M Shared C) (m : M Sess B) (g : B → M Sess B') s :
  sim R (alone p) m s →
  (∀ a b s', heap_ok s' → R a b s' → sim R' (alone (f a) ≫= h) (g b) s') →
  sim R' (alone (p ≫= f) ≫= h) (m ≫= g) s.
Proof.
  intros Hm Hf ps.
  assert (Heq : (alone (p ≫= f) ≫= h) s = (alone p ≫= λ a, alone (f a) ≫= h) s).
  { rewrite !bind_eq, alone_bind, bind_eq. by destruct (alone p s) as [[] ?]. }
  rewrite Heq. by apply (sim_then R).
Qed.

Lemma sim_alone_loop wakeups l s : heap_ok s →
  sim same (alone_loop wakeups l)
    (ListCmds.blocking_loop wakeups (l_keys l) (l_left l) (l_hasDeadline l) (l_deadline l)) s.
Proof.
  revert s. induction wakeups as [|n IH]; intros s Hs; [done|].
  cbn [alone_loop ListCmds.blocking_loop]. unfold blocking_round.
  eapply sim_bind_tail; [by apply sim_pop_first|]. intros [v|] _ s1 Hs1 <-; [by apply sim_done|].
  eapply (sim_bind_tail same).
  { destruct (l_hasDeadline l); [|by apply sim_done].
    eapply sim_bind; [by apply sim_clock|]. intros now _ s2 Hs2 [<- _]. by apply sim_done. }
  intros late _ s2 Hs2 <-. destruct late; [by apply sim_done|].
  eapply sim_bind_tail; [by apply sim_wait|]. intros w u s3 Hs3 _. by destruct w; apply IH.
Qed.

Lemma sim_blockingPop wakeups left args s : heap_ok s →
  sim same (o ← alone (Interleave.blockingPop args left);
            match o with
            | Reply v => mret v
            | Again l | Wait l _ => alone_loop wakeups l
            end)
    (ListCmds.blockingPop wakeups args left) s.
Proof.
  intros Hs. unfold Interleave.blockingPop, ListCmds.blockingPop.
  destruct (length args <? 2)%nat; [by apply sim_done|].
  destruct (args !! _) as [t|]; [|by apply sim_done].
  destruct (ParseFloat (Str t)) as [timeout|]; [|by apply sim_done].
  destruct (float_neg timeout); [by apply sim_done|].
  eapply (sim_bind_tail same).
  { destruct (float_pos timeout); [|by apply sim_done].
    eapply sim_bind; [by apply sim_clock|]. intros now _ s2 Hs2 [<- _]. by apply sim_done. }
  intros deadline _ s2 Hs2 <-.
  by apply (sim_alone_loop wakeups (mkLoop _ left (float_pos timeout) deadline)).
Qed.

Lemma sim_plain wakeups h h' args s : sim_handler h h' → heap_ok s →
  sim same (o ← alone (v ← h args; mret (Reply v));
            match o with
            | Reply v => mret v
            | Again l | Wait l _ => alone_loop wakeups l
            end) (h' args) s.
Proof.
  intros Hh Hs ps. specialize (Hh args s Hs ps). rewrite bind_eq, alone_bind, bind_eq.
  by destruct (alone (h args) s) as [[v|e|e|] s'].
Qed.

(** Every command of the two tables. *)
Definition listed (name : string) : Prop :=
  name ∈ map fst plain_handlers ++ map fst blocking_handlers.

Lemma sim_request wakeups name args h s :
  listed name → handler_of wakeups name = Some h → heap_ok s →
  sim same (alone_request wakeups (Command name args)) (h args) s.
Proof.
  intros Hin Hh Hs. unfold listed in Hin. cbn in Hin.
  repeat (apply elem_of_cons in Hin as [->|Hin]; [injection Hh as <-|]); [..|by apply elem_of_nil in Hin].
  - by apply (sim_plain _ _ _ _ _ sim_set).
  - by apply (sim_plain _ _ _ _ _ sim_get).
  - by apply (sim_plain _ _ _ _ _ sim_del).
  - by apply (sim_plain _ _ _ _ _ sim_lpush).
  - by apply (sim_plain _ _ _ _ _ sim_rpush).
  - by apply (sim_plain _ _ _ _ _ sim_lpop).
  - by apply (sim_plain _ _ _ _ _ sim_rpop).
  - by apply (sim_plain _ _ _ _ _ sim_lrange).
  - by apply (sim_plain _ _ _ _ _ sim_llen).
  - by apply (sim_plain _ _ _ _ _ sim_lindex).
  - by apply (sim_plain _ _ _ _ _ sim_lset).
  - by apply (sim_plain _ _ _ _ _ sim_lrem).
  - by apply sim_blockingPop.
  - by apply sim_blockingPop.
Qed.
End ops.

(** ** Stretches of one goroutine in the schedule *)
Section schedule.
Context `{GoEnv}.

Lemma run_app es es' cf cf1 : run es cf = (Ok (), cf1) → run (es ++ es') cf = run es' cf1.
Proof.
  unfold run. revert cf. induction es as [|e es IH]; intros cf; cbn [app for_each].
  - by intros [= ->].
  - rewrite !bind_eq. destruct (exec e cf) as [[[]|x|x|] cf2]; try done. apply IH.
Qed.

Lemma run_one e cf cf1 : exec e cf = (Ok (), cf1) → run [e] cf = (Ok (), cf1).
Proof. intros He. unfold run. cbn [for_each]. by rewrite (bind_ok _ _ _ _ _ He). Qed.

Definition client_at (i : nat) (c : Client) (s : Shared) (cls : list Client) : Config :=
  mkConfig s (<[i := c]> cls).

Lemma exec_client i c s s' c' cls : (i < length cls)%nat →
  client_step c s = (Ok c', s') → exec (Run i) (client_at i c s cls) = (Ok (), client_at i c' s' cls).
Proof.
  intros Hi Hc. unfold exec.
  rewrite (bind_ok _ _ _ (Some c) (client_at i c s cls))
    by (unfold gets, client_at; cbn [cf_clients]; by rewrite list_lookup_insert_eq).
  rewrite (bind_ok _ _ _ c' (client_at i c s' cls))
    by (unfold on_shared, zoom, client_at; cbn [cf_shared cf_clients]; by rewrite Hc).
  unfold modify, client_at. cbn [cf_shared cf_clients]. by rewrite list_insert_insert_eq.
Qed.

(** As many steps of one goroutine as its program has sections. *)
Lemma run_program i todo r p done cls s o s' : (i < length cls)%nat →
  alone p s = (Ok o, s') →
  ∃ n, run (replicate n (Run i)) (client_at i (mkClient todo (Busy r p) done) s cls) =
       (Ok (), client_at i (mkClient todo (Busy r (Done o)) done) s' cls).
Proof.
  intros Hi. revert s. induction p as [a|X m k IH]; intros s Hp.
  - injection Hp as -> ->. by exists 0%nat.
  - cbn [alone] in Hp. apply bind_ok_inv in Hp as (x & s1 & Hm & Hk).
    destruct (IH x s1 Hk) as [n Hn]. exists (S n). cbn [replicate]. unfold run. cbn [for_each].
    rewrite (bind_ok _ _ _ () (client_at i (mkClient todo (Busy r (k x)) done) s1 cls)); [exact Hn|].
    apply exec_client; [done|]. cbn. by rewrite (bind_ok _ _ _ _ _ Hm).
Qed.

(** A handler comes to the condition variable only through its loop. *)
Lemma start_no_wait r s l w s1 : alone (start r) s ≠ (Ok (Wait l w), s1).
Proof.
  assert (Hbind : ∀ A (p : G A) f, (∀ a s l w s1, alone (f a : G Outcome) s ≠ (Ok (Wait l w), s1)) →
    alone (p ≫= f) s ≠ (Ok (Wait l w), s1)).
  { intros A p f Hf Heq. rewrite alone_bind in Heq. apply bind_ok_inv in Heq as (a & s' & _ & Ha).
    by eapply Hf. }
  destruct r as [name args|]; [|by apply Hbind].
  unfold start. destruct (table_get name plain_handlers); [by apply Hbind|].
  assert (Hpop : ∀ left, alone (Interleave.blockingPop args left) s ≠ (Ok (Wait l w), s1)).
  { intros left. unfold Interleave.blockingPop. destruct (length args <? 2)%nat; [done|].
    destruct (args !! _) as [t|]; [|done]. destruct (ParseFloat (Str t)) as [x|]; [|done].
    destruct (float_neg x); [done|]. by apply Hbind. }
  cbn. repeat case_match; simplify_eq; try done; apply Hpop.
Qed.

(** From the head of the loop to the reply. *)
Lemma run_loop i todo r l done cls s v s' : (i < length cls)%nat → alone_loop 1 l s = (Ok v, s') →
  ∃ n, run (replicate n (Run i)) (client_at i (mkClient todo (Busy r (blocking_round l)) done) s cls) =
    (Ok (), client_at i (mkClient todo Idle (done ++ [(r, v)])) s' cls).
Proof.
  intros Hi Hl. cbn [alone_loop] in Hl.
  apply bind_ok_inv in Hl as ([v'|l'|l' w] & s2 & Hround & Hl); [|done..]. injection Hl as -> ->.
  destruct (run_program i todo r (blocking_round l) done cls s (Reply v) s' Hi Hround) as [n Hn].
  exists (n + 1)%nat. rewrite replicate_add, (run_app _ _ _ _ Hn). by apply run_one, exec_client.
Qed.

(** From a free client to its reply, when the loop of a blocking pop needs one
    round at most. *)
Lemma run_request i r todo done cls s v s' : (i < length cls)%nat →
  alone_request 1 r s = (Ok v, s') →
  ∃ n, run (replicate n (Run i)) (client_at i (mkClient (r :: todo) Idle done) s cls) =
       (Ok (), client_at i (mkClient todo Idle (done ++ [(r, v)])) s' cls).
Proof.
  intros Hi Hr. unfold alone_request in Hr. apply bind_ok_inv in Hr as (o & s1 & Ho & Hr).
  destruct (run_program i todo r (start r) done cls s o s1 Hi Ho) as [n Hn].
  assert (Hstart : exec (Run i) (client_at i (mkClient (r :: todo) Idle done) s cls) =
    (Ok (), client_at i (mkClient todo (Busy r (start r)) done) s cls)) by (by apply exec_client).
  assert (Hend : exec (Run i) (client_at i (mkClient todo (Busy r (Done (Reply v))) done) s' cls) =
    (Ok (), client_at i (mkClient todo Idle (done ++ [(r, v)])) s' cls)) by (by apply exec_client).
  destruct o as [v'|l|l w]; [| |by apply start_no_wait in Ho].
  - injection Hr as -> ->. exists (1 + n + 1)%nat. rewrite !replicate_add.
    rewrite <-app_assoc. rewrite (run_app [_] _ _ _ (run_one _ _ _ Hstart)).
    rewrite (run_app _ _ _ _ Hn). by apply run_one.
  - destruct (run_loop i todo r l done cls s1 v s' Hi Hr) as [m Hm].
    assert (Hagain : exec (Run i) (client_at i (mkClient todo (Busy r (Done (Again l))) done) s1 cls) =
      (Ok (), client_at i (mkClient todo (Busy r (blocking_round l)) done) s1 cls)) by (by apply exec_client).
    exists (1 + n + 1 + m)%nat. rewrite !replicate_add, <-!app_assoc.
    rewrite (run_app [_] _ _ _ (run_one _ _ _ Hstart)), (run_app _ _ _ _ Hn).
    by rewrite (run_app [_] _ _ _ (run_one _ _ _ Hagain)).
Qed.
End schedule.
