(* ===== verification/SetLocks.v ===== *)
(** * SetLocks: the set commands and their mutexes
    (src/pkg/commands/set_commands.go, the type Set of src/pkg/datastruct/datastruct.go)

    The set commands again, with every lock they take: [db.Mu], and the mutex
    of each set. SINTER, SUNION and SDIFF keep the first set locked for reading
    while they lock the others, and SINTER of one key locks the same set twice:
    against the rules of [sync.RWMutex], and enough for two ordinary commands to
    block each other for ever. The other commands take their locks in order. *)
From S2P Require Import Prelude Go Locks Strconv Resp DataStruct PubSub Database.
From S2P Require Import StringCmds SetCmds Handler Interleave.

(** The mutex of the database, and that of the set in a cell. *)
Definition dbMu : nat := 0.
Definition setMu (cell : nat) : nat := S cell.

Abbreviation T := (task Shared).

(** A method on the set in a cell. *)
Definition on_cell {A} (cell : nat) (m : M (nat * gmap string ()) A) : M Shared A := λ s,
  match sh_sets s !! cell with
  | Some x =>
      let '(r, (n, x')) := m (sh_tick s, x) in
      (r, mkShared n (sh_Store s) (sh_Lists s) (sh_Sets s) (sh_Hashes s) (sh_Expires s)
            (sh_listCond s) (sh_objects s) (<[cell := x']> (sh_sets s)))
  | None => (Panic "nil pointer dereference", s)
  end.

Definition new_set : M Shared nat := λ s,
  (Ok (length (sh_sets s)), upd_sets (λ x, x ++ [SetDS.NewSet]) s).

Section ops.
Context `{GoEnv}.

(** ** The database *)
Definition expireIfNeeded (key : string) : T () :=
  exp ← read_locked dbMu (do_step (gets (λ s, sh_Expires s !! key)));
  match exp with
  | None => mret ()
  | Some exp =>
      now ← do_step clock;
      if now <? exp then mret () else write_locked dbMu (do_step (modify (Interleave.evict key)))
  end.

Definition GetSet (key : string) : T (option nat) :=
  _ ← expireIfNeeded key;
  read_locked dbMu (do_step (gets (λ s, sh_Sets s !! key))).

Definition find_or_create_set (key : string) : M Shared nat := λ s,
  match sh_Sets s !! key with
  | Some cell => (Ok cell, s)
  | None =>
      let cell := length (sh_sets s) in
      (Ok cell, upd_Sets <[key := cell]> (upd_sets (λ x, x ++ [SetDS.NewSet]) s))
  end.

Definition GetOrCreateSet (key : string) : T nat :=
  _ ← expireIfNeeded key;
  write_locked dbMu (do_step (find_or_create_set key)).

(** ** The methods of [Set] *)
Definition SAdd (s : nat) (members : list string) : T Z :=
  write_locked (setMu s) (do_step (on_cell s (still (SetDS.SAdd members)))).
Definition SRem (s : nat) (members : list string) : T Z :=
  write_locked (setMu s) (do_step (on_cell s (still (SetDS.SRem members)))).
Definition SIsMember (s : nat) (member : string) : T bool :=
  read_locked (setMu s) (do_step (on_cell s (still (gets (λ x, SetDS.SIsMember x member))))).
Definition SCard (s : nat) : T Z :=
  read_locked (setMu s) (do_step (on_cell s (still (gets SetDS.SCard)))).

(** [range s.items]. *)
Definition range_items : M (nat * gmap string ()) (list string) := λ '(n, x),
  (Ok (map_range n x).*1, (S n, x)).

Definition SMembers (s : nat) : T (list string) :=
  read_locked (setMu s) (do_step (on_cell s range_items)).
Definition SPop (s : nat) : T (string * bool) :=
  write_locked (setMu s) (do_step (on_cell s SetDS.SPop)).

(** The inner loops: [inAll] stops at the first miss, [inOther] at the first
    hit. *)
Fixpoint in_all (others : list nat) (member : string) : T bool :=
  match others with
  | [] => mret true
  | other :: others =>
      b ← SIsMember other member;
      if negb b then mret false else in_all others member
  end.
Fixpoint in_other (others : list nat) (member : string) : T bool :=
  match others with
  | [] => mret false
  | other :: others =>
      b ← SIsMember other member;
      if b : bool then mret true else in_other others member
  end.

Definition SInter (s : nat) (others : list nat) : T (list string) :=
  read_locked (setMu s)
    (match others with
     | [] => SMembers s
     | _ =>
         members ← do_step (on_cell s range_items);
         task_for_fold (λ result member,
           inAll ← in_all others member;
           mret (if inAll : bool then result ++ [member] else result)) [] members
     end).

Definition add_all (seen : gmap string ()) (members : list string) : gmap string () :=
  foldl (λ seen member, <[member := ()]> seen) seen members.

Definition SUnion (s : nat) (others : list nat) : T (list string) :=
  read_locked (setMu s)
    (members ← do_step (on_cell s range_items);
     seen ← task_for_fold (λ seen other, members ← SMembers other; mret (add_all seen members))
              (add_all ∅ members) others;
     n ← do_step serial;
     mret (map_range n seen).*1).

Definition SDiff (s : nat) (others : list nat) : T (list string) :=
  read_locked (setMu s)
    (members ← do_step (on_cell s range_items);
     task_for_fold (λ result member,
       inOther ← in_other others member;
       mret (if inOther : bool then result else result ++ [member])) [] members).

(** ** The handlers *)
Definition drop_empty_set (key : string) (s : nat) : T () :=
  n ← SCard s;
  if n =? 0 then write_locked dbMu (do_step (modify (upd_Sets (delete key)))) else mret ().

Definition sadd (args : list Value) : T Value :=
  match args with
  | k :: (_ :: _) as ms =>
      set ← GetOrCreateSet (Str k);
      added ← SAdd set (map Str ms);
      mret (vInt added)
  | _ => mret (wrong_args "sadd")
  end.

Definition srem (args : list Value) : T Value :=
  match args with
  | k :: (_ :: _) as ms =>
      set ← GetSet (Str k);
      match set with
      | None => mret (vInt 0)
      | Some set =>
          removed ← SRem set (map Str ms);
          _ ← drop_empty_set (Str k) set;
          mret (vInt removed)
      end
  | _ => mret (wrong_args "srem")
  end.

Definition sismember (args : list Value) : T Value :=
  match args with
  | [k; m] =>
      set ← GetSet (Str k);
      match set with
      | None => mret (vInt 0)
      | Some set => b ← SIsMember set (Str m); mret (vInt (if b : bool then 1 else 0))
      end
  | _ => mret (wrong_args "sismember")
  end.

Definition smembers (args : list Value) : T Value :=
  match args with
  | [k] =>
      set ← GetSet (Str k);
      match set with
      | None => mret (vArray [])
      | Some set => members ← SMembers set; mret (vArray (map vBulk members))
      end
  | _ => mret (wrong_args "smembers")
  end.

Definition scard (args : list Value) : T Value :=
  match args with
  | [k] =>
      set ← GetSet (Str k);
      match set with
      | None => mret (vInt 0)
      | Some set => n ← SCard set; mret (vInt n)
      end
  | _ => mret (wrong_args "scard")
  end.

Definition spop (args : list Value) : T Value :=
  match args with
  | [k] =>
      set ← GetSet (Str k);
      match set with
      | None => mret vNull
      | Some set =>
          '(member, ok) ← SPop set;
          if negb ok then mret vNull else
          _ ← drop_empty_set (Str k) set;
          mret (vBulk member)
      end
  | _ => mret (wrong_args "spop")
  end.

Fixpoint get_all_sets (keys : list Value) (otherSets : list nat) : T (option (list nat)) :=
  match keys with
  | [] => mret (Some otherSets)
  | k :: keys' =>
      set ← GetSet (Str k);
      match set with
      | None => mret None
      | Some set => get_all_sets keys' (otherSets ++ [set])
      end
  end.

Definition get_present_sets (keys : list Value) : T (list nat) :=
  task_for_fold (λ otherSets k,
    set ← GetSet (Str k);
    match set with
    | None => mret otherSets
    | Some set => mret (otherSets ++ [set])
    end) [] keys.

Definition sinter (args : list Value) : T Value :=
  match args with
  | k :: ks =>
      firstSet ← GetSet (Str k);
      match firstSet with
      | None => mret (vArray [])
      | Some firstSet =>
          otherSets ← get_all_sets ks [];
          match otherSets with
          | None => mret (vArray [])
          | Some otherSets =>
              members ← SInter firstSet otherSets;
              mret (vArray (map vBulk members))
          end
      end
  | _ => mret (wrong_args "sinter")
  end.

Definition sunion (args : list Value) : T Value :=
  match args with
  | k :: ks =>
      firstSet ← GetSet (Str k);
      firstSet ← match firstSet with Some set => mret set | None => do_step new_set end;
      otherSets ← get_present_sets ks;
      members ← SUnion firstSet otherSets;
      mret (vArray (map vBulk members))
  | _ => mret (wrong_args "sunion")
  end.

Definition sdiff (args : list Value) : T Value :=
  match args with
  | k :: ks =>
      firstSet ← GetSet (Str k);
      match firstSet with
      | None => mret (vArray [])
      | Some firstSet =>
          otherSets ← get_present_sets ks;
          members ← SDiff firstSet otherSets;
          mret (vArray (map vBulk members))
      end
  | _ => mret (wrong_args "sdiff")
  end.

(** The walk of a snapshot over the sets (the type RDB, [saveDatabase]), under
    the mutex of the database. *)
Definition save_sets : T (list (string * list string)) :=
  read_locked dbMu
    (sets ← do_step (n ← serial; sets ← gets sh_Sets; mret (map_range n sets));
     task_for_fold (λ saved '(key, set), members ← SMembers set; mret (saved ++ [(key, members)]))
       [] sets).

(** ** Locks in order *)
Lemma ordered_if {S A} held (b : bool) (p q : task S A) :
  ordered held held p → ordered held held q → ordered held held (if b then p else q).
Proof. by destruct b. Qed.

Lemma ordered_expire key : ordered [] [] (expireIfNeeded key).
Proof.
  eapply ordered_bind; [by apply ordered_read_locked|]. intros [exp|]; [|done].
  eapply ordered_bind; [apply ordered_do|]. intros now.
  apply ordered_if; [done|]. by apply ordered_write_locked.
Qed.

Lemma ordered_GetSet key : ordered [] [] (GetSet key).
Proof.
  eapply ordered_bind; [apply ordered_expire|]. intros []. by apply ordered_read_locked.
Qed.

Lemma ordered_GetOrCreateSet key : ordered [] [] (GetOrCreateSet key).
Proof.
  eapply ordered_bind; [apply ordered_expire|]. intros []. by apply ordered_write_locked.
Qed.

Lemma ordered_drop key s : ordered [] [] (drop_empty_set key s).
Proof.
  eapply ordered_bind; [by apply ordered_read_locked|]. intros n.
  apply ordered_if; [|done]. by apply ordered_write_locked.
Qed.

(** [set ← GetSet key] and what follows. *)
Lemma ordered_with_set {A} key (none : T A) (some : nat → T A) :
  ordered [] [] none → (∀ s, ordered [] [] (some s)) →
  ordered [] [] (set ← GetSet key; match set with None => none | Some set => some set end).
Proof. intros HN HS. eapply ordered_bind; [apply ordered_GetSet|]. by intros [s|]. Qed.

(** The handlers that hold one lock at a time. *)
Definition flat_handlers : list (string * (list Value → T Value)) :=
  [("SADD", sadd); ("SREM", srem); ("SISMEMBER", sismember); ("SMEMBERS", smembers);
   ("SCARD", scard); ("SPOP", spop)].

Lemma flat_ordered name h args : table_get name flat_handlers = Some h → ordered [] [] (h args).
Proof.
  intros Hh%table_get_In. unfold flat_handlers in Hh. rewrite !elem_of_cons in Hh.
  destruct Hh as [[= _ ->]|[[= _ ->]|[[= _ ->]|[[= _ ->]|[[= _ ->]|[[= _ ->]|Hn%elem_of_nil]]]]]]; [..|done].
  - destruct args as [|k [|m ms]]; try done.
    eapply ordered_bind; [apply ordered_GetOrCreateSet|]. intros s.
    eapply ordered_bind; [by apply ordered_write_locked|]. by intros n.
  - destruct args as [|k [|m ms]]; try done. apply ordered_with_set; [done|]. intros s.
    eapply ordered_bind; [by apply ordered_write_locked|]. intros n.
    eapply ordered_bind; [apply ordered_drop|]. by intros [].
  - destruct args as [|k [|m [|x ms]]]; try done. apply ordered_with_set; [done|]. intros s.
    eapply ordered_bind; [by apply ordered_read_locked|]. by intros b.
  - destruct args as [|k [|m ms]]; try done. apply ordered_with_set; [done|]. intros s.
    eapply ordered_bind; [by apply ordered_read_locked|]. by intros b.
  - destruct args as [|k [|m ms]]; try done. apply ordered_with_set; [done|]. intros s.
    eapply ordered_bind; [by apply ordered_read_locked|]. by intros b.
  - destruct args as [|k [|m ms]]; try done. apply ordered_with_set; [done|]. intros s.
    eapply ordered_bind; [by apply ordered_write_locked|]. intros [x ok].
    apply ordered_if; [done|]. eapply ordered_bind; [apply ordered_drop|]. by intros [].
Qed.

Lemma save_ordered : ordered [] [] save_sets.
Proof.
  apply ordered_read_locked; [done|]. eapply ordered_bind; [apply ordered_do|]. intros sets.
  apply ordered_fold. intros saved [key s].
  eapply ordered_bind; [by apply ordered_read_locked|]. by intros members.
Qed.
End ops.
