(* ===== verification/SetLocksFacts.v ===== *)
(** * SetLocksFacts: a set command alone is its sequential handler

    The simulation of [InterleaveFacts], for goroutines that take locks. *)
From S2P Require Import Prelude Go Locks Strconv Resp DataStruct PubSub Database.
From S2P Require Import StringCmds SetCmds Handler DbFacts Interleave InterleaveFacts SetLocks.

Section alone.
Context `{GoEnv}.

Lemma sim_tbind {A A' B B'} (R : A → B → Shared → Prop) (R' : A' → B' → Shared → Prop)
    (p : T A) (f : A → T A') (m : M Sess B) (g : B → M Sess B') s :
  sim R (task_alone p) m s →
  (∀ a b s', heap_ok s' → R a b s' → sim R' (task_alone (f a)) (g b) s') →
  sim R' (task_alone (p ≫= f)) (m ≫= g) s.
Proof.
  intros Hm Hf ps. rewrite task_alone_bind. by apply (sim_then R).
Qed.

Lemma sim_eq {A B} (R : A → B → Shared → Prop) (m1 m2 : M Shared A) (m' : M Sess B) s :
  m1 s = m2 s → sim R m2 m' s → sim R m1 m' s.
Proof. intros Heq Hm ps. rewrite Heq. apply Hm. Qed.

Lemma sim_read_locked {A B} (R : A → B → Shared → Prop) l (p : T A) (m : M Sess B) s :
  sim R (task_alone p) m s → sim R (task_alone (read_locked l p)) m s.
Proof. apply sim_eq, task_alone_read_locked. Qed.

Lemma sim_write_locked {A B} (R : A → B → Shared → Prop) l (p : T A) (m : M Sess B) s :
  sim R (task_alone p) m s → sim R (task_alone (write_locked l p)) m s.
Proof. apply sim_eq, task_alone_write_locked. Qed.

Lemma sim_do {A B} (R : A → B → Shared → Prop) (p : M Shared A) (m : M Sess B) s :
  sim R p m s → sim R (task_alone (do_step p)) m s.
Proof. apply sim_eq, task_alone_do. Qed.

Lemma sim_gets {A B} (R : A → B → Shared → Prop) (f : Shared → A) (g : Database → B) s :
  heap_ok s → R (f s) (g (view_db s)) s → sim R (gets f) (gets_db g) s.
Proof. intros Hs HR ps. by eexists. Qed.

Lemma sim_modify (R : () → () → Shared → Prop) (f : Shared → Shared) (g : Database → Database) s :
  heap_ok (f s) → sh_tick (f s) = sh_tick s → view_db (f s) = g (view_db s) → R () () (f s) →
  sim R (modify f) (modify_db g) s.
Proof.
  intros Hs Ht Hv HR ps. exists (). split_and!; [|done|done].
  unfold modify_db, modify, set_db, view. cbn. by rewrite <- Hv, Ht.
Qed.

(** *** The cells *)
Lemma members_insert_ne s c c' x : c ≠ c' →
  members (upd_sets <[c := x]> s) c' = members s c'.
Proof. intros Hc. unfold members. cbn. by rewrite list_lookup_insert_ne. Qed.

Lemma view_set_insert s key c x : heap_ok s → sh_Sets s !! key = Some c →
  view_db (upd_sets <[c := x]> s) = set_Sets <[key := x]> (view_db s).
Proof.
  intros [_ _ Hv Hi] Hk. unfold view_db, set_Sets. cbn. f_equal. apply map_eq. intros k.
  destruct (decide (k = key)) as [->|Hne].
  - rewrite lookup_insert_eq, lookup_fmap, Hk. cbn. unfold members. cbn.
    rewrite list_lookup_insert_eq; [done|]. by eapply Hv.
  - rewrite lookup_insert_ne, !lookup_fmap by done.
    destruct (sh_Sets s !! k) as [c'|] eqn:Hk'; [|done]. cbn. f_equal.
    apply members_insert_ne. intros <-. by apply Hne, (Hi k key c).
Qed.

Lemma view_new_set s : heap_ok s → view_db (upd_sets (λ x, x ++ [SetDS.NewSet]) s) = view_db s.
Proof.
  intros [_ _ Hv _]. unfold view_db. cbn. f_equal. apply map_fmap_ext. intros k c Hk.
  unfold members. cbn. by rewrite lookup_app_l by (by eapply Hv).
Qed.

Lemma view_new_cell key s : heap_ok s →
  view_db (upd_Sets <[key := length (sh_sets s)]> (upd_sets (λ x, x ++ [SetDS.NewSet]) s)) =
  set_Sets <[key := SetDS.NewSet]> (view_db s).
Proof.
  intros Hs. unfold set_Sets. rewrite <-(view_new_set s Hs). unfold view_db. cbn. f_equal.
  rewrite fmap_insert. f_equal. unfold members. cbn. by rewrite lookup_app_r, Nat.sub_diag by lia.
Qed.

Lemma view_sets_lookup s key : Sets (view_db s) !! key = members s <$> sh_Sets s !! key.
Proof. apply lookup_fmap. Qed.

Lemma heap_ok_sets s f : (length (sh_sets s) ≤ length (f (sh_sets s)))%nat →
  heap_ok s → heap_ok (upd_sets f s).
Proof.
  intros Hf [Hv Hi HSv HSi]. split; cbn; [done|done| |done]. intros k c Hk%HSv. lia.
Qed.

Lemma heap_ok_new_set key s : heap_ok s →
  heap_ok (upd_Sets <[key := length (sh_sets s)]> (upd_sets (λ x, x ++ [SetDS.NewSet]) s)).
Proof.
  intros [Hv Hi HSv HSi]. split; cbn; [done|done| |].
  - intros k c. rewrite length_app, lookup_insert_Some. cbn.
    intros [[_ <-]|[_ Hk%HSv]]; lia.
  - intros k1 k2 c. rewrite !lookup_insert_Some.
    intros [[<- <-]|[_ H1]] [[<- Hc]|[_ H2]]; try done.
    + apply HSv in H2. lia.
    + apply HSv in H1. lia.
    + by eapply HSi.
Qed.

Lemma sim_on_cell {A} key c (m : M (nat * gmap string ()) A) s : heap_ok s → sh_Sets s !! key = Some c →
  sim (λ a b s', a = b ∧ sh_Sets s' !! key = Some c) (on_cell c m) (on_set key m) s.
Proof.
  intros Hs Hk ps. unfold on_cell, on_set. cbn [s_db view].
  rewrite view_sets_lookup, Hk. cbn [fmap option_fmap option_map]. unfold members.
  destruct (lookup_lt_is_Some_2 (sh_sets s) c) as [x Hx]; [by eapply set_valid|].
  rewrite Hx. cbn. destruct (m (sh_tick s, x)) as [[a|e|e|] [n x']]; try done.
  eexists. split_and!; [|by destruct (heap_ok_sets s <[c := x']>
    ltac:(by rewrite length_insert) Hs)|done|done].
  cbn [s_db view s_ps]. by rewrite <-(view_set_insert s key c x' Hs Hk).
Qed.

(** *** The database *)
Lemma sim_expire key s : heap_ok s →
  sim (λ _ _ s', sh_sets s' = sh_sets s) (task_alone (expireIfNeeded key)) (Database.expireIfNeeded key) s.
Proof.
  intros Hs. eapply (sim_tbind (λ a b s', a = b ∧ s' = s)).
  { apply sim_read_locked, sim_do. by apply sim_gets. }
  intros exp _ s1 Hs1 [<- ->]. destruct exp as [exp|]; [|intros ps; by exists ()].
  eapply (sim_tbind (λ a b s', a = b ∧ sh_sets s' = sh_sets s)).
  { apply sim_do. intros ps. eexists. split_and!; [done|by destruct Hs|done|done]. }
  intros now _ s2 Hs2 [<- Hsets]. destruct (now <? exp); [intros ps; by exists ()|].
  apply sim_write_locked, sim_do, sim_modify; [by apply heap_ok_evict|done|apply view_evict|exact Hsets].
Qed.

(** What [GetSet] returns, against the set it finds. *)
Definition found (s : Shared) (key : string) (c : option nat) (x : option (gmap string ()))
    (s' : Shared) : Prop :=
  sh_sets s' = sh_sets s ∧
  match c, x with
  | Some c, Some x => sh_Sets s' !! key = Some c ∧ sh_sets s' !! c = Some x
  | None, None => True
  | _, _ => False
  end.

Lemma sim_GetSet key s : heap_ok s →
  sim (found s key) (task_alone (GetSet key)) (Database.GetSet key) s.
Proof.
  intros Hs. eapply sim_tbind; [by apply sim_expire|]. intros u u' s1 Hs1 Hsets.
  apply sim_read_locked, sim_do, sim_gets; [done|]. split; [done|].
  rewrite view_sets_lookup. destruct (sh_Sets s1 !! key) as [c|] eqn:Hk; cbn; [|done].
  split; [done|]. unfold members.
  by destruct (lookup_lt_is_Some_2 (sh_sets s1) c) as [x ->]; [by eapply set_valid|].
Qed.

Lemma sim_GetOrCreateSet key s : heap_ok s →
  sim (λ c _ s', sh_Sets s' !! key = Some c) (task_alone (GetOrCreateSet key)) (Database.GetOrCreateSet key) s.
Proof.
  intros Hs. eapply sim_tbind; [by apply sim_expire|]. intros u u' s1 Hs1 _.
  apply sim_write_locked, sim_do. intros ps. unfold find_or_create_set.
  destruct (sh_Sets s1 !! key) as [c|] eqn:Hk.
  - exists (). split_and!; [|done|done]. unfold mbind, M_bind, gets_db, gets.
    cbn [s_db view]. by rewrite view_sets_lookup, Hk.
  - exists (). split_and!; [|by apply heap_ok_new_set|cbn; by rewrite lookup_insert_eq].
    unfold mbind, M_bind, gets_db, gets. cbn [s_db view]. rewrite view_sets_lookup, Hk.
    cbn [fmap option_fmap option_map]. unfold modify_db, modify, view, set_db. cbn [s_tick s_db s_ps].
    by rewrite view_new_cell.
Qed.

(** *** Reading *)

(** The state after a [range]. *)
Definition ranged_state (s : Shared) : Shared := snd (serial s).

Lemma task_step_bind {A B} (p : T A) (f : A → T B) s a s' :
  task_alone p s = (Ok a, s') → task_alone (p ≫= f) s = task_alone (f a) s'.
Proof. intros Hp. by rewrite task_alone_bind, (bind_ok _ _ _ _ _ Hp). Qed.

Lemma on_cell_read {A} c (f : gmap string () → A) x s :
  sh_sets s !! c = Some x → on_cell c (still (gets f)) s = (Ok (f x), s).
Proof. intros Hx. unfold on_cell. rewrite Hx. cbn. rewrite list_insert_id by done. by destruct s. Qed.

Lemma on_cell_range c x s :
  sh_sets s !! c = Some x → on_cell c range_items s = (Ok (map_range (sh_tick s) x).*1, ranged_state s).
Proof. intros Hx. unfold on_cell. rewrite Hx. cbn. by rewrite list_insert_id. Qed.

Lemma SIsMember_run c m x s : sh_sets s !! c = Some x →
  task_alone (SIsMember c m) s = (Ok (SetDS.SIsMember x m), s).
Proof.
  intros Hx. unfold SIsMember. rewrite task_alone_read_locked, task_alone_do.
  by apply (on_cell_read c (λ x, SetDS.SIsMember x m)).
Qed.

Lemma SCard_run c x s : sh_sets s !! c = Some x → task_alone (SCard c) s = (Ok (SetDS.SCard x), s).
Proof.
  intros Hx. unfold SCard. rewrite task_alone_read_locked, task_alone_do. by apply on_cell_read.
Qed.

Lemma SMembers_run c x s : sh_sets s !! c = Some x →
  task_alone (SMembers c) s = (Ok (map_range (sh_tick s) x).*1, ranged_state s).
Proof.
  intros Hx. unfold SMembers. rewrite task_alone_read_locked, task_alone_do. by apply on_cell_range.
Qed.

(** The cells [cs] hold the sets [xs]. *)
Definition hold (s : Shared) (cs : list nat) (xs : list (gmap string ())) : Prop :=
  Forall2 (λ c x, sh_sets s !! c = Some x) cs xs.

Lemma in_all_run cs xs m s : hold s cs xs →
  task_alone (in_all cs m) s = (Ok (forallb (λ x, SetDS.SIsMember x m) xs), s).
Proof.
  induction 1 as [|c x cs xs Hx _ IH]; [done|]. cbn [in_all forallb].
  rewrite (task_step_bind _ _ _ _ _ (SIsMember_run c m x s Hx)).
  by destruct (SetDS.SIsMember x m).
Qed.

Lemma in_other_run cs xs m s : hold s cs xs →
  task_alone (in_other cs m) s = (Ok (existsb (λ x, SetDS.SIsMember x m) xs), s).
Proof.
  induction 1 as [|c x cs xs Hx _ IH]; [done|]. cbn [in_other existsb].
  rewrite (task_step_bind _ _ _ _ _ (SIsMember_run c m x s Hx)).
  by destruct (SetDS.SIsMember x m).
Qed.

(** A loop that keeps some of the members. *)
Lemma keep_run (f : list string → string → T (list string)) (P : string → bool) s :
  (∀ result m, task_alone (f result m) s = (Ok (if P m then result ++ [m] else result), s)) →
  ∀ l result, task_alone (task_for_fold f result l) s = (Ok (result ++ List.filter P l), s).
Proof.
  intros Hf l. induction l as [|m l IH]; intros result; [by rewrite app_nil_r|].
  cbn [task_for_fold List.filter]. rewrite (task_step_bind _ _ _ _ _ (Hf result m)), IH.
  destruct (P m); [by rewrite <-app_assoc|done].
Qed.

Lemma filter_same {A} (P : A → bool) l : (∀ m, P m = true) → List.filter P l = l.
Proof. intros HP. induction l as [|m l IH]; cbn; [done|]. by rewrite HP, IH. Qed.

Lemma SInter_run c cs x xs s : sh_sets s !! c = Some x → hold s cs xs →
  task_alone (SInter c cs) s =
  (Ok (List.filter (λ m, forallb (λ x, SetDS.SIsMember x m) xs) (map_range (sh_tick s) x).*1),
   ranged_state s).
Proof.
  intros Hx Hcs. unfold SInter. rewrite task_alone_read_locked.
  destruct Hcs as [|c' x' cs xs Hc' Hcs].
  - rewrite (SMembers_run c x s Hx). by rewrite filter_same.
  - erewrite task_step_bind; [|by rewrite task_alone_do; apply on_cell_range].
    rewrite (keep_run _ (λ m, forallb (λ x, SetDS.SIsMember x m) (x' :: xs))); [done|].
    intros result m. erewrite task_step_bind; [done|]. apply in_all_run. by constructor.
Qed.

Lemma SDiff_run c cs x xs s : sh_sets s !! c = Some x → hold s cs xs →
  task_alone (SDiff c cs) s =
  (Ok (List.filter (λ m, negb (existsb (λ x, SetDS.SIsMember x m) xs)) (map_range (sh_tick s) x).*1),
   ranged_state s).
Proof.
  intros Hx Hcs. unfold SDiff. rewrite task_alone_read_locked.
  erewrite task_step_bind; [|by rewrite task_alone_do; apply on_cell_range].
  rewrite (keep_run _ (λ m, negb (existsb (λ x, SetDS.SIsMember x m) xs))); [done|].
  intros result m. erewrite task_step_bind; [|by apply in_other_run].
  by destruct (existsb _ xs).
Qed.

(** [m] does on the serial numbers what the task does, and no more. *)
Lemma sim_ranged {A} (p : T A) (m : M nat A) a n s : heap_ok s →
  task_alone p s = (Ok a, mkShared n (sh_Store s) (sh_Lists s) (sh_Sets s) (sh_Hashes s)
    (sh_Expires s) (sh_listCond s) (sh_objects s) (sh_sets s)) →
  m (sh_tick s) = (Ok a, n) → sim same (task_alone p) (ranged m) s.
Proof.
  intros [Hv Hi HSv HSi] Hp Hm ps. rewrite Hp. exists a. split_and!; [|done|done].
  unfold ranged, zoom. cbn [s_tick view]. by rewrite Hm.
Qed.

Lemma sim_SInter c cs x xs s : heap_ok s → sh_sets s !! c = Some x → hold s cs xs →
  sim same (task_alone (SInter c cs)) (ranged (SetDS.SInter x xs)) s.
Proof.
  intros Hs Hx Hcs. eapply sim_ranged; [done|by apply SInter_run|].
  destruct xs; [|done]. unfold SetDS.SInter, SetDS.SMembers. cbn. by rewrite filter_same.
Qed.

Lemma sim_SDiff c cs x xs s : heap_ok s → sh_sets s !! c = Some x → hold s cs xs →
  sim same (task_alone (SDiff c cs)) (ranged (SetDS.SDiff x xs)) s.
Proof. intros Hs Hx Hcs. eapply sim_ranged; [done|by apply SDiff_run|done]. Qed.

Lemma sim_SMembers c x s : heap_ok s → sh_sets s !! c = Some x →
  sim same (task_alone (SMembers c)) (ranged (SetDS.SMembers x)) s.
Proof. intros Hs Hx. eapply sim_ranged; [done|by apply SMembers_run|done]. Qed.

Definition at_tick (n : nat) (s : Shared) : Shared :=
  mkShared n (sh_Store s) (sh_Lists s) (sh_Sets s) (sh_Hashes s) (sh_Expires s) (sh_listCond s)
    (sh_objects s) (sh_sets s).

Lemma union_fold_run cs : ∀ xs seen s, hold s cs xs →
  ∃ seen' n,
    task_alone (task_for_fold (λ seen other, members ← SMembers other; mret (add_all seen members))
      seen cs) s = (Ok seen', at_tick n s) ∧
    for_fold (λ seen other, members ← SetDS.SMembers other;
      mret (foldl (λ seen member, <[member := ()]> seen) seen members)) seen xs (sh_tick s) = (Ok seen', n).
Proof.
  induction cs as [|c cs IH]; intros xs seen s Hcs; inversion Hcs as [|? x ? xs' Hx Hcs']; subst.
  - exists seen, (sh_tick s). split; [by destruct s|done].
  - cbn [task_for_fold for_fold].
    erewrite task_step_bind; [|by erewrite task_step_bind; [|by apply SMembers_run]].
    destruct (IH xs' (add_all seen (map_range (sh_tick s) x).*1) (ranged_state s) Hcs') as (seen' & n & Hn & Hm).
    exists seen', n. split; [exact Hn|exact Hm].
Qed.

Lemma sim_SUnion c cs x xs s : heap_ok s → sh_sets s !! c = Some x → hold s cs xs →
  sim same (task_alone (SUnion c cs)) (ranged (SetDS.SUnion x xs)) s.
Proof.
  intros Hs Hx Hcs.
  destruct (union_fold_run cs xs (add_all ∅ (map_range (sh_tick s) x).*1) (ranged_state s) Hcs)
    as (seen & n & Hn & Hm).
  apply (sim_ranged _ _ (map_range n seen).*1 (S n)); [done| |].
  - unfold SUnion. rewrite task_alone_read_locked.
    erewrite task_step_bind; [|by rewrite task_alone_do; apply on_cell_range].
    by erewrite task_step_bind; [|exact Hn].
  - unfold SetDS.SUnion. rewrite (bind_ok _ _ _ (sh_tick s) (S (sh_tick s))) by done. cbn zeta.
    by rewrite (bind_ok _ _ _ _ _ Hm).
Qed.

(** *** The handlers *)
Definition sim_set_handler (h : list Value → T Value) (h' : list Value → M Sess Value) : Prop :=
  ∀ args s, heap_ok s → sim same (task_alone (h args)) (h' args) s.

Lemma sim_ret_same {A} (a : A) s : heap_ok s → sim same (task_alone (mret a)) (mret a) s.
Proof. intros Hs ps. by exists a. Qed.

Lemma sim_with_set {A} key (f : option nat → T A) (g : option (gmap string ()) → M Sess A) s :
  heap_ok s →
  (∀ s1, heap_ok s1 → sim same (task_alone (f None)) (g None) s1) →
  (∀ c x s1, heap_ok s1 → sh_Sets s1 !! key = Some c → sh_sets s1 !! c = Some x →
    sim same (task_alone (f (Some c))) (g (Some x)) s1) →
  sim same (task_alone (GetSet key ≫= f)) (Database.GetSet key ≫= g) s.
Proof.
  intros Hs Hnone Hsome. eapply sim_tbind; [by apply sim_GetSet|].
  intros [c|] [x|] s1 Hs1 [_ Hl]; try done; [|by apply Hnone]. destruct Hl. by apply Hsome.
Qed.

Lemma sim_method_set {A B} key c (p : T A) m (f : A → T B) (g : A → M Sess B) s :
  heap_ok s → sh_Sets s !! key = Some c → task_alone p s = on_cell c m s →
  (∀ a s1, heap_ok s1 → sh_Sets s1 !! key = Some c → sim same (task_alone (f a)) (g a) s1) →
  sim same (task_alone (p ≫= f)) (on_set key m ≫= g) s.
Proof.
  intros Hs Hk Hp Hf. eapply sim_tbind; [by eapply sim_eq; [exact Hp|apply sim_on_cell]|].
  intros a b s1 Hs1 [<- Hc]. auto.
Qed.

Lemma sim_drop key c s : heap_ok s → sh_Sets s !! key = Some c →
  sim same (task_alone (drop_empty_set key c)) (SetCmds.drop_empty_set key) s.
Proof.
  intros Hs Hk. eapply sim_method_set; [done|done|by unfold SCard; rewrite task_alone_read_locked, task_alone_do|].
  intros n s1 Hs1 _. destruct (n =? 0); [|by apply sim_ret_same].
  apply sim_write_locked, sim_do, sim_modify; [by apply heap_ok_delete_set|done| |done].
  unfold view_db, set_Sets. cbn. by rewrite fmap_delete.
Qed.

Lemma sim_sadd : sim_set_handler sadd SetCmds.sadd.
Proof.
  intros [|k [|m ms]] s Hs; [by apply sim_ret_same..|]. unfold sadd, SetCmds.sadd.
  eapply sim_tbind; [by apply sim_GetOrCreateSet|]. intros c u s1 Hs1 Hc.
  eapply sim_method_set; [done|exact Hc|by unfold SAdd; rewrite task_alone_write_locked, task_alone_do|].
  intros n s2 Hs2 _. by apply sim_ret_same.
Qed.

Lemma sim_srem : sim_set_handler srem SetCmds.srem.
Proof.
  intros [|k [|m ms]] s Hs; [by apply sim_ret_same..|]. unfold srem, SetCmds.srem.
  apply sim_with_set; [done|intros; by apply sim_ret_same|]. intros c x s1 Hs1 Hk Hx.
  eapply sim_method_set; [done|exact Hk|by unfold SRem; rewrite task_alone_write_locked, task_alone_do|].
  intros n s2 Hs2 Hk2. eapply sim_tbind; [by apply sim_drop|]. intros _ _ s3 Hs3 _.
  by apply sim_ret_same.
Qed.

Lemma sim_sismember : sim_set_handler sismember SetCmds.sismember.
Proof.
  intros [|k [|m [|y ms]]] s Hs; try by apply sim_ret_same. unfold sismember, SetCmds.sismember.
  apply sim_with_set; [done|intros; by apply sim_ret_same|]. intros c x s1 Hs1 Hk Hx.
  eapply sim_eq; [by apply task_step_bind, SIsMember_run|]. by apply sim_ret_same.
Qed.

Lemma sim_scard : sim_set_handler scard SetCmds.scard.
Proof.
  intros [|k [|m ms]] s Hs; try by apply sim_ret_same. unfold scard, SetCmds.scard.
  apply sim_with_set; [done|intros; by apply sim_ret_same|]. intros c x s1 Hs1 Hk Hx.
  eapply sim_eq; [by apply task_step_bind, SCard_run|]. by apply sim_ret_same.
Qed.

Lemma sim_smembers : sim_set_handler smembers SetCmds.smembers.
Proof.
  intros [|k [|m ms]] s Hs; try by apply sim_ret_same. unfold smembers, SetCmds.smembers.
  apply sim_with_set; [done|intros; by apply sim_ret_same|]. intros c x s1 Hs1 Hk Hx.
  eapply sim_tbind; [by apply sim_SMembers|]. intros l _ s2 Hs2 <-. by apply sim_ret_same.
Qed.

Lemma sim_spop : sim_set_handler spop SetCmds.spop.
Proof.
  intros [|k [|m ms]] s Hs; try by apply sim_ret_same. unfold spop, SetCmds.spop.
  apply sim_with_set; [done|intros; by apply sim_ret_same|]. intros c x s1 Hs1 Hk Hx.
  eapply sim_method_set; [done|exact Hk|by unfold SPop; rewrite task_alone_write_locked, task_alone_do|].
  intros [y []] s2 Hs2 Hk2; cbn [negb]; [|by apply sim_ret_same].
  eapply sim_tbind; [by apply sim_drop|]. intros _ _ s3 Hs3 _. by apply sim_ret_same.
Qed.

Lemma hold_same s s' cs xs : sh_sets s' = sh_sets s → hold s cs xs → hold s' cs xs.
Proof. unfold hold. by intros ->. Qed.

Definition same_sets (s : Shared) (cs : option (list nat)) (xs : option (list (gmap string ())))
    (s' : Shared) : Prop :=
  sh_sets s' = sh_sets s ∧
  match cs, xs with
  | Some cs, Some xs => hold s' cs xs
  | None, None => True
  | _, _ => False
  end.

Lemma sim_get_all_sets ks : ∀ cs xs s, heap_ok s → hold s cs xs →
  sim (same_sets s) (task_alone (get_all_sets ks cs)) (SetCmds.get_all_sets ks xs) s.
Proof.
  induction ks as [|k ks IH]; intros cs xs s Hs Hcs; [intros ps; by exists (Some xs)|].
  cbn [get_all_sets SetCmds.get_all_sets]. eapply sim_tbind; [by apply sim_GetSet|].
  intros [c|] [x|] s1 Hs1 [Hsets Hl]; try done; [|intros ps; by exists None].
  eapply sim_imp; [|apply IH; [done|]].
  - intros a b s2 [Hsets2 Hab]. split; [congruence|done].
  - apply Forall2_app; [by eapply hold_same|]. constructor; [by destruct Hl|constructor].
Qed.

Lemma sim_get_present_sets ks s : heap_ok s →
  sim (λ cs xs s', sh_sets s' = sh_sets s ∧ hold s' cs xs)
    (task_alone (get_present_sets ks)) (SetCmds.get_present_sets ks) s.
Proof.
  assert (Hgen : ∀ cs xs s0 s, heap_ok s → sh_sets s = sh_sets s0 → hold s cs xs →
    sim (λ cs xs s', sh_sets s' = sh_sets s0 ∧ hold s' cs xs)
      (task_alone (task_for_fold (λ otherSets k,
        set ← GetSet (Str k);
        match set with None => mret otherSets | Some set => mret (otherSets ++ [set]) end) cs ks))
      (for_fold (λ otherSets k,
        set ← Database.GetSet (Str k);
        match set with None => mret otherSets | Some set => mret (otherSets ++ [set]) end) xs ks) s);
    [|intros Hs; by apply Hgen; [..|constructor]].
  induction ks as [|k ks IH]; intros cs xs s0 s1 Hs1 Hs0 Hcs; [intros ps; by exists xs|].
  cbn [task_for_fold for_fold].
  eapply (sim_tbind (λ cs xs s', sh_sets s' = sh_sets s0 ∧ hold s' cs xs)).
  - eapply sim_tbind; [by apply sim_GetSet|]. intros [c|] [x|] s2 Hs2 [Hsets Hl]; try done.
    + intros ps. exists (xs ++ [x]). split_and!; [done|done|congruence|].
      apply Forall2_app; [by eapply hold_same|]. constructor; [by destruct Hl|constructor].
    + intros ps. exists xs. split_and!; [done|done|congruence|by eapply hold_same].
  - intros cs' xs' s2 Hs2 [Hsets Hcs']. by apply IH.
Qed.

Lemma sim_sinter : sim_set_handler sinter SetCmds.sinter.
Proof.
  intros [|k ks] s Hs; [by apply sim_ret_same|]. unfold sinter, SetCmds.sinter.
  apply sim_with_set; [done|intros; by apply sim_ret_same|]. intros c x s1 Hs1 Hk Hx.
  eapply sim_tbind; [by apply sim_get_all_sets; [|constructor]|].
  intros [cs|] [xs|] s2 Hs2 [Hsets Hcs]; try done; [|by apply sim_ret_same].
  eapply sim_tbind; [by apply sim_SInter; [|rewrite Hsets|]|].
  intros l _ s3 Hs3 <-. by apply sim_ret_same.
Qed.

Lemma sim_sdiff : sim_set_handler sdiff SetCmds.sdiff.
Proof.
  intros [|k ks] s Hs; [by apply sim_ret_same|]. unfold sdiff, SetCmds.sdiff.
  apply sim_with_set; [done|intros; by apply sim_ret_same|]. intros c x s1 Hs1 Hk Hx.
  eapply sim_tbind; [by apply sim_get_present_sets|]. intros cs xs s2 Hs2 [Hsets Hcs].
  eapply sim_tbind; [by apply sim_SDiff; [|rewrite Hsets|]|].
  intros l _ s3 Hs3 <-. by apply sim_ret_same.
Qed.

Lemma sim_sunion : sim_set_handler sunion SetCmds.sunion.
Proof.
  intros [|k ks] s Hs; [by apply sim_ret_same|]. unfold sunion, SetCmds.sunion.
  eapply sim_tbind; [by apply sim_GetSet|]. intros c x s1 Hs1 [_ Hl]. cbn zeta.
  assert (Hrest : ∀ c x s2, heap_ok s2 → sh_sets s2 !! c = Some x →
    sim same (task_alone (otherSets ← get_present_sets ks; members ← SUnion c otherSets;
                          mret (vArray (map vBulk members))))
      (otherSets ← SetCmds.get_present_sets ks; members ← ranged (SetDS.SUnion x otherSets);
       mret (vArray (map vBulk members))) s2).
  { intros c' x' s2 Hs2 Hx. eapply sim_tbind; [by apply sim_get_present_sets|].
    intros cs xs s3 Hs3 [Hsets Hcs].
    eapply sim_tbind; [by apply sim_SUnion; [|rewrite Hsets|]|].
    intros l _ s4 Hs4 <-. by apply sim_ret_same. }
  destruct c as [c|], x as [x|]; try done.
  - destruct Hl as [_ Hx]. by apply Hrest.
  - intros ps. assert (Hnew : task_alone (do_step new_set) s1 =
      (Ok (length (sh_sets s1)), upd_sets (λ x, x ++ [SetDS.NewSet]) s1)) by done.
    rewrite (task_step_bind _ _ _ _ _ Hnew).
    assert (Hs2 : heap_ok (upd_sets (λ x, x ++ [SetDS.NewSet]) s1))
      by (apply heap_ok_sets; [rewrite length_app; lia|done]).
    pose proof (Hrest (length (sh_sets s1)) SetDS.NewSet _ Hs2
      ltac:(cbn; by rewrite lookup_app_r, Nat.sub_diag by lia) ps) as H1.
    unfold view in H1. rewrite (view_new_set s1 Hs1) in H1. exact H1.
Qed.
End alone.

