(* ===== verification/SetLocksSafe.v ===== *)
(** * SetLocksSafe: set commands that interleave

    However the lock operations and the steps of the set commands interleave,
    nothing fails, and each step changes only what its locks protect: the rules
    of [steady], for every method and handler of [SetLocks]. *)
From S2P Require Import Prelude Go Locks Steady Strconv Resp DataStruct PubSub Database.
From S2P Require Import StringCmds SetCmds Handler DbFacts Interleave InterleaveFacts SetLocks SetLocksFacts.

Definition no_fewer_sets (s s' : Shared) : Prop := (length (sh_sets s) ≤ length (sh_sets s'))%nat.
#[export] Instance no_fewer_sets_order : PreOrder no_fewer_sets.
Proof. unfold no_fewer_sets. split; [intros s; lia|intros s1 s2 s3; lia]. Qed.

(** What a step may do: change the maps only under [db.Mu], and a set only under
    its own mutex, both held for writing. *)
Definition maps (s : Shared) :=
  (sh_Store s, sh_Lists s, sh_Sets s, sh_Hashes s, sh_Expires s).
Record lawful (held : list Hold) (s s' : Shared) : Prop := {
  lawful_maps : maps s' = maps s ∨ (dbMu, HWrite) ∈ held;
  lawful_cells c x : sh_sets s !! c = Some x →
    sh_sets s' !! c = Some x ∨ (setMu c, HWrite) ∈ held;
}.

Lemma lawful_nothing held s s' : maps s' = maps s → sh_sets s' = sh_sets s → lawful held s s'.
Proof. intros Hm Hs. split; [by left|]. intros c x. rewrite Hs. by left. Qed.

Lemma lawful_maps_only held s s' : (dbMu, HWrite) ∈ held → sh_sets s' = sh_sets s → lawful held s s'.
Proof. intros Hm Hs. split; [by right|]. intros c x. rewrite Hs. by left. Qed.

Abbreviation steadyT := (steadily heap_ok no_fewer_sets lawful).
Abbreviation then_ := (steadily_then heap_ok no_fewer_sets lawful).
Abbreviation ret_ := (steadily_ret heap_ok no_fewer_sets lawful).
Abbreviation do_ := (steadily_do heap_ok no_fewer_sets lawful).
Abbreviation read_locked_ := (steadily_read_locked heap_ok no_fewer_sets lawful).
Abbreviation write_do_ := (steadily_write_do heap_ok no_fewer_sets lawful).

Section together.
Context `{GoEnv}.

(** The cell exists. *)
Definition made (c : nat) (s : Shared) : Prop := (c < length (sh_sets s))%nat.
Definition all_made (cs : list nat) (s : Shared) : Prop := Forall (λ c, made c s) cs.
Definition unless_made (c : option nat) (s : Shared) : Prop :=
  match c with Some c => made c s | None => True end.

Lemma made_older c s s' : no_fewer_sets s s' → made c s → made c s'.
Proof. unfold no_fewer_sets, made. lia. Qed.

Lemma all_made_older cs s s' : no_fewer_sets s s' → all_made cs s → all_made cs s'.
Proof. intros Hs Hcs. eapply list.Forall_impl; [exact Hcs|]. intros c. by apply made_older. Qed.

(** A method of a set that exists. *)
Lemma on_cell_run {A} c (m : M (nat * gmap string ()) A) s :
  heap_ok s → made c s → (∀ x, ∃ a x', m x = (Ok a, x')) →
  ∃ a n x x', on_cell c m s = (Ok a, at_tick n (upd_sets <[c := x']> s)) ∧ sh_sets s !! c = Some x ∧
    m (sh_tick s, x) = (Ok a, (n, x')) ∧ heap_ok (at_tick n (upd_sets <[c := x']> s)) ∧
    no_fewer_sets s (at_tick n (upd_sets <[c := x']> s)).
Proof.
  intros Hok Hc Hm. destruct (lookup_lt_is_Some_2 (sh_sets s) c Hc) as [x Hx].
  destruct (Hm (sh_tick s, x)) as (a & [n x'] & Hrun). exists a, n, x, x'.
  unfold on_cell. rewrite Hx, Hrun. split_and!; [done..| |].
  - by destruct (heap_ok_sets s <[c := x']> ltac:(by rewrite length_insert) Hok).
  - unfold no_fewer_sets. cbn. by rewrite length_insert.
Qed.

Lemma steady_on_cell {A} c (m : M (nat * gmap string ()) A) (Q : A → Shared → Prop) s :
  made c s → (∀ n x, ∃ a n', m (n, x) = (Ok a, (n', x))) → (∀ a s', no_fewer_sets s s' → Q a s') →
  steadyT (do_step (on_cell c m)) Q s.
Proof.
  intros Hc Hm HQ. apply do_. intros s1 Hs1 Hok.
  destruct (on_cell_run c m s1) as (a & n & x & x' & Hrun & Hx & Hmx & Hok2 & Hle);
    [done|by eapply made_older|intros [k y]; destruct (Hm k y) as (a & k' & Hy); eauto|].
  eexists a, _. split_and!; [exact Hrun|done|done| |].
  - destruct (Hm (sh_tick s1) x) as (a' & n' & Hm'). rewrite Hmx in Hm'. injection Hm' as -> -> ->.
    intros held. apply lawful_nothing; [done|]. cbn. by rewrite list_insert_id.
  - intros s3 Hs3. apply HQ. etrans; [exact Hs1|]. by etrans.
Qed.

Lemma steady_write_cell {A} c (m : M (nat * gmap string ()) A) (Q : A → Shared → Prop) s :
  made c s → (∀ x, ∃ a x', m x = (Ok a, x')) → (∀ a s', no_fewer_sets s s' → Q a s') →
  steadyT (write_locked (setMu c) (do_step (on_cell c m))) Q s.
Proof.
  intros Hc Hm HQ. apply write_do_. intros s1 Hs1 Hok.
  destruct (on_cell_run c m s1) as (a & n & x & x' & Hrun & Hx & _ & Hok2 & Hle);
    [done|by eapply made_older|done|].
  eexists a, _. split_and!; [exact Hrun|done|done| |].
  - intros held Hheld. split; [by left|]. intros c' y Hy. cbn.
    destruct (decide (c = c')) as [<-|Hne]; [by right|left]. by rewrite list_lookup_insert_ne.
  - intros s3 Hs3. apply HQ. etrans; [exact Hs1|]. by etrans.
Qed.

Lemma steady_fold {X B} (I : B → Shared → Prop) (f : B → X → T B) l : ∀ b s,
  (∀ b x s, (∀ s', no_fewer_sets s s' → I b s') → steadyT (f b x) I s) →
  (∀ s', no_fewer_sets s s' → I b s') → steadyT (task_for_fold f b l) I s.
Proof.
  induction l as [|x l IH]; intros b s Hf Hb; [by apply ret_|].
  cbn [task_for_fold]. apply (then_ I); [by apply Hf|]. intros b' s'. by apply IH.
Qed.

Lemma steady_expire key s (Q : () → Shared → Prop) :
  (∀ s', no_fewer_sets s s' → Q () s') → steadyT (expireIfNeeded key) Q s.
Proof.
  intros HQ. apply (then_ (λ _ s', no_fewer_sets s s')).
  { apply read_locked_, do_. intros s1 Hs1 Hok1. eexists _, s1.
    split_and!; [done..|intros held; by apply lawful_nothing|]. intros s3 Hs3. by etrans. }
  intros [exp|] s1 Hs1; [|apply ret_; intros s2 Hs2; by apply HQ, Hs1].
  apply (then_ (λ _ s', no_fewer_sets s s')).
  { apply do_. intros s2 Hs2 Hok2. eexists _, _. split_and!; [done|by destruct Hok2|apply Nat.le_refl|..].
    - intros held. by apply lawful_nothing.
    - intros s3 Hs3. by etrans; [by apply Hs1|]. }
  intros now s2 Hs2. destruct (now <? exp); [apply ret_; intros s3 Hs3; by apply HQ, Hs2|].
  apply write_do_. intros s3 Hs3 Hok3. eexists _, _.
  split_and!; [done|by apply heap_ok_evict|apply Nat.le_refl|intros held Hh; by apply lawful_maps_only|].
  intros s4 Hs4. apply HQ. by etrans; [by apply Hs2|].
Qed.

Lemma steady_GetSet {A} key s (f : option nat → T A) (Q : A → Shared → Prop) :
  (∀ s', no_fewer_sets s s' → steadyT (f None) Q s') →
  (∀ c s', no_fewer_sets s s' → made c s' → steadyT (f (Some c)) Q s') →
  steadyT (GetSet key ≫= f) Q s.
Proof.
  intros HN HS. apply (then_ (λ r s', no_fewer_sets s s' ∧ unless_made r s')).
  - apply (then_ (λ _ s', no_fewer_sets s s')); [by apply steady_expire|]. intros u s1 Hs1.
    apply read_locked_, do_. intros s2 Hs2 Hok2. eexists _, s2.
    split_and!; [done..|intros held; by apply lawful_nothing|]. intros s3 Hs3. split; [by etrans; [by apply Hs1|]|].
    destruct (sh_Sets s2 !! key) as [c|] eqn:Hc; [|done]. cbn.
    eapply made_older; [exact Hs3|]. by eapply set_valid.
  - intros [c|] s1 Hs1; destruct (Hs1 s1 ltac:(reflexivity)); auto.
Qed.

Lemma steady_GetOrCreateSet {A} key s (f : nat → T A) (Q : A → Shared → Prop) :
  (∀ c s', no_fewer_sets s s' → made c s' → steadyT (f c) Q s') →
  steadyT (GetOrCreateSet key ≫= f) Q s.
Proof.
  intros HS. apply (then_ (λ c s', no_fewer_sets s s' ∧ made c s')).
  - apply (then_ (λ _ s', no_fewer_sets s s')); [by apply steady_expire|]. intros u s1 Hs1.
    apply write_do_. intros s2 Hs2 Hok2. unfold find_or_create_set.
    destruct (sh_Sets s2 !! key) as [c|] eqn:Hc; eexists _, _; (split_and!; [done| | | |]).
    + done.
    + apply Nat.le_refl.
    + intros held Hh. by apply lawful_maps_only.
    + intros s3 Hs3. split; [by etrans; [by apply Hs1|]|].
      eapply made_older; [exact Hs3|]. by eapply set_valid.
    + by apply heap_ok_new_set.
    + unfold no_fewer_sets. cbn. rewrite length_app. lia.
    + intros held Hh. split; [by right|]. intros c x Hx. left. cbn. by apply lookup_app_l_Some.
    + unfold no_fewer_sets, made. cbn. rewrite length_app. cbn. intros s3 Hs3.
      specialize (Hs1 s2 Hs2). unfold no_fewer_sets in Hs1. lia.
  - intros c s1 Hs1. destruct (Hs1 s1 ltac:(reflexivity)). auto.
Qed.

(** A method of a set, and what follows. *)
Lemma steady_read {A B} c (m : M (nat * gmap string ()) A) (f : A → T B) s (Q : B → Shared → Prop) :
  made c s → (∀ n x, ∃ a n', m (n, x) = (Ok a, (n', x))) →
  (∀ a s', no_fewer_sets s s' → steadyT (f a) Q s') →
  steadyT (read_locked (setMu c) (do_step (on_cell c m)) ≫= f) Q s.
Proof.
  intros Hc Hm Hf. apply (then_ (λ _ s', no_fewer_sets s s')).
  - by apply read_locked_, steady_on_cell.
  - intros a s1 Hs1. apply Hf, Hs1. reflexivity.
Qed.

Lemma steady_write {A B} c (m : M (nat * gmap string ()) A) (f : A → T B) s (Q : B → Shared → Prop) :
  made c s → (∀ x, ∃ a x', m x = (Ok a, x')) →
  (∀ a s', no_fewer_sets s s' → steadyT (f a) Q s') →
  steadyT (write_locked (setMu c) (do_step (on_cell c m)) ≫= f) Q s.
Proof.
  intros Hc Hm Hf. apply (then_ (λ _ s', no_fewer_sets s s')).
  - by apply steady_write_cell.
  - intros a s1 Hs1. apply Hf, Hs1. reflexivity.
Qed.

Lemma still_runs {A} (m : M (gmap string ()) A) : (∀ x, ∃ a x', m x = (Ok a, x')) →
  ∀ x, ∃ a x', still m x = (Ok a, x').
Proof.
  intros Hm [n x]. destruct (Hm x) as (a & x' & Hx). eexists a, _.
  unfold still, zoom. cbn. by rewrite Hx.
Qed.

Lemma fold_runs {S X B} (f : B → X → M S B) l : (∀ b x s, ∃ b' s', f b x s = (Ok b', s')) →
  ∀ b s, ∃ b' s', for_fold f b l s = (Ok b', s').
Proof.
  intros Hf. induction l as [|x l IH]; intros b s; [by exists b, s|].
  destruct (Hf b x s) as (b1 & s1 & H1). cbn [for_fold]. rewrite (bind_ok _ _ _ _ _ H1). apply IH.
Qed.

Lemma SAdd_runs ms x : ∃ n x', SetDS.SAdd ms x = (Ok n, x').
Proof. apply fold_runs. intros n m s. destruct (s !! m); eauto. Qed.

Lemma SRem_runs ms x : ∃ n x', SetDS.SRem ms x = (Ok n, x').
Proof. apply fold_runs. intros n m s. destruct (s !! m); eauto. Qed.

Lemma SPop_runs x : ∃ r x', SetDS.SPop x = (Ok r, x').
Proof.
  destruct x as [n items]. unfold SetDS.SPop. destruct (_ =? _); [by eauto|].
  destruct (map_range n items) as [|[m u] l]; eauto.
Qed.

Lemma range_runs n x : ∃ l n', range_items (n, x) = (Ok l, (n', x)).
Proof. by eexists _, _. Qed.

Lemma gets_runs {A} (f : gmap string () → A) n x : ∃ a n', still (gets f) (n, x) = (Ok a, (n', x)).
Proof. by eexists _, _. Qed.

(** Nothing more to promise. *)
Definition any {A} : A → Shared → Prop := λ _ _, True.

Lemma steady_drop key c s : made c s → steadyT (drop_empty_set key c) any s.
Proof.
  intros Hc. apply steady_read; [done|apply gets_runs|]. intros n s1 Hs1.
  destruct (n =? 0); [|done]. apply write_do_. intros s2 Hs2 Hok. eexists _, _.
  split_and!; [done|by apply heap_ok_delete_set|apply Nat.le_refl| |done].
  intros held Hh. by apply lawful_maps_only.
Qed.

Lemma steady_end {A B} (p : T A) (v : A → B) s :
  steadyT p any s → steadyT (a ← p; mret (v a)) any s.
Proof. intros Hp. by apply (then_ any). Qed.

Lemma steady_sadd args s : steadyT (sadd args) any s.
Proof.
  destruct args as [|k [|m ms]]; try done. apply steady_GetOrCreateSet. intros c s1 Hs1 Hc.
  apply steady_write; [done|apply still_runs, SAdd_runs|done].
Qed.

Lemma steady_srem args s : steadyT (srem args) any s.
Proof.
  destruct args as [|k [|m ms]]; try done. apply steady_GetSet; [done|]. intros c s1 Hs1 Hc.
  apply steady_write; [done|apply still_runs, SRem_runs|]. intros n s2 Hs2.
  by eapply (steady_end _ (λ _, _)), steady_drop, made_older.
Qed.

Lemma steady_sismember args s : steadyT (sismember args) any s.
Proof.
  destruct args as [|k [|m [|y ms]]]; try done. apply steady_GetSet; [done|]. intros c s1 Hs1 Hc.
  apply steady_read; [done|apply gets_runs|done].
Qed.

Lemma steady_smembers args s : steadyT (smembers args) any s.
Proof.
  destruct args as [|k [|m ms]]; try done. apply steady_GetSet; [done|]. intros c s1 Hs1 Hc.
  apply steady_read; [done|apply range_runs|done].
Qed.

Lemma steady_scard args s : steadyT (scard args) any s.
Proof.
  destruct args as [|k [|m ms]]; try done. apply steady_GetSet; [done|]. intros c s1 Hs1 Hc.
  apply steady_read; [done|apply gets_runs|done].
Qed.

Lemma steady_spop args s : steadyT (spop args) any s.
Proof.
  destruct args as [|k [|m ms]]; try done. apply steady_GetSet; [done|]. intros c s1 Hs1 Hc.
  apply steady_write; [done|apply SPop_runs|]. intros [x []] s2 Hs2; [|done].
  by eapply (steady_end _ (λ _, _)), steady_drop, made_older.
Qed.

(** The loops over several sets. *)
Lemma steady_in_all cs m s : all_made cs s → steadyT (in_all cs m) any s.
Proof.
  revert s. induction cs as [|c cs IH]; intros s Hcs; [done|]. apply list.Forall_cons in Hcs as [Hc Hcs].
  apply steady_read; [done|apply gets_runs|]. intros b s1 Hs1.
  destruct (negb b); [done|]. by eapply IH, all_made_older.
Qed.

Lemma steady_in_other cs m s : all_made cs s → steadyT (in_other cs m) any s.
Proof.
  revert s. induction cs as [|c cs IH]; intros s Hcs; [done|]. apply list.Forall_cons in Hcs as [Hc Hcs].
  apply steady_read; [done|apply gets_runs|]. intros b s1 Hs1.
  destruct b; [done|]. by eapply IH, all_made_older.
Qed.

Lemma steady_SMembers c s : made c s → steadyT (SMembers c) any s.
Proof. intros Hc. by apply read_locked_, steady_on_cell; [|apply range_runs|]. Qed.


(** What follows a step of which only the end matters. *)
Lemma steady_next {A B} (p : T A) (f : A → T B) s :
  steadyT p any s → (∀ a s', no_fewer_sets s s' → steadyT (f a) any s') →
  steadyT (p ≫= f) any s.
Proof.
  intros Hp Hf. apply (then_ (λ _ s', no_fewer_sets s s')).
  - by eapply (steadily_from heap_ok no_fewer_sets lawful).
  - intros a s' Hs. apply Hf, Hs. reflexivity.
Qed.

Lemma steady_loop {X B} (f : B → X → T B) l b s :
  (∀ b x s', x ∈ l → no_fewer_sets s s' → steadyT (f b x) any s') →
  steadyT (task_for_fold f b l) any s.
Proof.
  revert b s. induction l as [|x l IH]; intros b s Hf; [done|]. cbn [task_for_fold].
  apply steady_next; [by apply Hf; [left|]|]. intros b' s' Hs. apply IH.
  intros b2 y s2 Hy Hs2. apply Hf; [by right|by etrans].
Qed.

Lemma steady_range c s : made c s → steadyT (do_step (on_cell c range_items)) any s.
Proof. intros Hc. by apply steady_on_cell; [|apply range_runs|]. Qed.

Lemma steady_SInter c cs s : made c s → all_made cs s → steadyT (SInter c cs) any s.
Proof.
  intros Hc Hcs. apply read_locked_. destruct cs as [|c' cs]; [by apply steady_SMembers|].
  apply steady_next; [by apply steady_range|]. intros l s1 Hs1. apply steady_loop.
  intros b x s2 _ Hs2. apply (steady_end _ (λ _, _)), steady_in_all.
  eapply all_made_older; [|done]. by etrans.
Qed.

Lemma steady_SDiff c cs s : made c s → all_made cs s → steadyT (SDiff c cs) any s.
Proof.
  intros Hc Hcs. apply read_locked_, steady_next; [by apply steady_range|]. intros l s1 Hs1.
  apply steady_loop. intros b x s2 _ Hs2. apply (steady_end _ (λ _, _)), steady_in_other.
  eapply all_made_older; [|done]. by etrans.
Qed.

Lemma steady_SUnion c cs s : made c s → all_made cs s → steadyT (SUnion c cs) any s.
Proof.
  intros Hc Hcs. apply read_locked_, steady_next; [by apply steady_range|]. intros l s1 Hs1.
  apply steady_next.
  - apply steady_loop. intros b x s2 Hx Hs2. apply (steady_end _ (λ _, _)), steady_SMembers.
    unfold all_made in Hcs. rewrite list.Forall_forall in Hcs. eapply made_older; [|by apply Hcs]. by etrans.
  - intros seen s2 Hs2. apply (steady_end _ (λ _, _)), do_. intros s3 _ Hok.
    eexists _, _.
    split_and!; [done|by destruct Hok|apply Nat.le_refl|intros held; by apply lawful_nothing|done].
Qed.

Definition unless_all_made (cs : option (list nat)) (s : Shared) : Prop :=
  match cs with Some cs => all_made cs s | None => True end.

Lemma steady_get_all_sets ks : ∀ cs s s0, no_fewer_sets s0 s → all_made cs s →
  steadyT (get_all_sets ks cs) (λ r s', unless_all_made r s' ∧ no_fewer_sets s0 s') s.
Proof.
  induction ks as [|k ks IH]; intros cs s s0 Hs0 Hcs.
  - apply ret_. intros s' Hs. split; [by eapply all_made_older|by etrans].
  - apply steady_GetSet.
    + intros s1 Hs1. apply ret_. intros s' Hs. split; [done|]. by do 2 (etrans; [eassumption|]).
    + intros c s1 Hs1 Hc. apply IH; [by etrans|]. apply Forall_app. split; [by eapply all_made_older|].
      by constructor.
Qed.

Lemma steady_get_present_sets ks s0 s : no_fewer_sets s0 s →
  steadyT (get_present_sets ks) (λ cs s', all_made cs s' ∧ no_fewer_sets s0 s') s.
Proof.
  intros Hs. apply steady_fold; [|by intros s' Hs'; split; [constructor|by etrans]].
  intros cs k s1 Hcs. apply steady_GetSet.
  - intros s2 Hs2. apply ret_. intros s3 Hs3. apply Hcs. by etrans.
  - intros c s2 Hs2 Hc. apply ret_. intros s3 Hs3. destruct (Hcs s3 ltac:(by etrans)) as [Hall Hs03]. split; [|done].
    apply Forall_app. split; [done|]. constructor; [exact (made_older _ _ _ Hs3 Hc)|done].
Qed.

Lemma steady_sinter args s : steadyT (sinter args) any s.
Proof.
  destruct args as [|k ks]; [done|]. apply steady_GetSet; [done|]. intros c s1 Hs1 Hc.
  eapply then_; [apply (steady_get_all_sets ks [] s1 s1); [done|constructor]|]. intros cs s2 Hcs.
  destruct (Hcs s2 ltac:(reflexivity)) as [Hall Hs2]. destruct cs as [cs|]; [|done].
  apply (steady_end _ (λ _, _)), steady_SInter; [by eapply made_older|done].
Qed.

Lemma steady_sdiff args s : steadyT (sdiff args) any s.
Proof.
  destruct args as [|k ks]; [done|]. apply steady_GetSet; [done|]. intros c s1 Hs1 Hc.
  eapply then_; [by apply (steady_get_present_sets ks s1 s1)|]. intros cs s2 Hcs.
  destruct (Hcs s2 ltac:(reflexivity)) as [Hall Hs2].
  apply (steady_end _ (λ _, _)), steady_SDiff; [by eapply made_older|done].
Qed.

Lemma steady_sunion args s : steadyT (sunion args) any s.
Proof.
  destruct args as [|k ks]; [done|].
  assert (Hrest : ∀ c s1, made c s1 →
    steadyT (otherSets ← get_present_sets ks; members ← SUnion c otherSets;
             mret (vArray (map vBulk members))) any s1).
  { intros c s1 Hc. eapply then_; [by apply (steady_get_present_sets ks s1 s1)|]. intros cs s2 Hcs.
    destruct (Hcs s2 ltac:(reflexivity)) as [Hall Hs2].
    apply (steady_end _ (λ _, _)), steady_SUnion; [by eapply made_older|done]. }
  apply steady_GetSet; [|intros c s1 _; apply Hrest]. intros s1 _.
  apply (then_ made).
  - apply do_. intros s2 _ Hok. eexists _, _. split_and!; [done| | | |].
    + apply heap_ok_sets; [rewrite length_app; lia|done].
    + unfold no_fewer_sets. cbn. rewrite length_app. lia.
    + intros held. split; [by left|]. intros c x Hx. left. cbn. by apply lookup_app_l_Some.
    + unfold no_fewer_sets, made. cbn. rewrite length_app. cbn. intros s3. lia.
  - intros c s2 Hc. apply Hrest, Hc. reflexivity.
Qed.

End together.

Section save.
Context `{GoEnvLaws}.

Lemma steady_save s : steadyT save_sets any s.
Proof.
  apply read_locked_, (then_ (λ sets s', Forall (λ p : string * nat, made (snd p) s') sets)).
  - apply do_. intros s1 _ Hok. eexists _, _.
    split_and!; [done|by destruct Hok|apply Nat.le_refl|intros held; by apply lawful_nothing|].
    intros s2 Hs2. apply list.Forall_forall. intros [k c] Hkc%map_range_elem.
    eapply made_older; [exact Hs2|]. exact (set_valid s1 Hok k c Hkc).
  - intros sets s1 Hsets. apply steady_loop. intros saved [k c] s2 Hin Hs2.
    apply (steady_end _ (λ _, _)), steady_SMembers. specialize (Hsets s2 Hs2).
    rewrite list.Forall_forall in Hsets. by apply (Hsets (k, c)).
Qed.
End save.

