(* ===== verification/InterleaveSafe.v ===== *)
(** * InterleaveSafe: what every goroutine keeps under interference

    Each handler in the logic of [Goroutine]: whatever the other goroutines do
    between its sections, it does not panic, and the elements it was given and
    those it has taken are accounted for. *)
From stdpp Require Import gmultiset.
From S2P Require Import Prelude Go Goroutine Strconv Resp DataStruct PubSub Database.
From S2P Require Import StringCmds ListCmds Handler DbFacts Interleave InterleaveFacts.
From Stdlib Require Import Ascii.

Abbreviation ms := (list_to_set_disj : list string → gmultiset string).

(** The elements of all the lists, unlinked ones included. *)
Definition stored (s : Shared) : gmultiset string := ms (concat (sh_objects s)).

(** Of these, the elements of the lists under a key, and those of the lists no key
    leads to: deleted, evicted, or unlinked between a push's look at the key and
    its append ([InterleaveProps.push_lost]). *)
Definition under_key (s : Shared) (p : nat * list string) : Prop :=
  p.1 ∈ map snd (map_to_list (sh_Lists s)).
#[export] Instance under_key_dec s p : Decision (under_key s p).
Proof. unfold under_key. apply _. Defined.
Definition linked (s : Shared) : gmultiset string :=
  ms (concat (map snd (filter (under_key s) (imap pair (sh_objects s))))).
Definition orphaned (s : Shared) : gmultiset string :=
  ms (concat (map snd (filter (λ p, ¬ under_key s p) (imap pair (sh_objects s))))).

Lemma stored_split s : stored s = linked s ⊎ orphaned s.
Proof.
  unfold stored, linked, orphaned. rewrite <-list_to_set_disj_app, <-concat_app, <-map_app.
  rewrite (filter_app_complement (under_key s)). f_equal. f_equal.
  generalize (sh_objects s). intros l.
  assert (Hl : ∀ l (f : nat → nat), map snd (imap (λ i, pair (f i)) l) = (l : list (list string))).
  { clear. induction l as [|x l IH]; intros f; [done|]. rewrite imap_cons. cbn [map snd]. f_equal. apply (IH (f ∘ S)). }
  symmetry. apply (Hl l id).
Qed.

(** Lists are only ever made. *)
Definition older (s s' : Shared) : Prop := (length (sh_objects s) ≤ length (sh_objects s'))%nat.
#[export] Instance older_preorder : PreOrder older.
Proof. split; [intros s|intros s1 s2 s3]; unfold older; lia. Qed.

(** There is memory for every element. *)
Definition room (b : gmultiset string) : Prop := Z.of_nat (size b) < maxInt.

#[local] Opaque safe.
Abbreviation safely := (safe heap_ok older stored room).

Lemma concat_insert (ls : list (list string)) c l l' : ls !! c = Some l →
  ms (concat (<[c := l']> ls)) ⊎ ms l = ms (concat ls) ⊎ ms l'.
Proof.
  revert c. induction ls as [|x ls IH]; intros c Hc; [done|].
  destruct c as [|c]; cbn in Hc.
  - injection Hc as ->. change (<[0%nat:=l']> (l :: ls)) with (l' :: ls). cbn [concat].
    rewrite !list_to_set_disj_app. multiset_solver.
  - change (<[S c:=l']> (x :: ls)) with (x :: <[c:=l']> ls). cbn [concat].
    rewrite !list_to_set_disj_app. specialize (IH c Hc). multiset_solver.
Qed.

Lemma concat_lookup (ls : list (list string)) c l : ls !! c = Some l → ms l ⊆ ms (concat ls).
Proof.
  revert c. induction ls as [|x ls IH]; intros c Hc; [done|].
  destruct c as [|c]; cbn in Hc; cbn [concat]; rewrite list_to_set_disj_app.
  - injection Hc as ->. multiset_solver.
  - specialize (IH c Hc). multiset_solver.
Qed.

Lemma size_ms l : size (ms l) = length l.
Proof.
  induction l as [|x l IH]; [done|].
  rewrite list_to_set_disj_cons, gmultiset_size_disj_union, gmultiset_size_singleton, IH. done.
Qed.

Lemma stored_room s b c l : room (stored s ⊎ b) → sh_objects s !! c = Some l → zlen l < maxInt.
Proof.
  unfold room, stored. intros Hr Hl%concat_lookup%gmultiset_subseteq_size.
  rewrite gmultiset_size_disj_union in Hr. rewrite size_ms in Hl. lia.
Qed.

Lemma ms_reverse l : ms (reverse l) = ms l.
Proof. by rewrite reverse_Permutation. Qed.

(** ** The operations *)
Section ops.
Context `{GoEnv}.
Implicit Types (b : gmultiset string) (s : Shared).

Lemma safely_bind {A B} (p : G A) (f : A → G B) Q b s :
  safely p (λ a, safely (f a) Q) b s → safely (p ≫= f) Q b s.
Proof. exact (safe_bind heap_ok older stored room p f Q b s). Qed.

(** A section that leaves the lists as they are. *)
Lemma safe_keep {A} (m : M Shared A) (Q : A → gmultiset string → Shared → Prop) b s :
  (∀ s1, older s s1 → heap_ok s1 → ∃ a s2, m s1 = (Ok a, s2) ∧ heap_ok s2 ∧
    sh_objects s2 = sh_objects s1 ∧ ∀ s3, older s2 s3 → Q a b s3) →
  safely (atomically m) Q b s.
Proof.
  intros Hm. apply safe_section. intros s1 Hs1 Hok _.
  destruct (Hm s1 Hs1 Hok) as (a & s2 & Heq & Hok2 & Hobj & HQ).
  exists a, s2. split_and!; [done|done|unfold older; by rewrite Hobj|].
  exists b. split; [|done]. unfold stored. by rewrite Hobj.
Qed.

Lemma safe_read {A} (f : Shared → A) (Q : A → gmultiset string → Shared → Prop) b s :
  (∀ s1 s2, older s s1 → heap_ok s1 → older s1 s2 → Q (f s1) b s2) →
  safely (read f) Q b s.
Proof. intros HQ. apply safe_keep. intros s1 Hs1 Hok. exists (f s1), s1. split_and!; auto. Qed.

Lemma safe_update (f : Shared → Shared) (Q : () → gmultiset string → Shared → Prop) b s :
  (∀ s1, heap_ok s1 → heap_ok (f s1)) → (∀ s1, sh_objects (f s1) = sh_objects s1) →
  (∀ s2, older s s2 → Q () b s2) → safely (update f) Q b s.
Proof.
  intros Hf Hobj HQ. apply safe_keep. intros s1 Hs1 Hok. exists (), (f s1). split_and!; auto.
  intros s3 Hs3. apply HQ. unfold older in *. rewrite Hobj in Hs3. lia.
Qed.

Lemma safe_clock (Q : Z → gmultiset string → Shared → Prop) b s :
  (∀ now s2, older s s2 → Q now b s2) → safely (atomically clock) Q b s.
Proof.
  intros HQ. apply safe_keep. intros s1 Hs1 [Hv Hi HSv HSi]. eexists _, _. split_and!; [done|done|done|].
  intros s3 Hs3. apply HQ. unfold older in *. cbn in Hs3. lia.
Qed.

Lemma safe_expireIfNeeded key (Q : () → gmultiset string → Shared → Prop) b s :
  (∀ s', older s s' → Q () b s') → safely (Interleave.expireIfNeeded key) Q b s.
Proof.
  intros HQ. unfold Interleave.expireIfNeeded. apply safely_bind, safe_read. intros s1 s2 Hs1 _ Hs2.
  assert (Hs : older s s2) by (by etrans).
  destruct (sh_Expires s1 !! key) as [exp|]; [|apply safe_ret; intros s3 Hs3; apply HQ; by etrans].
  apply safely_bind, safe_clock. intros now s3 Hs3. destruct (now <? exp).
  - apply safe_ret. intros s4 Hs4. apply HQ. etrans; [exact Hs|]. by etrans.
  - apply safe_update; [intros s4; apply heap_ok_evict|done|]. intros s4 Hs4. apply HQ.
    etrans; [exact Hs|]. by etrans.
Qed.

Definition cell_of (c : nat) (s : Shared) : Prop := (c < length (sh_objects s))%nat.

Lemma cell_older c s s' : older s s' → cell_of c s → cell_of c s'.
Proof. unfold older, cell_of. lia. Qed.

Lemma safe_GetOrCreateList key (Q : nat → gmultiset string → Shared → Prop) b s :
  (∀ c s', older s s' → cell_of c s' → Q c b s') → safely (Interleave.GetOrCreateList key) Q b s.
Proof.
  intros HQ. unfold Interleave.GetOrCreateList. apply safely_bind, safe_expireIfNeeded. intros s1 Hs1.
  apply safe_section. intros s2 Hs2 Hok _. unfold find_or_create.
  destruct (sh_Lists s2 !! key) as [c|] eqn:Hc.
  - exists c, s2. split_and!; [done|done|done|]. exists b. split; [done|]. intros s3 Hs3.
    apply HQ; [etrans; [exact Hs1|by etrans]|]. eapply cell_older; [exact Hs3|]. by eapply cell_valid.
  - eexists _, _. split_and!; [done|by apply heap_ok_new| |].
    + unfold older. cbn. rewrite length_app. lia.
    + exists b. split.
      * unfold stored. cbn. rewrite concat_app. cbn. by rewrite app_nil_r.
      * intros s3 Hs3. unfold older in *. cbn in Hs3. rewrite length_app in Hs3. cbn in Hs3.
        apply HQ; unfold older, cell_of; lia.
Qed.

Lemma safe_GetList key (Q : option nat → gmultiset string → Shared → Prop) b s :
  (∀ s', older s s' → Q None b s') →
  (∀ c s', older s s' → cell_of c s' → Q (Some c) b s') →
  safely (Interleave.GetList key) Q b s.
Proof.
  intros HN HS. unfold Interleave.GetList. apply safely_bind, safe_expireIfNeeded. intros s1 Hs1.
  apply safe_read. intros s2 s3 Hs2 Hok Hs3.
  assert (Hs : older s s3) by (etrans; [exact Hs1|by etrans]).
  destruct (sh_Lists s2 !! key) as [c|] eqn:Hc; [|by apply HN].
  apply HS; [done|]. eapply cell_older; [exact Hs3|]. by eapply cell_valid.
Qed.

(** A method that gives [b'] for [b]. *)
Lemma safe_locked {A} c (m : M (list string) A) (Q : A → gmultiset string → Shared → Prop) b s :
  cell_of c s →
  (∀ l, zlen l < maxInt → ∃ a l' b', m l = (Ok a, l') ∧ ms l' ⊎ b' = ms l ⊎ b ∧
    ∀ s', older s s' → Q a b' s') →
  safely (locked c m) Q b s.
Proof.
  intros Hc Hm. apply safe_section. intros s1 Hs1 Hok Hroom. unfold on_object.
  destruct (lookup_lt_is_Some_2 (sh_objects s1) c) as [l Hl]; [by eapply cell_older|].
  destruct (Hm l) as (a & l' & b' & Heq & Hb & HQ); [by eapply stored_room|].
  rewrite Hl, Heq. eexists _, _. split_and!; [done|by apply heap_ok_insert| |].
  - unfold older. cbn. by rewrite length_insert.
  - exists b'. split.
    + unfold stored. cbn. pose proof (concat_insert _ _ _ l' Hl). multiset_solver.
    + intros s3 Hs3. apply HQ. unfold older in *. cbn in Hs3. rewrite length_insert in Hs3. lia.
Qed.

(** A method that only reads. *)
Lemma safe_peek {A} c (m : M (list string) A) (Q : A → gmultiset string → Shared → Prop) b s :
  cell_of c s → (∀ l, zlen l < maxInt → ∃ a, m l = (Ok a, l)) →
  (∀ a s', older s s' → Q a b s') → safely (locked c m) Q b s.
Proof.
  intros Hc Hm HQ. apply safe_locked; [done|]. intros l Hl. destruct (Hm l Hl) as [a Ha].
  exists a, l, b. split_and!; [done|done|]. intros s'. apply HQ.
Qed.

Lemma safe_drop_empty_list key c (Q : () → gmultiset string → Shared → Prop) b s : cell_of c s →
  (∀ s', older s s' → Q () b s') → safely (Interleave.drop_empty_list key c) Q b s.
Proof.
  intros Hc HQ. unfold Interleave.drop_empty_list. apply safely_bind, safe_peek; [done|by eexists|]. intros n s1 Hs1.
  destruct (n =? 0).
  - apply safe_update; [intros s2; apply heap_ok_delete|done|]. intros s2 Hs2. apply HQ. by etrans.
  - apply safe_ret. intros s2 Hs2. apply HQ. by etrans.
Qed.

Lemma safe_signal (Q : () → gmultiset string → Shared → Prop) b s :
  (∀ s', older s s' → Q () b s') → safely Interleave.signalListPush Q b s.
Proof. apply safe_update; [|done]. by intros s1 []. Qed.

(** ** Accounts *)

(** The elements a request gives to the database, and those its reply takes:
    LREM those it counts, an LSET that fails the one it was given. *)
Definition pushed_by (r : Request) : list string :=
  match r with
  | Command name args =>
      if bool_decide (name ∈ ["LPUSH"; "RPUSH"]) then
        match args with _ :: (_ :: _) as vs => map Str vs | _ => [] end
      else if bool_decide (name = "LSET") then match args with [_; _; v] => [Str v] | _ => [] end
      else []
  | Sweep => []
  end.

Definition popped_by (r : Request) (v : Value) : list string :=
  match r with
  | Command name args =>
      if bool_decide (name ∈ ["LPOP"; "RPOP"]) then
        if (VType v =? BulkString)%char then [Str v] else []
      else if bool_decide (name ∈ ["BLPOP"; "BRPOP"]) then
        match Arr v with [_; x] => [Str x] | _ => [] end
      else if bool_decide (name ∈ ["LSET"; "LREM"]) then
        match args with
        | [_; _; x] =>
            if bool_decide (name = "LREM") then replicate (Z.to_nat (Num v)) (Str x)
            else if (VType v =? SimpleError)%char then [Str x] else []
        | _ => []
        end
      else []
  | Sweep => []
  end.

(** How many elements it overwrites. *)
Definition overwritten (r : Request) (v : Value) : nat :=
  match r with
  | Command name _ => if bool_decide (name = "LSET") && negb (VType v =? SimpleError)%char then 1 else 0
  | Sweep => 0
  end.

Definition accounted (r : Request) (v : Value) (b : gmultiset string) (_ : Shared) : Prop :=
  ∃ d, b = ms (popped_by r v) ⊎ d ∧ size d = overwritten r v.

Lemma accounted_plain r v b s : ms (popped_by r v) = b → overwritten r v = 0%nat → accounted r v b s.
Proof.
  intros <- Ho. exists ∅. rewrite Ho. split; [multiset_solver|]. by rewrite gmultiset_size_empty.
Qed.

Lemma accounted_one r v x s : popped_by r v = [x] → overwritten r v = 0%nat → accounted r v {[+ x +]} s.
Proof. intros Hp. apply accounted_plain. rewrite Hp, list_to_set_disj_cons. multiset_solver. Qed.

Lemma safe_reply r v b s : ms (popped_by r v) = b → overwritten r v = 0%nat → safely (mret v) (accounted r) b s.
Proof. intros Hp Ho. apply safe_ret. intros s' _. by apply accounted_plain. Qed.

Abbreviation safe_handler name h :=
  (∀ args s, safely (h args) (accounted (Command name args)) (ms (pushed_by (Command name args))) s).

Lemma safe_push (m : M (list string) Z) values r key s :
  (∀ l, m l = (Ok (zlen values + zlen l), reverse values ++ l) ∨
        m l = (Ok (zlen l + zlen values), l ++ values)) →
  (∀ n, popped_by r (vInt n) = [] ∧ overwritten r (vInt n) = 0%nat) →
  safely (list ← Interleave.GetOrCreateList key; length ← locked list m;
          _ ← Interleave.signalListPush; mret (vInt length)) (accounted r) (ms values) s.
Proof.
  intros Hm Hr. apply safely_bind, safe_GetOrCreateList. intros c s1 Hs1 Hc.
  apply safely_bind, safe_locked; [done|]. intros l _.
  assert (∃ n l', m l = (Ok n, l') ∧ ms l' ⊎ ∅ = ms l ⊎ ms values) as (n & l' & Heq & Hl').
  { destruct (Hm l) as [-> | ->]; eexists _, _; (split; [done|]);
      rewrite list_to_set_disj_app, ?ms_reverse; multiset_solver. }
  exists n, l', ∅. split_and!; [done|done|]. intros s2 Hs2.
  apply safely_bind, safe_signal. intros s3 Hs3. destruct (Hr n) as [Hp Ho].
  apply safe_reply; [by rewrite Hp|done].
Qed.

Lemma safe_lpush : safe_handler "LPUSH" Interleave.lpush.
Proof.
  intros [|k [|v vs]] s; [by apply safe_reply..|].
  apply (safe_push _ (map Str (v :: vs))); [|done]. intros l. left. apply ListFacts.LPush_spec.
Qed.

Lemma safe_rpush : safe_handler "RPUSH" Interleave.rpush.
Proof.
  intros [|k [|v vs]] s; [by apply safe_reply..|].
  apply (safe_push _ (map Str (v :: vs))); [|done]. intros l. right. apply ListFacts.RPush_spec.
Qed.

(** What [LPop] and [RPop] have in common. *)
Definition pops (m : M (list string) (string * bool)) : Prop := ∀ l,
  (m l = (Ok ("", false), l)) ∨ ∃ v l', m l = (Ok (v, true), l') ∧ ms l' ⊎ {[+ v +]} = ms l.

Lemma pops_LPop : pops ListDS.LPop.
Proof.
  intros [|v l]; [by left|]. right. exists v, l. split; [apply ListFacts.LPop_cons|].
  rewrite list_to_set_disj_cons. multiset_solver.
Qed.

Lemma pops_RPop : pops ListDS.RPop.
Proof.
  intros l. destruct (decide (l = [])) as [->|Hl]; [by left|].
  destruct (exists_last Hl) as (l' & v & ->). right. exists v, l'. split; [apply ListFacts.RPop_snoc|].
  rewrite list_to_set_disj_app, list_to_set_disj_cons. multiset_solver.
Qed.

Lemma safe_pop {B} key c m (none : G B) (some : string → B) Q s : pops m → cell_of c s →
  (∀ s', older s s' → safely none Q ∅ s') →
  (∀ v s', older s s' → Q (some v) {[+ v +]} s') →
  safely ('(value, ok) ← locked c m; if negb ok then none else
          _ ← Interleave.drop_empty_list key c; mret (some value)) Q ∅ s.
Proof.
  intros Hm Hc HN HS. apply safely_bind, safe_locked; [done|]. intros l _.
  destruct (Hm l) as [Heq|(v & l' & Heq & Hl)].
  - exists ("", false), l, ∅. split_and!; [done|done|exact HN].
  - exists (v, true), l', {[+ v +]}. split_and!; [done|multiset_solver|]. intros s1 Hs1. cbn [negb].
    apply safely_bind, safe_drop_empty_list; [by eapply cell_older|]. intros s2 Hs2.
    apply safe_ret. intros s3 Hs3. apply HS. etrans; [exact Hs1|by etrans].
Qed.

Lemma safe_lpop : safe_handler "LPOP" Interleave.lpop.
Proof.
  intros [|k [|v vs]] s; [by apply safe_reply| |by apply safe_reply].
  apply safely_bind, safe_GetList; [intros s1 _; by apply safe_reply|]. intros c s1 _ Hc.
  apply safe_pop; [apply pops_LPop|done|intros s2 _; by apply safe_reply|].
  intros v s2 _. by apply accounted_one.
Qed.

Lemma safe_rpop : safe_handler "RPOP" Interleave.rpop.
Proof.
  intros [|k [|v vs]] s; [by apply safe_reply| |by apply safe_reply].
  apply safely_bind, safe_GetList; [intros s1 _; by apply safe_reply|]. intros c s1 _ Hc.
  apply safe_pop; [apply pops_RPop|done|intros s2 _; by apply safe_reply|].
  intros v s2 _. by apply accounted_one.
Qed.

(** A handler that takes and gives nothing; [get_list] for those that read one
    list. *)
Lemma safe_reading {A B} key (m : M (list string) A) (none : G B) (f : A → G B) Q s :
  (∀ l, zlen l < maxInt → ∃ a, m l = (Ok a, l)) →
  (∀ s', safely none Q ∅ s') → (∀ a s', safely (f a) Q ∅ s') →
  safely (list ← Interleave.GetList key;
          match list with None => none | Some list => x ← locked list m; f x end) Q ∅ s.
Proof.
  intros Hm HN HS. apply safely_bind, safe_GetList; [auto|]. intros c s1 _ Hc.
  apply safely_bind, safe_peek; auto.
Qed.

Lemma safe_lrange : safe_handler "LRANGE" Interleave.lrange.
Proof.
  intros [|k [|a [|b [|x l]]]] s; try by apply safe_reply.
  unfold Interleave.lrange. destruct (Atoi (Str a)) as [start []] eqn:Ha; [by apply safe_reply|].
  destruct (Atoi (Str b)) as [stop []] eqn:Hb; [by apply safe_reply|].
  apply safe_reading; [|by intros; apply safe_reply..]. intros l Hl. eexists.
  apply ListFacts.LRange_spec; [by eapply Atoi_in_int..|done].
Qed.

Lemma safe_llen : safe_handler "LLEN" Interleave.llen.
Proof.
  intros [|k [|v l]] s; try by apply safe_reply.
  apply safe_reading; [by eexists|by intros; apply safe_reply..].
Qed.

Lemma safe_lindex : safe_handler "LINDEX" Interleave.lindex.
Proof.
  intros [|k [|a [|b l]]] s; try by apply safe_reply.
  unfold Interleave.lindex. destruct (Atoi (Str a)) as [i []] eqn:Ha; [by apply safe_reply|].
  apply safe_reading.
  - intros l Hl. eexists. apply ListFacts.LIndex_spec; [by eapply Atoi_in_int|lia].
  - intros s1. by apply safe_reply.
  - intros [v []] s1; by apply safe_reply.
Qed.

Lemma safe_set : safe_handler "SET" Interleave.set.
Proof.
  intros [|k [|v [|x l]]] s; try by apply safe_reply.
  apply safely_bind, safe_update; [by intros s1 []|done|]. intros s2 _. by apply safe_reply.
Qed.

Lemma safe_get : safe_handler "GET" Interleave.get.
Proof.
  intros [|k [|v l]] s; try by apply safe_reply.
  apply safely_bind, safe_expireIfNeeded. intros s1 _. apply safely_bind, safe_read.
  intros s2 s3 _ _ _. destruct (sh_Store s2 !! Str k); by apply safe_reply.
Qed.

Lemma delete_locked_run {A} (get : Shared → gmap string A) upd key n s :
  (∀ s, heap_ok s → heap_ok (upd (delete key) s)) →
  (∀ s, sh_objects (upd (delete key) s) = sh_objects s) → heap_ok s →
  ∃ n' s', delete_locked get upd key n s = (Ok n', s') ∧ heap_ok s' ∧ sh_objects s' = sh_objects s.
Proof.
  intros Hok Hobj Hs. unfold delete_locked, mbind, M_bind, gets. destruct (get s !! key).
  - eexists _, _. split_and!; [done|by apply Hok|apply Hobj].
  - by eexists _, _.
Qed.

Lemma safe_DeleteKey key (Q : Z → gmultiset string → Shared → Prop) b s :
  (∀ n s', older s s' → Q n b s') → safely (Interleave.DeleteKey key) Q b s.
Proof.
  intros HQ. unfold Interleave.DeleteKey. apply safely_bind, safe_expireIfNeeded. intros s1 Hs1.
  apply safe_keep. intros s2 Hs2 Hok.
  destruct (delete_locked_run sh_Store upd_Store key 0 s2) as (n3 & s3 & H3 & Hok3 & Ho3);
    [by intros ? []|done|done|].
  destruct (delete_locked_run sh_Lists upd_Lists key n3 s3) as (n4 & s4 & H4 & Hok4 & Ho4);
    [intros ?; apply heap_ok_delete|done|done|].
  destruct (delete_locked_run sh_Sets upd_Sets key n4 s4) as (n5 & s5 & H5 & Hok5 & Ho5);
    [intros ?; apply heap_ok_delete_set|done|done|].
  destruct (delete_locked_run sh_Hashes upd_Hashes key n5 s5) as (n6 & s6 & H6 & Hok6 & Ho6);
    [by intros ? []|done|done|].
  exists n6, (upd_Expires (delete key) s6). split_and!.
  - by rewrite (bind_ok _ _ _ _ _ H3), (bind_ok _ _ _ _ _ H4), (bind_ok _ _ _ _ _ H5),
      (bind_ok _ _ _ _ _ H6).
  - by destruct Hok6.
  - cbn. congruence.
  - intros s7 Hs7. apply HQ. unfold older in *. cbn in Hs7. rewrite Ho6, Ho5, Ho4, Ho3 in Hs7. lia.
Qed.

Lemma safe_del : safe_handler "DEL" Interleave.del.
Proof.
  intros args s. unfold Interleave.del.
  assert (ms (pushed_by (Command "DEL" args)) = ∅) as -> by (by destruct args as [|? []]).
  destruct (length args <? 1)%nat; [by apply safe_reply|].
  apply safely_bind, (safe_for_fold heap_ok older stored room); [|intros n s' _; by apply safe_reply].
  intros n arg s1 Q HQ. apply safely_bind, safe_DeleteKey. intros n' s2 Hs2. apply safe_ret.
  intros s3 Hs3. apply HQ. by etrans.
Qed.

(** LSET: the new element is in, another is out; or it comes back. *)
Lemma LSet_swaps i v (l : list string) : in_int i → zlen l < maxInt →
  (ListDS.LSet i v l = (Ok false, l)) ∨
  ∃ x l', ListDS.LSet i v l = (Ok true, l') ∧ ms l' ⊎ {[+ x +]} = ms l ⊎ {[+ v +]}.
Proof.
  intros Hi Hl. rewrite ListFacts.LSet_spec by (done || lia). cbv zeta.
  set (k := ListFacts.norm (zlen l) i).
  destruct ((0 <=? k) && (k <? zlen l)) eqn:Hk; [|by left]. right.
  apply andb_true_iff in Hk as [H0%Z.leb_le H1%Z.ltb_lt].
  destruct (lookup_lt_is_Some_2 l (Z.to_nat k)) as [x Hx]; [lia|]. exists x. eexists. split; [done|].
  rewrite insert_take_drop by lia. rewrite <-(take_drop_middle l (Z.to_nat k) x Hx) at 3.
  rewrite !list_to_set_disj_app, !list_to_set_disj_cons. multiset_solver.
Qed.

Lemma safe_lset : safe_handler "LSET" Interleave.lset.
Proof.
  intros [|k [|i [|v [|x l]]]] s; try by apply safe_reply.
  unfold Interleave.lset.
  assert (Hgive : ∀ e s', safely (mret (vError e)) (accounted (Command "LSET" [k; i; v]))
            (ms (pushed_by (Command "LSET" [k; i; v]))) s') by (intros e s'; by apply safe_reply).
  destruct (Atoi (Str i)) as [index []] eqn:Hi; [apply Hgive|].
  apply safely_bind, safe_GetList; [intros s1 _; apply Hgive|]. intros c s1 _ Hc.
  apply safely_bind, safe_locked; [done|]. intros l Hl.
  destruct (LSet_swaps index (Str v) l ltac:(by eapply Atoi_in_int) Hl) as [Heq|(x & l' & Heq & Hm)].
  - exists false, l, (ms [Str v]). split_and!; [done|done|]. intros s2 _. apply Hgive.
  - exists true, l', {[+ x +]}. split_and!; [done| |].
    + change (ms (pushed_by (Command "LSET" [k; i; v]))) with (ms [Str v]).
      rewrite (list_to_set_disj_cons (Str v)). multiset_solver.
    + intros s2 _. apply safe_ret. intros s3 _. exists {[+ x +]}. split.
      * change (ms (popped_by (Command "LSET" [k; i; v]) vOK)) with (∅ : gmultiset string). multiset_solver.
      * by rewrite gmultiset_size_singleton.
Qed.

(** LREM: the elements counted in the reply are out. *)
Lemma ms_remove_first n v (l : list string) : ∃ k, (length l = k + length (ListFacts.remove_first n v l))%nat ∧
  ms (ListFacts.remove_first n v l) ⊎ ms (replicate k v) = ms l.
Proof.
  revert n. induction l as [|x l IH]; intros [|n]; try (exists 0%nat; cbn; split; [done|multiset_solver]).
  cbn [ListFacts.remove_first]. case_bool_decide as Hx.
  - subst x. destruct (IH n) as (k & Hlen & Hk). exists (S k). cbn [length replicate]. split; [lia|].
    rewrite !list_to_set_disj_cons. multiset_solver.
  - destruct (IH (S n)) as (k & Hlen & Hk). exists k. cbn [length]. split; [lia|].
    rewrite !list_to_set_disj_cons. multiset_solver.
Qed.

Lemma LRem_takes count v (l : list string) : in_int count →
  ∃ k l', ListDS.LRem count v l = (Ok (Z.of_nat k), l') ∧ ms l' ⊎ ms (replicate k v) = ms l.
Proof.
  intros Hc. destruct (decide (count = minInt)) as [->|Hne].
  { exists 0%nat, l. split; [apply ListFacts.LRem_minInt|]. cbn. multiset_solver. }
  rewrite ListFacts.LRem_spec by done.
  assert (Hrem : ∃ k, (length l = k + length (ListFacts.rem_spec count v l))%nat ∧
    ms (ListFacts.rem_spec count v l) ⊎ ms (replicate k v) = ms l).
  { unfold ListFacts.rem_spec. destruct (count =? 0).
    - destruct (ms_remove_first (length l) v l) as (k & Hk). exists k.
      by rewrite ListFacts.remove_first_all in Hk.
    - destruct (count >? 0); [apply ms_remove_first|].
      destruct (ms_remove_first (Z.to_nat (- count)) v (reverse l)) as (k & Hlen & Hk). exists k.
      rewrite length_reverse in *. by rewrite !ms_reverse in *. }
  destruct Hrem as (k & Hlen & Hk). eexists k, _. split; [|done]. do 2 f_equal. lia.
Qed.

Lemma safe_lrem : safe_handler "LREM" Interleave.lrem.
Proof.
  intros [|k [|i [|v [|x l]]]] s; try by apply safe_reply.
  unfold Interleave.lrem. destruct (Atoi (Str i)) as [count []] eqn:Hi; [by apply safe_reply|].
  apply safely_bind, safe_GetList; [intros s1 _; by apply safe_reply|]. intros c s1 _ Hc.
  apply safely_bind, safe_locked; [done|]. intros l _.
  destruct (LRem_takes count (Str v) l ltac:(by eapply Atoi_in_int)) as (n & l' & Heq & Hm).
  exists (Z.of_nat n), l', (ms (replicate n (Str v))). split_and!; [done| |].
  - change (ms (pushed_by (Command "LREM" [k; i; v]))) with (∅ : gmultiset string). multiset_solver.
  - intros s2 Hs2. apply safely_bind, safe_drop_empty_list; [by eapply cell_older|]. intros s3 _.
    apply safe_reply; [|done].
    change (ms (replicate (Z.to_nat (Z.of_nat n)) (Str v)) = ms (replicate n (Str v))). by rewrite Nat2Z.id.
Qed.

Lemma safe_SweepExpired (Q : () → gmultiset string → Shared → Prop) b s :
  (∀ s', older s s' → Q () b s') → safely Interleave.SweepExpired Q b s.
Proof.
  intros HQ. apply safely_bind, safe_keep. intros s1 Hs1 Hok.
  eexists _, _. split_and!; [done|by destruct Hok|done|]. intros s2 Hs2.
  apply (safe_for_each heap_ok older stored room).
  - intros key s3 Q' HQ'. by apply safe_expireIfNeeded.
  - intros s3 Hs3. apply HQ. etrans; [exact Hs1|]. unfold older in *. cbn in Hs2. lia.
Qed.

(** ** Blocking pops *)
Definition pushes (r : Request) : bool :=
  match r with Command name _ => bool_decide (name ∈ ["LPUSH"; "RPUSH"; "LSET"]) | Sweep => false end.

Lemma pushed_none r : pushes r = false → ms (pushed_by r) = ∅.
Proof.
  destruct r as [name args|]; [|done]. cbn. rewrite bool_decide_eq_false. intros Hn.
  rewrite !elem_of_cons in Hn.
  by rewrite !bool_decide_eq_false_2 by (rewrite ?elem_of_cons, ?elem_of_nil; tauto).
Qed.

Definition blocks (r : Request) : bool :=
  match r with Command name _ => bool_decide (name ∈ ["BLPOP"; "BRPOP"]) | Sweep => false end.

Definition outcome_ok (r : Request) (o : Outcome) (b : gmultiset string) (s : Shared) : Prop :=
  match o with
  | Reply v => accounted r v b s
  | Again _ | Wait _ _ => b = ∅ ∧ blocks r = true
  end.

Lemma safe_pop_first left keys (Q : option Value → gmultiset string → Shared → Prop) s :
  (∀ s', Q None ∅ s') → (∀ k x s', Q (Some (vArray [vBulk k; vBulk x])) {[+ x +]} s') →
  safely (Interleave.pop_first keys left) Q ∅ s.
Proof.
  intros HN HS. revert s. induction keys as [|key keys IH]; intros s; [by apply safe_ret|].
  cbn [Interleave.pop_first]. apply safely_bind, safe_GetList; [auto|]. intros c s1 _ Hc.
  apply (safe_pop key c _ _ (λ v, Some (vArray [vBulk key; vBulk v]))); [|done|auto..].
  destruct left; [apply pops_LPop|apply pops_RPop].
Qed.

Lemma blocks_reply r v s : blocks r = true → Arr v = [] → accounted r v ∅ s.
Proof.
  destruct r as [name args|]; [|done]. cbn. intros Hb%bool_decide_eq_true_1 Hv.
  apply elem_of_cons in Hb as [->|Hb]; [|apply list_elem_of_singleton in Hb as ->];
    apply accounted_plain; cbn; by rewrite ?Hv.
Qed.

Lemma safe_round r l s : blocks r = true → safely (blocking_round l) (outcome_ok r) ∅ s.
Proof.
  intros Hr. apply safely_bind, safe_pop_first.
  - intros s1. apply safely_bind.
    assert (Hrest : ∀ (late : bool) s', safely
      (if late then mret (Reply vNull) else
        w ← Interleave.waitForListSignal (l_deadline l) (l_hasDeadline l);
        match w with None => mret (Again l) | Some since => mret (Wait l since) end)
      (outcome_ok r) ∅ s').
    { intros late s2. destruct late.
      { apply safe_ret. intros s3 _. by apply blocks_reply. }
      apply safely_bind, safe_keep. intros s3 _ Hok. destruct (l_hasDeadline l).
      - set (now := time_Now (sh_tick s3)).
        exists (if l_deadline l - now <=? 0 then None else Some (sh_listCond s3)), (snd (serial s3)).
        split_and!; [|by destruct Hok|done|].
        + rewrite (bind_ok _ _ _ now (snd (serial s3))) by done.
          by destruct (l_deadline l - now <=? 0).
        + intros s4 _. by destruct (l_deadline l - now <=? 0); apply safe_ret.
      - eexists _, _. split_and!; [done|done|done|]. intros s4 _. by apply safe_ret. }
    destruct (l_hasDeadline l); [|apply safe_ret; intros s2 _; apply (Hrest false)].
    apply safely_bind, safe_clock. intros now s2 _. apply safe_ret. intros s3 _. apply Hrest.
  - intros k x s1. apply safe_ret. intros s2 _. apply accounted_one.
    all: destruct r as [name args|]; [|done]; cbn in Hr |- *; apply bool_decide_eq_true_1 in Hr;
      apply elem_of_cons in Hr as [->|Hr]; [done|]; by apply list_elem_of_singleton in Hr as ->.
Qed.

Lemma safe_blockingPop name left args s : blocks (Command name args) = true →
  safely (Interleave.blockingPop args left) (outcome_ok (Command name args)) ∅ s.
Proof.
  intros Hr.
  assert (Herr : ∀ e s', safely (mret (Reply (vError e))) (outcome_ok (Command name args)) ∅ s').
  { intros e s'. apply safe_ret. intros s2 _. by apply blocks_reply. }
  unfold Interleave.blockingPop. destruct (length args <? 2)%nat; [apply Herr|].
  destruct (args !! _) as [t|]; [|apply Herr]. destruct (ParseFloat (Str t)) as [x|]; [|apply Herr].
  destruct (float_neg x); [apply Herr|]. apply safely_bind. destruct (float_pos x).
  - apply safely_bind, safe_clock. intros now s1 _. apply safe_ret. intros s2 _. by apply safe_ret.
  - apply safe_ret. intros s2 _. by apply safe_ret.
Qed.

Lemma safe_plain name h args s : safe_handler name h →
  safely (v ← h args; mret (Reply v)) (outcome_ok (Command name args))
    (ms (pushed_by (Command name args))) s.
Proof.
  intros Hh. apply safely_bind. eapply safe_imp; [|apply Hh]. intros v b s1 Hv.
  apply safe_ret. by intros s2 _.
Qed.

Lemma table_get_notin {A} k (t : list (string * A)) : k ∉ map fst t → table_get k t = None.
Proof.
  induction t as [|[k' a] t IH]; [done|]. cbn. intros [Hk Hin]%not_elem_of_cons.
  rewrite (proj2 (String.eqb_neq k k')) by done. auto.
Qed.

Lemma safe_start r s : safely (start r) (outcome_ok r) (ms (pushed_by r)) s.
Proof.
  destruct r as [name args|].
  2:{ apply safely_bind, safe_SweepExpired. intros s1 _. apply safe_ret. intros s2 _. by apply accounted_plain. }
  destruct (decide (name ∈ map fst plain_handlers ++ map fst blocking_handlers)) as [Hin|Hout].
  - cbn in Hin.
    repeat (apply elem_of_cons in Hin as [->|Hin]); try done; [..|by apply elem_of_nil in Hin].
    + apply (safe_plain _ _ _ _ safe_set).
    + apply (safe_plain _ _ _ _ safe_get).
    + apply (safe_plain _ _ _ _ safe_del).
    + apply (safe_plain _ _ _ _ safe_lpush).
    + apply (safe_plain _ _ _ _ safe_rpush).
    + apply (safe_plain _ _ _ _ safe_lpop).
    + apply (safe_plain _ _ _ _ safe_rpop).
    + apply (safe_plain _ _ _ _ safe_lrange).
    + apply (safe_plain _ _ _ _ safe_llen).
    + apply (safe_plain _ _ _ _ safe_lindex).
    + apply (safe_plain _ _ _ _ safe_lset).
    + apply (safe_plain _ _ _ _ safe_lrem).
    + rewrite (pushed_none (Command "BLPOP" args)) by done. by apply safe_blockingPop.
    + rewrite (pushed_none (Command "BRPOP" args)) by done. by apply safe_blockingPop.
  - assert (Hno : ∀ names, Forall listed names → name ∉ names).
    { intros names Hn Hin. rewrite list.Forall_forall in Hn. exact (Hout (Hn name Hin)). }
    rewrite (pushed_none (Command name args)) by (unfold pushes; apply bool_decide_eq_false_2;
      apply Hno; repeat constructor; by apply (bool_decide_eq_true_1 (_ ∈ _))).
    unfold start. rewrite (table_get_notin _ plain_handlers), (table_get_notin _ blocking_handlers);
      [|intros Hin; apply Hout; rewrite elem_of_app; auto..].
    apply safe_ret. intros s1 _. apply accounted_plain; cbn.
    + by rewrite !bool_decide_eq_false_2
        by (apply Hno; repeat constructor; by apply (bool_decide_eq_true_1 (_ ∈ _))).
    + by rewrite andb_false_r.
Qed.
End ops.

(** ** The books of all the clients *)
Definition given (c : Client) : gmultiset string :=
  ms (concat (map (pushed_by ∘ fst) (cl_done c))) ⊎
  match cl_now c with Idle => ∅ | Busy r _ | Waiting r _ _ => ms (pushed_by r) end.
Definition taken (c : Client) : gmultiset string :=
  ms (concat (map (λ '(r, v), popped_by r v) (cl_done c))).
Definition to_give (c : Client) : gmultiset string := ms (concat (map pushed_by (cl_todo c))).

(** How many elements its LSETs have overwritten. *)
Definition overwrites (c : Client) : nat := sum_list (map (λ '(r, v), overwritten r v) (cl_done c)).

(** What a client may hold between two of its steps. *)
Definition owns `{GoEnv} (b : gmultiset string) (c : Client) (s : Shared) : Prop :=
  match cl_now c with
  | Idle => b = ∅
  | Busy r p => safely p (outcome_ok r) b s
  | Waiting r _ _ => b = ∅ ∧ blocks r = true
  end.

Fixpoint all_of {A} (f : A → gmultiset string) (l : list A) : gmultiset string :=
  match l with [] => ∅ | a :: l => f a ⊎ all_of f l end.

Lemma all_of_insert {A} (f : A → gmultiset string) l i a a' : l !! i = Some a →
  all_of f (<[i := a']> l) ⊎ f a = all_of f l ⊎ f a'.
Proof.
  revert i. induction l as [|x l IH]; intros i Hi; [done|].
  destruct i as [|i]; cbn in Hi.
  - injection Hi as ->. change (<[0%nat:=a']> (a :: l)) with (a' :: l). cbn. multiset_solver.
  - change (<[S i:=a']> (x :: l)) with (x :: <[i:=a']> l). cbn. specialize (IH i Hi). multiset_solver.
Qed.

Lemma all_of_part {A} (f : A → gmultiset string) l i a : l !! i = Some a → f a ⊆ all_of f l.
Proof.
  revert i. induction l as [|x l IH]; intros i Hi; [done|].
  destruct i as [|i]; cbn in Hi |- *.
  - injection Hi as ->. multiset_solver.
  - specialize (IH i Hi). multiset_solver.
Qed.

Lemma sum_insert {A} (f : A → nat) l i a a' : l !! i = Some a →
  (sum_list (map f (<[i := a']> l)) + f a = sum_list (map f l) + f a')%nat.
Proof.
  revert i. induction l as [|x l IH]; intros i Hi; [done|].
  destruct i as [|i]; cbn in Hi.
  - injection Hi as ->. change (<[0%nat:=a']> (a :: l)) with (a' :: l). cbn. lia.
  - change (<[S i:=a']> (x :: l)) with (x :: <[i:=a']> l). cbn. specialize (IH i Hi). lia.
Qed.

Section books.
Context `{GoEnv}.

Lemma owns_older b c s s' : older s s' → owns b c s → owns b c s'.
Proof.
  intros Hs Hb. unfold owns in *. destruct (cl_now c); [done| |done].
  eapply safe_older; [|exact Hs|exact Hb]. apply _.
Qed.

Lemma client_step_safe b c s : heap_ok s → room (stored s ⊎ b) → owns b c s →
  ∃ c' s' b' d, client_step c s = (Ok c', s') ∧ heap_ok s' ∧ older s s' ∧ owns b' c' s' ∧
    stored s' ⊎ b' ⊎ taken c' ⊎ d ⊎ given c = stored s ⊎ b ⊎ taken c ⊎ given c' ∧
    (size d + overwrites c = overwrites c')%nat ∧
    given c' ⊎ to_give c' = given c ⊎ to_give c.
Proof.
  intros Hok Hroom Hb. destruct c as [todo [|r p|r l since] done]; cbn in Hb.
  - subst b. destruct todo as [|r todo].
    + eexists _, s, ∅, ∅. split_and!; try done. multiset_solver.
    + eexists _, s, (ms (pushed_by r)), ∅. split_and!; [done|done|done| | |done|].
      * apply safe_start.
      * unfold given, taken. cbn. multiset_solver.
      * unfold given, to_give. cbn. rewrite list_to_set_disj_app. multiset_solver.
  - destruct p as [o|X m k].
    + specialize (Hb s (reflexivity s)). destruct o as [v|l|l since]; cbn in Hb.
      * destruct Hb as (d & -> & Hd). eexists _, s, ∅, d. split_and!; [done|done|done|done| | |].
        -- unfold given, taken in *. cbn. rewrite !map_app, !concat_app. cbn.
           rewrite !app_nil_r, !list_to_set_disj_app. multiset_solver.
        -- unfold overwrites. cbn. rewrite map_app, sum_list_with_app. cbn. rewrite Hd. lia.
        -- unfold given, to_give. cbn. rewrite !map_app, !concat_app. cbn.
           rewrite !app_nil_r, !list_to_set_disj_app. multiset_solver.
      * destruct Hb as [-> Hr]. eexists _, s, ∅, ∅. split_and!; [done|done|done|by apply safe_round| |done|done].
        unfold given, taken. cbn. multiset_solver.
      * destruct Hb as [-> Hr]. eexists _, s, ∅, ∅. split_and!; [done|done|done|done| |done|done].
        unfold given, taken. cbn. multiset_solver.
    + specialize (Hb s (reflexivity s) Hok Hroom). destruct (m s) as [[x|e|e|] s'] eqn:Hm; try done.
      destruct Hb as (Hok' & Hle & b' & Hb' & Hk). eexists _, s', b', ∅.
      split_and!; [cbn; by rewrite (bind_ok _ _ _ _ _ Hm)|done|done|done| |done|done].
      unfold given, taken. cbn. multiset_solver.
  - destruct Hb as [-> Hr]. destruct (since <? sh_listCond s)%nat eqn:Hs.
    + eexists (mkClient todo (Busy r (blocking_round l)) done), s, ∅, ∅.
      split_and!; [unfold client_step; cbn [cl_now cl_todo cl_done]; rewrite (bind_ok _ _ _ (sh_listCond s) s) by done; by rewrite Hs|done|done|by apply safe_round| |done|done].
      unfold given, taken. cbn. multiset_solver.
    + eexists (mkClient todo (Waiting r l since) done), s, ∅, ∅.
      split_and!; [unfold client_step; cbn [cl_now cl_todo cl_done]; rewrite (bind_ok _ _ _ (sh_listCond s) s) by done; by rewrite Hs|done|done|done| |done|done].
      unfold given, taken. cbn. multiset_solver.
Qed.
End books.

(** The invariant of the schedule: [init] were in the lists at the start, and
    [plan] is all the clients have to give. *)
Definition balanced `{GoEnv} (init plan : gmultiset string) (cf : Config) : Prop :=
  let s := cf_shared cf in let cls := cf_clients cf in
  heap_ok s ∧
  (∃ bs lost, Forall2 (λ b c, owns b c s) bs cls ∧
    stored s ⊎ all_of id bs ⊎ all_of taken cls ⊎ lost = init ⊎ all_of given cls ∧
    size lost = sum_list (map overwrites cls)) ∧
  all_of given cls ⊎ all_of to_give cls = plan.

Section balance.
Context `{GoEnv}.
Context (init plan : gmultiset string) (Hroom : room (init ⊎ plan)).

Lemma balanced_shared s s' cls : heap_ok s' → sh_objects s' = sh_objects s →
  balanced init plan (mkConfig s cls) → balanced init plan (mkConfig s' cls).
Proof.
  intros Hok Hobj (_ & (bs & lost & Hbs & Heq & Hlost) & Hplan). cbn in *. split_and!; [done| |done].
  exists bs, lost. split_and!; [| |done].
  - eapply list.Forall2_impl; [exact Hbs|]. intros b c. apply owns_older.
    unfold older. cbn. by rewrite Hobj.
  - unfold stored in *. cbn in *. rewrite Hobj. exact Heq.
Qed.

Lemma exec_balanced e cf : balanced init plan cf →
  ∃ cf', exec e cf = (Ok (), cf') ∧ balanced init plan cf'.
Proof.
  destruct cf as [s cls]. intros Hbal. destruct e as [i|i|].
  - unfold exec. rewrite (bind_ok _ _ _ (cls !! i) (mkConfig s cls)) by done.
    destruct (cls !! i) as [c|] eqn:Hc; [|by eexists].
    destruct Hbal as (Hok & (bs & lost & Hbs & Heq & Hlost) & Hplan). cbn [cf_shared cf_clients] in *.
    destruct (list.Forall2_lookup_r _ _ _ _ _ Hbs Hc) as (b & Hb & Howns).
    destruct (client_step_safe b c s) as (c' & s' & b' & d & Hstep & Hok' & Hle & Howns' & Hsum & Hd & Hgive);
      [done| |done|].
    { unfold room in *. eapply Z.le_lt_trans; [|exact Hroom]. apply inj_le, gmultiset_subseteq_size.
      pose proof (all_of_part id bs i b Hb). rewrite <-Hplan. multiset_solver. }
    exists (mkConfig s' (<[i := c']> cls)). split.
    { rewrite (bind_ok _ _ _ c' (mkConfig s' cls)); [done|].
      unfold on_shared, zoom. cbn [cf_shared]. by rewrite Hstep. }
    pose proof (all_of_insert id bs i b b' Hb). pose proof (all_of_insert taken cls i c c' Hc).
    pose proof (all_of_insert given cls i c c' Hc). pose proof (sum_insert overwrites cls i c c' Hc). pose proof (all_of_insert to_give cls i c c' Hc).
    split_and!; cbn [cf_shared cf_clients]; [done| |].
    + exists (<[i := b']> bs), (lost ⊎ d). split_and!.
      * apply list.Forall2_insert; [|done]. eapply list.Forall2_impl; [exact Hbs|].
        intros b2 c2. by apply owns_older.
      * cbn [id] in *. multiset_solver.
      * rewrite gmultiset_size_disj_union. lia.
    + multiset_solver.
  - unfold exec. rewrite (bind_ok _ _ _ (cls !! i) (mkConfig s cls)) by done.
    destruct (cls !! i) as [c|]; [|by eexists].
    assert (∃ s', timer_step c s = (Ok (), s') ∧ heap_ok s' ∧ sh_objects s' = sh_objects s)
      as (s' & Hs' & Hok' & Hobj).
    { destruct Hbal as ([Hv Hi HSv HSi] & _). unfold timer_step.
      destruct (cl_now c) as [|r p|r l since]; [by exists s..|].
      destruct (l_hasDeadline l); [|by exists s].
      rewrite (bind_ok _ _ _ (time_Now (sh_tick s)) (snd (serial s))) by done.
      destruct (_ >=? _); by eexists. }
    exists (mkConfig s' cls). split; [unfold on_shared, zoom; cbn [cf_shared]; by rewrite Hs'|].
    by eapply balanced_shared.
  - exists (mkConfig (snd (serial s)) cls). split; [done|]. apply (balanced_shared s); [|done|exact Hbal].
    by destruct Hbal as ([Hv Hi HSv HSi] & _).
Qed.

Lemma run_balanced es cf : balanced init plan cf →
  ∃ cf', run es cf = (Ok (), cf') ∧ balanced init plan cf'.
Proof.
  revert cf. induction es as [|e es IH]; intros cf Hcf; [by exists cf|].
  destruct (exec_balanced e cf Hcf) as (cf1 & He & Hcf1). destruct (IH cf1 Hcf1) as (cf2 & Hr & Hcf2).
  exists cf2. split; [|done]. unfold run. cbn [for_each]. by rewrite (bind_ok _ _ _ _ _ He).
Qed.
End balance.
