(* ===== verification/Rdb.v ===== *)
(** * Rdb: snapshots (src/pkg/persistence/rdb.go)

    The snapshot is written through an [errWriter] whose first error sticks;
    it goes to a temporary file that is renamed into place. The loader reads it
    back opcode by opcode into the databases. *)
From S2P Require Import Prelude Go Strconv Resp DataStruct PubSub Database.
From Stdlib Require Import Ascii.

Definition rdbHeader : string := "DATABASE0009".
Definition opSelectDB : Z := 254.
Definition opEOF : Z := 255.
Definition opResizeDB : Z := 251.
Definition typeString : Z := 0.
Definition typeList : Z := 1.
Definition typeSet : Z := 2.
Definition typeHash : Z := 4.

(** [byte(n)] keeps the low eight bits. *)
Definition byte_of (n : Z) : ascii := ascii_of_nat (Z.to_nat (n mod 256)).
Definition byte_val (c : ascii) : Z := Z.of_nat (nat_of_ascii c).

(** [binary.Write(w, binary.BigEndian, uint32(n))] and [uint64]. *)
Definition be32 (n : Z) : string :=
  let n := n mod 2 ^ 32 in
  String (byte_of (Z.shiftr n 24)) (String (byte_of (Z.shiftr n 16))
    (String (byte_of (Z.shiftr n 8)) (String (byte_of n) ""))).
Definition be64 (n : Z) : string := be32 (Z.shiftr n 32) +:+ be32 n.

(** ** The writer *)
Record errWriter := mkErrWriter { ew_out : string; ew_err : option string }.

(** The writer, together with the serial number of the next I/O call or
    [range]. *)
Record SaveSt := mkSaveSt { sv_n : nat; sv_ew : errWriter }.

Section save.
Context `{GoEnv}.

Definition ew_write (data : string) : M SaveSt () := λ s,
  match ew_err (sv_ew s) with
  | Some _ => (Ok (), s)
  | None =>
      match io_call (sv_n s) with
      | None => (Ok (), mkSaveSt (S (sv_n s)) (mkErrWriter (ew_out (sv_ew s) +:+ data) None))
      | Some e => (Ok (), mkSaveSt (S (sv_n s)) (mkErrWriter (ew_out (sv_ew s)) (Some e)))
      end
  end.

Definition write_byte (n : Z) : M SaveSt () := ew_write (String (byte_of n) "").

Definition writeLength (n : Z) : M SaveSt () :=
  if n <? 64 then write_byte n
  else if n <? 16384 then
    _ ← write_byte (Z.lor (Z.shiftr n 8) 64);
    write_byte (Z.land n 255)
  else
    _ ← write_byte 128;
    ew_write (be32 n).

Definition writeString (s : string) : M SaveSt () :=
  _ ← writeLength (slen s);
  ew_write s.

Definition sv_range {A} (m : gmap string A) : M SaveSt (list (string * A)) := λ s,
  (Ok (map_range (sv_n s) m), mkSaveSt (S (sv_n s)) (sv_ew s)).
Definition sv_ranged {A} (m : M nat A) : M SaveSt A :=
  zoom sv_n (λ n s, mkSaveSt n (sv_ew s)) m.

Definition write_entry_string (e : string * string) : M SaveSt () :=
  let '(key, value) := e in
  _ ← write_byte typeString;
  _ ← writeString key;
  writeString value.

Definition write_entry_list (e : string * list string) : M SaveSt () :=
  let '(key, l) := e in
  match ListDS.LRange 0 (-1) l with
  | (Ok items, _) =>
      if (0 <? length items)%nat then
        _ ← write_byte typeList;
        _ ← writeString key;
        _ ← writeLength (zlen items);
        for_each writeString items
      else mret ()
  | (Err e, _) => raise e
  | (Panic p, _) => panic p
  | (NoFuel, _) => out_of_fuel
  end.

Definition write_entry_set (e : string * gmap string ()) : M SaveSt () :=
  let '(key, set) := e in
  members ← sv_ranged (SetDS.SMembers set);
  if (0 <? length members)%nat then
    _ ← write_byte typeSet;
    _ ← writeString key;
    _ ← writeLength (zlen members);
    for_each writeString members
  else mret ().

Definition write_entry_hash (e : string * gmap string string) : M SaveSt () :=
  let '(key, hash) := e in
  fields ← sv_ranged (HashDS.HGetAll hash);
  if (0 <? size fields)%nat then
    _ ← write_byte typeHash;
    _ ← writeString key;
    _ ← writeLength (Z.of_nat (size fields));
    entries ← sv_range fields;
    for_each (λ '(field, value), _ ← writeString field; writeString value) entries
  else mret ().

Definition totalKeys (d : Database) : Z :=
  Z.of_nat (size (Store d)) + (Z.of_nat (size (Lists d)) + Z.of_nat (size (Sets d))
    + Z.of_nat (size (Hashes d))).

Definition saveDatabase (index : Z) (d : Database) : M SaveSt Z :=
  if totalKeys d =? 0 then mret 0 else
  _ ← write_byte opSelectDB;
  _ ← writeLength index;
  _ ← write_byte opResizeDB;
  _ ← writeLength (totalKeys d);
  _ ← writeLength 0;
  entries ← sv_range (Store d);
  _ ← for_each write_entry_string entries;
  entries ← sv_range (Lists d);
  _ ← for_each write_entry_list entries;
  entries ← sv_range (Sets d);
  _ ← for_each write_entry_set entries;
  entries ← sv_range (Hashes d);
  _ ← for_each write_entry_hash entries;
  mret (totalKeys d).

(** The body of the file: header, databases in order, trailer. *)
Definition write_snapshot (dbs : list Database) : M SaveSt Z :=
  _ ← ew_write rdbHeader;
  totalKeysAll ← for_fold (λ total '(i, d),
    keys ← saveDatabase (Z.of_nat i) d; mret (total + keys)) 0 (imap (λ i d, (i, d)) dbs);
  _ ← write_byte opEOF;
  _ ← ew_write (be64 0);
  mret totalKeysAll.
End save.

(** ** The snapshot handle and [Save] *)
Record RDB := mkRDB { rdb_path : string; rdb_changes : Z; rdb_lastSave : Z }.

(** What [Save] runs over: the files on disk, the databases, the handle. *)
Record RdbSt := mkRdbSt {
  rs_n : nat;
  rs_files : gmap string string;
  rs_rdb : RDB;
}.

Section rdb.
Context `{GoEnv}.

(** A call to the operating system: on success it changes the files. *)
Definition os_call (f : gmap string string → gmap string string) :
    M RdbSt (option string) := λ s,
  match io_call (rs_n s) with
  | None => (Ok None, mkRdbSt (S (rs_n s)) (f (rs_files s)) (rs_rdb s))
  | Some e => (Ok (Some e), mkRdbSt (S (rs_n s)) (rs_files s) (rs_rdb s))
  end.

(** [os.Rename]: the content moves to the new name. *)
Definition rename (from to : string) (files : gmap string string) :=
  match files !! from with
  | Some c => <[to := c]> (delete from files)
  | None => files
  end.

(** The result of an error path: close and remove the temporary file, wrap
    the error. The outcomes of [f.Close] and [os.Remove] are ignored. *)
Definition fail_save (tmpPath msg : string) : M RdbSt (option string) :=
  _ ← os_call (delete tmpPath);
  mret (Some msg).

(** Write the snapshot through a fresh [errWriter]. *)
Definition run_writer (dbs : list Database) : M RdbSt (res Z * errWriter) := λ s,
  let '(r, w) := write_snapshot dbs (mkSaveSt (rs_n s) (mkErrWriter "" None)) in
  (Ok (r, sv_ew w), mkRdbSt (sv_n w) (rs_files s) (rs_rdb s)).

Definition Save (dbs : list Database) : M RdbSt (option string) :=
  path ← gets (λ s, rdb_path (rs_rdb s));
  let tmpPath := path +:+ ".tmp" in
  err ← os_call <[tmpPath := ""]>;
  match err with
  | Some e => mret (Some ("create temp file: " +:+ e))
  | None =>
      '(r, ew) ← run_writer dbs;
      match r with
      | Panic p => panic p
      | NoFuel => out_of_fuel
      | _ =>
          match ew_err ew with
          | Some e => fail_save tmpPath ("write error: " +:+ e)
          | None =>
              err ← os_call <[tmpPath := ew_out ew]>;
              match err with
              | Some e => fail_save tmpPath ("flush error: " +:+ e)
              | None =>
                  err ← os_call id;
                  match err with
                  | Some e => fail_save tmpPath ("sync error: " +:+ e)
                  | None =>
                      err ← os_call id;
                      match err with
                      | Some e => fail_save tmpPath ("close error: " +:+ e)
                      | None =>
                          err ← os_call (rename tmpPath path);
                          match err with
                          | Some e => fail_save tmpPath ("rename error: " +:+ e)
                          | None => mret None
                          end
                      end
                  end
              end
          end
      end
  end.

Definition IncrementChanges (r : RDB) : RDB :=
  mkRDB (rdb_path r) (rdb_changes r + 1) (rdb_lastSave r).
End rdb.

(** ** The loader *)
Record LoadSt := mkLoadSt { l_in : string; l_world : World }.

Definition rd {A} (m : M string A) : M LoadSt A :=
  zoom l_in (λ i s, mkLoadSt i (l_world s)) m.
Definition on_DB {A} (i : Z) (m : M Sess A) : M LoadSt A :=
  zoom l_world (λ w s, mkLoadSt (l_in s) w) (with_DB i m).

(** [binary.Read(rd, binary.BigEndian, &n)] for a [uint32] and a [uint64]. *)
Fixpoint be_value (s : string) (acc : Z) : Z :=
  match s with "" => acc | String c s' => be_value s' (acc * 256 + byte_val c) end.
Definition read_be (width : Z) : M string Z :=
  buf ← ReadFull width; mret (be_value buf 0).

Definition readLength : M string Z :=
  b ← ReadByte;
  let b := byte_val b in
  let mode := Z.shiftr (Z.land b 192) 6 in
  if mode =? 0 then mret (Z.land b 63)
  else if mode =? 1 then
    b2 ← ReadByte;
    mret (Z.lor (Z.shiftl (Z.land b 63) 8) (byte_val b2))
  else read_be 4.

Definition readString : M string string :=
  n ← readLength;
  _ ← (make_slice 1 n : M string ());
  ReadFull n.

(** [fmt.Errorf("msg: %w", err)] around an error of [m]. *)
Definition wrap_err {S A} (msg : string) (m : M S A) : M S A := λ s,
  match m s with
  | (Err e, s') => (Err (errorf (msg +:+ ": " +:+ error_text e)), s')
  | r => r
  end.
Definition wrap {A} (msg : string) (m : M string A) : M LoadSt A := wrap_err msg (rd m).

(** [for i := 0; i < length; i++ { item, err := read() ... }]. *)
Definition read_items {A} (read : M string A) (len : Z) : M string (list A) :=
  _ ← (make_slice stringSize len : M string ());
  k ← gets (λ s, S (String.length s));
  readElems read k 0 len [].

(** One field of a hash: a name and a value. *)
Definition readPair : M string (string * string) :=
  field ← wrap_err "read hash field" readString;
  value ← wrap_err "read hash value" readString;
  mret (field, value).

(** [rd.ReadByte()] of an opcode. *)
Definition readOp : M string Z := λ s,
  match ReadByte s with
  | (Ok c, s') => (Ok (byte_val c), s')
  | (Err io_EOF, s') => (Err (errorf "unexpected EOF"), s')
  | (Err e, s') => (Err e, s')
  | (Panic p, s') => (Panic p, s')
  | (NoFuel, s') => (NoFuel, s')
  end.

(** [fmt.Sprintf("%02X", op)]. *)
Definition hex_digit (n : Z) : ascii :=
  ascii_of_nat (Z.to_nat (if n <? 10 then 48 + n else 55 + n)).
Definition hex2 (n : Z) : string :=
  String (hex_digit (n / 16)) (String (hex_digit (n mod 16)) "").

Section load.
Context `{GoEnv}.

Definition load_string (currentDB : Z) : M LoadSt () :=
  key ← wrap "read string key" readString;
  value ← wrap "read string value" readString;
  on_DB currentDB (modify_db (set_Store <[key := value]>)).

Definition load_list (currentDB : Z) : M LoadSt () :=
  key ← wrap "read list key" readString;
  length ← wrap "read list length" readLength;
  items ← rd (read_items (wrap_err "read list item" readString) length);
  _ ← on_DB currentDB (GetOrCreateList key);
  _ ← on_DB currentDB (on_list key (ListDS.RPush items));
  mret ().

Definition load_set (currentDB : Z) : M LoadSt () :=
  key ← wrap "read set key" readString;
  length ← wrap "read set length" readLength;
  members ← rd (read_items (wrap_err "read set member" readString) length);
  _ ← on_DB currentDB (GetOrCreateSet key);
  _ ← on_DB currentDB (on_set key (still (SetDS.SAdd members)));
  mret ().

Definition load_hash (currentDB : Z) : M LoadSt () :=
  key ← wrap "read hash key" readString;
  length ← wrap "read hash length" readLength;
  pairs ← rd (read_items readPair length);
  let fields := foldl (λ fields '(field, value), <[field := value]> fields) ∅ pairs in
  _ ← on_DB currentDB (GetOrCreateHash key);
  on_DB currentDB (on_hash key (HashDS.HMSet fields)).

(** The opcode loop; each round takes at least one byte. *)
Fixpoint load_loop (fuel : nat) (currentDB : Z) (keysLoaded : Z) : M LoadSt Z :=
  match fuel with
  | O => out_of_fuel
  | S fuel' =>
      op ← rd readOp;
      if op =? opEOF then
        _ ← wrap "read EOF checksum" (read_be 8);
        mret keysLoaded
      else if op =? opSelectDB then
        dbNum ← wrap "read SELECTDB index" readLength;
        if (dbNum <? 0) || (dbNum >=? Z.of_nat NumDatabases) then
          raise (errorf ("database index " +:+ Itoa dbNum +:+ " out of range (0-15)"))
        else load_loop fuel' dbNum keysLoaded
      else if op =? opResizeDB then
        _ ← wrap "read resize db_size" readLength;
        _ ← wrap "read resize expires_size" readLength;
        load_loop fuel' currentDB keysLoaded
      else if op =? typeString then
        _ ← load_string currentDB; load_loop fuel' currentDB (keysLoaded + 1)
      else if op =? typeList then
        _ ← load_list currentDB; load_loop fuel' currentDB (keysLoaded + 1)
      else if op =? typeSet then
        _ ← load_set currentDB; load_loop fuel' currentDB (keysLoaded + 1)
      else if op =? typeHash then
        _ ← load_hash currentDB; load_loop fuel' currentDB (keysLoaded + 1)
      else raise (errorf ("unknown opcode: 0x" +:+ hex2 op))
  end.

Definition Load : M LoadSt Z :=
  header ← wrap "read header" (ReadFull (slen rdbHeader));
  if negb (String.eqb (str_take 8 header) "DATABASE") then
    raise (errorf ("invalid RDB header: expected DATABASE, got " +:+ str_take 8 header))
  else
    fuel ← gets (λ s, S (String.length (l_in s)));
    load_loop fuel 0 0.
End load.
