(* ===== verification/RdbFacts.v ===== *)
(** * RdbFacts: what a snapshot holds and what loading it restores *)
From S2P Require Import Prelude Go Strconv Resp DataStruct PubSub Database DbFacts CmdFacts.
From S2P Require Import Invariant Rdb.
From Stdlib Require Import Ascii.
Import ListFacts SetFacts HashFacts.

(** ** The text of a snapshot *)
Definition byte_text (n : Z) : string := String (byte_of n) "".

Definition len_text (n : Z) : string :=
  if n <? 64 then byte_text n
  else if n <? 16384 then
    byte_text (Z.lor (Z.shiftr n 8) 64) +:+ byte_text (Z.land n 255)
  else byte_text 128 +:+ be32 n.

Definition str_text (s : string) : string := len_text (slen s) +:+ s.
Definition pair_text (e : string * string) : string := str_text (fst e) +:+ str_text (snd e).

(** What the body of a file is made of. *)
Inductive item : Type :=
  | IString (key value : string)
  | IList (key : string) (items : list string)
  | ISet (key : string) (members : list string)
  | IHash (key : string) (pairs : list (string * string))
  | ISelect (index : Z)
  | IResize (keys : Z).

Definition item_text (i : item) : string :=
  match i with
  | IString key value => byte_text typeString +:+ pair_text (key, value)
  | IList key items =>
      byte_text typeList +:+ str_text key +:+ len_text (zlen items) +:+ concat_map str_text items
  | ISet key members =>
      byte_text typeSet +:+ str_text key +:+ len_text (zlen members) +:+ concat_map str_text members
  | IHash key pairs =>
      byte_text typeHash +:+ str_text key +:+ len_text (zlen pairs) +:+ concat_map pair_text pairs
  | ISelect index => byte_text opSelectDB +:+ len_text index
  | IResize keys => byte_text opResizeDB +:+ len_text keys +:+ len_text 0
  end.

Definition file_text (items : list item) : string :=
  rdbHeader +:+ concat_map item_text items +:+ byte_text opEOF +:+ be64 0.

(** ** What the writer emits

    [emits m P]: [m] always returns, with a result and a text related by [P];
    the text is what it appends when no write has failed. *)
Section emits.
Context `{GoEnvLaws}.

Definition emits {A} (m : M SaveSt A) (P : A → string → Prop) : Prop :=
  ∀ s, ∃ a s' text, m s = (Ok a, s') ∧ P a text ∧
    (ew_err (sv_ew s') = None →
     ew_err (sv_ew s) = None ∧ ew_out (sv_ew s') = ew_out (sv_ew s) +:+ text).

Lemma emits_ret {A} (a : A) P : P a "" → emits (mret a) P.
Proof.
  intros HP s. exists a, s, "". split_and!; [done..|]. by rewrite string_app_nil_r.
Qed.

Lemma emits_bind {A B} (m : M SaveSt A) (f : A → M SaveSt B) P Q :
  emits m P → (∀ a t1, P a t1 → emits (f a) (λ b t2, Q b (t1 +:+ t2))) → emits (m ≫= f) Q.
Proof.
  intros Hm Hf s. destruct (Hm s) as (a & s1 & t1 & Ha & HP & H1).
  destruct (Hf a t1 HP s1) as (b & s2 & t2 & Hb & HQ & H2).
  exists b, s2, (t1 +:+ t2). rewrite (bind_ok _ _ _ _ _ Ha). split_and!; [done..|].
  intros He. destruct (H2 He) as [He1 ->]. destruct (H1 He1) as [He0 ->].
  by rewrite string_app_assoc.
Qed.

Lemma emits_mono {A} (m : M SaveSt A) (P Q : A → string → Prop) :
  (∀ a t, P a t → Q a t) → emits m P → emits m Q.
Proof. intros HPQ Hm s. destruct (Hm s) as (a & s' & t & ? & ? & ?). eauto 8. Qed.

Lemma emits_write data (P : () → string → Prop) : P () data → emits (ew_write data) P.
Proof.
  intros HP s. unfold ew_write. destruct (ew_err (sv_ew s)) as [e|] eqn:He.
  - exists (), s, data. split_and!; [done..|]. by rewrite He.
  - destruct (io_call (sv_n s)) as [e|]; eexists _, _, data; split_and!; done.
Qed.

(** A fixed text first. *)
Lemma emits_then {B} (m : M SaveSt ()) (f : () → M SaveSt B) text Q :
  emits m (λ _ t, t = text) → emits (f ()) (λ b t2, Q b (text +:+ t2)) → emits (m ≫= f) Q.
Proof. intros Hm Hf. eapply emits_bind; [exact Hm|]. by intros [] t ->. Qed.

Lemma emits_length n : emits (writeLength n) (λ _ t, t = len_text n).
Proof.
  unfold writeLength, len_text. case_match; [by apply emits_write|].
  case_match.
  - eapply emits_then; [by apply emits_write|]. by apply emits_write.
  - eapply emits_then; [by apply emits_write|]. by apply emits_write.
Qed.

Lemma emits_string str : emits (writeString str) (λ _ t, t = str_text str).
Proof. eapply emits_then; [apply emits_length|]. by apply emits_write. Qed.

Lemma emits_range {A} (m : gmap string A) (P : list (string * A) → string → Prop) :
  (∀ l, l ≡ₚ map_to_list m → P l "") → emits (sv_range m) P.
Proof.
  intros HP s. eexists _, _, "". split; [done|]. split; [apply HP, map_range_perm|].
  cbn. by rewrite string_app_nil_r.
Qed.

Lemma emits_ranged {A} (m : M nat A) (P : A → string → Prop) :
  (∀ n, ∃ a n', m n = (Ok a, n') ∧ P a "") → emits (sv_ranged m) P.
Proof.
  intros Hm s. destruct (Hm (sv_n s)) as (a & n' & Ha & HP).
  exists a, (mkSaveSt n' (sv_ew s)), "". unfold sv_ranged, zoom. rewrite Ha.
  split_and!; [done..|]. cbn. by rewrite string_app_nil_r.
Qed.

(** A loop whose body emits a text of each element. *)
Lemma emits_for_each {X Y} (body : X → M SaveSt ()) (txt : Y → string) (R : X → list Y → Prop) l :
  (∀ x, x ∈ l → emits (body x) (λ _ t, ∃ ys, R x ys ∧ t = concat_map txt ys)) →
  emits (for_each body l) (λ _ t, ∃ yss, Forall2 R l yss ∧ t = concat_map txt (concat yss)).
Proof.
  induction l as [|x l IH]; intros Hb; [apply emits_ret; by exists []|].
  cbn [for_each]. eapply emits_bind; [apply Hb; left|].
  cbn. intros _ t (ys & Hys & ->). eapply emits_mono; [|apply IH; intros y Hy; apply Hb; by right].
  cbn. intros _ t (yss & Hyss & ->). exists (ys :: yss). split; [by constructor|].
  cbn [concat]. by rewrite concat_map_app.
Qed.

Lemma emits_each {X} (body : X → M SaveSt ()) (txt : X → string) l :
  (∀ x, emits (body x) (λ _ t, t = txt x)) →
  emits (for_each body l) (λ _ t, t = concat_map txt l).
Proof.
  intros Hb. induction l as [|x l IH]; [by apply emits_ret|].
  cbn [for_each]. eapply emits_bind; [apply Hb|]. cbn beta. intros _ t ->.
  eapply emits_mono; [|exact IH]. cbn beta. intros _ t ->. by rewrite concat_map_cons.
Qed.
End emits.

(** ** The items of a database *)

(** The items are the entries of the database, in some order, the empty
    containers left out. *)

Definition string_items (e : string * string) (its : list item) : Prop :=
  its = [IString (fst e) (snd e)].
Definition list_items (e : string * list string) (its : list item) : Prop :=
  its = if decide (snd e = []) then [] else [IList (fst e) (snd e)].
Definition set_items (e : string * gmap string ()) (its : list item) : Prop :=
  ∃ ms, NoDup ms ∧ list_to_set ms = dom (snd e) ∧
    its = if decide (ms = []) then [] else [ISet (fst e) ms].
Definition hash_items (e : string * gmap string string) (its : list item) : Prop :=
  ∃ ps, ps ≡ₚ map_to_list (snd e) ∧ its = if decide (ps = []) then [] else [IHash (fst e) ps].

Definition map_items {A} (R : string * A → list item → Prop) (m : gmap string A)
    (its : list item) : Prop :=
  ∃ l iss, l ≡ₚ map_to_list m ∧ Forall2 R l iss ∧ its = concat iss.

Definition db_items (index : Z) (d : Database) (its : list item) : Prop :=
  if totalKeys d =? 0 then its = []
  else ∃ its1 its2 its3 its4,
    map_items string_items (Store d) its1 ∧ map_items list_items (Lists d) its2 ∧
    map_items set_items (Sets d) its3 ∧ map_items hash_items (Hashes d) its4 ∧
    its = [ISelect index; IResize (totalKeys d)] ++ its1 ++ its2 ++ its3 ++ its4.

Section write.
Context `{GoEnvLaws}.

Lemma emits_string_entry e :
  emits (write_entry_string e) (λ _ t, ∃ its, string_items e its ∧ t = concat_map item_text its).
Proof.
  destruct e as [key value].
  eapply emits_then; [by apply emits_write|]. eapply emits_then; [apply emits_string|].
  eapply emits_mono; [|apply emits_string]. cbn beta. intros _ t ->.
  exists [IString key value]. split; [done|]. rewrite concat_map_single. cbn [item_text].
  unfold pair_text. cbn [fst snd]. by autorewrite with go_str.
Qed.

Lemma emits_list_entry e :
  zlen (snd e) < maxInt →
  emits (write_entry_list e) (λ _ t, ∃ its, list_items e its ∧ t = concat_map item_text its).
Proof.
  destruct e as [key l]. intros Hlen. unfold write_entry_list. rewrite LRange_all by done.
  unfold list_items. cbn [fst snd].
  destruct l as [|x l]; [by apply emits_ret; eexists|].
  change (0 <? length (x :: l))%nat with true.
  eapply emits_then; [by apply emits_write|]. eapply emits_then; [apply emits_string|].
  eapply emits_then; [apply emits_length|].
  eapply emits_mono; [|apply (emits_each _ str_text), emits_string].
  cbn beta. intros _ t ->. exists [IList key (x :: l)]. split; [done|].
  rewrite concat_map_single. cbn [item_text].
  by autorewrite with go_str.
Qed.

Lemma emits_set_entry e :
  emits (write_entry_set e) (λ _ t, ∃ its, set_items e its ∧ t = concat_map item_text its).
Proof.
  destruct e as [key x]. unfold write_entry_set.
  eapply (emits_bind _ _ (λ ms t, t = "" ∧ NoDup ms ∧ list_to_set ms = dom x)).
  { apply emits_ranged. intros n. destruct (SMembers_spec n x) as (ms & Hms & Hnd & Hin).
    exists ms, (S n). split_and!; [done..|]. apply set_eq. intros m.
    by rewrite elem_of_list_to_set, Hin. }
  intros ms _ (-> & Hnd & Hms).
  destruct ms as [|m ms].
  { apply emits_ret. exists []. split; [|done]. by exists []. }
  change (0 <? length (m :: ms))%nat with true.
  eapply emits_then; [by apply emits_write|]. eapply emits_then; [apply emits_string|].
  eapply emits_then; [apply emits_length|].
  eapply emits_mono; [|apply (emits_each _ str_text), emits_string].
  cbn beta. intros _ t ->. exists [ISet key (m :: ms)]. split; [by exists (m :: ms)|].
  rewrite concat_map_single. cbn [item_text].
  by autorewrite with go_str.
Qed.

Lemma emits_hash_entry e :
  emits (write_entry_hash e) (λ _ t, ∃ its, hash_items e its ∧ t = concat_map item_text its).
Proof.
  destruct e as [key x]. unfold write_entry_hash.
  eapply (emits_bind _ _ (λ fields t, t = "" ∧ fields = x)).
  { apply emits_ranged. intros n. rewrite HGetAll_spec. by eexists _, _. }
  intros fields _ [-> ->].
  destruct (Nat.ltb_spec 0 (size x)) as [Hpos|Hz].
  - eapply emits_then; [by apply emits_write|]. eapply emits_then; [apply emits_string|].
    eapply emits_then; [apply emits_length|].
    eapply (emits_bind _ _ (λ ps t, t = "" ∧ ps ≡ₚ map_to_list x)); [by apply emits_range|].
    intros ps _ [-> Hps].
    eapply emits_mono; [|apply (emits_each _ pair_text)].
    2:{ intros [f v]. eapply emits_then; [apply emits_string|].
        eapply emits_mono; [|apply emits_string]. by cbn beta; intros _ t ->. }
    cbn beta. intros _ t ->. exists [IHash key ps]. split.
    + exists ps. split; [done|]. destruct ps; [|done].
      apply Permutation_length in Hps. rewrite length_map_to_list in Hps. cbn in Hps. lia.
    + rewrite concat_map_single. cbn [item_text].
      apply Permutation_length in Hps. rewrite length_map_to_list in Hps. rewrite Hps.
      by autorewrite with go_str.
  - apply emits_ret. exists []. split; [|done]. exists []. split; [|done].
    assert (x = ∅) as -> by (apply map_size_empty_inv; lia). cbn [snd]. by rewrite map_to_list_empty.
Qed.

(** A whole map. *)
Lemma emits_map {A} (body : string * A → M SaveSt ()) R (m : gmap string A) {B}
    (f : M SaveSt B) Q :
  (∀ k a, m !! k = Some a →
    emits (body (k, a)) (λ _ t, ∃ its, R (k, a) its ∧ t = concat_map item_text its)) →
  (∀ its, map_items R m its → emits f (λ b t, Q b (concat_map item_text its +:+ t))) →
  emits (entries ← sv_range m; _ ← for_each body entries; f) Q.
Proof.
  intros Hb Hf.
  eapply (emits_bind _ _ (λ l t, t = "" ∧ l ≡ₚ map_to_list m)); [by apply emits_range|].
  intros l _ [-> Hl]. eapply emits_bind.
  { apply (emits_for_each body item_text R). intros [k a] Hin. apply Hb.
    rewrite Hl in Hin. by apply elem_of_map_to_list in Hin. }
  cbn beta. intros _ t (yss & Hyss & ->). apply Hf. by exists l, yss.
Qed.

Lemma emits_saveDatabase index d :
  fits d →
  emits (saveDatabase index d) (λ _ t, ∃ its, db_items index d its ∧ t = concat_map item_text its).
Proof.
  intros Hfit. unfold saveDatabase, db_items.
  destruct (totalKeys d =? 0); [apply emits_ret; by exists []|].
  eapply emits_then; [by apply emits_write|]. eapply emits_then; [apply emits_length|].
  eapply emits_then; [by apply emits_write|]. eapply emits_then; [apply emits_length|].
  eapply emits_then; [apply emits_length|].
  apply (emits_map _ string_items); [intros; apply emits_string_entry|]. intros its1 H1.
  apply (emits_map _ list_items).
  { intros k l Hl. apply emits_list_entry. by eapply Hfit. }
  intros its2 H2.
  apply (emits_map _ set_items); [intros; apply emits_set_entry|]. intros its3 H3.
  apply (emits_map _ hash_items); [intros; apply emits_hash_entry|]. intros its4 H4.
  apply emits_ret. eexists. split; [by exists its1, its2, its3, its4|].
  rewrite !concat_map_app, !concat_map_cons. cbn [item_text].
  change (concat_map item_text []) with "". by autorewrite with go_str.
Qed.

(** The databases in order. *)
Fixpoint dbs_items (index : nat) (dbs : list Database) (its : list item) : Prop :=
  match dbs with
  | [] => its = []
  | d :: dbs' => ∃ its1 its2, db_items (Z.of_nat index) d its1 ∧ dbs_items (S index) dbs' its2 ∧
                   its = its1 ++ its2
  end.

Lemma emits_dbs dbs : ∀ i total,
  Forall fits dbs →
  emits (for_fold (λ total '(i, d), keys ← saveDatabase (Z.of_nat i) d; mret (total + keys)) total
           (imap (λ j d, ((i + j)%nat, d)) dbs))
    (λ _ t, ∃ its, dbs_items i dbs its ∧ t = concat_map item_text its).
Proof.
  induction dbs as [|d dbs IH]; intros i total Hfit; [apply emits_ret; by exists []|].
  apply list.Forall_cons in Hfit as [Hd Hfit]. cbn [imap for_fold].
  rewrite Nat.add_0_r.
  eapply (emits_bind _ _ (λ _ t, ∃ its, db_items (Z.of_nat i) d its ∧ t = concat_map item_text its)).
  { eapply emits_bind; [by apply emits_saveDatabase|]. cbn beta. intros keys t (its & His & ->).
    apply emits_ret. exists its. by rewrite string_app_nil_r. }
  cbn beta. intros total' t (its1 & H1 & ->).
  replace (imap _ dbs) with (imap (λ j d, ((S i + j)%nat, d)) dbs).
  2:{ apply imap_ext. intros j x _. cbn. f_equal. lia. }
  eapply emits_mono; [|by apply IH]. cbn beta. intros _ t (its2 & H2 & ->).
  exists (its1 ++ its2). rewrite concat_map_app. split; [|done]. by exists its1, its2.
Qed.

Lemma emits_snapshot dbs :
  Forall fits dbs →
  emits (write_snapshot dbs) (λ _ t, ∃ its, dbs_items 0 dbs its ∧ t = file_text its).
Proof.
  intros Hfit. unfold write_snapshot, file_text.
  eapply emits_then; [by apply emits_write|].
  eapply emits_bind; [by apply (emits_dbs dbs 0)|].
  cbn beta. intros total t (its & His & ->).
  eapply emits_then; [by apply emits_write|]. eapply emits_then; [by apply emits_write|].
  apply emits_ret. exists its. split; [done|]. by autorewrite with go_str.
Qed.
End write.

(** ** Reading back *)

(** [reads m text a]: on [text], [m] returns [a] and leaves what follows. *)
Definition reads {A} (m : M string A) (text : string) (a : A) : Prop :=
  ∀ rest, m (text +:+ rest) = (Ok a, rest).

(** Lengths are written on at most 32 bits. *)
Definition short (s : string) : Prop := slen s < 2 ^ 32.

Lemma byte_val_of n : byte_val (byte_of n) = n mod 256.
Proof.
  unfold byte_val, byte_of. pose proof (Z.mod_pos_bound n 256 ltac:(lia)).
  rewrite nat_ascii_embedding by lia. lia.
Qed.

Lemma ReadByte_reads n : reads ReadByte (byte_text n) (byte_of n).
Proof. done. Qed.

Lemma read_be32 n : 0 ≤ n < 2 ^ 32 → reads (read_be 4) (be32 n) n.
Proof.
  intros Hn rest. unfold read_be.
  rewrite (bind_ok _ _ _ _ _ (ReadFull_ok (be32 n) rest)). run. do 2 f_equal.
  unfold be32. cbn [be_value]. rewrite !byte_val_of, !Z.shiftr_div_pow2 by lia.
  rewrite (Z.mod_small n (2 ^ 32)) by lia.
  change (2 ^ 24) with 16777216. change (2 ^ 16) with 65536. change (2 ^ 8) with 256.
  change (2 ^ 32) with 4294967296 in Hn.
  assert (H1 : n / 65536 = n / 256 / 256) by (by rewrite Z.div_div by lia).
  assert (H2 : n / 16777216 = n / 65536 / 256) by (by rewrite Z.div_div by lia).
  pose proof (Z.div_mod n 256 ltac:(lia)).
  pose proof (Z.div_mod (n / 256) 256 ltac:(lia)).
  pose proof (Z.div_mod (n / 65536) 256 ltac:(lia)).
  rewrite (Z.mod_small (n / 16777216) 256); [lia|].
  split; [apply Z.div_pos; lia|]. apply Z.div_lt_upper_bound; lia.
Qed.

Lemma split_low8 n : Z.lor (Z.shiftl (Z.shiftr n 8) 8) (Z.land n 255) = n.
Proof.
  apply Z.bits_inj'. intros i Hi. change 255 with (Z.ones 8).
  rewrite Z.lor_spec, Z.land_spec, Z.shiftl_spec by done.
  destruct (Z.ltb_spec i 8).
  - rewrite Z.testbit_neg_r by lia. rewrite Z.ones_spec_low by lia. by rewrite andb_true_r.
  - rewrite Z.shiftr_spec by lia. rewrite Z.ones_spec_high by lia.
    rewrite andb_false_r, orb_false_r. f_equal. lia.
Qed.

(** The two low bits of the first byte's mode, for each of the 64 values. *)
Lemma mode_bits b :
  0 ≤ b < 64 →
  Z.shiftr (Z.land b 192) 6 = 0 ∧ Z.land b 63 = b ∧
  Z.shiftr (Z.land (Z.lor b 64) 192) 6 = 1 ∧ Z.land (Z.lor b 64) 63 = b ∧ 0 ≤ Z.lor b 64 < 256.
Proof.
  intros Hb.
  assert (Hall : Forall (λ b,
    Z.shiftr (Z.land b 192) 6 = 0 ∧ Z.land b 63 = b ∧
    Z.shiftr (Z.land (Z.lor b 64) 192) 6 = 1 ∧ Z.land (Z.lor b 64) 63 = b ∧
    0 ≤ Z.lor b 64 < 256) (Z.of_nat <$> seq 0 64)).
  { apply (bool_decide_unpack _). vm_compute. exact I. }
  rewrite list.Forall_forall in Hall. apply Hall.
  apply list_elem_of_fmap. exists (Z.to_nat b). rewrite elem_of_seq. lia.
Qed.

Lemma readLength_reads n : 0 ≤ n < 2 ^ 32 → reads readLength (len_text n) n.
Proof.
  intros Hn rest. unfold readLength, len_text. destruct (Z.ltb_spec n 64).
  - rewrite (bind_ok _ _ _ _ _ (ReadByte_reads n rest)), byte_val_of, Z.mod_small by lia.
    destruct (mode_bits n) as (-> & -> & _); [lia|]. done.
  - destruct (Z.ltb_spec n 16384).
    + rewrite string_app_assoc, (bind_ok _ _ _ _ _ (ReadByte_reads _ _)), byte_val_of.
      assert (0 ≤ Z.shiftr n 8 < 64) as Hhi.
      { rewrite Z.shiftr_div_pow2 by lia. split; [apply Z.div_pos; lia|].
        apply Z.div_lt_upper_bound; lia. }
      destruct (mode_bits (Z.shiftr n 8) Hhi) as (_ & _ & Hmode & Hlow & Hr).
      rewrite (Z.mod_small (Z.lor _ 64)) by lia. rewrite Hmode, Hlow. cbn [Z.eqb Pos.eqb].
      rewrite (bind_ok _ _ _ _ _ (ReadByte_reads _ _)), byte_val_of.
      rewrite (Z.mod_small (Z.land n 255)).
      * by rewrite split_low8.
      * change 255 with (Z.ones 8). rewrite Z.land_ones by lia. apply Z.mod_pos_bound. lia.
    + rewrite string_app_assoc, (bind_ok _ _ _ _ _ (ReadByte_reads _ _)).
      by apply read_be32.
Qed.

Lemma readString_reads s : short s → reads readString (str_text s) s.
Proof.
  intros Hs rest. unfold readString, str_text. rewrite string_app_assoc.
  rewrite (bind_ok _ _ _ _ _ (readLength_reads (slen s) ltac:(unfold short in Hs; lia) _)).
  rewrite (bind_ok _ _ _ _ _ (make_slice_ok 1 (slen s) _ ltac:(lia) ltac:(unfold short in Hs; int_lia))).
  apply ReadFull_ok.
Qed.

Lemma wrap_err_reads {A} msg (m : M string A) text a :
  reads m text a → reads (wrap_err msg m) text a.
Proof. intros Hm rest. unfold wrap_err. by rewrite Hm. Qed.

Lemma readPair_reads e :
  short (fst e) → short (snd e) → reads readPair (pair_text e) e.
Proof.
  intros H1 H2 rest. unfold readPair, pair_text. rewrite string_app_assoc.
  rewrite (bind_ok _ _ _ _ _ (wrap_err_reads _ _ _ _ (readString_reads _ H1) _)).
  rewrite (bind_ok _ _ _ _ _ (wrap_err_reads _ _ _ _ (readString_reads _ H2) _)). by destruct e.
Qed.

Lemma readOp_reads n : reads readOp (byte_text n) (n mod 256).
Proof. intros rest. unfold readOp. rewrite ReadByte_reads. by rewrite byte_val_of. Qed.

Lemma str_text_nonempty s : (1 ≤ String.length (str_text s))%nat.
Proof.
  unfold str_text, len_text. rewrite string_length_app.
  repeat case_match; rewrite ?string_length_app; cbn; lia.
Qed.

Lemma pair_text_nonempty e : (1 ≤ String.length (pair_text e))%nat.
Proof.
  unfold pair_text. rewrite string_length_app. pose proof (str_text_nonempty (fst e)). lia.
Qed.

Lemma read_items_reads {A} (txt : A → string) (m : M string A) l :
  (∀ v, 1 ≤ String.length (txt v))%nat → zlen l < 2 ^ 32 →
  Forall (λ v, reads m (txt v) v) l →
  reads (read_items m (zlen l)) (concat_map txt l) l.
Proof.
  intros Hne Hlt Hl rest. unfold read_items.
  rewrite (bind_ok _ _ _ _ _ (make_slice_ok stringSize (zlen l) _ ltac:(lia) ltac:(int_lia))), gets_bind.
  pose proof (concat_map_length txt l Hne) as Hlen.
  pose proof (readElems_ok txt m l (S (String.length (concat_map txt l +:+ rest))) 0 [] rest) as He.
  rewrite string_length_app in He. rewrite Z.add_0_l in He.
  rewrite string_length_app. apply He; [lia|done].
Qed.

(** ** Loading items *)

(** The items whose lengths the format can hold. *)
Definition item_short (i : item) : Prop :=
  match i with
  | IString key value => short key ∧ short value
  | IList key items => short key ∧ zlen items < 2 ^ 32 ∧ Forall short items
  | ISet key members => short key ∧ zlen members < 2 ^ 32 ∧ Forall short members
  | IHash key pairs =>
      short key ∧ zlen pairs < 2 ^ 32 ∧ Forall (λ e, short (fst e) ∧ short (snd e)) pairs
  | ISelect index => 0 ≤ index < Z.of_nat NumDatabases
  | IResize keys => 0 ≤ keys < 2 ^ 32
  end.

(** What an item does to the database it is loaded into. *)
Definition item_db (i : item) (d : Database) : Database :=
  match i with
  | IString key value => set_Store <[key := value]> d
  | IList key items => set_Lists <[key := default [] (Lists d !! key) ++ items]> d
  | ISet key members => set_Sets <[key := add_all members (default ∅ (Sets d !! key))]> d
  | IHash key pairs =>
      set_Hashes <[key := foldl (λ fields '(field, value), <[field := value]> fields) ∅ pairs
                            ∪ default ∅ (Hashes d !! key)]> d
  | ISelect _ | IResize _ => d
  end.

Section load.
Context `{GoEnvLaws}.

Lemma wrap_reads {A} msg (m : M string A) text a rest w :
  reads m text a → wrap msg m (mkLoadSt (text +:+ rest) w) = (Ok a, mkLoadSt rest w).
Proof. intros Hm. unfold wrap, wrap_err, rd, zoom. cbn. by rewrite Hm. Qed.

Lemma rd_reads {A} (m : M string A) text a rest w :
  reads m text a → rd m (mkLoadSt (text +:+ rest) w) = (Ok a, mkLoadSt rest w).
Proof. intros Hm. unfold rd, zoom. cbn. by rewrite Hm. Qed.

(** The world with one database replaced. *)
Definition put_db (cur : Z) (d : Database) (n : nat) (w : World) : World :=
  mkWorld n (mkMultiDB (<[Z.to_nat cur := d]> (DBs (w_mdb w))) (mdb_PubSub (w_mdb w))).

Lemma on_DB_run {A} cur (m : M Sess A) input w d a d' n :
  0 ≤ cur → DBs (w_mdb w) !! Z.to_nat cur = Some d →
  m (mkSess (w_tick w) d (mdb_PubSub (w_mdb w))) = (Ok a, mkSess n d' (mdb_PubSub (w_mdb w))) →
  on_DB cur m (mkLoadSt input w) = (Ok a, mkLoadSt input (put_db cur d' n w)).
Proof.
  intros Hc Hd Hm. unfold on_DB, zoom, with_DB. cbn.
  rewrite (proj2 (Z.ltb_ge cur 0)) by lia. by rewrite Hd, Hm.
Qed.

Lemma put_db_lookup cur d n w x :
  DBs (w_mdb w) !! Z.to_nat cur = Some x → DBs (w_mdb (put_db cur d n w)) !! Z.to_nat cur = Some d.
Proof. intros Hx. cbn. apply list_lookup_insert_eq. by eapply lookup_lt_Some. Qed.

Lemma put_db_put_db cur d d' n n' w :
  put_db cur d' n' (put_db cur d n w) = put_db cur d' n' w.
Proof. unfold put_db. cbn. by rewrite list_insert_insert_eq. Qed.

(** Two methods on the same database, one after the other. *)
Lemma on_DB_two {A B C} cur (m1 : M Sess A) (m2 : M Sess B) (k : B → M LoadSt C) input w d
    a b n1 d1 n2 d2 :
  0 ≤ cur → DBs (w_mdb w) !! Z.to_nat cur = Some d →
  m1 (mkSess (w_tick w) d (mdb_PubSub (w_mdb w))) = (Ok a, mkSess n1 d1 (mdb_PubSub (w_mdb w))) →
  m2 (mkSess n1 d1 (mdb_PubSub (w_mdb w))) = (Ok b, mkSess n2 d2 (mdb_PubSub (w_mdb w))) →
  (_ ← on_DB cur m1; b ← on_DB cur m2; k b) (mkLoadSt input w) =
    k b (mkLoadSt input (put_db cur d2 n2 w)).
Proof.
  intros Hc Hd H1 H2. rewrite (bind_ok _ _ _ _ _ (on_DB_run cur m1 _ _ _ _ _ _ Hc Hd H1)).
  erewrite bind_ok.
  2:{ eapply (on_DB_run cur m2); [done|by eapply put_db_lookup|exact H2]. }
  by rewrite put_db_put_db.
Qed.

(** Each kind of entry. *)
Context (cur : Z) (w : World) (d : Database) (rest : string).
Hypothesis Hcur : 0 ≤ cur.
Hypothesis Hd : DBs (w_mdb w) !! Z.to_nat cur = Some d.
Hypothesis He : Expires d = ∅.

Abbreviation s0 := (mkSess (w_tick w) d (mdb_PubSub (w_mdb w))).

Lemma purged_s0 key : purged key s0 = s0.
Proof. apply purged_no_deadline. cbn. by rewrite He, lookup_empty. Qed.

Lemma load_string_run key value :
  short key → short value →
  ∃ n, load_string cur (mkLoadSt (pair_text (key, value) +:+ rest) w) =
    (Ok (), mkLoadSt rest (put_db cur (item_db (IString key value) d) n w)).
Proof.
  intros Hk Hv. exists (w_tick w). unfold load_string, pair_text. cbn [fst snd].
  rewrite string_app_assoc.
  rewrite (bind_ok _ _ _ _ _ (wrap_reads _ _ _ _ _ _ (readString_reads _ Hk))).
  rewrite (bind_ok _ _ _ _ _ (wrap_reads _ _ _ _ _ _ (readString_reads _ Hv))).
  by apply on_DB_run with d.
Qed.

Lemma load_list_run key items :
  short key → zlen items < 2 ^ 32 → Forall short items →
  ∃ n, load_list cur (mkLoadSt (str_text key +:+ len_text (zlen items)
                                  +:+ concat_map str_text items +:+ rest) w) =
    (Ok (), mkLoadSt rest (put_db cur (item_db (IList key items) d) n w)).
Proof.
  intros Hk Hlen Hitems. exists (w_tick w). unfold load_list.
  rewrite (bind_ok _ _ _ _ _ (wrap_reads _ _ _ _ _ _ (readString_reads _ Hk))).
  rewrite (bind_ok _ _ _ _ _ (wrap_reads _ _ _ _ _ _ (readLength_reads (zlen items) ltac:(lia)))).
  erewrite bind_ok; [|apply rd_reads, read_items_reads;
    [apply str_text_nonempty|exact Hlen|by eapply list.Forall_impl;
      [exact Hitems|intros ? ?; by apply wrap_err_reads, readString_reads]]].
  erewrite (on_DB_two cur (GetOrCreateList key) _ _ rest w d); [done|done|done| |].
  - rewrite GetOrCreateList_run, purged_s0. cbn. reflexivity.
  - erewrite on_list_run; [|cbn; apply lookup_insert_eq|apply RPush_spec].
    unfold set_db. cbn [s_tick s_db s_ps]. rewrite set_Lists_insert. done.
Qed.

Lemma load_set_run key members :
  short key → zlen members < 2 ^ 32 → Forall short members →
  ∃ n, load_set cur (mkLoadSt (str_text key +:+ len_text (zlen members)
                                  +:+ concat_map str_text members +:+ rest) w) =
    (Ok (), mkLoadSt rest (put_db cur (item_db (ISet key members) d) n w)).
Proof.
  intros Hk Hlen Hitems. exists (w_tick w). unfold load_set.
  rewrite (bind_ok _ _ _ _ _ (wrap_reads _ _ _ _ _ _ (readString_reads _ Hk))).
  rewrite (bind_ok _ _ _ _ _ (wrap_reads _ _ _ _ _ _ (readLength_reads (zlen members) ltac:(lia)))).
  erewrite bind_ok; [|apply rd_reads, read_items_reads;
    [apply str_text_nonempty|exact Hlen|by eapply list.Forall_impl;
      [exact Hitems|intros ? ?; by apply wrap_err_reads, readString_reads]]].
  erewrite (on_DB_two cur (GetOrCreateSet key) _ _ rest w d); [done|done|done| |].
  - rewrite GetOrCreateSet_run, purged_s0. cbn. reflexivity.
  - erewrite on_set_still; [|cbn; apply lookup_insert_eq|apply SAdd_spec].
    unfold set_db. cbn [s_tick s_db s_ps]. rewrite set_Sets_insert. done.
Qed.

Lemma load_hash_run key pairs :
  short key → zlen pairs < 2 ^ 32 → Forall (λ e, short (fst e) ∧ short (snd e)) pairs →
  ∃ n, load_hash cur (mkLoadSt (str_text key +:+ len_text (zlen pairs)
                                  +:+ concat_map pair_text pairs +:+ rest) w) =
    (Ok (), mkLoadSt rest (put_db cur (item_db (IHash key pairs) d) n w)).
Proof.
  intros Hk Hlen Hpairs. exists (S (w_tick w)). unfold load_hash.
  rewrite (bind_ok _ _ _ _ _ (wrap_reads _ _ _ _ _ _ (readString_reads _ Hk))).
  rewrite (bind_ok _ _ _ _ _ (wrap_reads _ _ _ _ _ _ (readLength_reads (zlen pairs) ltac:(lia)))).
  erewrite bind_ok; [|apply rd_reads, read_items_reads;
    [apply pair_text_nonempty|exact Hlen|eapply list.Forall_impl; [exact Hpairs|];
     by intros e []; apply readPair_reads]].
  cbn zeta. set (fields := foldl _ ∅ pairs).
  rewrite (bind_ok _ _ _ () (mkLoadSt rest
    (put_db cur (set_Hashes <[key := default ∅ (Hashes d !! key)]> d) (w_tick w) w))).
  2:{ apply on_DB_run with d; [done|done|]. by rewrite GetOrCreateHash_run, purged_s0. }
  erewrite on_DB_run; [|done|by eapply put_db_lookup|].
  2:{ cbn [w_tick w_mdb put_db mdb_PubSub].
      erewrite on_hash_HMSet by (cbn; apply lookup_insert_eq).
      cbn [s_tick s_db s_ps]. rewrite set_Hashes_insert. reflexivity. }
  by rewrite put_db_put_db.
Qed.
End load.

(** ** What the items of a database rebuild *)
Definition load_items (its : list item) (d : Database) : Database :=
  foldl (λ d i, item_db i d) d its.

Lemma load_items_app its1 its2 d : load_items (its1 ++ its2) d = load_items its2 (load_items its1 d).
Proof. unfold load_items. apply foldl_app. Qed.

(** One map at a time: [put] is the map's setter. *)
Lemma load_map {A} (get : Database → gmap string A)
    (put : (gmap string A → gmap string A) → Database → Database)
    (R : string * A → list item → Prop) (m : gmap string A) its d :
  (∀ f d, get (put f d) = f (get d)) →
  (∀ f g d, put f (put g d) = put (λ m, f (g m)) d) →
  (∀ d, put (λ m, m) d = d) →
  (∀ f g d, f (get d) = g (get d) → put f d = put g d) →
  (∀ k a its d, m !! k = Some a → R (k, a) its → get d !! k = None →
     load_items its d = put <[k := a]> d) →
  map_items R m its → get d = ∅ →
  load_items its d = put (λ _, m) d.
Proof.
  intros Hget Hput Hid Hext HR (l & yss & Hl & HF & ->) Hd.
  assert (Hnd : NoDup l.*1) by (rewrite Hl; apply NoDup_fst_map_to_list).
  assert (Hm : ∀ e, e ∈ l → m !! fst e = Some (snd e)).
  { intros [k a] Hin. rewrite Hl in Hin. by apply elem_of_map_to_list in Hin. }
  assert (Hgen : ∀ d, (∀ e, e ∈ l → get d !! fst e = None) →
            load_items (concat yss) d = put (λ m, foldl (λ m '(k, a), <[k := a]> m) m l) d).
  { clear Hl Hd d. induction HF as [|[k a] its l yss H1 HF IH]; intros d Hnone;
      [symmetry; apply Hid|].
    cbn [concat]. rewrite load_items_app.
    cbn in Hnd. apply list.NoDup_cons in Hnd as [Hk Hnd].
    rewrite (HR k a its d); [| |done|].
    - rewrite IH; [|done| |].
      + by rewrite Hput.
      + intros e He. apply Hm. by right.
      + intros e He. rewrite Hget. rewrite lookup_insert_ne.
        * apply Hnone. by right.
        * intros ->. apply Hk. by apply (list_elem_of_fmap_2 fst).
    - apply (Hm (k, a)). left.
    - apply (Hnone (k, a)). left. }
  rewrite Hgen by (intros; by rewrite Hd, lookup_empty).
  apply Hext. rewrite Hd, foldl_insert_union by done. rewrite (right_id_L ∅ (∪)).
  rewrite (list_to_map_proper _ _ Hnd Hl). apply list_to_map_to_list.
Qed.

(** What a snapshot keeps of a database: all but the deadlines. *)
Definition restored (d : Database) : Database :=
  mkDatabase (Store d) (Lists d) (Sets d) (Hashes d) ∅ 0.

Lemma load_db_items index d its :
  data_wf d → db_items index d its → load_items its newDatabase = restored d.
Proof.
  intros Hwf. unfold db_items. destruct (Z.eqb_spec (totalKeys d) 0) as [Hz|Hz].
  { intros ->. unfold totalKeys in Hz. unfold restored.
    rewrite (map_size_empty_inv (Store d)), (map_size_empty_inv (Lists d)),
      (map_size_empty_inv (Sets d)), (map_size_empty_inv (Hashes d)) by lia. done. }
  intros (its1 & its2 & its3 & its4 & H1 & H2 & H3 & H4 & ->).
  rewrite !load_items_app. cbn [load_items foldl item_db].
  rewrite (load_map Store set_Store string_items (Store d) its1 newDatabase);
    [|done|done|by intros []|intros f g [] Hfg; unfold set_Store; cbn in *; by rewrite Hfg| |done|done].
  2:{ intros k a ? d0 _ -> _. done. }
  rewrite (load_map Lists set_Lists list_items (Lists d) its2);
    [|done|done|by intros []|intros f g [] Hfg; unfold set_Lists; cbn in *; by rewrite Hfg| |done|done].
  2:{ intros k a ? d0 Ha -> Hk. cbn [fst snd]. rewrite decide_False.
      - cbn. by rewrite Hk.
      - intros ->. by destruct (wf_list d Hwf k). }
  rewrite (load_map Sets set_Sets set_items (Sets d) its3);
    [|done|done|by intros []|intros f g [] Hfg; unfold set_Sets; cbn in *; by rewrite Hfg| |done|done].
  2:{ intros k a ? d0 Ha (ms & Hnd & Hms & ->) Hk. cbn [fst snd] in *. rewrite decide_False.
      - cbn. rewrite Hk. cbn. do 2 f_equal. apply unit_map_eq.
        by rewrite add_all_dom, dom_empty_L, (right_id_L ∅ (∪)).
      - intros ->. destruct (wf_set d Hwf k). rewrite Ha. f_equal.
        apply dom_empty_inv_L. by rewrite <-Hms. }
  rewrite (load_map Hashes set_Hashes hash_items (Hashes d) its4);
    [done|done|done|by intros []|intros f g [] Hfg; unfold set_Hashes; cbn in *; by rewrite Hfg| |done|done].
  intros k a ? d0 Ha (ps & Hps & ->) Hk. cbn [fst snd] in *. rewrite decide_False.
  - cbn. rewrite Hk. cbn. do 2 f_equal.
    rewrite (right_id_L ∅ (∪)), foldl_insert_union, (right_id_L ∅ (∪)).
    + rewrite (list_to_map_proper ps (map_to_list a)); [apply list_to_map_to_list| |done].
      rewrite Hps. apply NoDup_fst_map_to_list.
    + rewrite Hps. apply NoDup_fst_map_to_list.
  - intros ->. destruct (wf_hash d Hwf k). rewrite Ha. f_equal.
    apply Permutation_nil in Hps. by apply map_to_list_empty_iff.
Qed.

(** ** The databases the format can hold *)
Record storable (d : Database) : Prop := {
  st_store k v : Store d !! k = Some v → short k ∧ short v;
  st_list k l : Lists d !! k = Some l → short k ∧ zlen l < 2 ^ 32 ∧ Forall short l;
  st_set k x : Sets d !! k = Some x →
    short k ∧ Z.of_nat (size x) < 2 ^ 32 ∧ ∀ m, m ∈ dom x → short m;
  st_hash k x : Hashes d !! k = Some x →
    short k ∧ Z.of_nat (size x) < 2 ^ 32 ∧ ∀ f v, x !! f = Some v → short f ∧ short v;
  st_keys : totalKeys d < 2 ^ 32;
}.

Definition data_item (i : item) : Prop :=
  match i with ISelect _ | IResize _ => False | _ => item_short i end.

Lemma map_items_data {A} (R : string * A → list item → Prop) (m : gmap string A) its :
  (∀ k a its, m !! k = Some a → R (k, a) its → Forall data_item its) →
  map_items R m its → Forall data_item its.
Proof.
  intros HR (l & yss & Hl & HF & ->). apply Forall_concat.
  assert (Hm : ∀ e, e ∈ l → m !! fst e = Some (snd e)).
  { intros [k a] Hin. rewrite Hl in Hin. by apply elem_of_map_to_list in Hin. }
  clear Hl. induction HF as [|[k a] its l yss H1 HF IH]; [constructor|].
  constructor; [|apply IH; intros e He; apply Hm; by right].
  apply (HR k a its); [|done]. apply (Hm (k, a)). left.
Qed.

Lemma db_items_data index d its :
  storable d → db_items index d its →
  its = [] ∧ totalKeys d = 0 ∨
  ∃ data, its = ISelect index :: IResize (totalKeys d) :: data ∧ Forall data_item data.
Proof.
  intros [Hs Hl Hset Hh Hk]. unfold db_items.
  destruct (Z.eqb_spec (totalKeys d) 0) as [Hz|Hz]; [by left|].
  intros H. right. destruct H as (its1 & its2 & its3 & its4 & H1 & H2 & H3 & H4 & ->).
  eexists. split; [done|]. rewrite !Forall_app. split_and!.
  - eapply map_items_data, H1. intros k a ? Ha ->. repeat constructor; by apply (Hs k a).
  - eapply map_items_data, H2. intros k a ? Ha ->. cbn [fst snd]. case_decide; [constructor|].
    repeat constructor; by apply (Hl k a).
  - eapply map_items_data, H3. intros k x ? Ha (ms & Hnd & Hms & ->). cbn [fst snd] in *.
    case_decide; [constructor|]. destruct (Hset k x Ha) as (Hk1 & Hk2 & Hk3).
    repeat constructor; [done| |].
    + rewrite <-(size_list_to_set (C:=gset string) ms Hnd), Hms, size_dom. done.
    + rewrite list.Forall_forall. intros m Hm. apply Hk3. rewrite <-Hms.
      by apply elem_of_list_to_set.
  - eapply map_items_data, H4. intros k x ? Ha (ps & Hps & ->). cbn [fst snd] in *.
    case_decide; [constructor|]. destruct (Hh k x Ha) as (Hk1 & Hk2 & Hk3).
    repeat constructor; [done| |].
    + apply Permutation_length in Hps. rewrite length_map_to_list in Hps. by rewrite Hps.
    + rewrite list.Forall_forall. intros [f v] Hin. rewrite Hps in Hin.
      apply elem_of_map_to_list in Hin. by apply (Hk3 f v).
Qed.

(** ** The opcode loop *)
Section loop.
Context `{GoEnvLaws}.

Lemma item_db_Expires i d : Expires (item_db i d) = Expires d.
Proof. by destruct i. Qed.

Lemma load_item i cur fuel keys rest w d :
  data_item i → 0 ≤ cur → DBs (w_mdb w) !! Z.to_nat cur = Some d → Expires d = ∅ →
  ∃ n, load_loop (S fuel) cur keys (mkLoadSt (item_text i +:+ rest) w) =
    load_loop fuel cur (keys + 1) (mkLoadSt rest (put_db cur (item_db i d) n w)).
Proof.
  intros Hi Hc Hd He. cbn [load_loop].
  destruct i as [key value|key items|key members|key pairs| |]; try done;
    cbn [item_text data_item item_short] in *; rewrite !string_app_assoc;
    rewrite (bind_ok _ _ _ _ _ (rd_reads _ _ _ _ _ (readOp_reads _)));
    cbv beta zeta.
  - destruct Hi as [Hk Hv].
    destruct (load_string_run cur w d rest Hc Hd key value Hk Hv) as [n Hn].
    exists n. change (0 mod 256) with 0.
    by rewrite <-(bind_ok _ (λ _, load_loop fuel cur (keys + 1)) _ _ _ Hn).
  - destruct Hi as (Hk & Hl & Hs).
    destruct (load_list_run cur w d rest Hc Hd He key items Hk Hl Hs) as [n Hn].
    exists n. by rewrite <-(bind_ok _ (λ _, load_loop fuel cur (keys + 1)) _ _ _ Hn).
  - destruct Hi as (Hk & Hl & Hs).
    destruct (load_set_run cur w d rest Hc Hd He key members Hk Hl Hs) as [n Hn].
    exists n. by rewrite <-(bind_ok _ (λ _, load_loop fuel cur (keys + 1)) _ _ _ Hn).
  - destruct Hi as (Hk & Hl & Hs).
    destruct (load_hash_run cur w d rest Hc Hd He key pairs Hk Hl Hs) as [n Hn].
    exists n. by rewrite <-(bind_ok _ (λ _, load_loop fuel cur (keys + 1)) _ _ _ Hn).
Qed.

Lemma put_db_id cur d w :
  DBs (w_mdb w) !! Z.to_nat cur = Some d → put_db cur d (w_tick w) w = w.
Proof. intros Hd. destruct w as [n [dbs ps]]. unfold put_db. cbn in *. by rewrite list_insert_id. Qed.

Lemma load_data its : ∀ cur fuel keys rest w d,
  Forall data_item its → 0 ≤ cur → DBs (w_mdb w) !! Z.to_nat cur = Some d → Expires d = ∅ →
  ∃ n, load_loop (length its + fuel) cur keys (mkLoadSt (concat_map item_text its +:+ rest) w) =
    load_loop fuel cur (keys + zlen its) (mkLoadSt rest (put_db cur (load_items its d) n w)).
Proof.
  induction its as [|i its IH]; intros cur fuel keys rest w d Hits Hc Hd He.
  - exists (w_tick w). cbn. rewrite put_db_id by done. by rewrite Z.add_0_r.
  - apply list.Forall_cons in Hits as [Hi Hits].
    rewrite concat_map_cons, string_app_assoc. cbn [length Nat.add].
    destruct (load_item i cur (length its + fuel) keys (concat_map item_text its +:+ rest) w d)
      as [n ->]; [done..|].
    destruct (IH cur fuel (keys + 1) rest (put_db cur (item_db i d) n w) (item_db i d))
      as [n' ->]; [done|done|by eapply put_db_lookup|by rewrite item_db_Expires|].
    exists n'. rewrite put_db_put_db.
    by replace (keys + Z.of_nat (S (length its))) with (keys + 1 + zlen its) by lia.
Qed.

(** SELECTDB and RESIZEDB. *)
Lemma load_select fuel cur keys index total rest w :
  0 ≤ index < Z.of_nat NumDatabases → 0 ≤ total < 2 ^ 32 →
  load_loop (S (S fuel)) cur keys
    (mkLoadSt (item_text (ISelect index) +:+ item_text (IResize total) +:+ rest) w) =
  load_loop fuel index keys (mkLoadSt rest w).
Proof.
  intros Hi Ht. cbn [load_loop item_text]. rewrite !string_app_assoc.
  rewrite (bind_ok _ _ _ _ _ (rd_reads _ _ _ _ _ (readOp_reads _))).
  cbv beta zeta. change (opSelectDB mod 256 =? opEOF) with false.
  change (opSelectDB mod 256 =? opSelectDB) with true. cbv iota.
  rewrite (bind_ok _ _ _ _ _ (wrap_reads _ _ _ _ _ _
    (readLength_reads index ltac:(unfold NumDatabases in Hi; lia)))).
  rewrite (proj2 (Z.ltb_ge index 0)) by lia. rewrite Z.geb_leb.
  rewrite (proj2 (Z.leb_gt (Z.of_nat NumDatabases) index)) by lia. cbn [orb].
  rewrite (bind_ok _ _ _ _ _ (rd_reads _ _ _ _ _ (readOp_reads _))).
  cbv beta zeta. change (opResizeDB mod 256 =? opEOF) with false.
  change (opResizeDB mod 256 =? opSelectDB) with false.
  change (opResizeDB mod 256 =? opResizeDB) with true. cbv iota.
  rewrite (bind_ok _ _ _ _ _ (wrap_reads _ _ _ _ _ _ (readLength_reads total Ht))).
  by rewrite (bind_ok _ _ _ _ _ (wrap_reads _ _ _ _ _ _ (readLength_reads 0 ltac:(lia)))).
Qed.

Lemma item_text_nonempty i : (1 ≤ String.length (item_text i))%nat.
Proof. destruct i; cbn [item_text]; rewrite string_length_app; cbn; lia. Qed.

(** All the databases, into databases that are still empty. *)
Lemma load_dbs dbs : ∀ pre its fuel cur keys rest n ps,
  Forall data_wf dbs → Forall storable dbs →
  (length pre + length dbs ≤ NumDatabases)%nat →
  dbs_items (length pre) dbs its →
  ∃ cur' keys' n',
    load_loop (length its + fuel) cur keys
      (mkLoadSt (concat_map item_text its +:+ rest)
         (mkWorld n (mkMultiDB (pre ++ replicate (length dbs) newDatabase) ps))) =
    load_loop fuel cur' keys'
      (mkLoadSt rest (mkWorld n' (mkMultiDB (pre ++ (restored <$> dbs)) ps))).
Proof.
  induction dbs as [|d dbs IH]; intros pre its fuel cur keys rest n ps Hwf Hst Hlen Hits.
  { cbn in Hits. subst. by exists cur, keys, n. }
  apply list.Forall_cons in Hwf as [Hd Hwf]. apply list.Forall_cons in Hst as [Hsd Hst].
  cbn [length] in Hlen. destruct Hits as (its1 & its2 & H1 & H2 & ->).
  pose proof (load_db_items _ _ _ Hd H1) as Hload.
  assert (Hsplit : pre ++ (restored <$> d :: dbs) = (pre ++ [restored d]) ++ (restored <$> dbs))
    by (by rewrite <-app_assoc).
  assert (Hnext : ∀ cur keys n, ∃ cur' keys' n',
    load_loop (length its2 + fuel) cur keys
      (mkLoadSt (concat_map item_text its2 +:+ rest)
         (mkWorld n (mkMultiDB (pre ++ restored d :: replicate (length dbs) newDatabase) ps))) =
    load_loop fuel cur' keys'
      (mkLoadSt rest (mkWorld n' (mkMultiDB (pre ++ (restored <$> d :: dbs)) ps)))).
  { intros cur1 keys1 n1. rewrite Hsplit, (cons_middle (restored d)), (app_assoc pre).
    apply IH; [done..| |]; rewrite ?length_app; cbn [length]; [lia|]. by rewrite Nat.add_1_r. }
  destruct (db_items_data _ _ _ Hsd H1) as [[-> Hz]|(data & -> & Hdata)].
  - cbn in Hload. rewrite <-Hload in Hnext. apply Hnext.
  - rewrite concat_map_app, !concat_map_cons, !string_app_assoc, length_app, <-Nat.add_assoc.
    cbn [length Nat.add].
    rewrite load_select by (unfold totalKeys in *; pose proof (st_keys d Hsd); unfold totalKeys in *; lia).
    set (w1 := mkWorld n _).
    destruct (load_data data (Z.of_nat (length pre)) (length its2 + fuel) keys
      (concat_map item_text its2 +:+ rest) w1 newDatabase) as [n1 ->]; [done|lia| |done|].
    + rewrite Nat2Z.id. cbn. by rewrite list_lookup_middle.
    + change (load_items data newDatabase) with
        (load_items (ISelect (Z.of_nat (length pre)) :: IResize (totalKeys d) :: data) newDatabase).
      rewrite Hload. unfold put_db, w1. cbn [w_mdb DBs mdb_PubSub length replicate].
      rewrite Nat2Z.id, insert_app_r_alt, Nat.sub_diag by done. cbn [list_insert insert].
      apply Hnext.
Qed.

(** A whole snapshot. *)
Lemma Load_file dbs its n ps :
  length dbs = NumDatabases → Forall data_wf dbs → Forall storable dbs → dbs_items 0 dbs its →
  ∃ keys n', Load (mkLoadSt (file_text its)
                     (mkWorld n (mkMultiDB (replicate NumDatabases newDatabase) ps))) =
    (Ok keys, mkLoadSt "" (mkWorld n' (mkMultiDB (restored <$> dbs) ps))).
Proof.
  intros Hlen Hwf Hst Hits. unfold Load, file_text.
  rewrite (bind_ok _ _ _ _ _ (wrap_reads _ _ rdbHeader rdbHeader _ _ (ReadFull_ok rdbHeader))).
  change (negb (String.eqb (str_take 8 rdbHeader) "DATABASE")) with false. cbv iota.
  rewrite gets_bind. cbn [l_in].
  pose proof (concat_map_length item_text its item_text_nonempty) as Hle.
  rewrite string_length_app.
  set (k := String.length (concat_map item_text its)) in *.
  set (e := String.length (byte_text opEOF +:+ be64 0)).
  replace (S (k + e)) with (length its + S (k - length its + e))%nat by lia.
  destruct (load_dbs dbs [] its (S (k - length its + e)) 0 0 (byte_text opEOF +:+ be64 0) n ps)
    as (cur' & keys' & n' & Hrun); [done..|rewrite Hlen; cbn; lia|done|].
  cbn [app] in Hrun. rewrite Hlen in Hrun. rewrite Hrun. exists keys', n'. done.
Qed.
End loop.

(** ** [Save] *)
Section save.
Context `{GoEnvLaws}.

Lemma run_writer_emits dbs s :
  Forall fits dbs →
  ∃ total ew n its, run_writer dbs s = (Ok (Ok total, ew), mkRdbSt n (rs_files s) (rs_rdb s)) ∧
    dbs_items 0 dbs its ∧ (ew_err ew = None → ew_out ew = file_text its).
Proof.
  intros Hfit.
  destruct (emits_snapshot dbs Hfit (mkSaveSt (rs_n s) (mkErrWriter "" None)))
    as (total & s' & t & Hrun & (its & Hits & ->) & Hout).
  exists total, (sv_ew s'), (sv_n s'), its. unfold run_writer. rewrite Hrun.
  split_and!; [done..|]. intros He. by destruct (Hout He).
Qed.

Lemma os_call_run f s :
  os_call f s = (Ok None, mkRdbSt (S (rs_n s)) (f (rs_files s)) (rs_rdb s)) ∨
  ∃ e, os_call f s = (Ok (Some e), mkRdbSt (S (rs_n s)) (rs_files s) (rs_rdb s)).
Proof. unfold os_call. destruct (io_call _); eauto. Qed.

Lemma path_tmp path : path +:+ ".tmp" ≠ path.
Proof.
  intros Hp. apply (f_equal String.length) in Hp. rewrite string_length_app in Hp.
  cbn in Hp. lia.
Qed.

(** What [Save] leaves on the disk: on success the snapshot at its path, on
    failure the previous content of the path; no other file is touched but
    the temporary one. *)
Definition saved (dbs : list Database) (s : RdbSt) (err : option string) (s' : RdbSt) : Prop :=
  let path := rdb_path (rs_rdb s) in
  rs_rdb s' = rs_rdb s ∧
  (∀ p, p ≠ path → p ≠ path +:+ ".tmp" → rs_files s' !! p = rs_files s !! p) ∧
  match err with
  | None => ∃ its, dbs_items 0 dbs its ∧ rs_files s' !! path = Some (file_text its)
  | Some _ => rs_files s' !! path = rs_files s !! path
  end.

Lemma fail_save_run tmp msg s :
  ∃ n files, fail_save tmp msg s = (Ok (Some msg), mkRdbSt n files (rs_rdb s)) ∧
    ∀ p, p ≠ tmp → files !! p = rs_files s !! p.
Proof.
  unfold fail_save. destruct (os_call_run (delete tmp) s) as [Hr|[e Hr]];
    rewrite (bind_ok _ _ _ _ _ Hr); eexists _, _; split; try done; intros p Hp; cbn.
  by rewrite lookup_delete_ne.
Qed.

(** An error path of [Save]: only the temporary file has changed so far. *)
Lemma saved_fail dbs s s1 tmp msg :
  tmp = rdb_path (rs_rdb s) +:+ ".tmp" → rs_rdb s1 = rs_rdb s →
  (∀ p, p ≠ tmp → rs_files s1 !! p = rs_files s !! p) →
  ∃ err s', fail_save tmp msg s1 = (Ok err, s') ∧ saved dbs s err s'.
Proof.
  intros Htmp Hrdb Hf. destruct (fail_save_run tmp msg s1) as (n & files & -> & Hfiles).
  eexists _, _. split; [done|]. split; [done|]. split; cbn [rs_files].
  - intros p _ Hp. subst tmp. by rewrite Hfiles, Hf.
  - assert (rdb_path (rs_rdb s) ≠ tmp) by (subst tmp; apply not_eq_sym, path_tmp).
    by rewrite Hfiles, Hf.
Qed.

Lemma Save_saved dbs s :
  Forall fits dbs → ∃ err s', Save dbs s = (Ok err, s') ∧ saved dbs s err s'.
Proof.
  intros Hfit. unfold Save. rewrite gets_bind.
  set (path := rdb_path (rs_rdb s)). set (tmp := path +:+ ".tmp").
  assert (Hne : path ≠ tmp) by (apply not_eq_sym, path_tmp).
  destruct (os_call_run <[tmp := ""]> s) as [Hr|[e Hr]]; rewrite (bind_ok _ _ _ _ _ Hr).
  2:{ eexists _, _. split; [done|]. by split_and!. }
  set (s1 := mkRdbSt _ _ _).
  assert (H1 : ∀ p, p ≠ tmp → rs_files s1 !! p = rs_files s !! p)
    by (intros p Hp; cbn; by rewrite lookup_insert_ne).
  destruct (run_writer_emits dbs s1 Hfit) as (total & ew & n & its & Hw & Hits & Hout).
  rewrite (bind_ok _ _ _ _ _ Hw). set (s2 := mkRdbSt n _ _). cbv beta iota.
  destruct (ew_err ew) as [e|]; [by apply (saved_fail dbs s s2 tmp)|]. specialize (Hout eq_refl).
  destruct (os_call_run <[tmp := ew_out ew]> s2) as [Hr2|[e Hr2]]; rewrite (bind_ok _ _ _ _ _ Hr2);
    [|by eapply (saved_fail dbs s _ tmp)].
  set (s3 := mkRdbSt _ _ _).
  assert (H3 : ∀ p, p ≠ tmp → rs_files s3 !! p = rs_files s !! p)
    by (intros p Hp; cbn; by rewrite !lookup_insert_ne).
  destruct (os_call_run id s3) as [Hr3|[e Hr3]]; rewrite (bind_ok _ _ _ _ _ Hr3);
    [|by eapply (saved_fail dbs s _ tmp)].
  set (s4 := mkRdbSt _ _ _).
  destruct (os_call_run id s4) as [Hr4|[e Hr4]]; rewrite (bind_ok _ _ _ _ _ Hr4);
    [|by eapply (saved_fail dbs s _ tmp)].
  set (s5 := mkRdbSt _ _ _).
  destruct (os_call_run (rename tmp path) s5) as [Hr5|[e Hr5]]; rewrite (bind_ok _ _ _ _ _ Hr5);
    [|by eapply (saved_fail dbs s _ tmp)].
  eexists _, _. split; [done|]. split; [done|]. cbn [rs_files].
  assert (Hren : rename tmp path (rs_files s5) = <[path := file_text its]> (delete tmp (rs_files s5))).
  { unfold rename. cbn. by rewrite lookup_insert_eq, Hout. }
  rewrite Hren. split.
  - intros p Hp Hpt. rewrite lookup_insert_ne by exact (not_eq_sym Hp).
    rewrite lookup_delete_ne by exact (not_eq_sym Hpt).
    by apply H3.
  - exists its. by rewrite lookup_insert_eq.
Qed.
End save.
