(* ===== verification/Aof.v ===== *)
(** * Aof: the append-only file (src/pkg/persistence/aof.go) *)
From S2P Require Import Prelude Go Strconv Resp.
From Stdlib Require Import Ascii.

(** The bytes of the open file, the database of the last entry, and the number
    of the next write. *)
Record Aof := mkAof { aof_file : string; lastDB : Z; aof_next : nat }.

(** [NewAof] on a file that already holds [content]: the first write is
    preceded by a SELECT. *)
Definition NewAof (n : nat) (content : string) : Aof := mkAof content (-1) n.

Definition selectEntry (dbIndex : Z) : Value :=
  vArray [vBulk "SELECT"; vBulk (Itoa dbIndex)].

Section write.
Context `{GoEnv}.

(** [os.File.Write] on a file opened for appending; when it fails, some of the
    bytes are in the file all the same. *)
Definition file_Write (s : string) : M Aof () := λ a,
  let next s := mkAof (aof_file a +:+ s) (lastDB a) (S (aof_next a)) in
  match log_write (aof_next a) with
  | None => (Ok (), next s)
  | Some (k, e) => (Err (errorf e), next (str_take k s))
  end.

(** [writer.Write(v)] on a [resp.Writer] over the file: what the buffered writer
    has when it is done goes to the file. *)
Definition write_value (v : Value) : M Aof () := λ a,
  match Write v (mkWriter "" "") with
  | (Ok _, w) => file_Write (w_out w) a
  | (Err e, w) => (_ ← file_Write (w_out w); raise e) a
  | (Panic p, _) => (Panic p, a)
  | (NoFuel, _) => (NoFuel, a)
  end.

(** [Aof.Write]: an error leaves the rest unwritten. *)
Definition AofWrite (dbIndex : Z) (value : Value) : M Aof () :=
  last ← gets lastDB;
  _ ← (if bool_decide (dbIndex ≠ last) then
         _ ← write_value (selectEntry dbIndex);
         modify (λ a, mkAof (aof_file a) dbIndex (aof_next a))
       else mret ());
  write_value value.
End write.

Section read.
Context `{GoEnv}.

Definition isSelectEntry (value : Value) : bool :=
  (VType value =? Array)%char && (length (Arr value) =? 2)%nat &&
  match Arr value with v :: _ => EqualFold (Str v) "SELECT" | [] => false end.

(** The body of the replay loop on one parsed value: the new current
    database and the call of [fn]. *)
Definition replay_entry {S} (fn : Z → Value → M S ()) (currentDB : Z) (value : Value) :
    M S Z :=
  if isSelectEntry value then
    match Arr value !! 1%nat with
    | Some v =>
        match Atoi (Str v) with
        | (idx, None) => mret idx
        | _ => mret currentDB
        end
    | None => panic "runtime error: index out of range"
    end
  else
    _ ← fn currentDB value;
    mret currentDB.

(** [Aof.Read]: each round parses at least one byte. The end of the file ends
    the loop; any other parse error is returned. *)
Fixpoint Read_loop {S} (fuel : nat) (fn : Z → Value → M S ()) (currentDB : Z)
    (input : string) : M S () :=
  match fuel with
  | O => out_of_fuel
  | S fuel' =>
      match Parse input with
      | (Err io_EOF, _) => mret ()
      | (Err e, _) => raise e
      | (Panic p, _) => panic p
      | (NoFuel, _) => out_of_fuel
      | (Ok value, rest) =>
          currentDB ← replay_entry fn currentDB value;
          Read_loop fuel' fn currentDB rest
      end
  end.

Definition AofRead {S} (fn : Z → Value → M S ()) (a : Aof) : M S () :=
  Read_loop (1 + String.length (aof_file a)) fn 0 (aof_file a).
End read.
