(* ===== verification/AofFacts.v ===== *)
(** * AofFacts: what the log holds and what reading it replays *)
From S2P Require Import Prelude Go Strconv Resp Aof.
From Stdlib Require Import Ascii.

(** ** Writing *)

(** The entries one [Aof.Write] appends. *)
Definition new_entries (last dbIndex : Z) (value : Value) : list Value :=
  if decide (dbIndex = last) then [value] else [selectEntry dbIndex; value].

Lemma selectEntry_wire dbIndex : in_int dbIndex → wire (selectEntry dbIndex).
Proof.
  intros Hi. pose proof (Itoa_length dbIndex Hi).
  constructor; [cbn; int_lia|]. constructor; [constructor; cbn; int_lia|].
  constructor; [constructor; int_lia|constructor].
Qed.

Section write.
Context `{GoEnv}.

Lemma write_value_run v a : wire v → write_value v a = file_Write (encode v) a.
Proof. intros Hv. unfold write_value. by rewrite (Write_run v (mkWriter "" "") Hv). Qed.

(** It succeeds or returns an error; either way some of the entries' text is
    behind what was there. *)
Lemma AofWrite_cases dbIndex value a : in_int dbIndex → wire value →
  ∃ r p q a', AofWrite dbIndex value a = (r, a') ∧ (r = Ok () ∨ ∃ e, r = Err e) ∧
    aof_file a' = aof_file a +:+ p ∧ p +:+ q = encodes (new_entries (lastDB a) dbIndex value) ∧
    (r = Ok () → q = "").
Proof.
  intros Hi Hv. unfold AofWrite, new_entries. rewrite gets_bind.
  assert (Hone : ∀ v a, wire v → ∃ r p q a', write_value v a = (r, a') ∧ (r = Ok () ∨ ∃ e, r = Err e) ∧
    aof_file a' = aof_file a +:+ p ∧ p +:+ q = encode v ∧ (r = Ok () → q = "") ∧ lastDB a' = lastDB a).
  { intros v a1 Hv1. rewrite write_value_run by done. unfold file_Write.
    destruct (log_write (aof_next a1)) as [[k e]|].
    - eexists _, (str_take k (encode v)), (str_drop k (encode v)), _. split_and!; [done|right; by eexists|done|apply str_take_drop|done|done].
    - eexists _, (encode v), "", _. split_and!; [done|by left|done|apply string_app_nil_r|done|done]. }
  destruct (decide (dbIndex = lastDB a)) as [Heq|Hne].
  - rewrite bool_decide_false by tauto. rewrite ret_bind, concat_map_single.
    destruct (Hone value a Hv) as (r & p & q & a' & Hrun & Hr & Hf & Hpq & Hq & _). by exists r, p, q, a'.
  - rewrite bool_decide_true by done. rewrite concat_map_cons, concat_map_single.
    destruct (Hone (selectEntry dbIndex) a (selectEntry_wire _ Hi)) as (r1 & p1 & q1 & a1 & H1 & [->|[e ->]] & Hf1 & Hpq1 & Hq1 & _).
    + rewrite Hq1, string_app_nil_r in Hpq1 by done. subst p1.
      set (a2 := mkAof (aof_file a1) dbIndex (aof_next a1)).
      assert (H2 : (_ ← write_value (selectEntry dbIndex); modify (λ a, mkAof (aof_file a) dbIndex (aof_next a))) a = (Ok (), a2))
        by by rewrite (bind_ok _ _ _ _ _ H1).
      rewrite (bind_ok _ _ _ _ _ H2).
      destruct (Hone value a2 Hv) as (r & p & q & a' & Hrun & Hr & Hf & Hpq & Hq & _).
      exists r, (encode (selectEntry dbIndex) +:+ p), q, a'. split_and!; [done|done| |by rewrite string_app_assoc, Hpq|done].
      rewrite Hf. cbn [a2 aof_file]. by rewrite Hf1, string_app_assoc.
    + exists (Err e), p1, (q1 +:+ encode value), a1. split_and!; [|by right; exists e|done|by rewrite <-string_app_assoc, Hpq1|done].
      rewrite !bind_eq. by rewrite H1.
Qed.

(** The log after a write that succeeds. *)
Definition with_entries (dbIndex : Z) (value : Value) (a : Aof) : Aof :=
  let es := new_entries (lastDB a) dbIndex value in
  mkAof (aof_file a +:+ encodes es) dbIndex (length es + aof_next a).

Lemma AofWrite_run `{!LogWritten _} dbIndex value a :
  in_int dbIndex → wire value → AofWrite dbIndex value a = (Ok (), with_entries dbIndex value a).
Proof.
  intros Hi Hw. unfold AofWrite, with_entries, new_entries. rewrite gets_bind.
  assert (Hone : ∀ v a, wire v → write_value v a = (Ok (), mkAof (aof_file a +:+ encode v) (lastDB a) (S (aof_next a)))).
  { intros v a1 Hv. rewrite write_value_run by done. unfold file_Write. by rewrite log_written. }
  destruct (decide (dbIndex = lastDB a)) as [Heq|Hne].
  - rewrite bool_decide_false by tauto. rewrite ret_bind, Hone by done. by rewrite concat_map_single, Heq.
  - rewrite bool_decide_true by done.
    rewrite (bind_ok _ _ _ () (mkAof (aof_file a +:+ encode (selectEntry dbIndex)) dbIndex (S (aof_next a)))).
    2:{ by rewrite (bind_ok _ _ _ _ _ (Hone _ _ (selectEntry_wire _ Hi))). }
    rewrite Hone by done. cbn [aof_file lastDB aof_next length]. rewrite concat_map_cons, concat_map_single.
    by rewrite string_app_assoc.
Qed.
End write.

(** ** Reading *)
Section read.
Context `{GoEnvLaws} {S : Type}.
Context (fn : Z → Value → M S ()).

(** The entries of the log, replayed in order. *)
Definition replay_all (cur : Z) (entries : list Value) : M S Z :=
  for_fold (replay_entry fn) cur entries.

Lemma replay_all_app cur es1 es2 s :
  replay_all cur (es1 ++ es2) s = (cur' ← replay_all cur es1; replay_all cur' es2) s.
Proof.
  unfold replay_all. revert cur s. induction es1 as [|e es1 IH]; intros cur s; [done|].
  cbn [app for_fold]. rewrite !bind_eq.
  destruct (replay_entry fn cur e s) as [[cur'| | |] s'] eqn:He; try done.
Qed.

(** [Read] on the text of some entries replays them and goes on with the
    rest. *)
Lemma Read_loop_entries es : ∀ fuel cur rest s,
  Forall wire es → (length es ≤ fuel)%nat →
  Read_loop fuel fn cur (encodes es +:+ rest) s =
    (cur' ← replay_all cur es; Read_loop (fuel - length es) fn cur' rest) s.
Proof.
  induction es as [|e es IH]; intros fuel cur rest s Hw Hf.
  - cbn [length]. by rewrite Nat.sub_0_r.
  - apply list.Forall_cons in Hw as [Hwe Hw]. cbn in Hf. destruct fuel as [|fuel]; [lia|].
    rewrite concat_map_cons, string_app_assoc. cbn [Read_loop].
    rewrite Parse_encode by done. unfold replay_all. cbn [for_fold length Nat.sub].
    rewrite !bind_eq. destruct (replay_entry fn cur e s) as [[cur'| | |] s']; try done.
    rewrite IH by (done || lia). by rewrite bind_eq.
Qed.

Lemma AofRead_entries a es s :
  aof_file a = encodes es → Forall wire es →
  AofRead fn a s = (_ ← replay_all 0 es; mret ()) s.
Proof.
  intros Hfile Hw. unfold AofRead. rewrite Hfile.
  pose proof (encodes_length es) as Hlen.
  rewrite <-(string_app_nil_r (encodes es)) at 2.
  rewrite Read_loop_entries by (done || lia). rewrite !bind_eq.
  destruct (replay_all 0 es s) as [[cur| | |] s']; try done.
  by replace (1 + String.length (encodes es) - length es)%nat
    with (Datatypes.S (String.length (encodes es) - length es)) by lia.
Qed.
End read.

(** ** A log that ends in the middle of an entry *)

(** Any prefix of the text of some entries is the text of the first of them
    followed by a strict prefix of the next. *)
Lemma encodes_prefix es : ∀ pre tail,
  pre +:+ tail = encodes es →
  ∃ es1 es2 p, es = es1 ++ es2 ∧ pre = encodes es1 +:+ p ∧
    (p = "" ∨ ∃ v es3 q, es2 = v :: es3 ∧ encode v = p +:+ q ∧ q ≠ "").
Proof.
  induction es as [|e es IH]; intros pre tail Heq.
  - apply string_app_nil_inv in Heq as [-> _]. exists [], [], "". auto.
  - rewrite concat_map_cons in Heq.
    destruct (string_app_split _ _ _ _ Heq) as [(x & -> & Hx)|(q & Hq & _ & Hne)].
    + destruct (IH x tail) as (es1 & es2 & p & -> & -> & Hp); [done|].
      exists (e :: es1), es2, p. by rewrite concat_map_cons, string_app_assoc.
    + exists [], (e :: es), pre. split_and!; [done..|]. right. eauto 6.
Qed.

Section truncated.
Context `{GoEnvLaws} {S : Type}.
Context (fn : Z → Value → M S ()).

(** Reading the text of some entries and the beginning of another replays the
    entries and stops: without an error or with [io.ErrUnexpectedEOF]. *)
Lemma AofRead_torn a es p s :
  aof_file a = encodes es +:+ p → Forall wire es →
  (p = "" ∨ ∃ v q, wire v ∧ encode v = p +:+ q ∧ q ≠ "") →
  match replay_all fn 0 es s with
  | (Ok cur, s') => AofRead fn a s = (Ok (), s') ∨
                    AofRead fn a s = (Err io_ErrUnexpectedEOF, s')
  | (Err e, s') => AofRead fn a s = (Err e, s')
  | (Panic m, s') => AofRead fn a s = (Panic m, s')
  | (NoFuel, s') => AofRead fn a s = (NoFuel, s')
  end.
Proof.
  intros Hfile Hw Hp. unfold AofRead. rewrite Hfile. pose proof (encodes_length es) as Hlen.
  rewrite Read_loop_entries by (done || rewrite string_length_app; lia).
  rewrite bind_eq. destruct (replay_all fn 0 es s) as [[cur| | |] s']; try done.
  replace (_ - length es)%nat
    with (Datatypes.S (String.length (encodes es +:+ p) - length es))
    by (rewrite string_length_app; lia).
  cbn [Read_loop]. destruct Hp as [->|(v & q & Hwv & Hv & Hq)]; [by left|].
  destruct (Parse_prefix v p q Hwv Hv Hq) as [Hp|Hp];
    destruct (Parse p) as [r rest]; cbn in Hp; subst r; [by left|by right].
Qed.

Lemma AofRead_prefix a es tail s :
  aof_file a +:+ tail = encodes es → Forall wire es →
  ∃ es1 es2 p, es = es1 ++ es2 ∧ aof_file a = encodes es1 +:+ p ∧
    (p = "" ∨ ∃ v es3 q, es2 = v :: es3 ∧ encode v = p +:+ q ∧ q ≠ "") ∧
    match replay_all fn 0 es1 s with
    | (Ok cur, s') => AofRead fn a s = (Ok (), s') ∨
                      AofRead fn a s = (Err io_ErrUnexpectedEOF, s')
    | (Err e, s') => AofRead fn a s = (Err e, s')
    | (Panic m, s') => AofRead fn a s = (Panic m, s')
    | (NoFuel, s') => AofRead fn a s = (NoFuel, s')
    end.
Proof.
  intros Hfile Hw. destruct (encodes_prefix es _ _ Hfile) as (es1 & es2 & p & -> & Hpre & Hp).
  exists es1, es2, p. split_and!; [done..|]. apply Forall_app in Hw as [Hw1 Hw2].
  apply AofRead_torn with p; [done..|].
  destruct Hp as [->|(v & es3 & q & -> & Hv & Hq)]; [by left|right].
  apply list.Forall_cons in Hw2 as [Hwv _]. by exists v, q.
Qed.
End truncated.

(** ** SELECT markers *)
Section select.
Context `{GoEnvLaws}.

Lemma isSelectEntry_selectEntry i : isSelectEntry (selectEntry i) = true.
Proof. done. Qed.

Lemma replay_entry_select {S} (fn : Z → Value → M S ()) cur i s :
  in_int i → replay_entry fn cur (selectEntry i) s = (Ok i, s).
Proof.
  intros Hi. unfold replay_entry. rewrite isSelectEntry_selectEntry.
  cbn [Arr selectEntry vArray lookup list_lookup]. cbn [Str vBulk].
  by rewrite Atoi_Itoa.
Qed.

(** An entry is not taken for a marker unless its command is SELECT. *)
Lemma isSelectEntry_command c args :
  ToUpper (Str c) ≠ "SELECT" → isSelectEntry (vArray (c :: args)) = false.
Proof.
  intros Hc. unfold isSelectEntry. cbn [VType Arr vArray].
  destruct (length (c :: args) =? 2)%nat; [|by rewrite andb_false_r]. cbn [andb].
  destruct (EqualFold (Str c) "SELECT") eqn:He; [|by rewrite andb_false_r].
  destruct Hc. revert He. unfold EqualFold, ToUpper.
  change (is_ascii "SELECT") with true. rewrite andb_true_r.
  destruct (is_ascii (Str c)).
  - intros ->%String.eqb_eq. done.
  - apply fold_SELECT.
Qed.
End select.
