(* ===== verification/Server.v ===== *)
(** * Server: command processing, persistence and connections
    (src/pkg/server/server.go, src/pkg/server/tcp.go) *)
From S2P Require Import Prelude Go Strconv Resp DataStruct PubSub Database.
From S2P Require Import StringCmds ListCmds SetCmds HashCmds ExpireCmds AdminCmds Handler.
From S2P Require Import Rdb Aof.
From Stdlib Require Import Ascii.

(** ** Replay of the append-only file *)

(** The package's own copy of [parseInt]. *)
Definition parseIntError (s : string) : error := errorf ("invalid integer: " +:+ s).

Definition parseInt (s : string) : Z + error :=
  match s with
  | "" => inl 0
  | String c s' =>
      let negative := (c =? "-")%char in
      let body := if negative then s' else if (c =? "+")%char then s' else s in
      match parseInt_loop body 0 with
      | None => inr (parseIntError s)
      | Some result => inl (if negative then wrap64 (- result) else result)
      end
  end.

Section replay.
Context `{GoEnv}.

Definition replayIncrement (key : string) (amount : Z) : M Sess () :=
  val ← gets_db (λ d, default "0" (Store d !! key));
  match parseInt val with
  | inr _ => mret ()
  | inl n => modify_db (set_Store <[key := Itoa (wrap64 (n + amount))]>)
  end.

(** [for i := 0; i < len(args); i++]: pop from the first key with data. *)
Fixpoint replayListPop (args : list Value) (left : bool) : M Sess () :=
  match args with
  | [] => mret ()
  | a :: args' =>
      let key := Str a in
      list ← GetList key;
      match list with
      | None => replayListPop args' left
      | Some _ =>
          '(_, ok) ← on_list key (if left then ListDS.LPop else ListDS.RPop);
          if negb ok then replayListPop args' left else drop_empty_list key
      end
  end.

Fixpoint replay_mset (args : list Value) : M Sess () :=
  match args with
  | k :: v :: args' =>
      _ ← modify_db (set_Store <[Str k := Str v]>);
      _ ← modify_db (set_Expires (delete (Str k)));
      replay_mset args'
  | _ => mret ()
  end.

Definition replay_args (command : string) (args : list Value) : M Sess () :=
  if String.eqb command "SET" then
    match args with
    | k :: v :: _ =>
        _ ← modify_db (set_Store <[Str k := Str v]>);
        modify_db (set_Expires (delete (Str k)))
    | _ => mret ()
    end
  else if String.eqb command "DEL" then
    for_each (λ arg, _ ← DeleteKey (Str arg); mret ()) args
  else if String.eqb command "MSET" then
    if (2 <=? length args)%nat && Nat.even (length args) then replay_mset args else mret ()
  else if String.eqb command "INCR" then
    match args with k :: _ => replayIncrement (Str k) 1 | _ => mret () end
  else if String.eqb command "DECR" then
    match args with k :: _ => replayIncrement (Str k) (-1) | _ => mret () end
  else if String.eqb command "INCRBY" then
    match args with
    | k :: v :: _ =>
        match parseInt (Str v) with
        | inl n => replayIncrement (Str k) n
        | inr _ => mret ()
        end
    | _ => mret ()
    end
  else if String.eqb command "DECRBY" then
    match args with
    | k :: v :: _ =>
        match parseInt (Str v) with
        | inl n => replayIncrement (Str k) (wrap64 (- n))
        | inr _ => mret ()
        end
    | _ => mret ()
    end
  else if String.eqb command "LPUSH" then
    match args with
    | k :: (_ :: _) as vs =>
        _ ← GetOrCreateList (Str k);
        _ ← on_list (Str k) (ListDS.LPush (map Str vs)); mret ()
    | _ => mret ()
    end
  else if String.eqb command "RPUSH" then
    match args with
    | k :: (_ :: _) as vs =>
        _ ← GetOrCreateList (Str k);
        _ ← on_list (Str k) (ListDS.RPush (map Str vs)); mret ()
    | _ => mret ()
    end
  else if String.eqb command "LPOP" then replayListPop args true
  else if String.eqb command "RPOP" then replayListPop args false
  else if String.eqb command "BLPOP" then
    if (2 <=? length args)%nat then replayListPop (take (length args - 1) args) true
    else mret ()
  else if String.eqb command "BRPOP" then
    if (2 <=? length args)%nat then replayListPop (take (length args - 1) args) false
    else mret ()
  else if String.eqb command "LSET" then
    match args with
    | k :: i :: v :: _ =>
        list ← GetList (Str k);
        match list with
        | None => mret ()
        | Some _ =>
            match parseInt (Str i) with
            | inl index => _ ← on_list (Str k) (ListDS.LSet index (Str v)); mret ()
            | inr _ => mret ()
            end
        end
    | _ => mret ()
    end
  else if String.eqb command "LREM" then
    match args with
    | k :: c :: v :: _ =>
        list ← GetList (Str k);
        match list with
        | None => mret ()
        | Some _ =>
            match parseInt (Str c) with
            | inl count =>
                _ ← on_list (Str k) (ListDS.LRem count (Str v));
                drop_empty_list (Str k)
            | inr _ => mret ()
            end
        end
    | _ => mret ()
    end
  else if String.eqb command "SADD" then
    match args with
    | k :: (_ :: _) as ms =>
        _ ← GetOrCreateSet (Str k);
        _ ← on_set (Str k) (still (SetDS.SAdd (map Str ms))); mret ()
    | _ => mret ()
    end
  else if String.eqb command "SREM" then
    match args with
    | k :: (_ :: _) as ms =>
        set ← GetSet (Str k);
        match set with
        | None => mret ()
        | Some _ =>
            _ ← on_set (Str k) (still (SetDS.SRem (map Str ms)));
            drop_empty_set (Str k)
        end
    | _ => mret ()
    end
  else if String.eqb command "SPOP" then
    match args with
    | k :: _ =>
        set ← GetSet (Str k);
        match set with
        | None => mret ()
        | Some _ => _ ← on_set (Str k) SetDS.SPop; drop_empty_set (Str k)
        end
    | _ => mret ()
    end
  else if String.eqb command "HSET" then
    match args with
    | k :: f :: v :: _ =>
        _ ← GetOrCreateHash (Str k);
        _ ← on_hash (Str k) (still (HashDS.HSet (Str f) (Str v))); mret ()
    | _ => mret ()
    end
  else if String.eqb command "HDEL" then
    match args with
    | k :: (_ :: _) as fs =>
        hash ← GetHash (Str k);
        match hash with
        | None => mret ()
        | Some _ =>
            _ ← on_hash (Str k) (still (HashDS.HDel (map Str fs)));
            drop_empty_hash (Str k)
        end
    | _ => mret ()
    end
  else if String.eqb command "HMSET" then
    match args with
    | k :: fvs =>
        if (3 <=? length args)%nat && Nat.odd (length args) then
          let pairs := collect_pairs fvs ∅ in
          _ ← GetOrCreateHash (Str k);
          on_hash (Str k) (HashDS.HMSet pairs)
        else mret ()
    | _ => mret ()
    end
  else if String.eqb command "HINCRBY" then
    match args with
    | k :: f :: i :: _ =>
        match parseInt (Str i) with
        | inl increment =>
            _ ← GetOrCreateHash (Str k);
            _ ← on_hash (Str k) (still (try (HashDS.HIncrBy (Str f) increment))); mret ()
        | inr _ => mret ()
        end
    | _ => mret ()
    end
  else mret ().

Definition replayCommand (value : Value) : M Sess () :=
  if negb (VType value =? Array)%char then mret () else
  match Arr value with
  | [] => mret ()
  | c :: args => replay_args (ToUpper (Str c)) args
  end.
End replay.

(** ** The server *)
Record Server := mkServer {
  sv_world : World;
  sv_aof : option Aof;
  sv_rdb : option RDB;
  sv_files : gmap string string;
  sv_requirePass : string;
}.

Definition on_world {A} (m : M World A) : M Server A :=
  zoom sv_world (λ w s, mkServer w (sv_aof s) (sv_rdb s) (sv_files s) (sv_requirePass s)) m.

(** Run a snapshot operation: it shares the serial numbers and the disk. *)
Definition on_rdb {A} (r : RDB) (m : M RdbSt A) : M Server A := λ s,
  let '(x, t) := m (mkRdbSt (w_tick (sv_world s)) (sv_files s) r) in
  (x, mkServer (mkWorld (rs_n t) (w_mdb (sv_world s))) (sv_aof s) (Some (rs_rdb t))
        (rs_files t) (sv_requirePass s)).

Definition shouldPersist (command : string) : bool :=
  bool_decide (command ∈
    ["SET"; "DEL"; "MSET";
     "INCR"; "DECR"; "INCRBY"; "DECRBY";
     "LPUSH"; "RPUSH"; "LPOP"; "RPOP"; "LSET"; "LREM"; "BLPOP"; "BRPOP";
     "SADD"; "SREM"; "SPOP";
     "HSET"; "HDEL"; "HMSET"; "HINCRBY"]).

Section server.
Context `{GoEnv}.
Context (wakeups : nat).

(** *** SAVE, BGSAVE, LASTSAVE (string_commands.go) *)
Definition rdb_not_configured : Value := vError "ERR RDB not configured".

Definition save (args : list Value) : M Server Value :=
  rdb ← gets sv_rdb;
  match rdb with
  | None => mret rdb_not_configured
  | Some r =>
      dbs ← gets (λ s, DBs (w_mdb (sv_world s)));
      err ← on_rdb r (Save dbs);
      match err with
      | Some e => mret (vError ("ERR " +:+ e))
      | None => mret vOK
      end
  end.

(** [go rdb.Save()]: run here at the time of the command, its outcome
    ignored. *)
Definition bgsave (args : list Value) : M Server Value :=
  rdb ← gets sv_rdb;
  match rdb with
  | None => mret rdb_not_configured
  | Some r =>
      dbs ← gets (λ s, DBs (w_mdb (sv_world s)));
      _ ← on_rdb r (Save dbs);
      mret (vSimple "Background saving started")
  end.

Definition lastsave (args : list Value) : M Server Value :=
  rdb ← gets sv_rdb;
  match rdb with
  | None => mret rdb_not_configured
  | Some r => mret (vInt (rdb_lastSave r / Second))
  end.

Definition RDBCommandHandlers : list (string * (list Value → M Server Value)) :=
  [("SAVE", save); ("BGSAVE", bgsave); ("LASTSAVE", lastsave)].

(** *** [processCommand] *)

(** [s.aof.Write]: an error is logged and dropped; part of the entry may be in the
    file. *)
Definition log_to_aof (dbIndex : Z) (original : Value) : M Server () := λ s,
  match sv_aof s with
  | None => (Ok (), s)
  | Some a =>
      let '(r, a') := AofWrite dbIndex original a in
      let s' := mkServer (sv_world s) (Some a') (sv_rdb s) (sv_files s) (sv_requirePass s) in
      (match r with Err _ => Ok () | _ => r end, s')
  end.

Definition count_change : M Server () := modify (λ s,
  mkServer (sv_world s) (sv_aof s) (IncrementChanges <$> sv_rdb s) (sv_files s)
    (sv_requirePass s)).

Definition processCommand (command : string) (args : list Value) (original : Value)
    (dbIndex : Z) : M Server Value :=
  match table_get command RDBCommandHandlers with
  | Some rdbHandler => rdbHandler args
  | None =>
      match handler_of wakeups command with
      | None => mret (vError ("ERR unknown command '" +:+ command +:+ "'"))
      | Some handler =>
          response ← on_world (with_DB dbIndex (handler args));
          if negb (VType response =? SimpleError)%char && shouldPersist command then
            _ ← log_to_aof dbIndex original;
            _ ← count_change;
            mret response
          else mret response
      end
  end.

(** *** A connection *)
Record Conn := mkConn {
  authenticated : bool;
  dbIndex : Z;
  c_subs : gmap string nat;      (* this connection's subscriptions *)
  c_out : list Value;            (* the replies written, oldest first *)
}.

Definition NewConn (requirePass : string) : Conn :=
  mkConn (String.eqb requirePass "") 0 ∅ [].

Definition CS : Type := Server * Conn.

Definition on_server {A} (m : M Server A) : M CS A := zoom fst (λ s cs, (s, snd cs)) m.
Definition on_pubsub {A} (m : M PubSub A) : M Server A :=
  on_world (zoom (λ w, mdb_PubSub (w_mdb w))
    (λ p w, mkWorld (w_tick w) (mkMultiDB (DBs (w_mdb w)) p)) m).

Definition set_conn (f : Conn → Conn) : M CS () := modify (λ '(s, c), (s, f c)).
Definition write (v : Value) : M CS () :=
  set_conn (λ c, mkConn (authenticated c) (dbIndex c) (c_subs c) (c_out c ++ [v])).
Definition set_authenticated (b : bool) : M CS () :=
  set_conn (λ c, mkConn b (dbIndex c) (c_subs c) (c_out c)).
Definition set_dbIndex (i : Z) : M CS () :=
  set_conn (λ c, mkConn (authenticated c) i (c_subs c) (c_out c)).
Definition set_subs (f : gmap string nat → gmap string nat) : M CS () :=
  set_conn (λ c, mkConn (authenticated c) (dbIndex c) (f (c_subs c)) (c_out c)).

Definition handleAuth (args : list Value) : M CS bool :=
  requirePass ← gets (λ cs : CS, sv_requirePass (fst cs));
  match args with
  | [a] =>
      if String.eqb requirePass "" then
        _ ← write (vError "ERR Client sent AUTH, but no password is set");
        mret true
      else if negb (String.eqb (Str a) requirePass) then
        _ ← write (vError "WRONGPASS invalid username-password pair");
        mret false
      else
        _ ← write vOK;
        mret true
  | _ =>
      _ ← write (wrong_args "auth");
      mret (String.eqb requirePass "")
  end.

Definition handleSelect (args : list Value) (currentIndex : Z) : M CS Z :=
  match args with
  | [a] =>
      match Atoi (Str a) with
      | (_, Some _) => _ ← write not_an_integer; mret currentIndex
      | (index, None) =>
          if (index <? 0) || (index >=? Z.of_nat NumDatabases) then
            _ ← write (vError "ERR DB index is out of range");
            mret currentIndex
          else
            _ ← write vOK;
            mret index
      end
  | _ => _ ← write (wrong_args "select"); mret currentIndex
  end.

Definition subscription_reply (kind channel : string) : M CS () :=
  n ← gets (λ cs : CS, Z.of_nat (size (c_subs (snd cs))));
  write (vArray [vBulk kind; vBulk channel; vInt n]).

Definition handleSubscribe (args : list Value) : M CS () :=
  for_each (λ arg,
    let channel := Str arg in
    known ← gets (λ cs : CS, bool_decide (is_Some (c_subs (snd cs) !! channel)));
    if known : bool then mret () else
    ch ← on_server (on_pubsub (Subscribe channel));
    _ ← set_subs <[channel := ch]>;
    subscription_reply "subscribe" channel) args.

(** One round of the goroutine that forwards the messages of a subscription
    to the client. *)
Definition forward (ch : nat) : M CS () :=
  msg ← on_server (on_pubsub (Receive ch));
  match msg with
  | Some msg => write (vArray [vBulk "message"; vBulk (Channel msg); vBulk (Payload msg)])
  | None => mret ()
  end.

Definition server_range {A} (f : CS → gmap string A) : M CS (list (string * A)) := λ cs,
  let '(s, c) := cs in
  let n := w_tick (sv_world s) in
  (Ok (map_range n (f cs)),
   (mkServer (mkWorld (S n) (w_mdb (sv_world s))) (sv_aof s) (sv_rdb s) (sv_files s)
      (sv_requirePass s), c)).

Definition handleUnsubscribe (args : list Value) : M CS () :=
  channels ← (match args with
              | [] => entries ← server_range (λ cs, c_subs (snd cs)); mret entries.*1
              | _ => mret (map Str args)
              end : M CS (list string));
  for_each (λ channel,
    ch ← gets (λ cs : CS, c_subs (snd cs) !! channel);
    _ ← match ch with
        | Some ch =>
            _ ← on_server (on_pubsub (Unsubscribe channel ch));
            set_subs (delete channel)
        | None => mret ()
        end;
    subscription_reply "unsubscribe" channel) channels.

(** One round of the loop of [handleConnection] on a parsed value. *)
Definition handleValue (value : Value) : M CS () :=
  if negb (VType value =? Array)%char || (length (Arr value) =? 0)%nat then
    write (vError "ERR invalid command format")
  else
  match Arr value with
  | [] => mret ()
  | c :: args =>
      let command := ToUpper (Str c) in
      if String.eqb command "AUTH" then
        b ← handleAuth args; set_authenticated b
      else
      auth ← gets (λ cs : CS, authenticated (snd cs));
      if negb auth then write (vError "NOAUTH Authentication required") else
      if String.eqb command "SELECT" then
        i ← gets (λ cs : CS, dbIndex (snd cs));
        i ← handleSelect args i;
        set_dbIndex i
      else if String.eqb command "SUBSCRIBE" then handleSubscribe args
      else if String.eqb command "UNSUBSCRIBE" then handleUnsubscribe args
      else
        i ← gets (λ cs : CS, dbIndex (snd cs));
        response ← on_server (processCommand command args value i);
        write response
  end.

(** The deferred cleanup of a connection. *)
Definition disconnect : M CS () :=
  subs ← server_range (λ cs, c_subs (snd cs));
  for_each (λ '(channel, ch), on_server (on_pubsub (Unsubscribe channel ch))) subs.

(** Whether a request gets to [processCommand]. *)
Definition runs_command (value : Value) (c : Conn) : bool :=
  (VType value =? Array)%char && authenticated c &&
  match Arr value with
  | [] => false
  | c :: _ => negb (bool_decide (ToUpper (Str c) ∈ ["AUTH"; "SELECT"; "SUBSCRIBE"; "UNSUBSCRIBE"]))
  end.

(** Whether the client still takes the [n]-th value written to it. *)
Context (sent : nat → bool).

(** The whole connection over the bytes the client sends: the loop ends at
    the end of the input, on a parse error, or when the reply to a command cannot
    be written. *)
Fixpoint connection_loop (fuel : nat) (input : string) : M CS () :=
  match fuel with
  | O => out_of_fuel
  | S fuel' =>
      match Parse input with
      | (Err _, _) => disconnect
      | (Panic p, _) => panic p
      | (NoFuel, _) => out_of_fuel
      | (Ok value, rest) =>
          c ← gets snd;
          _ ← handleValue value;
          n ← gets (λ cs, length (c_out (snd cs)));
          if runs_command value c && negb (sent (n - 1)%nat) then disconnect
          else connection_loop fuel' rest
      end
  end.

Definition handleConnection (input : string) : M CS () :=
  connection_loop (1 + String.length input) input.
End server.

(** ** Startup *)
Section startup.
Context `{GoEnv}.

(** The replay of [New]: each entry against the database it was logged for. *)
Definition replay_aof (a : Aof) : M World () :=
  AofRead (λ dbIndex value, with_DB dbIndex (replayCommand value)) a.
End startup.
