(* ===== verification/Replies.v ===== *)
(** * Replies: every reply is one value of the protocol

    [shape P]: the tag of the value is one of the six, its unused fields are
    zero, the text of a status or an error holds no line end, and a number
    satisfies [P], down to the elements of its arrays. What the length of a slice
    can be is left to [sized]. *)
From S2P Require Import Prelude Go Strconv Resp DataStruct PubSub Database DbFacts.
From S2P Require Import StringCmds ListCmds SetCmds HashCmds ExpireCmds AdminCmds Handler Invariant.
From S2P Require Import Rdb Aof Server.
From Stdlib Require Import Ascii.

Inductive shape (P : Z → Prop) : Value → Prop :=
  | shape_simple s : LF ∉ bytes s → shape P (vSimple s)
  | shape_error s : LF ∉ bytes s → shape P (vError s)
  | shape_int n : P n → shape P (vInt n)
  | shape_bulk s : shape P (vBulk s)
  | shape_null : shape P vNull
  | shape_array l : Forall (shape P) l → shape P (vArray l).

(** Every length is one that memory can hold. *)
Fixpoint sized (v : Value) : bool :=
  match v with
  | mkValue _ s _ l => (slen s <=? maxAlloc) && (valueSize * zlen l <=? maxAlloc) && forallb sized l
  end.

Lemma shape_wire v : shape in_int v → sized v = true → wire v.
Proof.
  induction v as [t s n l IH] using Value_ind'. intros Hs Hsm.
  cbn [sized] in Hsm. apply andb_true_iff in Hsm as [[Hl Hk]%andb_true_iff Hf].
  apply Z.leb_le in Hl, Hk.
  inversion Hs as [? H1|? H1|? H1| | |? H1]; subst; constructor; try done.
  rewrite forallb_forall in Hf. rewrite list.Forall_forall in IH, H1 |- *.
  intros v Hv. apply IH; [done|by apply H1|]. by apply Hf, list_elem_of_In.
Qed.

(** ** Texts without line ends *)
Lemma LF_app s t : LF ∉ bytes s → LF ∉ bytes t → LF ∉ bytes (s +:+ t).
Proof. rewrite bytes_app, elem_of_app. tauto. Qed.

(** A literal. *)
Fixpoint plain (s : string) : bool :=
  match s with "" => true | String c s' => negb (c =? LF)%char && plain s' end.
Lemma plain_LF s : plain s = true → LF ∉ bytes s.
Proof.
  induction s as [|c s IH]; [intros _; apply not_elem_of_nil|].
  cbn. intros [Hc Hs]%andb_true_iff. apply not_elem_of_cons. split; [|by apply IH].
  intros <-. done.
Qed.

Section shapes.
Context {P : Z → Prop}.

Lemma shape_wrong_args name : plain name = true → shape P (wrong_args name).
Proof.
  intros Hn. constructor. apply LF_app; [by apply plain_LF|]. apply LF_app; by apply plain_LF.
Qed.

Lemma shape_bulks (l : list string) : Forall (shape P) (map vBulk l).
Proof. induction l; constructor; [constructor|done]. Qed.
Lemma shape_bulk_map {A} (f : A → string) (l : list A) : Forall (shape P) (map (λ x, vBulk (f x)) l).
Proof. induction l; constructor; [constructor|done]. Qed.
Lemma shape_replicate n v : shape P v → Forall (shape P) (replicate n v).
Proof. intros Hv. induction n; by constructor. Qed.

Lemma shape_ret {S} (v : Value) : shape P v → yields (S:=S) (shape P) (mret v).
Proof. by intros Hv s w s' [= <- _]. Qed.

End shapes.

(** A method whose intermediate results do not matter. *)
Lemma yields_then {S A B} (Q : B → Prop) (m : M S A) (f : A → M S B) :
  (∀ a, yields Q (f a)) → yields Q (m ≫= f).
Proof. intros Hf. eapply yields_bind; [apply yields_any|auto]. Qed.

Create HintDb shape discriminated.
#[export] Hint Constructors shape : shape.
#[export] Hint Resolve shape_ret shape_bulks shape_bulk_map shape_replicate : shape.
#[export] Hint Resolve list.Forall_nil_2 list.Forall_cons_2 Forall_app_2 : shape.
#[export] Hint Extern 1 (LF ∉ bytes _) => apply plain_LF; reflexivity : shape.
#[export] Hint Extern 1 (shape _ (wrong_args _)) => apply shape_wrong_args; reflexivity : shape.
#[export] Hint Extern 1 (shape _ vOK) => constructor : shape.

Ltac shape :=
  intros;
  repeat first
    [ progress intros
    | solve [eauto with shape]
    | solve [apply shape_ret; eauto with shape]
    | apply yields_then
    | case_match ].

(** ** The handlers

    The numbers they reply with are [int]s, except those that count what is in
    memory ([counting]), of which nothing is said. *)
Definition counting (command : string) : bool := bool_decide (command ∈
  ["DEL"; "EXISTS"; "LPUSH"; "RPUSH"; "LLEN"; "LREM"; "SADD"; "SREM"; "SCARD"; "HDEL"; "HLEN"; "DBSIZE";
   "PUBLISH"; "LASTSAVE"]).

Section handlers.
Context `{GoEnv} {P : Z → Prop} (HP : ∀ n, in_int n → P n).
#[local] Hint Extern 1 (P _) => apply HP; int_lia : shape.
#[local] Hint Extern 1 (P (wrap64 _)) => apply HP, wrap64_in_int : shape.

Lemma shape_ping args : yields (shape P) (ping args). Proof. unfold ping. shape. Qed.
Lemma shape_set args : yields (shape P) (set args). Proof. unfold set. shape. Qed.
Lemma shape_get args : yields (shape P) (get args). Proof. unfold get. shape. Qed.
Lemma shape_del args : (∀ n, P n) → yields (shape P) (del args). Proof. unfold del. shape. Qed.
Lemma shape_exists args : (∀ n, P n) → yields (shape P) (exists_ args). Proof. unfold exists_. shape. Qed.
Lemma shape_mset args : yields (shape P) (mset args). Proof. unfold mset. shape. Qed.
Lemma shape_mget args : yields (shape P) (mget args).
Proof.
  unfold mget. case_match; [shape|]. apply yields_then. intros _.
  intros s v s' (r & s1 & [= <- <-] & [= <- _])%bind_ok_inv. constructor.
  apply list.Forall_forall. intros v (a & -> & _)%list_elem_of_fmap. case_match; constructor.
Qed.

Lemma GetKeyType_plain key : yields (λ t, LF ∉ bytes t) (GetKeyType key).
Proof.
  intros s t s'. rewrite GetKeyType_run. intros [= <- _]. unfold type_name.
  repeat case_match; by apply plain_LF.
Qed.
Lemma shape_typeCmd args : yields (shape P) (typeCmd args).
Proof.
  unfold typeCmd. destruct args as [|k [|]]; [shape| |shape].
  eapply yields_bind; [apply GetKeyType_plain|]. shape.
Qed.

Lemma shape_increment key n : yields (shape P) (increment key n).
Proof. unfold increment, not_an_integer. shape. Qed.
Hint Resolve shape_increment : shape.
Lemma shape_incr args : yields (shape P) (incr args). Proof. unfold incr. shape. Qed.
Lemma shape_decr args : yields (shape P) (decr args). Proof. unfold decr. shape. Qed.
Lemma shape_incrby args : yields (shape P) (incrby args). Proof. unfold incrby, not_an_integer. shape. Qed.
Lemma shape_decrby args : yields (shape P) (decrby args). Proof. unfold decrby, not_an_integer. shape. Qed.

Lemma shape_lpush args : (∀ n, P n) → yields (shape P) (lpush args). Proof. unfold lpush. shape. Qed.
Lemma shape_rpush args : (∀ n, P n) → yields (shape P) (rpush args). Proof. unfold rpush. shape. Qed.
Lemma shape_lpop args : yields (shape P) (lpop args). Proof. unfold lpop. shape. Qed.
Lemma shape_rpop args : yields (shape P) (rpop args). Proof. unfold rpop. shape. Qed.
Lemma shape_lrange args : yields (shape P) (lrange args). Proof. unfold lrange, not_an_integer. shape. Qed.
Lemma shape_llen args : (∀ n, P n) → yields (shape P) (llen args). Proof. unfold llen. shape. Qed.
Lemma shape_lindex args : yields (shape P) (lindex args). Proof. unfold lindex, not_an_integer. shape. Qed.
Lemma shape_lset args : yields (shape P) (lset args). Proof. unfold lset, not_an_integer. shape. Qed.
Lemma shape_lrem args : (∀ n, P n) → yields (shape P) (lrem args). Proof. unfold lrem, not_an_integer. shape. Qed.

Definition shape_opt (o : option Value) : Prop := match o with Some v => shape P v | None => True end.
Lemma shape_pop_first keys left : yields shape_opt (pop_first keys left).
Proof.
  induction keys as [|k keys IH]; cbn [pop_first]; [by intros s o s' [= <- _]|].
  apply yields_then. intros [l|]; [|done]. apply yields_then. intros [value ok].
  destruct (negb ok); [done|]. apply yields_then. intros _ s o s' [= <- _]. cbn. eauto 6 with shape.
Qed.
Lemma shape_blocking_loop n keys left has deadline :
  yields (shape P) (blocking_loop n keys left has deadline).
Proof.
  induction n as [|n IH]; cbn [blocking_loop]; [by intros s v s'|].
  eapply yields_bind; [apply shape_pop_first|]. intros [v|] Hv; [by apply shape_ret|].
  apply yields_then. intros late. destruct late; [shape|]. by apply yields_then.
Qed.
Hint Resolve shape_blocking_loop : shape.
Lemma shape_blockingPop n args left : yields (shape P) (blockingPop n args left).
Proof. unfold blockingPop. shape. Qed.
Hint Resolve shape_blockingPop : shape.
Lemma shape_blpop n args : yields (shape P) (blpop n args). Proof. unfold blpop. shape. Qed.
Lemma shape_brpop n args : yields (shape P) (brpop n args). Proof. unfold brpop. shape. Qed.

Lemma shape_sadd args : (∀ n, P n) → yields (shape P) (sadd args). Proof. unfold sadd. shape. Qed.
Lemma shape_srem args : (∀ n, P n) → yields (shape P) (srem args). Proof. unfold srem. shape. Qed.
Lemma shape_sismember args : yields (shape P) (sismember args). Proof. unfold sismember. shape. Qed.
Lemma shape_smembers args : yields (shape P) (smembers args). Proof. unfold smembers. shape. Qed.
Lemma shape_scard args : (∀ n, P n) → yields (shape P) (scard args). Proof. unfold scard. shape. Qed.
Lemma shape_spop args : yields (shape P) (spop args). Proof. unfold spop. shape. Qed.
Lemma shape_sinter args : yields (shape P) (sinter args). Proof. unfold sinter. shape. Qed.
Lemma shape_sunion args : yields (shape P) (sunion args). Proof. unfold sunion. shape. Qed.
Lemma shape_sdiff args : yields (shape P) (sdiff args). Proof. unfold sdiff. shape. Qed.

Lemma shape_hset args : yields (shape P) (hset args). Proof. unfold hset. shape. Qed.
Lemma shape_hget args : yields (shape P) (hget args). Proof. unfold hget. shape. Qed.
Lemma shape_hdel args : (∀ n, P n) → yields (shape P) (hdel args). Proof. unfold hdel. shape. Qed.
Lemma shape_hexists args : yields (shape P) (hexists args). Proof. unfold hexists. shape. Qed.
Lemma shape_hgetall_loop (l : list (string * string)) : ∀ acc, Forall (shape P) acc →
  Forall (shape P) (foldl (λ result '(field, value), result ++ [vBulk field] ++ [vBulk value]) acc l).
Proof. induction l as [|[f v] l IH]; intros acc Hacc; [done|]. apply IH. eauto 6 with shape. Qed.
Hint Resolve shape_hgetall_loop : shape.
Lemma shape_hgetall args : yields (shape P) (hgetall args). Proof. unfold hgetall. shape. Qed.
Lemma shape_hkeys args : yields (shape P) (hkeys args). Proof. unfold hkeys. shape. Qed.
Lemma shape_hvals args : yields (shape P) (hvals args). Proof. unfold hvals. shape. Qed.
Lemma shape_hlen args : (∀ n, P n) → yields (shape P) (hlen args). Proof. unfold hlen. shape. Qed.
Lemma shape_hmset args : yields (shape P) (hmset args). Proof. unfold hmset. shape. Qed.
Lemma shape_hmget args : yields (shape P) (hmget args).
Proof.
  unfold hmget. destruct args as [|k [|f fs]]; [shape..|]. apply yields_then. intros hash.
  apply shape_ret. constructor. generalize (map Str (f :: fs)), (match hash with
    | Some hash => HashDS.HMGet hash (map Str (f :: fs))
    | None => replicate (length (map Str (f :: fs))) "" end).
  intros l1. induction l1 as [|x l1 IH]; intros [|y l2]; try constructor; [|apply IH].
  by destruct (bool_decide _ && _); constructor.
Qed.

Lemma HIncrBy_raises f n fields e fields' :
  HashDS.HIncrBy f n fields = (Err e, fields') → e = IntConversionError.
Proof.
  unfold HashDS.HIncrBy. rewrite gets_bind, bind_eq. cbn [id]. destruct (fields !! f) as [v|].
  - destruct (DataStruct.parseInt v) as [cur|err] eqn:Hp.
    + cbn. by case_match.
    + intros [= <- _]. revert Hp. unfold DataStruct.parseInt.
      destruct v as [|c v]; [done|]. destruct (DataStruct.parseInt_loop _ _); [done|]. by intros [= <-].
  - cbn. by case_match.
Qed.
Lemma HIncrBy_returns f n fields v fields' :
  HashDS.HIncrBy f n fields = (Ok v, fields') → in_int v.
Proof.
  unfold HashDS.HIncrBy. rewrite gets_bind. intros (cur & s1 & _ & Hrun)%bind_ok_inv. revert Hrun.
  cbn zeta. destruct (intToString _); [|done]. intros [= <- _]. apply wrap64_in_int.
Qed.
Lemma shape_hincrby args : yields (shape P) (hincrby args).
Proof.
  unfold hincrby, not_an_integer. destruct args as [|k [|f [|i [|]]]]; [shape..| |shape].
  destruct (Atoi (Str i)) as [n [e|]]; [shape|]. apply yields_then. intros _.
  eapply (yields_bind (λ r, match r with inr e => e = IntConversionError | inl n => in_int n end)).
  - intros s r s'. unfold on_hash. destruct (Hashes _ !! _) as [h|]; [|done].
    unfold still, zoom, try. cbn. destruct (HashDS.HIncrBy _ _ h) as [[a|e|p|] h'] eqn:Hr;
      intros [= <- _]; [by eapply HIncrBy_returns|by eapply HIncrBy_raises].
  - intros [n'|err] Herr; [by apply shape_ret, shape_int, HP|]. subst err. shape.
Qed.

Lemma shape_setExpire k a u : yields (shape P) (setExpire k a u).
Proof. unfold setExpire, not_an_integer. shape. Qed.
Lemma shape_ttlValue k u : 0 < u → yields (shape P) (ttlValue k u).
Proof.
  intros Hu. unfold ttlValue, saturate. apply yields_then. intros _. apply yields_then. intros known.
  destruct (negb known); [shape|]. apply yields_then. intros [exp|]; [|shape].
  apply yields_then. intros now. apply shape_ret, shape_int, HP. set (d := Z.max _ _).
  assert (0 ≤ (if d <? 0 then 0 else d) ≤ maxInt) as Hd
    by (unfold d; destruct (Z.ltb_spec (Z.max minInt (Z.min maxInt (exp - now))) 0); unfold minInt, maxInt in *; lia).
  pose proof (Z.quot_pos _ u (proj1 Hd) Hu). pose proof (Z.quot_le_upper_bound (if d <? 0 then 0 else d) u maxInt Hu).
  split; [int_lia|]. apply Z.quot_le_upper_bound; [done|]. unfold maxInt in *. nia.
Qed.
#[local] Hint Extern 1 (yields (shape P) (ttlValue _ _)) => apply shape_ttlValue; done : shape.
Hint Resolve shape_setExpire : shape.
Lemma shape_expire args : yields (shape P) (expire args). Proof. unfold expire. shape. Qed.
Lemma shape_pexpire args : yields (shape P) (pexpire args). Proof. unfold pexpire. shape. Qed.
Lemma shape_ttl args : yields (shape P) (ttl args). Proof. unfold ttl. shape. Qed.
Lemma shape_pttl args : yields (shape P) (pttl args). Proof. unfold pttl. shape. Qed.
Lemma shape_persist args : yields (shape P) (persist args). Proof. unfold persist. shape. Qed.
Lemma shape_publish args : (∀ n, P n) → yields (shape P) (publish args). Proof. unfold publish. shape. Qed.

Lemma shape_keys_in {A} p (m : gmap string A) : yields (Forall (shape P)) (keys_in p m).
Proof. unfold keys_in. apply yields_then. intros entries s l s' [= <- _]. apply shape_bulks. Qed.
Lemma shape_keysCmd args : yields (shape P) (keysCmd args).
Proof.
  unfold keysCmd. destruct args as [|k [|]]; [shape| |shape].
  apply yields_then. intros _. apply yields_then. intros d.
  do 4 (eapply yields_bind; [apply shape_keys_in|]; intros ? ?).
  apply shape_ret. constructor. eauto 6 with shape.
Qed.
Lemma shape_dbsize args : (∀ n, P n) → yields (shape P) (dbsize args). Proof. unfold dbsize. shape. Qed.
Lemma shape_scan args : yields (shape P) (scan args).
Proof.
  unfold scan. destruct args as [|c args]; [shape|]. destruct (Atoi _) as [n [e|]]; [shape|].
  eapply yields_bind; [apply shape_keysCmd|]. intros r Hr. apply shape_ret. eauto 6 with shape.
Qed.
Lemma shape_hello args : yields (shape P) (hello args).
Proof. unfold hello. destruct args as [|a args]; [|case_match]; apply shape_ret; eauto 20 with shape. Qed.

Lemma spec_flags_plain : Forall (λ spec, Forall (λ f, LF ∉ bytes f) (flags spec)) commandSpecs.
Proof.
  assert (Hp : forallb (λ spec, forallb plain (flags spec)) commandSpecs = true) by done.
  rewrite forallb_forall in Hp. apply list.Forall_forall. intros spec Hs.
  specialize (Hp spec (proj1 (list_elem_of_In _ _) Hs)). rewrite forallb_forall in Hp.
  apply list.Forall_forall. intros f Hf. by apply plain_LF, Hp, list_elem_of_In.
Qed.
Lemma spec_numbers : Forall (λ spec, Forall in_int [arity spec; firstKey spec; lastKey spec; step spec]) commandSpecs.
Proof. apply (bool_decide_unpack _). by vm_compute. Qed.
Lemma shape_info spec : spec ∈ commandSpecs → shape P (commandInfoValue spec).
Proof.
  intros Hs. pose proof spec_flags_plain as HF. rewrite list.Forall_forall in HF.
  specialize (HF spec Hs). unfold commandInfoValue.
  pose proof spec_numbers as HN. rewrite list.Forall_forall in HN. specialize (HN spec Hs).
  rewrite !list.Forall_cons in HN. destruct HN as (? & ? & ? & ? & _).
  assert (Hflags : Forall (shape P) (map vSimple (flags spec))).
  { induction HF; constructor; [by constructor|done]. }
  eauto 20 with shape.
Qed.
Lemma shape_allInfo : Forall (shape P) allCommandInfo.
Proof.
  apply list.Forall_forall. intros v (spec & -> & Hs)%list_elem_of_fmap. by apply shape_info.
Qed.
Lemma shape_getkeys_loop fuel cmdArgs last stp : ∀ i result, Forall (shape P) result →
  yields (Forall (shape P)) (getkeys_loop fuel cmdArgs i last stp result).
Proof.
  induction fuel as [|fuel IH]; intros i result Hr; cbn [getkeys_loop]; [by intros s l s'|].
  destruct (_ && _); [|by intros s l s' [= <- _]].
  apply yields_then. intros v. apply IH. eauto 6 with shape.
Qed.
Lemma shape_getkeys args : yields (shape P) (command_getkeys args).
Proof.
  unfold command_getkeys. destruct args as [|c [|n args]]; [shape..|].
  destruct (findCommandSpec _) as [spec|]; [|shape]. destruct (firstKey spec =? 0); [shape|].
  destruct (_ || _); [shape|]. eapply yields_bind; [by apply shape_getkeys_loop|].
  intros r Hr. destruct (length r =? 0)%nat; [shape|]. by apply shape_ret; constructor.
Qed.

Lemma shape_docs names : ∀ acc, Forall (shape P) acc → Forall (shape P) (foldl (λ result n,
  match findCommandSpec n with
  | Some spec => result ++ [vBulk (ToLower (name spec)); vArray []]
  | None => result
  end) acc names).
Proof.
  induction names as [|n names IH]; intros acc Hacc; [done|]. cbn [foldl]. apply IH.
  destruct (findCommandSpec n); [|done]. eauto 8 with shape.
Qed.

(** COMMAND puts the name of an unknown subcommand into its error. *)
Lemma shape_command args :
  match args with a :: _ => LF ∉ bytes (Str a) | [] => True end → yields (shape P) (command args).
Proof.
  intros Ha. unfold command. destruct args as [|sub names].
  { apply shape_ret. constructor. apply shape_allInfo. }
  repeat case_match; try (apply shape_getkeys); try (apply shape_ret; constructor).
  - apply HP. vm_compute. by split.
  - apply (shape_bulk_map (λ spec, ToLower (name spec))).
  - apply shape_allInfo.
  - apply list.Forall_forall. intros w (x & -> & _)%list_elem_of_fmap.
    destruct (findCommandSpec (Str x)) eqn:Hf; [|constructor].
    by eapply shape_info, findCommandSpec_In.
  - apply shape_docs. constructor.
  - apply shape_docs. constructor.
  - apply LF_app; [by apply plain_LF|]. apply LF_app; [done|by apply plain_LF].
Qed.

(** *** The table *)
Definition plain_args (c : string) (args : list Value) : Prop :=
  c = "COMMAND" → match args with a :: _ => LF ∉ bytes (Str a) | [] => True end.

Hint Resolve shape_ping shape_set shape_get shape_del shape_exists shape_mset shape_mget
  shape_typeCmd shape_incr shape_decr shape_incrby shape_decrby shape_lpush shape_rpush
  shape_lpop shape_rpop shape_lrange shape_llen shape_lindex shape_lset shape_lrem shape_blpop
  shape_brpop shape_sadd shape_srem shape_sismember shape_smembers shape_scard shape_spop
  shape_sinter shape_sunion shape_sdiff shape_hset shape_hget shape_hdel shape_hexists
  shape_hgetall shape_hkeys shape_hvals shape_hlen shape_hmset shape_hmget shape_hincrby
  shape_expire shape_pexpire shape_ttl shape_pttl shape_persist shape_publish shape_keysCmd
  shape_dbsize shape_scan shape_hello : shape.

Lemma handler_shape wakeups c h args :
  handler_of wakeups c = Some h → plain_args c args → counting c = false ∨ (∀ n, P n) →
  yields (shape P) (h args).
Proof.
  intros Hh Hp HC. apply table_get_In in Hh. unfold CommandHandlers in Hh.
  repeat (apply elem_of_cons in Hh as [[= -> ->]|Hh];
    [solve [eauto with shape|by apply shape_command, Hp|destruct HC as [[=]|HC]; eauto with shape]|]).
  by apply elem_of_nil in Hh.
Qed.
End handlers.

(** ** A connection *)
Section connection.
Context `{GoEnv} {P : Z → Prop} (HP : ∀ n, in_int n → P n).
Context (wakeups : nat).

(** [outs k m]: [m] appends values of the protocol to the output, and exactly
    [k] of them if it returns and [k] is a number. *)
Definition outs {A} (k : option nat) (m : M CS A) : Prop := ∀ cs r cs',
  m cs = (r, cs') → ∃ new, c_out (snd cs') = c_out (snd cs) ++ new ∧ Forall (shape P) new ∧
    match r, k with Ok _, Some k => length new = k | _, _ => True end.

Definition add (k1 k2 : option nat) : option nat := k1 ← k1; k2 ← k2; Some (k1 + k2)%nat.

Lemma outs_bind {A B} k1 k2 (m : M CS A) (f : A → M CS B) :
  outs k1 m → (∀ a, outs k2 (f a)) → outs (add k1 k2) (m ≫= f).
Proof.
  intros Hm Hf cs r cs' Hrun. rewrite bind_eq in Hrun.
  destruct (m cs) as [[a|e|p|] cs1] eqn:H1; destruct (Hm _ _ _ H1) as (n1 & Ho1 & Hs1 & Hk1);
    [|injection Hrun as <- <-; by exists n1..].
  destruct (Hf a _ _ _ Hrun) as (n2 & Ho2 & Hs2 & Hk2). exists (n1 ++ n2).
  split; [by rewrite Ho2, Ho1, <-app_assoc|]. split; [by apply Forall_app|].
  destruct r; [|done..]. destruct k1, k2; cbn; [|done..]. rewrite length_app. lia.
Qed.
Lemma outs_any {A} k (m : M CS A) : outs k m → outs None m.
Proof. intros Hm cs r cs' Hrun. destruct (Hm _ _ _ Hrun) as (n & ? & ? & _). exists n. by destruct r. Qed.
Lemma outs_ret {A} (a : A) : outs (Some 0%nat) (mret a).
Proof. intros cs r cs' [= <- <-]. exists []. by rewrite app_nil_r. Qed.
Lemma outs_gets {A} (f : CS → A) : outs (Some 0%nat) (gets f).
Proof. intros cs r cs' [= <- <-]. exists []. by rewrite app_nil_r. Qed.
Lemma outs_write v : shape P v → outs (Some 1%nat) (write v).
Proof. intros Hv [sv c] r cs' [= <- <-]. exists [v]. split_and!; [done| |done]. by constructor. Qed.
Lemma outs_set_conn f : (∀ c, c_out (f c) = c_out c) → outs (Some 0%nat) (set_conn f).
Proof. intros Hf [sv c] r cs' [= <- <-]. exists []. cbn. by rewrite Hf, app_nil_r. Qed.
Lemma outs_server {A} (m : M Server A) : outs (Some 0%nat) (on_server m).
Proof.
  intros [sv c] r cs'. unfold on_server, zoom. cbn. destruct (m sv) as [r' sv'].
  intros [= <- <-]. exists []. cbn. rewrite app_nil_r. by destruct r'.
Qed.
Lemma outs_range {A} (f : CS → gmap string A) : outs (Some 0%nat) (server_range f).
Proof. intros [sv c] r cs' [= <- <-]. exists []. by rewrite app_nil_r. Qed.
Lemma outs_for_each {X} (body : X → M CS ()) l : (∀ x, outs None (body x)) → outs None (for_each body l).
Proof.
  intros Hb. induction l as [|x l IH]; [by apply (outs_any (Some 0%nat)), outs_ret|].
  by apply (outs_bind None None).
Qed.

(** One reply at the end of some work. *)
Lemma outs_then_write {A} (m : M CS A) (f : A → Value) Q :
  outs (Some 0%nat) m → yields Q m → (∀ a, Q a → shape P (f a)) →
  outs (Some 1%nat) (a ← m; write (f a)).
Proof.
  intros Hm HQ Hf cs r cs' Hrun. rewrite bind_eq in Hrun.
  destruct (m cs) as [[a|e|p|] cs1] eqn:H1; destruct (Hm _ _ _ H1) as (n1 & Ho1 & Hs1 & Hk1);
    [|injection Hrun as <- <-; by exists n1..].
  destruct n1; [|done]. destruct (outs_write (f a) (Hf a (HQ _ _ _ H1)) _ _ _ Hrun) as (n & Ho & Hs & Hk).
  exists n. rewrite Ho, Ho1, app_nil_r. by split_and!.
Qed.

Lemma outs_handleAuth args : outs (Some 1%nat) (handleAuth args).
Proof.
  unfold handleAuth. apply (outs_bind (Some 0%nat) (Some 1%nat)); [apply outs_gets|]. intros p.
  destruct args as [|a [|]]; repeat case_match;
    (apply (outs_bind (Some 1%nat) (Some 0%nat)); [apply outs_write; eauto with shape|intros; apply outs_ret]).
Qed.
Lemma outs_handleSelect args i : outs (Some 1%nat) (handleSelect args i).
Proof.
  unfold handleSelect, not_an_integer. destruct args as [|a [|]]; repeat case_match;
    (apply (outs_bind (Some 1%nat) (Some 0%nat)); [apply outs_write; eauto with shape|intros; apply outs_ret]).
Qed.
Lemma outs_reply kind channel : (∀ n, P n) → outs (Some 1%nat) (subscription_reply kind channel).
Proof.
  intros HC. apply (outs_bind (Some 0%nat) (Some 1%nat)); [apply outs_gets|]. intros n.
  apply outs_write. eauto 8 with shape.
Qed.
Lemma outs_handleSubscribe args : (∀ n, P n) → outs None (handleSubscribe args).
Proof.
  intros HC.   apply outs_for_each. intros arg. apply (outs_bind None None); [by eapply outs_any, outs_gets|].
  intros known. destruct known; [by eapply outs_any, outs_ret|].
  apply (outs_bind None None); [by eapply outs_any, outs_server|]. intros ch.
  apply (outs_bind None None); [by eapply outs_any, outs_set_conn|]. intros _.
  by eapply outs_any, outs_reply.
Qed.
Lemma outs_handleUnsubscribe args : (∀ n, P n) → outs None (handleUnsubscribe args).
Proof.
  intros HC.   apply (outs_bind None None).
  { destruct args; [|by eapply outs_any, outs_ret].
    apply (outs_bind None None); [by eapply outs_any, outs_range|]. intros; by eapply outs_any, outs_ret. }
  intros channels. apply outs_for_each. intros name.
  apply (outs_bind None None); [by eapply outs_any, outs_gets|]. intros ch.
  apply (outs_bind None None); [|intros _; by eapply outs_any, outs_reply].
  destruct ch; [|by eapply outs_any, outs_ret].
  apply (outs_bind None None); [by eapply outs_any, outs_server|intros; by eapply outs_any, outs_set_conn].
Qed.

(** *** SAVE and LASTSAVE: the error of a failed save is the reply. *)
Hypothesis Hos : ∀ n e, io_call n = Some e → LF ∉ bytes e.

Definition plain_opt (o : option string) : Prop := match o with Some e => LF ∉ bytes e | None => True end.

(** The writer's error stays a text without line ends. *)
Definition calm {A} (m : M SaveSt A) : Prop := ∀ s r s',
  m s = (r, s') → plain_opt (ew_err (sv_ew s)) → plain_opt (ew_err (sv_ew s')).

Lemma calm_bind {A B} (m : M SaveSt A) (f : A → M SaveSt B) :
  calm m → (∀ a, calm (f a)) → calm (m ≫= f).
Proof.
  intros Hm Hf s r s' Hrun Hs. rewrite bind_eq in Hrun.
  destruct (m s) as [[a|e|p|] s1] eqn:H1; pose proof (Hm _ _ _ H1 Hs) as Hs1;
    [by eapply Hf|by injection Hrun as _ <-..].
Qed.
Lemma calm_pure {A} (m : M SaveSt A) : (∀ s, (m s).2 = s) → calm m.
Proof. intros Hm s r s' Hrun. specialize (Hm s). rewrite Hrun in Hm. cbn in Hm. by subst. Qed.
Lemma calm_ew_write data : calm (ew_write data).
Proof.
  intros s r s'. unfold ew_write. destruct (ew_err (sv_ew s)) as [e|] eqn:He; [by intros [= _ <-]; rewrite He|].
  destruct (io_call (sv_n s)) as [e|] eqn:Hio; intros [= _ <-] _; cbn; [by eapply Hos|done].
Qed.
Lemma calm_range {A} (m : gmap string A) : calm (sv_range m).
Proof. by intros s r s' [= _ <-]. Qed.
Lemma calm_ranged {A} (m : M nat A) : calm (sv_ranged m).
Proof. intros s r s'. unfold sv_ranged, zoom. destruct (m _). by intros [= _ <-]. Qed.
Lemma calm_for_each {X} (body : X → M SaveSt ()) l : (∀ x, calm (body x)) → calm (for_each body l).
Proof. intros Hb. induction l; [by apply calm_pure|by apply calm_bind]. Qed.
Lemma calm_for_fold {X B} (body : B → X → M SaveSt B) l : (∀ b x, calm (body b x)) →
  ∀ b, calm (for_fold body b l).
Proof. intros Hb. induction l; intros b; [by apply calm_pure|]. apply calm_bind; auto. Qed.

Ltac calm := intros; repeat first
  [progress intros | apply calm_ew_write | apply calm_range | apply calm_ranged
  | by apply calm_pure | apply calm_bind | apply calm_for_each | apply calm_for_fold | case_match].

Lemma calm_length n : calm (writeLength n). Proof. unfold writeLength, write_byte. calm. Qed.
Hint Resolve calm_length : shore.
Lemma calm_string str : calm (writeString str).
Proof. apply calm_bind; [apply calm_length|calm]. Qed.

Lemma calm_snapshot dbs : calm (write_snapshot dbs).
Proof.
  assert (Hdb : ∀ i d, calm (saveDatabase i d)).
  { intros i d. unfold saveDatabase, write_byte. case_match; [by apply calm_pure|].
    repeat first [progress intros | apply calm_length | apply calm_string | progress calm
      | unfold write_entry_string, write_entry_list, write_entry_set, write_entry_hash, write_byte]. }
  unfold write_snapshot, write_byte. repeat first [progress intros | apply Hdb | progress calm].
Qed.

Lemma Save_plain dbs : yields plain_opt (Save dbs).
Proof.
  assert (Hcall : ∀ f, yields plain_opt (os_call f)).
  { intros f s o s'. unfold os_call. destruct (io_call _) eqn:Hio; intros [= <- _]; cbn; [by eapply Hos|done]. }
  assert (Hfail : ∀ tmp msg, LF ∉ bytes msg → yields plain_opt (fail_save tmp msg)).
  { intros tmp msg Hm. apply yields_then. intros _ s o s' [= <- _]. done. }
  assert (Hmsg : ∀ pre e, plain pre = true → LF ∉ bytes e → LF ∉ bytes (pre +:+ e)).
  { intros pre e Hp He. apply LF_app; [by apply plain_LF|done]. }
  unfold Save. apply yields_then. intros path. cbv zeta.
  eapply yields_bind; [apply Hcall|]. intros [e|] He; [intros s o s' [= <- _]; by apply Hmsg|].
  eapply (yields_bind (λ x : res Z * errWriter, plain_opt (ew_err x.2))).
  { intros s x s'. unfold run_writer. destruct (write_snapshot dbs _) as [r w] eqn:Hw.
    intros [= <- _]. cbn. exact (calm_snapshot _ _ _ _ Hw I). }
  intros [r ew] Hew. cbn in Hew. destruct r; try by intros s o s'.
  all: destruct (ew_err ew) as [msg|]; [by apply Hfail, Hmsg|].
  all: do 4 (eapply yields_bind; [apply Hcall|]; intros [?|] ?; [by apply Hfail, Hmsg|]).
  all: by intros s o s' [= <- _].
Qed.

Lemma yields_on_rdb r dbs : yields plain_opt (on_rdb r (Save dbs)).
Proof.
  intros s o s'. unfold on_rdb. destruct (Save dbs _) as [y t] eqn:Hs. intros [= -> _].
  by eapply Save_plain.
Qed.

Lemma rdb_handler_shape c (h : list Value → M Server Value) args :
  table_get c RDBCommandHandlers = Some h → counting c = false ∨ (∀ n, P n) → yields (shape P) (h args).
Proof.
  intros Hh HC. apply table_get_In in Hh. unfold RDBCommandHandlers in Hh. rewrite !elem_of_cons in Hh.
  destruct Hh as [[= _ ->]|[[= _ ->]|[[= -> ->]|Hn]]]; [| | |by apply elem_of_nil in Hn].
  - unfold save, rdb_not_configured. apply yields_then. intros [r|]; [|shape].
    apply yields_then. intros dbs. eapply yields_bind; [apply yields_on_rdb|].
    intros [e|] He; [|shape]. apply shape_ret. constructor. apply LF_app; [by apply plain_LF|done].
  - unfold bgsave, rdb_not_configured. shape.
  - destruct HC as [[=]|HC]. unfold lastsave, rdb_not_configured. shape.
Qed.

Lemma processCommand_shape c args original i :
  LF ∉ bytes c → plain_args c args → counting c = false ∨ (∀ n, P n) →
  yields (shape P) (processCommand wakeups c args original i).
Proof.
  intros Hc Hp HC. unfold processCommand. destruct (table_get c RDBCommandHandlers) eqn:Ht.
  { by eapply rdb_handler_shape. }
  destruct (handler_of wakeups c) as [h|] eqn:Hh.
  - eapply (yields_bind (shape P)).
    + intros s v s'. unfold on_world, zoom, with_DB. destruct (i <? 0); [done|].
      destruct (DBs _ !! _); [|done]. destruct (h args _) as [r t] eqn:Hr. intros [= -> _].
      by eapply handler_shape.
    + intros v Hv. destruct (_ && _); [|by apply shape_ret]. do 2 (apply yields_then; intros _).
      by apply shape_ret.
  - apply shape_ret. constructor. apply LF_app; [by apply plain_LF|]. apply LF_app; [done|by apply plain_LF].
Qed.

(** What the client must not put into its request: a line end in the name of
    the command, or of a subcommand of COMMAND. *)
Definition plain_request (v : Value) : Prop :=
  match Arr v with
  | c :: args => LF ∉ bytes (ToUpper (Str c)) ∧ plain_args (ToUpper (Str c)) args
  | [] => True
  end.

Definition subscription_request (v : Value) : bool :=
  match Arr v with
  | c :: _ => String.eqb (ToUpper (Str c)) "SUBSCRIBE" || String.eqb (ToUpper (Str c)) "UNSUBSCRIBE"
  | [] => false
  end.

(** Requests whose replies count what is in memory. *)
Definition counting_request (v : Value) : bool :=
  subscription_request v || match Arr v with c :: _ => counting (ToUpper (Str c)) | [] => false end.

Lemma handleValue_outs v : plain_request v → counting_request v = false ∨ (∀ n, P n) →
  outs (if subscription_request v then None else Some 1%nat) (handleValue wakeups v).
Proof.
  unfold counting_request, plain_request, subscription_request, handleValue. intros Hp HC.
  destruct ((negb (VType v =? Array)%char) || (length (Arr v) =? 0)%nat) eqn:Hfmt.
  { assert (Ho : outs (Some 1%nat) (write (vError "ERR invalid command format"))) by (apply outs_write; shape).
    destruct (match Arr v with [] => _ | _ => _ end); [by eapply outs_any|done]. }
  destruct (Arr v) as [|c args]; [by rewrite orb_true_r in Hfmt|]. destruct Hp as [Hc Hargs].
  assert (Hw : ∀ e b, plain e = true → outs (if b : bool then None else Some 1%nat) (write (vError e))).
  { intros e b He. assert (Ho : outs (Some 1%nat) (write (vError e))) by (apply outs_write; constructor; by apply plain_LF).
    destruct b; [by eapply outs_any|done]. }
  destruct (String.eqb_spec (ToUpper (Str c)) "AUTH") as [->|_].
  { apply (outs_bind (Some 1%nat) (Some 0%nat)); [apply outs_handleAuth|intros; by apply outs_set_conn]. }
  assert (Hg : ∀ {A} (f : CS → A) k (m : A → M CS ()), (∀ a, outs k (m a)) → outs k (gets f ≫= m)).
  { intros A f k m Hm. eapply (outs_bind (Some 0%nat) k) in Hm; [|apply (outs_gets f)]. by destruct k. }
  apply Hg. intros auth. destruct (negb auth); [by apply Hw|].
  destruct (String.eqb_spec (ToUpper (Str c)) "SELECT") as [->|_].
  { apply Hg. intros i. apply (outs_bind (Some 1%nat) (Some 0%nat)); [apply outs_handleSelect|].
    intros; by apply outs_set_conn. }
  destruct (String.eqb (ToUpper (Str c)) "SUBSCRIBE"); [destruct HC as [[=]|HC]; by apply outs_handleSubscribe|].
  destruct (String.eqb (ToUpper (Str c)) "UNSUBSCRIBE"); [destruct HC as [[=]|HC]; by apply outs_handleUnsubscribe|]. cbn [orb] in HC |- *.
  apply Hg. intros i. apply (outs_then_write _ (λ r, r) (shape P)); [apply outs_server| |done].
  intros s r s'. unfold on_server, zoom. destruct (processCommand _ _ _ _ _ _) as [y t] eqn:Hr.
  intros [= -> _]. by eapply processCommand_shape.
Qed.
End connection.
