(* ===== verification/Startup.v ===== *)
(** * Startup: building a server, its timers, and stopping it
    (src/pkg/server/server.go; NewRDB, NewRDBWithoutLoad, snapshotLoop and Close
    of src/pkg/persistence/rdb.go; NewAof of src/pkg/persistence/aof.go)

    A process starts from the files on disk. The append-only file is open while
    it runs, so its bytes are in [sv_aof]; [disk_of] is what the process leaves
    behind whenever it ends. *)
From S2P Require Import Prelude Go Strconv Resp DataStruct PubSub Database ExpireCmds.
From S2P Require Import Rdb Aof Server Glob Config.
From Stdlib Require Import SpecFloat.

(** The databases under construction and the disk. *)
Record Boot := mkBoot { b_world : World; b_files : gmap string string }.

Definition b_on_world {A} (m : M World A) : M Boot A :=
  zoom b_world (λ w b, mkBoot w (b_files b)) m.

(** [Options]; the listener that uses [ListenAddr] is not modelled. *)
Record Options := mkOptions { ListenAddr : string; ConfigPath : string }.

Section startup.
Context `{GoEnv}.

Definition world_now : M World Z := λ w,
  (Ok (time_Now (w_tick w)), mkWorld (S (w_tick w)) (w_mdb w)).

(** The outcome of the next call to the operating system. *)
Definition boot_call : M Boot (option string) :=
  b_on_world (λ w, (Ok (io_call (w_tick w)), mkWorld (S (w_tick w)) (w_mdb w))).

(** [os.Open] and reading to the end: nothing if the file is missing or cannot
    be opened. *)
Definition os_Open (path : string) : M Boot (option string) :=
  err ← boot_call;
  match err with
  | Some _ => mret None
  | None => gets (λ b, b_files b !! path)
  end.

(** [os.OpenFile] with [O_CREATE|O_RDWR|O_APPEND]. *)
Definition os_OpenFile (path : string) : M Boot (option string) :=
  err ← boot_call;
  match err with
  | Some _ => mret None
  | None =>
      content ← gets (λ b, default "" (b_files b !! path));
      _ ← modify (λ b, mkBoot (b_world b) (<[path := content]> (b_files b)));
      mret (Some content)
  end.

(** *** ReadConfig

    [os.MkdirAll] only matters to the calls that follow, whose outcomes are the
    environment's. *)
Definition ReadConfig (filename : string) : M Boot Config :=
  file ← os_Open filename;
  match file with
  | None => mret NewConfig
  | Some text =>
      let config := scan_config text NewConfig in
      _ ← (if negb (String.eqb (dir config) ".") && negb (String.eqb (dir config) "")
           then _ ← boot_call; mret () else mret ());
      mret config
  end.

(** *** NewRDB, NewRDBWithoutLoad *)
Definition rdbPath (config : Config) : string := GetFullPath config (rdbFn config).
Definition aofPath (config : Config) : string := GetFullPath config (aofFn config).

Definition NewRDBWithoutLoad (config : Config) : M Boot RDB :=
  now ← b_on_world world_now;
  mret (mkRDB (rdbPath config) 0 now).

(** [r.Load()] over the open file; an error is logged and what was loaded before
    it stays. *)
Definition load_file (text : string) : M World () := λ w,
  match Load (mkLoadSt text w) with
  | (Ok _, s) | (Err _, s) => (Ok (), l_world s)
  | (Panic p, s) => (Panic p, l_world s)
  | (NoFuel, s) => (NoFuel, l_world s)
  end.

Definition NewRDB (config : Config) : M Boot RDB :=
  r ← NewRDBWithoutLoad config;
  file ← os_Open (rdb_path r);
  _ ← match file with
      | None => mret ()
      | Some text => b_on_world (load_file text)
      end;
  mret r.

(** *** NewAof, and the replay in [New]; an error of [Read] is logged. *)
Definition OpenAof (config : Config) : M Boot (option Aof) :=
  content ← os_OpenFile (aofPath config);
  n ← gets (λ b, w_tick (b_world b));
  mret (NewAof n <$> content).

Definition replay_logged (a : Aof) : M World () := λ w,
  match replay_aof a w with
  | (Err _, w') => (Ok (), w')
  | r => r
  end.

(** *** New: from a configuration, and from [Options] *)
Definition start (config : Config) : M Boot Server :=
  if aofEnabled config then
    rdb ← NewRDBWithoutLoad config;
    aof ← OpenAof config;
    _ ← match aof with
        | None => mret ()
        | Some a => b_on_world (replay_logged a)
        end;
    gets (λ b, mkServer (b_world b) aof (Some rdb) (b_files b) (cfg_requirePass config))
  else
    rdb ← NewRDB config;
    gets (λ b, mkServer (b_world b) None (Some rdb) (b_files b) (cfg_requirePass config)).

Definition New (opts : Options) : M Boot Server :=
  let path := if String.eqb (ConfigPath opts) "" then "redis.config" else ConfigPath opts in
  config ← ReadConfig path;
  start config.

(** A process starting on the files of a disk, the [n]-th event of the world. *)
Definition boot (n : nat) (files : gmap string string) : Boot :=
  mkBoot (mkWorld n NewMultiDB) files.

(** The append-only file is at its path as it was opened, which takes [apart]: a
    snapshot saved to that path would replace it there. *)
Definition apart (config : Config) : Prop :=
  aofPath config ≠ rdbPath config ∧ aofPath config ≠ rdbPath config +:+ ".tmp".

Definition disk_of (config : Config) (sv : Server) : gmap string string :=
  match sv_aof sv with
  | Some a => <[aofPath config := aof_file a]> (sv_files sv)
  | None => sv_files sv
  end.

(** *** The snapshot timer *)

(** [float64] arithmetic, and [time.Duration.Seconds]. *)
Definition f64 (z : Z) : spec_float := binary_normalize 53 1024 z 0 false.
Definition Seconds (d : Z) : spec_float :=
  SFadd 53 1024 (f64 (Z.quot d Second))
    (SFdiv 53 1024 (f64 (Z.rem d Second)) (f64 1000000000)).

(** [time.Since]: a [Duration] saturates. *)
Definition Since (now t : Z) : Z := Z.max minInt (Z.min maxInt (now - t)).

(** [elapsed >= float64(s.Secs) && changes >= s.KeysChanged]. *)
Definition due (elapsed changes : Z) (s : RDBSnapshot) : bool :=
  SFleb (f64 (Secs s)) (Seconds elapsed) && (KeysChanged s <=? changes).

Definition set_rdb (r : RDB) : M Server () := modify (λ s,
  mkServer (sv_world s) (sv_aof s) (Some r) (sv_files s) (sv_requirePass s)).

(** The rules in order: the first that is due saves and ends the round. *)
Fixpoint snapshot_rules (rules : list RDBSnapshot) (elapsed changes : Z) (r : RDB) :
    M Server () :=
  match rules with
  | [] => mret ()
  | s :: rules' =>
      if due elapsed changes s then
        dbs ← gets (λ sv, DBs (w_mdb (sv_world sv)));
        err ← on_rdb r (Save dbs);
        match err with
        | Some _ => mret ()
        | None =>
            now ← on_world world_now;
            set_rdb (mkRDB (rdb_path r) 0 now)
        end
      else snapshot_rules rules' elapsed changes r
  end.

(** One tick of [snapshotLoop]. *)
Definition snapshot_tick (config : Config) : M Server () :=
  rdb ← gets sv_rdb;
  match rdb with
  | None => mret ()
  | Some r =>
      now ← on_world world_now;
      snapshot_rules (cfg_rdb config) (Since now (rdb_lastSave r)) (rdb_changes r) r
  end.

(** One tick of [expiryLoop]. *)
Definition expiry_tick : M Server () := on_world SweepAll.

(** *** RDB.Close and Shutdown *)
Definition CloseRDB (r : RDB) : M Server (option string) :=
  dbs ← gets (λ sv, DBs (w_mdb (sv_world sv)));
  on_rdb r (Save dbs).

(** Closing the append-only file leaves its bytes as they are. *)
Definition Shutdown : M Server (option string) :=
  rdb ← gets sv_rdb;
  match rdb with
  | None => mret None
  | Some r => CloseRDB r
  end.
End startup.

Example seconds_exact : due (900 * Second) 1 (mkSnapshot 900 1) = true.
Proof. vm_compute. reflexivity. Qed.
Example seconds_early : due (900 * Second - 1) 1 (mkSnapshot 900 1) = false.
Proof. vm_compute. reflexivity. Qed.
Example seconds_rounds : due (9000000000 * Second - 1) 1 (mkSnapshot 9000000000 1) = true.
Proof. vm_compute. reflexivity. Qed.
