(* ===== verification/Client.v ===== *)
(** * Client: the embedded client (src/pkg/shoredis/shoredis.go)

    Clients made with [NewFrom] share the databases and the snapshot handle;
    each has its own selected database. A method of a client runs over the
    shared state and that index. *)
From S2P Require Import Prelude Go Strconv Resp DataStruct PubSub Database StringCmds.
From S2P Require Import Handler Rdb Aof Server Config Startup.
From Stdlib Require Import Ascii.

(** What the clients share: the databases, the handle of [Open], the disk. *)
Record Shared := mkShared {
  sh_world : World;
  sh_rdb : option RDB;
  sh_files : gmap string string;
}.

(** [Client]: the shared state and [dbIndex]. *)
Definition Client : Type := Shared * Z.

Definition dbIndexOf (c : Client) : Z := snd c.

(** A server over the state of a client, with the append-only file [log]. *)
Definition serving (log : option Aof) (pass : string) (sh : Shared) : Server :=
  mkServer (sh_world sh) log (sh_rdb sh) (sh_files sh) pass.
Definition of_server (sv : Server) : Shared :=
  mkShared (sv_world sv) (sv_rdb sv) (sv_files sv).

(** The handlers of SAVE, BGSAVE and LASTSAVE take the handle and the
    databases: they are those of a server. A client has no append-only file. *)
Definition on_shared {A} (m : M Server A) : M Client A :=
  zoom (λ c, serving None "" (fst c)) (λ sv c, (of_server sv, snd c)) m.

(** ** Making clients *)
Definition NewClient (b : Boot) : Client := (mkShared (b_world b) None (b_files b), 0).

Definition Open `{GoEnv} (configPath : string) : M Boot Client :=
  config ← ReadConfig configPath;
  rdb ← NewRDB config;
  gets (λ b, (mkShared (b_world b) (Some rdb) (b_files b), 0)).

Definition NewFrom (c : Client) : Client := (fst c, 0).

(** ** [Result] *)
Definition Result : Type := Value.
Definition noResult : Result := mkValue "000" "" 0 [].

Definition res_Err (r : Result) : option error :=
  if (VType r =? SimpleError)%char then Some (errorf (Str r)) else None.
Definition IsNil (r : Result) : bool := (VType r =? Null)%char.
Definition res_String (r : Result) : string := Str r.
Definition res_Int (r : Result) : Z := Num r.
Definition res_Strings (r : Result) : list string := map Str (Arr r).

Definition normalizeCmd (cmd : string) : string := str_map upper_byte cmd.

Section client.
Context `{GoEnv}.
Context (wakeups : nat).

Definition Select (index : Z) : M Client (option error) :=
  if (index <? 0) || (index >=? Z.of_nat NumDatabases) then
    mret (Some (errorf ("shoredis: DB index " +:+ Itoa index +:+ " out of range (0-" +:+
      Itoa (Z.of_nat NumDatabases - 1) +:+ ")")))
  else
    _ ← modify (λ c, (fst c, index));
    mret None.

(** [c.rdb.Save()] and [c.rdb.Close()], with the error as a value. *)
Definition save_with (m : RDB → M Server (option string)) (none : option error) :
    M Client (option error) :=
  rdb ← gets (λ c : Client, sh_rdb (fst c));
  match rdb with
  | None => mret none
  | Some r => err ← on_shared (m r); mret (errorf <$> err)
  end.

Definition SaveRDB (r : RDB) : M Server (option string) :=
  dbs ← gets (λ sv, DBs (w_mdb (sv_world sv)));
  on_rdb r (Save dbs).

Definition client_Save : M Client (option error) :=
  save_with SaveRDB (Some (errorf
    "shoredis: no persistence configured (create the client with Open, not New)")).
Definition client_Close : M Client (option error) := save_with CloseRDB None.

(** *** [Do] *)
Definition Do (cmd : string) (args : list string) : M Client (Result * option error) :=
  let handlerArgs := map vBulk args in
  i ← gets dbIndexOf;
  match table_get (normalizeCmd cmd) RDBCommandHandlers with
  | Some rdbHandler => r ← on_shared (rdbHandler handlerArgs); mret (r, None)
  | None =>
      match handler_of wakeups (normalizeCmd cmd) with
      | None => mret (noResult, Some (errorf ("shoredis: unknown command " +:+ Quote cmd)))
      | Some handler =>
          r ← on_shared (on_world (with_DB i (handler handlerArgs)));
          mret (r, None)
      end
  end.

(** *** The typed methods: what each does with the outcome of [Do] *)

(** [return res.Int(), res.Err()] *)
Definition do_int (cmd : string) (args : list string) : M Client (Z * option error) :=
  '(res, err) ← Do cmd args;
  match err with
  | Some e => mret (0, Some e)
  | None => mret (res_Int res, res_Err res)
  end.

(** [return res.Int() == 1, res.Err()] *)
Definition do_bool (cmd : string) (args : list string) : M Client (bool * option error) :=
  '(res, err) ← Do cmd args;
  match err with
  | Some e => mret (false, Some e)
  | None => mret (res_Int res =? 1, res_Err res)
  end.

(** The value, whether there is one, and the error. *)
Definition do_value (cmd : string) (args : list string) :
    M Client (string * bool * option error) :=
  '(res, err) ← Do cmd args;
  match err with
  | Some e => mret ("", false, Some e)
  | None =>
      match res_Err res with
      | Some e => mret ("", false, Some e)
      | None => if IsNil res then mret ("", false, None) else mret (res_String res, true, None)
      end
  end.

(** The elements of an array reply. *)
Definition do_strings (cmd : string) (args : list string) :
    M Client (list string * option error) :=
  '(res, err) ← Do cmd args;
  match err with
  | Some e => mret ([], Some e)
  | None =>
      match res_Err res with
      | Some e => mret ([], Some e)
      | None => mret (res_Strings res, None)
      end
  end.

Definition client_Set (key value : string) : M Client (option error) :=
  '(res, err) ← Do "SET" [key; value];
  match err with Some e => mret (Some e) | None => mret (res_Err res) end.
Definition client_Get (key : string) := do_value "GET" [key].
Definition client_Del (keys : list string) := do_int "DEL" keys.
Definition client_Exists (keys : list string) := do_int "EXISTS" keys.
Definition client_Incr (key : string) := do_int "INCR" [key].
Definition client_IncrBy (key : string) (delta : Z) := do_int "INCRBY" [key; Itoa delta].
Definition client_Decr (key : string) := do_int "DECR" [key].
Definition client_DecrBy (key : string) (delta : Z) := do_int "DECRBY" [key; Itoa delta].
Definition client_LPush (key : string) (values : list string) := do_int "LPUSH" (key :: values).
Definition client_RPush (key : string) (values : list string) := do_int "RPUSH" (key :: values).
Definition client_LPop (key : string) := do_value "LPOP" [key].
Definition client_RPop (key : string) := do_value "RPOP" [key].
Definition client_LRange (key : string) (start stop : Z) :=
  do_strings "LRANGE" [key; Itoa start; Itoa stop].
Definition client_LLen (key : string) := do_int "LLEN" [key].
Definition client_SAdd (key : string) (members : list string) := do_int "SADD" (key :: members).
Definition client_SRem (key : string) (members : list string) := do_int "SREM" (key :: members).
Definition client_SMembers (key : string) := do_strings "SMEMBERS" [key].
Definition client_SIsMember (key member : string) := do_bool "SISMEMBER" [key; member].
Definition client_HSet (key field value : string) := do_bool "HSET" [key; field; value].
Definition client_HGet (key field : string) := do_value "HGET" [key; field].
Definition client_HDel (key : string) (fields : list string) := do_int "HDEL" (key :: fields).
Definition client_Expire (key : string) (seconds : Z) := do_bool "EXPIRE" [key; Itoa seconds].
Definition client_TTL (key : string) := do_int "TTL" [key].
Definition client_Persist (key : string) := do_bool "PERSIST" [key].

(** [for i := 0; i+1 < len(flat); i += 2]. *)
Fixpoint flat_map_of (flat : list Value) (out : gmap string string) : gmap string string :=
  match flat with
  | f :: v :: flat' => flat_map_of flat' (<[Str f := Str v]> out)
  | _ => out
  end.

Definition client_HGetAll (key : string) : M Client (gmap string string * option error) :=
  '(res, err) ← Do "HGETALL" [key];
  match err with
  | Some e => mret (∅, Some e)
  | None =>
      match res_Err res with
      | Some e => mret (∅, Some e)
      | None => mret (flat_map_of (Arr res) ∅, None)
      end
  end.

Definition client_Type (key : string) : M Client (string * option error) :=
  '(res, err) ← Do "TYPE" [key];
  match err with
  | Some e => mret ("", Some e)
  | None => mret (res_String res, res_Err res)
  end.
End client.
