(* ===== verification/Recovery.v ===== *)
(** * Recovery: replaying a logged command redoes it

    A relational logic between the run of a handler and the run of its replay,
    on two sessions that hold the same data and no deadlines. The serial
    numbers, the broker and the condition variable may differ: the replay
    happens in another process. *)
From S2P Require Import Prelude Go Strconv Resp DataStruct PubSub PubSubFacts.
From S2P Require Import Database DbFacts.
From S2P Require Import StringCmds ListCmds SetCmds HashCmds ExpireCmds AdminCmds Handler CmdFacts.
From S2P Require Import Rdb Aof Server.
From Stdlib Require Import Ascii.
Import ListFacts SetFacts HashFacts.

Definition sim (s t : Sess) : Prop := same_data (s_db s) (s_db t) ∧ Expires (s_db s) = ∅.

(** [tracks m r Q]: whenever [m] returns, [r] returns from every similar
    session, the sessions stay similar and the results are related. *)
Definition tracks {A B} (m : M Sess A) (r : M Sess B) (Q : A → B → Prop) : Prop :=
  ∀ s t a s', sim s t → m s = (Ok a, s') → ∃ b t', r t = (Ok b, t') ∧ sim s' t' ∧ Q a b.

(** A method that leaves the data as it is. *)
Definition quiet {A} (m : M Sess A) : Prop :=
  ∀ s t a s', sim s t → m s = (Ok a, s') → sim s' t.

Section rules.
Context {A B A' B' : Type}.

Lemma tracks_ret (a : A) (b : B) (Q : A → B → Prop) : Q a b → tracks (mret a) (mret b) Q.
Proof. intros HQ s t a' s' Hs [= <- <-]. by exists b, t. Qed.

Lemma tracks_bind (m : M Sess A) (r : M Sess B) Q (f : A → M Sess A') (g : B → M Sess B') Q' :
  tracks m r Q → (∀ a b, Q a b → tracks (f a) (g b) Q') → tracks (m ≫= f) (r ≫= g) Q'.
Proof.
  intros Hm Hf s t a s' Hs (a1 & s1 & Ha & Hfa)%bind_ok_inv.
  destruct (Hm _ _ _ _ Hs Ha) as (b1 & t1 & Hb & Hs1 & HQ).
  destruct (Hf _ _ HQ _ _ _ _ Hs1 Hfa) as (b & t' & Hg & ? & ?).
  exists b, t'. by rewrite (bind_ok _ _ _ _ _ Hb).
Qed.

(** The left side ends with its reply. *)
Lemma tracks_last (m : M Sess A) (r : M Sess B) Q (g : A → A') (Q' : A' → B → Prop) :
  tracks m r Q → (∀ a b, Q a b → Q' (g a) b) → tracks (a ← m; mret (g a)) r Q'.
Proof.
  intros Hm HQ s t a s' Hs (a1 & s1 & Ha & Hfa)%bind_ok_inv. injection Hfa as <- <-.
  destruct (Hm _ _ _ _ Hs Ha) as (b1 & t1 & Hb & Hs1 & H1). exists b1, t1. auto.
Qed.

Lemma tracks_quiet (m : M Sess A) (f : A → M Sess A') (r : M Sess B) Q :
  quiet m → (∀ a, tracks (f a) r Q) → tracks (m ≫= f) r Q.
Proof.
  intros Hm Hf s t a s' Hs (a1 & s1 & Ha & Hfa)%bind_ok_inv.
  by eapply Hf, Hfa; eapply Hm.
Qed.

Lemma quiet_ret (a : A) : quiet (mret a).
Proof. by intros s t a' s' Hs [= <- <-]. Qed.

Lemma quiet_bind (m : M Sess A) (f : A → M Sess A') :
  quiet m → (∀ a, quiet (f a)) → quiet (m ≫= f).
Proof.
  intros Hm Hf s t a s' Hs (a1 & s1 & Ha & Hfa)%bind_ok_inv. eapply Hf, Hfa. by eapply Hm.
Qed.

Lemma quiet_same (m : M Sess A) :
  (∀ s a s', Expires (s_db s) = ∅ → m s = (Ok a, s') → s_db s' = s_db s) → quiet m.
Proof.
  intros Hm s t a s' [Hd He] Ha. unfold sim. by rewrite (Hm s a s').
Qed.
End rules.

Lemma sim_refl s : Expires (s_db s) = ∅ → sim s s.
Proof. by intros. Qed.

Section quiet.
Context `{GoEnvLaws}.

Lemma purged_none key s : Expires (s_db s) = ∅ → purged key s = s.
Proof. intros He. apply purged_no_deadline. by rewrite He, lookup_empty. Qed.

Lemma quiet_gets {A} (f : Database → A) : quiet (gets_db f).
Proof. apply quiet_same. by intros s a s' _ [= _ <-]. Qed.

Lemma quiet_ranged {A} (m : M nat A) : quiet (ranged m).
Proof.
  apply quiet_same. intros s a s' _. unfold ranged, zoom.
  destruct (m (s_tick s)) as [r n]. by intros [= _ <-].
Qed.

Lemma quiet_fuel {A} : quiet (out_of_fuel : M Sess A).
Proof. by intros s t a s' _ Hs. Qed.

Lemma quiet_Now : quiet Now.
Proof. apply quiet_bind; [apply quiet_ranged|intros; apply quiet_ret]. Qed.

Lemma quiet_range_of {A} (m : gmap string A) : quiet (range_of m).
Proof. apply quiet_bind; [apply quiet_ranged|intros; apply quiet_ret]. Qed.

Lemma quiet_expire key : quiet (expireIfNeeded key).
Proof.
  apply quiet_same. intros s a s' He. rewrite expireIfNeeded_run, purged_none by done.
  by intros [= _ <-].
Qed.

Lemma quiet_modify f :
  (∀ d, Expires d = ∅ → same_data (f d) d) → quiet (modify_db f).
Proof.
  intros Hf s t a s' [Hd He] [= _ <-]. unfold sim. cbn. pose proof (Hf _ He) as Hfd.
  split; [by etrans|]. by destruct Hfd as (_ & _ & _ & _ & ->).
Qed.

Lemma quiet_for_each {X} (body : X → M Sess ()) l :
  (∀ x, quiet (body x)) → quiet (for_each body l).
Proof.
  intros Hb. induction l as [|x l IH]; [apply quiet_ret|]. by apply quiet_bind.
Qed.

Lemma quiet_for_fold {X B} (body : B → X → M Sess B) b l :
  (∀ b x, quiet (body b x)) → quiet (for_fold body b l).
Proof.
  intros Hb. revert b. induction l as [|x l IH]; intros b; [apply quiet_ret|].
  apply quiet_bind; auto.
Qed.

(** Reading methods of a stored container. *)
Lemma quiet_on_list {A} key (m : M (list string) A) :
  (∀ l a l', m l = (Ok a, l') → l' = l) → quiet (on_list key m).
Proof.
  intros Hm. apply quiet_same. intros s a s' _. unfold on_list.
  destruct (Lists (s_db s) !! key) as [l|] eqn:Hl; [|done].
  destruct (m l) as [r l'] eqn:Hr. intros [= -> <-].
  rewrite (Hm l a l' Hr). unfold set_db. cbn. by apply set_Lists_id.
Qed.

Lemma quiet_persist_expires key : quiet (modify_db (set_Expires (delete key))).
Proof.
  apply quiet_modify. intros d He. unfold same_data. cbn. split_and!; try done.
  by rewrite He, delete_empty.
Qed.
End quiet.

#[export] Hint Resolve quiet_ret quiet_gets quiet_ranged quiet_fuel quiet_Now quiet_range_of
  quiet_expire quiet_persist_expires : shore.

Ltac quiet :=
  intros;
  repeat first
    [ progress intros
    | solve [eauto with shore]
    | apply quiet_bind
    | apply quiet_for_each
    | apply quiet_for_fold
    | case_match ].

(** ** The commands that are not logged *)
Section unlogged.
Context `{GoEnvLaws}.

Lemma quiet_GetList key : quiet (GetList key). Proof. unfold GetList. quiet. Qed.
Lemma quiet_GetSet key : quiet (GetSet key). Proof. unfold GetSet. quiet. Qed.
Lemma quiet_GetHash key : quiet (GetHash key). Proof. unfold GetHash. quiet. Qed.
Lemma quiet_KeyExists key : quiet (KeyExists key). Proof. unfold KeyExists. quiet. Qed.
Lemma quiet_GetKeyType key : quiet (GetKeyType key). Proof. unfold GetKeyType. quiet. Qed.
Lemma quiet_SweepExpired : quiet SweepExpired. Proof. unfold SweepExpired. quiet. Qed.
Hint Resolve quiet_GetList quiet_GetSet quiet_GetHash quiet_KeyExists quiet_GetKeyType
  quiet_SweepExpired : shore.

Lemma quiet_LLen key : quiet (on_list key ListDS.LLen).
Proof. apply quiet_on_list. by intros l a l' [= _ <-]. Qed.

(** A method that starts by reading the items and then only computes. *)
Lemma reads_LRange a b l r l' : ListDS.LRange a b l = (Ok r, l') → l' = l.
Proof.
  unfold ListDS.LRange. run. cbn [id]. case_match; [by intros [= _ <-]|].
  destruct (_ || _); [by intros [= _ <-]|].
  intros (u & l1 & H1 & H2)%bind_ok_inv. revert H1 H2.
  unfold make_part, go_slice. repeat case_match; try done.
  all: intros [= _ <-]; try done; by intros [= _ <-].
Qed.
Lemma reads_LIndex i l r l' : ListDS.LIndex i l = (Ok r, l') → l' = l.
Proof.
  unfold ListDS.LIndex. run. cbn [id]. destruct (_ || _); [by intros [= _ <-]|].
  intros (u & l1 & H1 & H2)%bind_ok_inv. revert H1 H2.
  unfold go_index. repeat case_match; try done. all: intros [= _ <-] [= _ <-]; done.
Qed.
Lemma quiet_LRange key a b : quiet (on_list key (ListDS.LRange a b)).
Proof. apply quiet_on_list. intros l r l'. apply reads_LRange. Qed.
Lemma quiet_LIndex key i : quiet (on_list key (ListDS.LIndex i)).
Proof. apply quiet_on_list. intros l r l'. apply reads_LIndex. Qed.
Hint Resolve quiet_LLen quiet_LRange quiet_LIndex : shore.

Lemma quiet_ping args : quiet (ping args). Proof. unfold ping. quiet. Qed.
Lemma quiet_get args : quiet (get args). Proof. unfold get. quiet. Qed.
Lemma quiet_exists args : quiet (exists_ args). Proof. unfold exists_. quiet. Qed.
Lemma quiet_mget args : quiet (mget args). Proof. unfold mget. quiet. Qed.
Lemma quiet_typeCmd args : quiet (typeCmd args). Proof. unfold typeCmd. quiet. Qed.
Lemma quiet_lrange args : quiet (lrange args). Proof. unfold lrange. quiet. Qed.
Lemma quiet_llen args : quiet (llen args). Proof. unfold llen. quiet. Qed.
Lemma quiet_lindex args : quiet (lindex args). Proof. unfold lindex. quiet. Qed.
Lemma quiet_sismember args : quiet (sismember args). Proof. unfold sismember. quiet. Qed.
Lemma quiet_smembers args : quiet (smembers args). Proof. unfold smembers. quiet. Qed.
Lemma quiet_scard args : quiet (scard args). Proof. unfold scard. quiet. Qed.

Lemma quiet_get_all_sets keys acc : quiet (get_all_sets keys acc).
Proof.
  revert acc. induction keys as [|k keys IH]; intros acc; [apply quiet_ret|].
  cbn [get_all_sets]. quiet.
Qed.
Lemma quiet_get_present_sets keys : quiet (get_present_sets keys).
Proof. unfold get_present_sets. quiet. Qed.
Hint Resolve quiet_get_all_sets quiet_get_present_sets : shore.
Lemma quiet_sinter args : quiet (sinter args). Proof. unfold sinter. quiet. Qed.
Lemma quiet_sunion args : quiet (sunion args). Proof. unfold sunion. quiet. Qed.
Lemma quiet_sdiff args : quiet (sdiff args). Proof. unfold sdiff. quiet. Qed.

Lemma quiet_hget args : quiet (hget args). Proof. unfold hget. quiet. Qed.
Lemma quiet_hexists args : quiet (hexists args). Proof. unfold hexists. quiet. Qed.
Lemma quiet_hgetall args : quiet (hgetall args). Proof. unfold hgetall. quiet. Qed.
Lemma quiet_hkeys args : quiet (hkeys args). Proof. unfold hkeys. quiet. Qed.
Lemma quiet_hvals args : quiet (hvals args). Proof. unfold hvals. quiet. Qed.
Lemma quiet_hlen args : quiet (hlen args). Proof. unfold hlen. quiet. Qed.
Lemma quiet_hmget args : quiet (hmget args). Proof. unfold hmget. quiet. Qed.

Lemma quiet_ttlValue k u : quiet (ttlValue k u). Proof. unfold ttlValue. quiet. Qed.
Hint Resolve quiet_ttlValue : shore.
Lemma quiet_ttl args : quiet (ttl args). Proof. unfold ttl. quiet. Qed.
Lemma quiet_pttl args : quiet (pttl args). Proof. unfold pttl. quiet. Qed.
Lemma quiet_persist args : quiet (persist args). Proof. unfold persist. quiet. Qed.
Lemma quiet_publish args : quiet (publish args).
Proof.
  unfold publish. destruct args as [|c [|m [|]]]; try apply quiet_ret.
  apply quiet_bind; [|intros; apply quiet_ret].
  apply quiet_same. intros s a s' _. unfold ranged_ps, zoom.
  destruct (Publish _ _ _) as [r [n p]]. by intros [= _ <-].
Qed.

Lemma quiet_keys_in {A} pattern (m : gmap string A) : quiet (keys_in pattern m).
Proof. unfold keys_in. quiet. Qed.
Hint Resolve quiet_keys_in : shore.
Lemma quiet_keysCmd args : quiet (keysCmd args). Proof. unfold keysCmd. quiet. Qed.
Hint Resolve quiet_keysCmd : shore.
Lemma quiet_dbsize args : quiet (dbsize args). Proof. unfold dbsize. quiet. Qed.
Lemma quiet_scan args : quiet (scan args). Proof. unfold scan. quiet. Qed.
Lemma quiet_hello args : quiet (hello args). Proof. unfold hello. quiet. Qed.

Lemma quiet_go_index {A} (l : list A) i : quiet (go_index l i).
Proof. unfold go_index. quiet; by intros ? ? ? ? ? [=]. Qed.
Hint Resolve quiet_go_index : shore.
Lemma quiet_getkeys_loop fuel cmdArgs last stp : ∀ i result,
  quiet (getkeys_loop fuel cmdArgs i last stp result).
Proof. induction fuel as [|fuel IH]; intros i result; cbn [getkeys_loop]; quiet. Qed.
Hint Resolve quiet_getkeys_loop : shore.
Lemma quiet_command_getkeys args : quiet (command_getkeys args).
Proof. unfold command_getkeys. quiet. Qed.
Hint Resolve quiet_command_getkeys : shore.
Lemma quiet_command args : quiet (command args). Proof. unfold command. quiet. Qed.
End unlogged.

(** ** The commands that are logged

    [replays c h]: a reply that is not an error is matched by the replay of the
    command, an error reply leaves the data alone. *)
Definition is_error (v : Value) : bool := (VType v =? SimpleError)%char.

Section logged.
Context `{GoEnvLaws}.

Definition redone (r : M Sess ()) (v : Value) (s' t : Sess) : Prop :=
  if is_error v then sim s' t else ∃ t', r t = (Ok (), t') ∧ sim s' t'.

Definition replays (m : M Sess Value) (r : M Sess ()) : Prop :=
  ∀ s t v s', sim s t → m s = (Ok v, s') → redone r v s' t.

Lemma replays_tracks m r : tracks m r (λ v _, is_error v = false) → replays m r.
Proof.
  intros Hm s t v s' Hs Hv. destruct (Hm _ _ _ _ Hs Hv) as ([] & t' & Ht & Hs' & He).
  unfold redone. rewrite He. by exists t'.
Qed.

Lemma replays_error r v : is_error v = true → replays (mret v) r.
Proof. intros He s t v' s' Hs [= <- <-]. unfold redone. by rewrite He. Qed.

(** Both sides start with the same access to a key. *)
Lemma sim_no_deadline key s t :
  sim s t → purged key s = s ∧ purged key t = t.
Proof.
  intros [Hd He]. split; [by apply purged_none|].
  apply purged_none. by destruct Hd as (_ & _ & _ & _ & <-).
Qed.

Lemma sim_update f s t n m :
  Proper (same_data ==> same_data) f → (∀ d, Expires (f d) = Expires d) →
  sim s t → sim (mkSess n (f (s_db s)) (s_ps s)) (mkSess m (f (s_db t)) (s_ps t)).
Proof. intros Hf He [Hd Hn]. split; cbn; [by apply Hf|by rewrite He]. Qed.

Lemma sim_set_db f g s t :
  (∀ d d', same_data d d' → Expires d = ∅ → same_data (f d) (g d') ∧ Expires (f d) = ∅) →
  sim s t → sim (set_db f s) (set_db g t).
Proof. intros Hfg [Hd Hn]. by apply Hfg. Qed.

Lemma tracks_modify f :
  Proper (same_data ==> same_data) f → (∀ d, Expires d = ∅ → Expires (f d) = ∅) →
  tracks (modify_db f) (modify_db f) (λ _ _, True).
Proof.
  intros Hf He s t a s' [Hd Hn] [= <- <-]. exists (), (set_db f t). split_and!; [done| |done].
  split; cbn; [by apply Hf|by apply He].
Qed.

Lemma tracks_set_Store g : tracks (modify_db (set_Store g)) (modify_db (set_Store g)) (λ _ _, True).
Proof. apply tracks_modify; [apply _|done]. Qed.

Lemma tracks_drop_deadline key :
  tracks (modify_db (set_Expires (delete key))) (modify_db (set_Expires (delete key))) (λ _ _, True).
Proof. apply tracks_modify; [apply _|]. intros d He. cbn. by rewrite He, delete_empty. Qed.

(** Two sessions with the same data hold the same container at a key. *)
Lemma sim_Store s t : sim s t → Store (s_db s) = Store (s_db t). Proof. by intros [[] _]. Qed.
Lemma sim_Lists s t : sim s t → Lists (s_db s) = Lists (s_db t). Proof. by intros [(_&?&_) _]. Qed.
Lemma sim_Sets s t : sim s t → Sets (s_db s) = Sets (s_db t). Proof. by intros [(_&_&?&_) _]. Qed.
Lemma sim_Hashes s t : sim s t → Hashes (s_db s) = Hashes (s_db t). Proof. by intros [(_&_&_&?&_) _]. Qed.

(** The same update on both sides. *)
Lemma sim_put_list key l s t : sim s t → sim (set_db (put_list key l) s) (set_db (put_list key l) t).
Proof. intros Hs. apply (sim_update (put_list key l)); [apply _|done|done]. Qed.
Lemma sim_put_set key x s t : sim s t → sim (set_db (put_set key x) s) (set_db (put_set key x) t).
Proof. intros Hs. apply (sim_update (put_set key x)); [apply _|done|done]. Qed.
Lemma sim_put_hash key x s t : sim s t → sim (set_db (put_hash key x) s) (set_db (put_hash key x) t).
Proof. intros Hs. apply (sim_update (put_hash key x)); [apply _|done|done]. Qed.

Hint Resolve sim_put_list sim_put_set sim_put_hash : shore.

(** *** Strings *)
Lemma replays_set args : replays (set args) (replay_args "SET" args).
Proof.
  unfold set. destruct args as [|k [|v [|]]]; try (by apply replays_error).
  apply replays_tracks. cbv [replay_args String.eqb Ascii.eqb Bool.eqb].
  eapply tracks_bind; [apply tracks_set_Store|]. intros _ _ _.
  eapply (tracks_last _ _ _ (λ _, vOK)); [apply tracks_drop_deadline|done].
Qed.

Lemma tracks_mset n : ∀ args, (length args ≤ n)%nat →
  tracks (mset_loop args) (replay_mset args) (λ _ _, True).
Proof.
  induction n as [|n IH]; intros [|k [|v args]] Hn; cbn in Hn; try lia;
    try by apply tracks_ret.
  cbn [mset_loop replay_mset].
  eapply tracks_bind; [apply tracks_set_Store|]. intros _ _ _.
  eapply tracks_bind; [apply tracks_drop_deadline|]. intros _ _ _. apply IH. lia.
Qed.

Lemma replays_mset args : replays (mset args) (replay_args "MSET" args).
Proof.
  unfold mset. cbv [replay_args String.eqb Ascii.eqb Bool.eqb].
  destruct (Nat.ltb_spec (length args) 2) as [Hlt|Hge]; [by apply replays_error|].
  cbn [orb]. destruct (Nat.even (length args)) eqn:Hev; [|by apply replays_error].
  rewrite (proj2 (Nat.leb_le 2 _)) by done. cbn [andb negb].
  apply replays_tracks. eapply (tracks_last _ _ _ (λ _, vOK)); [by eapply tracks_mset|done].
Qed.

(** DEL. *)
Lemma tracks_delete_from {A} get set key deleted :
  (∀ d d', same_data d d' → get d = get d') →
  Proper (same_data ==> same_data) (set (delete key)) →
  (∀ d, Expires d = ∅ → Expires (set (delete key) d) = ∅) →
  ∀ deleted', tracks (@delete_from A get set key deleted) (@delete_from A get set key deleted')
                (λ _ _, True).
Proof.
  intros Hget Hset He deleted' s t a s' Hs. unfold delete_from, gets_db. run.
  rewrite <-(Hget _ _ (proj1 Hs)). destruct (get (s_db s) !! key).
  - intros (u & s1 & H1 & [= <- <-])%bind_ok_inv.
    destruct (tracks_modify _ Hset He _ _ _ _ Hs H1) as (b & t' & Ht & Hs' & _).
    rewrite (bind_ok _ _ _ _ _ Ht). by eexists _, t'.
  - intros [= <- <-]. by eexists _, t.
Qed.

Lemma tracks_expire key : tracks (expireIfNeeded key) (expireIfNeeded key) (λ _ _, True).
Proof.
  intros s t a s' Hs. rewrite !expireIfNeeded_run.
  destruct (sim_no_deadline key _ _ Hs) as [-> ->]. intros [= <- <-]. by exists (), t.
Qed.

Lemma tracks_DeleteKey key : tracks (DeleteKey key) (DeleteKey key) (λ _ _, True).
Proof.
  unfold DeleteKey. eapply tracks_bind; [apply tracks_expire|]. intros _ _ _.
  eapply tracks_bind; [apply tracks_delete_from; [intros ?? (?&_); done|apply _|done]|].
  intros n1 n1' _.
  eapply tracks_bind; [apply tracks_delete_from; [intros ?? (_&?&_); done|apply _|done]|].
  intros n2 n2' _.
  eapply tracks_bind; [apply tracks_delete_from; [intros ?? (_&_&?&_); done|apply _|done]|].
  intros n3 n3' _.
  eapply tracks_bind; [apply tracks_delete_from; [intros ?? (_&_&_&?&_); done|apply _|done]|].
  intros n4 n4' _.
  eapply tracks_bind; [apply tracks_drop_deadline|]. intros. by apply tracks_ret.
Qed.

Lemma tracks_del_loop args : ∀ deleted,
  tracks (for_fold (λ deleted arg, n ← DeleteKey (Str arg); mret (deleted + n)) deleted args)
    (for_each (λ arg, _ ← DeleteKey (Str arg); mret ()) args) (λ _ _, True).
Proof.
  induction args as [|a args IH]; intros deleted; [by apply tracks_ret|].
  cbn [for_fold for_each]. eapply (tracks_bind _ _ (λ _ _, True)); [|intros; apply IH].
  eapply tracks_bind; [apply tracks_DeleteKey|]. intros. by apply tracks_ret.
Qed.

Lemma replays_del args : replays (del args) (replay_args "DEL" args).
Proof.
  unfold del. cbv [replay_args String.eqb Ascii.eqb Bool.eqb].
  destruct (length args <? 1)%nat; [by apply replays_error|].
  apply replays_tracks. eapply tracks_last; [apply tracks_del_loop|done].
Qed.

(** The package's own [parseInt] agrees with [Atoi] where [Atoi] succeeds. *)
Lemma server_parseInt_Atoi s n : Atoi s = (n, None) → parseInt s = inl n.
Proof.
  intros Ha%parseInt_Atoi. revert Ha. unfold DataStruct.parseInt, parseInt.
  destruct s as [|c s]; [done|]. by destruct (parseInt_loop _ 0).
Qed.

Lemma replays_increment key n : replays (increment key n) (replayIncrement key n).
Proof.
  intros s t v s' Hs. unfold increment, replayIncrement.
  rewrite (bind_ok _ _ _ _ _ (expireIfNeeded_run key s)).
  destruct (sim_no_deadline key _ _ Hs) as [-> _].
  unfold redone, gets_db. run. rewrite <-(sim_Store s t Hs).
  destruct (Atoi _) as [m [e|]] eqn:Ha; [by intros [= <- <-]|].
  intros (u & s1 & H1 & [= <- <-])%bind_ok_inv. cbn.
  rewrite (server_parseInt_Atoi _ _ Ha).
  destruct (tracks_set_Store _ _ _ _ _ Hs H1) as ([] & t' & Ht & Hs' & _). eauto.
Qed.

Lemma replays_incr args : replays (incr args) (replay_args "INCR" args).
Proof.
  unfold incr. destruct args as [|k [|]]; try by apply replays_error.
  apply replays_increment.
Qed.
Lemma replays_decr args : replays (decr args) (replay_args "DECR" args).
Proof.
  unfold decr. destruct args as [|k [|]]; try by apply replays_error.
  apply replays_increment.
Qed.
Lemma replays_incrby args : replays (incrby args) (replay_args "INCRBY" args).
Proof.
  unfold incrby. destruct args as [|k [|v [|]]]; try by apply replays_error.
  destruct (Atoi (Str v)) as [n [e|]] eqn:Ha; [by apply replays_error|].
  cbv [replay_args String.eqb Ascii.eqb Bool.eqb].
  rewrite (server_parseInt_Atoi _ _ Ha). apply replays_increment.
Qed.
Lemma replays_decrby args : replays (decrby args) (replay_args "DECRBY" args).
Proof.
  unfold decrby. destruct args as [|k [|v [|]]]; try by apply replays_error.
  destruct (Atoi (Str v)) as [n [e|]] eqn:Ha; [by apply replays_error|].
  cbv [replay_args String.eqb Ascii.eqb Bool.eqb].
  rewrite (server_parseInt_Atoi _ _ Ha). apply replays_increment.
Qed.

(** *** Lists *)
Lemma sim_push key l s t :
  sim s t →
  sim (set_db (λ d, set_listCond S (set_Lists <[key := l]> d)) s)
      (set_db (set_Lists <[key := l]>) t).
Proof.
  apply sim_set_db. intros d d' Hd He. split; [|done].
  etrans; [apply set_listCond_same|]. by rewrite Hd.
Qed.

Lemma replays_lpush args : replays (lpush args) (replay_args "LPUSH" args).
Proof.
  destruct args as [|k [|v vs]]; try by apply replays_error.
  intros s t r s' Hs. rewrite lpush_run.
  destruct (sim_no_deadline (Str k) _ _ Hs) as [Hps Hpt]. rewrite Hps.
  intros [= <- <-]. cbv [redone is_error]. cbn [VType vInt].
  eexists. split; [|by apply sim_push].
  change (replay_args "LPUSH" _) with
    (_ ← GetOrCreateList (Str k); _ ← on_list (Str k) (ListDS.LPush (map Str (v :: vs))); mret ()).
  rewrite (push_run (λ values l, reverse values ++ l) ListDS.LPush _ _ (λ _, mret ()) t).
  - by rewrite Hpt, (sim_Lists s t Hs).
  - intros l. rewrite LPush_spec, length_app, length_reverse. do 2 f_equal. lia.
Qed.

Lemma replays_rpush args : replays (rpush args) (replay_args "RPUSH" args).
Proof.
  destruct args as [|k [|v vs]]; try by apply replays_error.
  intros s t r s' Hs. rewrite rpush_run.
  destruct (sim_no_deadline (Str k) _ _ Hs) as [Hps Hpt]. rewrite Hps.
  intros [= <- <-]. cbv [redone is_error]. cbn [VType vInt].
  eexists. split; [|by apply sim_push].
  change (replay_args "RPUSH" _) with
    (_ ← GetOrCreateList (Str k); _ ← on_list (Str k) (ListDS.RPush (map Str (v :: vs))); mret ()).
  rewrite (push_run (λ values l, l ++ values) ListDS.RPush _ _ (λ _, mret ()) t).
  - by rewrite Hpt, (sim_Lists s t Hs).
  - intros l. rewrite RPush_spec, length_app. do 2 f_equal. lia.
Qed.

Lemma replayListPop_cons a args left s :
  replayListPop (a :: args) left s =
    match Lists (s_db (purged (Str a) s)) !! Str a ≫= pop_end left with
    | None => replayListPop args left (purged (Str a) s)
    | Some (v, l') => (Ok (), set_db (put_list (Str a) l') (purged (Str a) s))
    end.
Proof.
  cbn [replayListPop]. rewrite (bind_ok _ _ _ _ _ (GetList_run _ s)).
  destruct (Lists _ !! _) as [l|] eqn:Hl; cbn [mbind option_bind]; [|done].
  destruct (pop_end left l) as [[v l']|] eqn:Hv.
  - rewrite (pop_drop_run left _ _ _ _ _ (λ _, mret ()) _ Hl Hv); [done|].
    intros s1. cbn. rewrite bind_eq. by destruct (drop_empty_list (Str a) s1) as [[[]| | |] ?].
  - by rewrite (pop_none_run left _ _ _ _ Hl Hv).
Qed.

Lemma tracks_pop args left :
  tracks (pop_first (map Str args) left) (replayListPop args left) (λ _ _, True).
Proof.
  induction args as [|a args IH]; [by apply tracks_ret|].
  intros s t r s' Hs. cbn [map]. rewrite pop_first_cons, replayListPop_cons.
  destruct (sim_no_deadline (Str a) _ _ Hs) as [-> ->]. rewrite <-(sim_Lists s t Hs).
  destruct (_ ≫= pop_end left) as [[v l']|]; [|by apply IH].
  intros [= <- <-]. eexists _, _. split_and!; [done|auto with shore|done].
Qed.

(** A pop that finds nothing leaves the data alone. *)
Lemma pop_first_None keys left s s' :
  Expires (s_db s) = ∅ → pop_first keys left s = (Ok None, s') → s' = s.
Proof.
  revert s. induction keys as [|key keys IH]; intros s He; [by intros [= <-]|].
  rewrite pop_first_cons, purged_none by done.
  destruct (_ ≫= pop_end left) as [[v l']|]; [done|]. by apply IH.
Qed.

Lemma replays_pop_result (m : M Sess Value) left k :
  (∀ s, m s = pop_result left (Str k) s) → replays m (replayListPop [k] left).
Proof.
  intros Hm s t v s' Hs. rewrite Hm. unfold pop_result, redone.
  rewrite replayListPop_cons. destruct (sim_no_deadline (Str k) _ _ Hs) as [-> ->].
  rewrite <-(sim_Lists s t Hs).
  destruct (_ ≫= pop_end left) as [[x l']|]; intros [= <- <-]; cbn; eauto with shore.
Qed.

Lemma replays_lpop args : replays (lpop args) (replay_args "LPOP" args).
Proof.
  destruct args as [|k [|]]; try by apply replays_error.
  apply replays_pop_result, lpop_run.
Qed.
Lemma replays_rpop args : replays (rpop args) (replay_args "RPOP" args).
Proof.
  destruct args as [|k [|]]; try by apply replays_error.
  apply replays_pop_result, rpop_run.
Qed.

Lemma quiet_waitForListSignal deadline b : quiet (waitForListSignal deadline b).
Proof. unfold waitForListSignal. quiet. Qed.

Lemma pop_first_reply keys left s v s' :
  pop_first keys left s = (Ok (Some v), s') → is_error v = false.
Proof.
  revert s. induction keys as [|key keys IH]; intros s; [done|].
  rewrite pop_first_cons. destruct (_ ≫= pop_end left) as [[x l']|]; [|apply IH].
  by intros [= <- <-].
Qed.

(** The rounds that find nothing leave no trace; the last one is the pop that
    the log records. *)
Lemma replays_blocking_loop wakeups args left b deadline :
  replays (blocking_loop wakeups (map Str args) left b deadline) (replayListPop args left).
Proof.
  induction wakeups as [|n IH]; [by intros s t v s'|]. cbn [blocking_loop].
  intros s t v s' Hs (r & s1 & Hr & Hk)%bind_ok_inv.
  destruct (tracks_pop args left _ _ _ _ Hs Hr) as ([] & t1 & Ht & Hs1 & _).
  destruct r as [x|].
  - injection Hk as <- <-. unfold redone. rewrite (pop_first_reply _ _ _ _ _ Hr). eauto.
  - assert (s1 = s) as -> by (eapply pop_first_None, Hr; apply Hs).
    apply bind_ok_inv in Hk as (late & s2 & Hl & Hk).
    assert (sim s2 t) as Hs2.
    { destruct b; [|by injection Hl as _ <-]. revert Hl.
      apply (quiet_bind _ _ quiet_Now (λ _, quiet_ret _) s t late s2 Hs). }
    destruct late; [injection Hk as <- <-|].
    + unfold redone. cbn. exists t1. split; [done|].
      destruct (tracks_pop args left _ _ _ _ Hs Hr) as ([] & t2 & Ht2 & Hs' & _).
      rewrite Ht in Ht2. injection Ht2 as <-.
      split; [|apply Hs2]. destruct Hs2 as [Hd2 _], Hs' as [Hd' _], Hs as [Hd _].
      etrans; [exact Hd2|]. etrans; [symmetry; exact Hd|exact Hd'].
    + apply bind_ok_inv in Hk as (u & s3 & Hw & Hk).
      eapply IH, Hk. by eapply quiet_waitForListSignal.
Qed.

Lemma replays_blockingPop wakeups args left :
  replays (blockingPop wakeups args left)
    (if (2 <=? length args)%nat then replayListPop (take (length args - 1) args) left else mret ()).
Proof.
  unfold blockingPop. destruct (Nat.ltb_spec (length args) 2) as [|Hge]; [by apply replays_error|].
  rewrite (proj2 (Nat.leb_le 2 _)) by done.
  destruct (args !! _) as [tm|]; [|by apply replays_error].
  destruct (ParseFloat _) as [f|]; [|by apply replays_error].
  destruct (float_neg f); [by apply replays_error|].
  intros s t v s' Hs (deadline & s1 & Hd & Hk)%bind_ok_inv.
  assert (sim s1 t) as Hs1.
  { destruct (float_pos f); [|by injection Hd as _ <-]. revert Hd.
    apply (quiet_bind _ _ quiet_Now (λ _, quiet_ret _) s t deadline s1 Hs). }
  by eapply replays_blocking_loop.
Qed.

Lemma replays_lset args : replays (lset args) (replay_args "LSET" args).
Proof.
  unfold lset. destruct args as [|k [|i [|v [|]]]]; try by apply replays_error.
  destruct (Atoi (Str i)) as [index [e|]] eqn:Ha; [by apply replays_error|].
  cbv [replay_args String.eqb Ascii.eqb Bool.eqb].
  rewrite (server_parseInt_Atoi _ _ Ha). intros s t r s' Hs.
  rewrite (bind_ok _ _ _ _ _ (GetList_run _ s)).
  unfold redone. rewrite (bind_ok _ _ _ _ _ (GetList_run _ t)).
  destruct (sim_no_deadline (Str k) _ _ Hs) as [-> ->]. rewrite <-(sim_Lists s t Hs).
  destruct (Lists (s_db s) !! Str k) as [l|] eqn:Hl; [|by intros [= <- <-]].
  intros (ok & s1 & Hset & Hret)%bind_ok_inv. unfold on_list in Hset. rewrite Hl in Hset.
  destruct (ListDS.LSet index (Str v) l) as [x l'] eqn:Hx. injection Hset as -> <-.
  destruct ok; injection Hret as <- <-; cbn.
  - eexists. split; [|apply (sim_update (set_Lists <[Str k := l']>)); [apply _|done|exact Hs]].
    by rewrite (bind_ok _ _ _ _ _ (on_list_run (Str k) _ l _ _ t
      ltac:(by rewrite <-(sim_Lists s t Hs)) Hx)).
  - assert (l' = l) as ->.
    { revert Hx. unfold ListDS.LSet. run. cbn [id]. by destruct (_ || _); intros [= <-]. }
    unfold set_db. rewrite set_Lists_id by done. by destruct s.
Qed.

Lemma replays_lrem args : replays (lrem args) (replay_args "LREM" args).
Proof.
  unfold lrem. destruct args as [|k [|i [|v [|]]]]; try by apply replays_error.
  destruct (Atoi (Str i)) as [count [e|]] eqn:Ha; [by apply replays_error|].
  cbv [replay_args String.eqb Ascii.eqb Bool.eqb].
  rewrite (server_parseInt_Atoi _ _ Ha). intros s t r s' Hs.
  rewrite (bind_ok _ _ _ _ _ (GetList_run _ s)).
  unfold redone. rewrite (bind_ok _ _ _ _ _ (GetList_run _ t)).
  destruct (sim_no_deadline (Str k) _ _ Hs) as [-> ->]. rewrite <-(sim_Lists s t Hs).
  destruct (Lists (s_db s) !! Str k) as [l|] eqn:Hl; [|intros [= <- <-]; cbn; eauto].
  assert (Hc := Atoi_in_int _ _ Ha).
  destruct (lrem_run (Str k) l count (Str v) (λ n, mret (vInt n)) s Hl Hc)
    as (n & l1 & H1 & _ & ->).
  destruct (lrem_run (Str k) l count (Str v) (λ _, mret ()) t
    ltac:(by rewrite <-(sim_Lists s t Hs)) Hc) as (n2 & l2 & H2 & _ & Ht).
  rewrite H1 in H2. injection H2 as <- <-. intros [= <- <-]. cbn.
  eexists. split; [|by apply sim_put_list, Hs].
  etrans; [|exact Ht]. rewrite !bind_eq. destruct (on_list _ _ t) as [[]]; try done.
  rewrite bind_eq. by destruct (drop_empty_list _ _) as [[[]| | |] ?].
Qed.

(** *** Sets and hashes *)
Lemma replays_sadd args : replays (sadd args) (replay_args "SADD" args).
Proof.
  destruct args as [|k [|m ms]]; try by apply replays_error.
  intros s t r s' Hs. rewrite sadd_run.
  destruct (sim_no_deadline (Str k) _ _ Hs) as [-> Hpt]. intros [= <- <-]. unfold redone.
  change (is_error _) with false. cbv [replay_args String.eqb Ascii.eqb Bool.eqb].
  rewrite (bind_ok _ _ _ _ _ (GetOrCreateSet_run _ t)), Hpt.
  erewrite bind_ok; [|eapply (on_set_still (Str k));
    [cbn; apply lookup_insert_eq|apply SAdd_spec]].
  eexists. split; [done|]. unfold set_db. cbn [s_db s_ps s_tick].
  rewrite set_Sets_insert, (sim_Sets s t Hs).
  apply (sim_update (set_Sets <[Str k := _]>)); [apply _|done|done].
Qed.

Lemma replays_srem args : replays (srem args) (replay_args "SREM" args).
Proof.
  destruct args as [|k [|m ms]]; try by apply replays_error.
  intros s t r s' Hs. rewrite srem_run. unfold redone.
  cbv [replay_args String.eqb Ascii.eqb Bool.eqb]. rewrite (bind_ok _ _ _ _ _ (GetSet_run _ t)).
  destruct (sim_no_deadline (Str k) _ _ Hs) as [-> ->]. rewrite <-(sim_Sets s t Hs).
  destruct (Sets (s_db s) !! Str k) as [x|] eqn:Hx; intros [= <- <-];
    change (is_error _) with false; cbv iota; [|eauto].
  rewrite (bind_ok _ _ _ _ _ (on_set_still (Str k) _ x _ _ t
    ltac:(by rewrite <-(sim_Sets s t Hs)) (SRem_spec (map Str (m :: ms)) x))).
  erewrite drop_empty_set_run by apply lookup_insert_eq.
  eexists. split; [done|]. unfold set_db. cbn [s_db s_ps s_tick]. rewrite put_set_insert.
  by apply sim_put_set.
Qed.

Lemma replays_hset args : replays (hset args) (replay_args "HSET" args).
Proof.
  destruct args as [|k [|f [|v [|]]]]; try by apply replays_error.
  intros s t r s' Hs. rewrite hset_run.
  destruct (sim_no_deadline (Str k) _ _ Hs) as [-> Hpt]. intros [= <- <-]. unfold redone.
  change (is_error _) with false. cbv [replay_args String.eqb Ascii.eqb Bool.eqb].
  rewrite (bind_ok _ _ _ _ _ (GetOrCreateHash_run _ t)), Hpt.
  erewrite bind_ok; [|eapply (on_hash_still (Str k));
    [cbn; apply lookup_insert_eq|apply HSet_spec]].
  eexists. split; [done|]. unfold set_db. cbn [s_db s_ps s_tick].
  rewrite set_Hashes_insert, (sim_Hashes s t Hs).
  apply (sim_update (set_Hashes <[Str k := _]>)); [apply _|done|done].
Qed.

Lemma replays_hdel args : replays (hdel args) (replay_args "HDEL" args).
Proof.
  destruct args as [|k [|m ms]]; try by apply replays_error.
  intros s t r s' Hs. rewrite hdel_run. unfold redone.
  cbv [replay_args String.eqb Ascii.eqb Bool.eqb]. rewrite (bind_ok _ _ _ _ _ (GetHash_run _ t)).
  destruct (sim_no_deadline (Str k) _ _ Hs) as [-> ->]. rewrite <-(sim_Hashes s t Hs).
  destruct (Hashes (s_db s) !! Str k) as [x|] eqn:Hx; intros [= <- <-];
    change (is_error _) with false; cbv iota; [|eauto].
  rewrite (bind_ok _ _ _ _ _ (on_hash_still (Str k) _ x _ _ t
    ltac:(by rewrite <-(sim_Hashes s t Hs)) (HDel_spec (map Str (m :: ms)) x))).
  erewrite drop_empty_hash_run by apply lookup_insert_eq.
  eexists. split; [done|]. unfold set_db. cbn [s_db s_ps s_tick]. rewrite put_hash_insert.
  by apply sim_put_hash.
Qed.

Lemma replays_hmset args : replays (hmset args) (replay_args "HMSET" args).
Proof.
  unfold hmset. cbv [replay_args String.eqb Ascii.eqb Bool.eqb].
  destruct (Nat.ltb_spec (length args) 3) as [|Hge]; [by apply replays_error|]. cbn [orb].
  destruct (Nat.even (length args)) eqn:Hev; [by apply replays_error|].
  destruct args as [|k fvs]; [by apply replays_error|].
  rewrite (proj2 (Nat.leb_le 3 _)) by done.
  unfold Nat.odd. rewrite Hev. cbn [andb negb].
  intros s t r s' Hs. rewrite (bind_ok _ _ _ _ _ (GetOrCreateHash_run _ s)). unfold redone.
  rewrite (bind_ok _ _ _ _ _ (GetOrCreateHash_run _ t)).
  destruct (sim_no_deadline (Str k) _ _ Hs) as [-> ->].
  erewrite bind_ok; [|apply on_hash_HMSet; apply lookup_insert_eq].
  erewrite on_hash_HMSet by apply lookup_insert_eq.
  intros [= <- <-]. change (is_error _) with false. cbv iota. eexists. split; [done|].
  unfold set_db. cbn [s_db s_ps s_tick]. rewrite !set_Hashes_insert, (sim_Hashes s t Hs).
  apply (sim_update (set_Hashes <[Str k := _]>)); [apply _|done|done].
Qed.

Lemma replays_hincrby args : replays (hincrby args) (replay_args "HINCRBY" args).
Proof.
  unfold hincrby. destruct args as [|k [|f [|i [|]]]]; try by apply replays_error.
  destruct (Atoi (Str i)) as [inc [e|]] eqn:Ha; [by apply replays_error|].
  cbv [replay_args String.eqb Ascii.eqb Bool.eqb].
  rewrite (server_parseInt_Atoi _ _ Ha). intros s t r s' Hs.
  rewrite (bind_ok _ _ _ _ _ (GetOrCreateHash_run _ s)). unfold redone.
  rewrite (bind_ok _ _ _ _ _ (GetOrCreateHash_run _ t)).
  destruct (sim_no_deadline (Str k) _ _ Hs) as [-> ->]. rewrite <-(sim_Hashes s t Hs).
  set (x := default ∅ (Hashes (s_db s) !! Str k)).
  destruct (HIncrBy_total (Str f) inc x) as [(n & str & Hr)|(v & e & Hv & Hr)].
  - assert (Ht : try (HashDS.HIncrBy (Str f) inc) x = (Ok (inl n), <[Str f := str]> x))
      by (unfold try; by rewrite Hr).
    erewrite bind_ok; [|eapply (on_hash_still (Str k)); [apply lookup_insert_eq|exact Ht]].
    erewrite bind_ok; [|eapply (on_hash_still (Str k)); [apply lookup_insert_eq|exact Ht]].
    intros [= <- <-]. change (is_error _) with false. cbv iota. eexists. split; [done|]. unfold set_db. cbn [s_db s_ps s_tick].
    rewrite !set_Hashes_insert.
    apply (sim_update (set_Hashes <[Str k := _]>)); [apply _|done|done].
  - assert (Ht : try (HashDS.HIncrBy (Str f) inc) x = (Ok (inr e), x))
      by (unfold try; by rewrite Hr).
    erewrite bind_ok; [|eapply (on_hash_still (Str k)); [apply lookup_insert_eq|exact Ht]].
    intros [= <- <-]. cbn. unfold set_db. cbn [s_db s_ps s_tick]. rewrite set_Hashes_insert.
    rewrite set_Hashes_id; [by destruct s|]. subst x.
    destruct (Hashes (s_db s) !! Str k) as [h|]; [done|]. cbn in Hv. by rewrite lookup_empty in Hv.
Qed.

(** *** The table *)

(** The commands whose effect the log does not carry: deadlines are not
    logged, and SPOP removes a member that the log does not name. *)
Definition unrecoverable : list string := ["EXPIRE"; "PEXPIRE"; "SPOP"].

Definition logs_faithfully (c : string) (h : CommandHandler) : Prop :=
  ∀ args, if shouldPersist c then replays (h args) (replay_args c args) else quiet (h args).

Lemma handlers_logged wakeups :
  Forall (λ '(c, h), c ∉ unrecoverable → logs_faithfully c h) (CommandHandlers wakeups).
Proof.
  repeat apply list.Forall_cons_2; try apply list.Forall_nil_2; intros Hc;
  first
    [ by destruct Hc; apply (bool_decide_unpack _); vm_compute
    | clear Hc; intros args;
      match goal with |- context [shouldPersist ?c] =>
        let b := eval vm_compute in (shouldPersist c) in
        change (shouldPersist c) with b; cbv beta iota
      end ].
  - apply quiet_command.
  - apply quiet_ping.
  - apply replays_set.
  - apply quiet_get.
  - apply replays_del.
  - apply quiet_exists.
  - apply replays_mset.
  - apply quiet_mget.
  - apply quiet_typeCmd.
  - apply replays_incr.
  - apply replays_decr.
  - apply replays_decrby.
  - apply replays_incrby.
  - apply replays_lpush.
  - apply replays_rpush.
  - apply replays_lpop.
  - apply replays_rpop.
  - apply quiet_lrange.
  - apply quiet_llen.
  - apply quiet_lindex.
  - apply replays_lset.
  - apply replays_lrem.
  - apply replays_blockingPop.
  - apply replays_blockingPop.
  - apply replays_sadd.
  - apply replays_srem.
  - apply quiet_sismember.
  - apply quiet_smembers.
  - apply quiet_scard.
  - apply quiet_sinter.
  - apply quiet_sunion.
  - apply quiet_sdiff.
  - apply replays_hset.
  - apply quiet_hget.
  - apply replays_hdel.
  - apply quiet_hexists.
  - apply quiet_hgetall.
  - apply quiet_hkeys.
  - apply quiet_hvals.
  - apply quiet_hlen.
  - apply replays_hmset.
  - apply quiet_hmget.
  - apply replays_hincrby.
  - apply quiet_ttl.
  - apply quiet_pttl.
  - apply quiet_persist.
  - apply quiet_keysCmd.
  - apply quiet_scan.
  - apply quiet_dbsize.
  - apply quiet_hello.
  - apply quiet_publish.
Qed.

Lemma handler_of_logged wakeups c h :
  handler_of wakeups c = Some h → c ∉ unrecoverable → logs_faithfully c h.
Proof.
  intros Hh Hc. apply table_get_In in Hh.
  by apply (proj1 (list.Forall_forall _ _) (handlers_logged wakeups) (c, h)).
Qed.
End logged.
