(* ===== verification/System.v ===== *)
(** * System: the server and its connections as a state machine

    Connections interleave: between two requests of one client, the server may
    handle requests of the others, forward published messages, or sweep expired
    keys. One step handles one of these to its end. *)
From S2P Require Import Prelude Go Strconv Resp DataStruct PubSub PubSubFacts.
From S2P Require Import Database DbFacts Handler Invariant Rdb RdbFacts Aof AofFacts Server.
From Stdlib Require Import Ascii.

Record System := mkSystem { sys_sv : Server; sys_conns : gmap nat Conn }.

(** The length of every stored slice is an [int]. *)
Definition sv_fits (sv : Server) : Prop := Forall fits (DBs (w_mdb (sv_world sv))).

Section system.
Context `{GoEnv}.
Context (wakeups : nat).

(** A request is what [Parse] returns on the bytes of a client. *)
Inductive sys_step (allowed : Value → Prop) : System → System → Prop :=
  | step_connect sv conns id :
      conns !! id = None →
      sys_step allowed (mkSystem sv conns)
        (mkSystem sv (<[id := NewConn (sv_requirePass sv)]> conns))
  | step_request sv conns id c input v rest sv' c' :
      conns !! id = Some c → Parse input = (Ok v, rest) → allowed v → sv_fits sv →
      handleValue wakeups v (sv, c) = (Ok (), (sv', c')) →
      sys_step allowed (mkSystem sv conns) (mkSystem sv' (<[id := c']> conns))
  | step_forward sv conns id c name ch sv' c' :
      conns !! id = Some c → c_subs c !! name = Some ch →
      forward ch (sv, c) = (Ok (), (sv', c')) →
      sys_step allowed (mkSystem sv conns) (mkSystem sv' (<[id := c']> conns))
  | step_close sv conns id c sv' c' :
      conns !! id = Some c → disconnect (sv, c) = (Ok (), (sv', c')) →
      sys_step allowed (mkSystem sv conns) (mkSystem sv' (delete id conns))
  | step_sweep sv conns sv' :
      on_world SweepAll sv = (Ok (), sv') →
      sys_step allowed (mkSystem sv conns) (mkSystem sv' conns).

(** A server just started with empty databases. *)
Definition fresh_server (n : nat) (aof : option Aof) (rdb : option RDB)
    (files : gmap string string) (requirePass : string) : Server :=
  mkServer (mkWorld n NewMultiDB) aof rdb files requirePass.

Inductive reachable (allowed : Value → Prop) (sv0 : Server) : System → Prop :=
  | reach_start : reachable allowed sv0 (mkSystem sv0 ∅)
  | reach_step x y : reachable allowed sv0 x → sys_step allowed x y → reachable allowed sv0 y.
End system.

(** ** Running a method on one database of the world *)
Lemma with_DB_run {A} i (m : M Sess A) w d r s :
  0 ≤ i → DBs (w_mdb w) !! Z.to_nat i = Some d →
  m (mkSess (w_tick w) d (mdb_PubSub (w_mdb w))) = (r, s) →
  with_DB i m w =
    (r, mkWorld (s_tick s) (mkMultiDB (<[Z.to_nat i := s_db s]> (DBs (w_mdb w))) (s_ps s))).
Proof.
  intros Hi Hd Hm. unfold with_DB. rewrite (proj2 (Z.ltb_ge i 0)) by lia. by rewrite Hd, Hm.
Qed.

(** [wp] through the layers of the state. *)
Lemma wp_zoom {S T A} (E : S → Prop) (get : S → T) (put : T → S → S) (m : M T A) Q s :
  wp (λ t, E (put t s)) m (λ a t, Q a (put t s)) (get s) → wp E (zoom get put m) Q s.
Proof. unfold wp, zoom. by destruct (m (get s)) as [[] ?]. Qed.

Lemma wp_imp {S A} (E E' : S → Prop) (m : M S A) (Q Q' : A → S → Prop) s :
  (∀ s', E s' → E' s') → (∀ a s', Q a s' → Q' a s') → wp E m Q s → wp E' m Q' s.
Proof. unfold wp. intros HE HQ. destruct (m s) as [[] ?]; auto. Qed.

(** ** The invariant of the world *)
Record world_ok (w : World) : Prop := {
  wo_count : length (DBs (w_mdb w)) = NumDatabases;
  wo_data : Forall data_wf (DBs (w_mdb w));
  wo_ps : ps_wf (mdb_PubSub (w_mdb w));
}.

Definition world_ps (w : World) : PubSub := mdb_PubSub (w_mdb w).
Definition sv_ps (sv : Server) : PubSub := world_ps (sv_world sv).

(** Same registrations. *)
Definition same_regs (p p' : PubSub) : Prop :=
  ∀ name ch, registered p name ch ↔ registered p' name ch.

#[export] Instance same_regs_equiv : Equivalence same_regs.
Proof.
  split; [done|intros p p' Hp name ch; symmetry; apply Hp|].
  intros p1 p2 p3 H12 H23 name ch. etrans; [apply H12|apply H23].
Qed.

#[export] Instance registered_proper : Proper (same_regs ==> eq ==> eq ==> iff) registered.
Proof. intros p p' Hp name ? <- ch ? <-. apply Hp. Qed.

Section world.
Context `{GoEnvLaws}.

Lemma wp_with_DB {A} stuck i (m : M Sess A) w :
  world_ok w → 0 ≤ i < Z.of_nat NumDatabases →
  (∀ d, DBs (w_mdb w) !! Z.to_nat i = Some d →
    wp (λ s, stuck (mkWorld (s_tick s)
               (mkMultiDB (<[Z.to_nat i := s_db s]> (DBs (w_mdb w))) (s_ps s))))
      m (λ _, Inv (world_ps w)) (mkSess (w_tick w) d (world_ps w))) →
  wp stuck (with_DB i m) (λ _ w', world_ok w' ∧ same_regs (world_ps w') (world_ps w)) w.
Proof.
  intros [Hlen Hdata Hps] Hi Hm.
  destruct (lookup_lt_is_Some_2 (DBs (w_mdb w)) (Z.to_nat i)) as [d Hd]; [lia|].
  specialize (Hm d Hd). unfold wp in *. unfold with_DB.
  rewrite (proj2 (Z.ltb_ge i 0)) by lia. rewrite Hd. fold (world_ps w).
  destruct (m _) as [[a|e|p|] s]; try done. destruct Hm as (Hwf & Hps' & Hreg).
  split; [|exact Hreg]. split; cbn; [by rewrite length_insert| |done].
  by apply Forall_insert.
Qed.

Lemma with_DB_Inv (w : World) i d :
  world_ok w → DBs (w_mdb w) !! Z.to_nat i = Some d →
  Inv (world_ps w) (mkSess (w_tick w) d (world_ps w)).
Proof.
  intros [Hlen Hdata Hps] Hd. split_and!; [|done|done].
  by eapply (list.Forall_lookup_1 _ _ _ _ Hdata Hd).
Qed.
End world.

(** ** The server *)
Section server.
Context `{GoEnvLaws}.
Context (wakeups : nat).

(** What a command may change of the server: the invariant of the world, the
    registrations and the configuration stay. *)
Definition sv_step (sv sv' : Server) : Prop :=
  world_ok (sv_world sv') ∧ same_regs (sv_ps sv') (sv_ps sv) ∧
  sv_requirePass sv' = sv_requirePass sv.

Lemma sv_step_refl sv : world_ok (sv_world sv) → sv_step sv sv.
Proof. done. Qed.

(** Whether a pop may be left blocked. *)
Context (waits : Prop).
Abbreviation stuck := (λ _ : Server, waits).

Lemma wp_log_to_aof dbIndex original sv sv0 :
  in_int dbIndex → wire original → sv_step sv0 sv →
  wp stuck (log_to_aof dbIndex original) (λ _, sv_step sv0) sv.
Proof.
  intros Hi Hw Hs. unfold wp, log_to_aof. destruct (sv_aof sv) as [a|]; [|done].
  by destruct (AofWrite_cases dbIndex original a Hi Hw) as (r & p & q & a' & -> & [->|[e ->]] & _).
Qed.

Lemma wp_count_change sv sv0 :
  sv_step sv0 sv → wp stuck count_change (λ _, sv_step sv0) sv.
Proof. done. Qed.

(** SAVE and BGSAVE: the databases are only read. *)
Lemma wp_on_rdb_Save r sv :
  world_ok (sv_world sv) → sv_fits sv →
  wp stuck (on_rdb r (Save (DBs (w_mdb (sv_world sv))))) (λ _, sv_step sv) sv.
Proof.
  intros [Hlen Hdata Hps] Hfit. unfold wp, on_rdb.
  destruct (Save_saved (DBs (w_mdb (sv_world sv)))
    (mkRdbSt (w_tick (sv_world sv)) (sv_files sv) r) Hfit) as (err & s' & -> & _).
  by split.
Qed.

Lemma wp_rdb_handler c h args sv :
  table_get c RDBCommandHandlers = Some h → world_ok (sv_world sv) → sv_fits sv →
  wp stuck (h args) (λ _, sv_step sv) sv.
Proof.
  intros Hh Hok Hfit. apply table_get_In in Hh. unfold RDBCommandHandlers in Hh.
  assert (Hcases : h = save ∨ h = bgsave ∨ h = lastsave).
  { rewrite !elem_of_cons in Hh.
    destruct Hh as [[= _ ->]|[[= _ ->]|[[= _ ->]|Hn]]]; [by auto..|].
    by apply elem_of_nil in Hn. }
  destruct Hcases as [->|[->| ->]]; [unfold save|unfold bgsave|unfold lastsave];
    apply wp_bind, wp_gets; destruct (sv_rdb sv) as [r|]; try by apply wp_ret.
  - apply wp_bind, wp_gets, wp_bind. eapply wp_mono; [|by apply wp_on_rdb_Save].
    intros [e|] sv' Hs; exact Hs.
  - apply wp_bind, wp_gets, wp_bind. eapply wp_mono; [|by apply wp_on_rdb_Save].
    intros err sv' Hs. exact Hs.
Qed.

Lemma sv_fits_lookup sv i d :
  sv_fits sv → DBs (w_mdb (sv_world sv)) !! i = Some d → fits d.
Proof. intros Hf Hd. by eapply (list.Forall_lookup_1 _ _ _ _ Hf Hd). Qed.

Lemma wp_processCommand c args original dbIndex sv :
  world_ok (sv_world sv) → sv_fits sv → 0 ≤ dbIndex < Z.of_nat NumDatabases → wire original →
  blocking c = false ∨ waits → wp stuck (processCommand wakeups c args original dbIndex) (λ _, sv_step sv) sv.
Proof.
  intros Hok Hfit Hi Hw HE. unfold processCommand.
  destruct (table_get c RDBCommandHandlers) as [h|] eqn:Hr; [by eapply wp_rdb_handler|].
  destruct (handler_of wakeups c) as [h|] eqn:Hh; [|by apply wp_ret].
  apply wp_bind. apply wp_zoom.
  eapply wp_mono; [|apply wp_with_DB; [done|done|]].
  - intros v w [Hok' Hreg].
    set (sv1 := mkServer _ _ _ _ _).
    assert (Hs1 : sv_step sv sv1) by by split.
    destruct (negb _ && _); [|exact Hs1].
    apply wp_bind. eapply wp_mono; [|apply (wp_log_to_aof _ _ _ sv); [|done|done]].
    + intros u2 sv2 Hs2. apply wp_bind. eapply wp_mono; [|by apply (wp_count_change _ sv)].
      intros u3 sv3 Hs3. exact Hs3.
    + unfold NumDatabases in Hi. int_lia.
  - intros d Hd. eapply (handler_of_keeps (world_ps (sv_world sv))); [done|destruct HE; auto| |].
    + by eapply with_DB_Inv.
    + by eapply sv_fits_lookup.
Qed.
End server.

(** ** A connection *)
Section connection.
Context `{GoEnvLaws}.
Context (wakeups : nat).

(** [others]: the registrations of the other connections. They stay in the
    broker and are never this connection's. *)
Context (others : string → nat → Prop).

Record conn_ok (cs : CS) : Prop := {
  co_world : world_ok (sv_world (fst cs));
  co_index : 0 ≤ dbIndex (snd cs) < Z.of_nat NumDatabases;
  co_subs name ch : c_subs (snd cs) !! name = Some ch → registered (sv_ps (fst cs)) name ch;
  co_others name ch : others name ch →
    registered (sv_ps (fst cs)) name ch ∧ c_subs (snd cs) !! name ≠ Some ch;
}.

Context (waits : Prop).
Abbreviation stuck := (λ _ : CS, waits).
Abbreviation conn_keeps m := (∀ cs, conn_ok cs → wp stuck m (λ _, conn_ok) cs).

Lemma conn_bind {A B} (m : M CS A) (f : A → M CS B) :
  conn_keeps m → (∀ a, conn_keeps (f a)) → conn_keeps (m ≫= f).
Proof.
  intros Hm Hf cs Hcs. apply wp_bind. eapply wp_mono; [|by apply Hm]. cbn. intros. by apply Hf.
Qed.

Lemma conn_ret {A} (a : A) : conn_keeps (mret a).
Proof. done. Qed.

Lemma conn_gets {A} (f : CS → A) : conn_keeps (gets f).
Proof. done. Qed.

Lemma conn_write v : conn_keeps (write v).
Proof. intros [sv c] []. by split. Qed.

Lemma conn_set_authenticated b : conn_keeps (set_authenticated b).
Proof. intros [sv c] []. by split. Qed.

(** The server changes, its registrations do not. *)
Lemma conn_ok_sv sv c sv' : conn_ok (sv, c) → sv_step sv sv' → conn_ok (sv', c).
Proof.
  intros [Hw Hi Hsubs Ho] (Hw' & Hreg & _). split; cbn in *; [done|done| |].
  - intros name ch Hc. apply Hreg. by apply Hsubs.
  - intros name ch Hc. destruct (Ho name ch Hc) as [Hr Hn]. split; [by apply Hreg|done].
Qed.

Lemma conn_handleAuth args : conn_keeps (handleAuth args).
Proof.
  unfold handleAuth. apply conn_bind; [apply conn_gets|]. intros p.
  destruct args as [|a [|]];
    repeat (case_match || (apply conn_bind; [apply conn_write|intros []]) || apply conn_ret).
Qed.

Lemma wp_handleSelect args cs i :
  conn_ok cs → 0 ≤ i < Z.of_nat NumDatabases →
  wp stuck (handleSelect args i)
    (λ j cs', conn_ok cs' ∧ 0 ≤ j < Z.of_nat NumDatabases) cs.
Proof.
  intros Hcs Hi. unfold handleSelect.
  assert (Hw : ∀ v j, 0 ≤ j < Z.of_nat NumDatabases → wp stuck (_ ← write v; mret j)
    (λ j cs', conn_ok cs' ∧ 0 ≤ j < Z.of_nat NumDatabases) cs).
  { intros v j Hj. apply wp_bind. eapply wp_mono; [|by apply conn_write].
    cbn. intros _ cs' Hcs'. by apply wp_ret. }
  destruct args as [|a [|]]; [by apply Hw| |by apply Hw].
  destruct (Atoi (Str a)) as [j [e|]]; [by apply Hw|].
  rewrite Z.geb_leb. destruct (Z.ltb_spec j 0); cbn [orb]; [by apply Hw|].
  destruct (Z.leb_spec (Z.of_nat NumDatabases) j); [by apply Hw|]. apply Hw. lia.
Qed.

Lemma conn_subscription_reply kind name : conn_keeps (subscription_reply kind name).
Proof. apply conn_bind; [apply conn_gets|]. intros n. apply conn_write. Qed.

Lemma conn_for_each {X} (body : X → M CS ()) l :
  (∀ x, conn_keeps (body x)) → conn_keeps (for_each body l).
Proof. intros Hb cs Hcs. apply wp_for_each; [|done]. intros x s _. apply Hb. Qed.

(** Replace the broker of the server. *)
Definition put_ps (p : PubSub) (sv : Server) : Server :=
  mkServer (mkWorld (w_tick (sv_world sv)) (mkMultiDB (DBs (w_mdb (sv_world sv))) p))
    (sv_aof sv) (sv_rdb sv) (sv_files sv) (sv_requirePass sv).

Lemma on_pubsub_run {A} (m : M PubSub A) sv c r p :
  m (sv_ps sv) = (r, p) → on_server (on_pubsub m) (sv, c) = (r, (put_ps p sv, c)).
Proof. intros Hm. unfold on_server, on_pubsub, on_world, zoom. cbn. unfold sv_ps, world_ps in Hm. by rewrite Hm. Qed.

Lemma put_ps_world p sv : world_ok (sv_world sv) → ps_wf p → world_ok (sv_world (put_ps p sv)).
Proof. intros []. by split. Qed.

Lemma conn_handleSubscribe args : conn_keeps (handleSubscribe args).
Proof.
  apply conn_for_each. intros arg [sv c] Hok. apply wp_bind, wp_gets. cbn [snd].
  case_bool_decide as Hknown; [by apply wp_ret|].
  apply wp_bind. eapply wp_eq; [by apply on_pubsub_run|].
  apply wp_bind, wp_modify. destruct Hok as [Hw Hi Hsubs Ho]. cbn in *.
  assert (Hps := wo_ps _ Hw).
  set (p' := (Subscribe (Str arg) (sv_ps sv)).2).
  assert (Hreg : ∀ name ch, registered p' name ch ↔ registered (sv_ps sv) name ch ∨
            name = Str arg ∧ ch = fresh_chan (sv_ps sv)) by (intros; apply Subscribe_registered).
  apply conn_subscription_reply. split; cbn [fst snd dbIndex c_subs].
  - apply (put_ps_world p'); [done|]. by apply Subscribe_wf.
  - done.
  - intros name ch Hc. apply Hreg. apply lookup_insert_Some in Hc as [[<- <-]|[_ Hc]]; [by right|].
    left. by apply Hsubs.
  - intros name ch Hc. destruct (Ho name ch Hc) as [Hr Hn]. split; [apply Hreg; by left|].
    intros Hin. apply lookup_insert_Some in Hin as [[_ <-]|[_ Hin]]; [|done].
    by destruct (registered_not_fresh _ _ _ Hps Hr).
Qed.

Lemma wp_Unsubscribe name ch sv c :
  conn_ok (sv, c) → c_subs c !! name = Some ch →
  wp stuck (_ ← on_server (on_pubsub (Unsubscribe name ch)); set_subs (delete name))
    (λ _, conn_ok) (sv, c).
Proof.
  intros [Hw Hi Hsubs Ho] Hc. cbn in *. assert (Hps := wo_ps _ Hw).
  destruct (Unsubscribe_run (sv_ps sv) name ch Hps (Hsubs _ _ Hc))
    as (p' & Hrun & Hwf' & Hreg & _).
  apply wp_bind. eapply wp_eq; [by apply on_pubsub_run|]. apply wp_modify.
  split; cbn [fst snd dbIndex c_subs].
  - by apply (put_ps_world p').
  - done.
  - intros name' ch' Hc'. apply lookup_delete_Some in Hc' as [Hne Hc']. apply Hreg.
    split; [by apply Hsubs|]. intros ->.
    destruct (Hsubs _ _ Hc) as (ss1 & Hs1 & Hin1), (Hsubs _ _ Hc') as (ss2 & Hs2 & Hin2).
    by destruct Hne; eapply (ps_unique _ Hps).
  - intros name' ch' Hc'. destruct (Ho _ _ Hc') as [Hr Hn]. split.
    + apply Hreg. split; [done|]. intros ->.
      destruct (Hsubs _ _ Hc) as (ss1 & Hs1 & Hin1), Hr as (ss2 & Hs2 & Hin2).
      assert (name = name') as <- by (by eapply (ps_unique _ Hps)). done.
    + intros Hd. by apply lookup_delete_Some in Hd as [_ Hd].
Qed.

Lemma conn_server_range {A} (f : CS → gmap string A) : conn_keeps (server_range f).
Proof.
  intros [sv c] [[] ? ? ?]. unfold wp, server_range. split; cbn; [by split|done..].
Qed.

Lemma conn_handleUnsubscribe args : conn_keeps (handleUnsubscribe args).
Proof.
  unfold handleUnsubscribe. apply conn_bind.
  { destruct args; [|apply conn_ret]. apply conn_bind; [apply conn_server_range|].
    intros entries cs Hcs. exact Hcs. }
  intros channels. apply conn_for_each. intros name [sv c] Hok. apply wp_bind, wp_gets.
  cbn [snd]. apply wp_bind. destruct (c_subs c !! name) as [ch|] eqn:Hc.
  - eapply wp_mono; [|by apply wp_Unsubscribe]. intros u cs'. apply conn_subscription_reply.
  - apply wp_ret. by apply conn_subscription_reply.
Qed.

Lemma conn_forward ch : conn_keeps (forward ch).
Proof.
  intros [sv c] [Hw Hi Hsubs Ho]. unfold forward. apply wp_bind.
  assert (Hrecv : ∃ v p', Receive ch (sv_ps sv) = (Ok v, p') ∧ ps_wf p' ∧ same_regs p' (sv_ps sv)).
  { assert (Hps : ps_wf (sv_ps sv)) by apply (wo_ps _ Hw). unfold Receive.
    destruct (chans (sv_ps sv) !! ch) as [[[|m buf] closed]|] eqn:Hc;
      [by eexists _, _| |by eexists _, _].
    eexists _, _. split; [done|]. split; [|done]. split; cbn [subs chans].
    - apply ps_nonempty, Hps.
    - intros name ss ch' Hs Hin. destruct (ps_open _ Hps _ _ _ Hs Hin) as [b Hb].
      destruct (decide (ch' = ch)) as [->|]; [|exists b; by rewrite lookup_insert_ne].
      rewrite Hb in Hc. injection Hc as -> <-. exists buf. by rewrite lookup_insert_eq.
    - apply ps_unique, Hps.
    - intros ch' x. rewrite lookup_insert_Some. intros [[_ <-]|[_ Hx]].
      + apply (ps_bounded _ Hps) in Hc. cbn in *. lia.
      + by eapply (ps_bounded _ Hps). }
  destruct Hrecv as (v & p' & Hrun & Hwf & Hreg).
  eapply wp_eq; [by apply on_pubsub_run|].
  assert (conn_ok (put_ps p' sv, c)) as Hok'.
  { apply (conn_ok_sv sv); [by split|]. split; [by apply put_ps_world|done]. }
  destruct v; [by apply conn_write|by apply wp_ret].
Qed.

(** A request that may wait. *)
Definition blocking_request (v : Value) : bool :=
  match Arr v with c :: _ => blocking (ToUpper (Str c)) | [] => false end.

Lemma conn_handleValue v cs :
  conn_ok cs → sv_fits (fst cs) → wire v → blocking_request v = false ∨ waits →
  wp stuck (handleValue wakeups v) (λ _, conn_ok) cs.
Proof.
  intros Hok Hfit Hw. unfold handleValue, blocking_request. intros HE.
  destruct (_ || _); [by apply conn_write|].
  destruct (Arr v) as [|cmd args]; [by apply wp_ret|].
  destruct (String.eqb _ "AUTH").
  { apply (conn_bind _ _ (conn_handleAuth args) conn_set_authenticated); done. }
  apply wp_bind, wp_gets. destruct (negb _); [by apply conn_write|].
  destruct (String.eqb _ "SELECT").
  { apply wp_bind, wp_gets, wp_bind.
    eapply wp_mono; [|apply wp_handleSelect; [done|apply co_index, Hok]].
    intros j [sv c] [[] Hj]. apply wp_modify. by split. }
  destruct (String.eqb _ "SUBSCRIBE"); [by apply conn_handleSubscribe|].
  destruct (String.eqb _ "UNSUBSCRIBE"); [by apply conn_handleUnsubscribe|].
  apply wp_bind, wp_gets, wp_bind. destruct cs as [sv c].
  apply wp_zoom. eapply (wp_imp (λ _, waits)); [done| |apply wp_processCommand; [apply Hok|done|apply Hok|done|exact HE]].
  intros r sv' Hs. apply conn_write. by eapply conn_ok_sv.
Qed.
End connection.

(** ** The whole system *)

(** The registrations of the connections other than [id]. *)
Definition others_of (conns : gmap nat Conn) (id : nat) (name : string) (ch : nat) : Prop :=
  ∃ j c, j ≠ id ∧ conns !! j = Some c ∧ c_subs c !! name = Some ch.

Record sys_ok (x : System) : Prop := {
  so_world : world_ok (sv_world (sys_sv x));
  so_conns id c : sys_conns x !! id = Some c →
    conn_ok (others_of (sys_conns x) id) (sys_sv x, c);
}.

Section system_inv.
Context `{GoEnvLaws}.
Context (wakeups : nat).

Lemma conn_ok_new sv conns id :
  sys_ok (mkSystem sv conns) → conns !! id = None →
  conn_ok (others_of conns id) (sv, NewConn (sv_requirePass sv)).
Proof.
  intros [Hw Hc] Hid. split; cbn; [done|unfold NumDatabases; lia| |].
  - intros name ch. by rewrite lookup_empty.
  - intros name ch (j & c & Hj & Hlook & Hsub). split; [|by rewrite lookup_empty].
    by apply (co_subs _ _ (Hc j c Hlook)).
Qed.

(** Put back the connection [id] after it has handled something. *)
Lemma sys_ok_update sv sv' conns id c :
  conn_ok (others_of conns id) (sv', c) →
  sys_ok (mkSystem sv conns) → sys_ok (mkSystem sv' (<[id := c]> conns)).
Proof.
  intros Hc [Hw Hcs]. split; [apply Hc|]. cbn [sys_conns sys_sv].
  intros j cj Hj. apply lookup_insert_Some in Hj as [[<- <-]|[Hne Hj]].
  - destruct Hc as [H1 H2 H3 H4]. split; [done..|].
    intros name ch (k & ck & Hk & Hlook & Hsub). apply H4. exists k, ck.
    by rewrite lookup_insert_ne in Hlook.
  - destruct (Hcs j cj Hj) as [H1 H2 H3 H4]. cbn in *. split; cbn; [apply Hc|done| |].
    + intros name ch Hsub. apply (co_others _ _ Hc). by exists j, cj.
    + intros name ch (k & ck & Hk & Hlook & Hsub).
      apply lookup_insert_Some in Hlook as [[<- <-]|[Hnk Hlook]].
      * split; [by apply (co_subs _ _ Hc)|]. intros Hsub'.
        destruct (co_others _ _ Hc name ch) as [_ Hno]; [by exists j, cj|done].
      * split; [apply (co_others _ _ Hc); by exists k, ck|]. apply H4. by exists k, ck.
Qed.

(** The deferred cleanup drops exactly this connection's registrations. *)
Lemma disconnect_loop (others : string → nat → Prop) l : ∀ sv c,
  world_ok (sv_world sv) → NoDup l.*1 →
  Forall (λ '(name, ch), registered (sv_ps sv) name ch) l →
  (∀ name ch, others name ch → registered (sv_ps sv) name ch ∧ (name, ch) ∉ l) →
  ∃ sv', for_each (λ '(name, ch), on_server (on_pubsub (Unsubscribe name ch))) l (sv, c) =
      (Ok (), (sv', c)) ∧ world_ok (sv_world sv') ∧
    (∀ name ch, others name ch → registered (sv_ps sv') name ch) ∧
    ∀ name ch, registered (sv_ps sv') name ch → registered (sv_ps sv) name ch ∧ (name, ch) ∉ l.
Proof.
  induction l as [|[name ch] l IH]; intros sv c Hw Hnd Hl Ho.
  { exists sv. split_and!; [done|done|intros name ch Hoth; by apply Ho|].
    intros name ch Hr. split; [done|apply not_elem_of_nil]. }
  cbn in Hnd. apply list.NoDup_cons in Hnd as [Hname Hnd].
  apply list.Forall_cons in Hl as [Hreg Hl].
  assert (Hps : ps_wf (sv_ps sv)) by apply (wo_ps _ Hw).
  destruct (Unsubscribe_run (sv_ps sv) name ch Hps Hreg) as (p' & Hrun & Hwf & Hregs & _).
  assert (Hkeep : ∀ name' ch', registered (sv_ps sv) name' ch' → name' ≠ name →
            registered p' name' ch').
  { intros name' ch' Hr Hne. apply Hregs. split; [done|]. intros ->.
    destruct Hr as (s1 & Hs1 & Hi1), Hreg as (s2 & Hs2 & Hi2).
    by destruct Hne; eapply (ps_unique _ Hps). }
  destruct (IH (put_ps p' sv) c) as (sv' & Hrest & Hw' & Ho' & Hgone).
  - by apply put_ps_world.
  - done.
  - rewrite list.Forall_forall in *. intros [name' ch'] Hin. apply Hkeep; [by apply (Hl _ Hin)|].
    intros ->. apply Hname. by apply (list_elem_of_fmap_2' fst _ (name, ch')).
  - intros name' ch' Hoth. destruct (Ho _ _ Hoth) as [Hr Hni]. split; [|set_solver].
    apply Hregs. split; [done|]. intros ->.
    destruct Hr as (s1 & Hs1 & Hi1), Hreg as (s2 & Hs2 & Hi2).
    assert (name' = name) as -> by (by eapply (ps_unique _ Hps)).
    apply Hni. left.
  - exists sv'. split_and!; [|done|done|].
    + cbn [for_each]. by rewrite (bind_ok _ _ _ _ _ (on_pubsub_run _ sv c _ _ Hrun)).
    + intros name' ch' (Hr & Hni)%Hgone. apply Hregs in Hr as [Hr Hne]. split; [done|].
      apply not_elem_of_cons. split; [by intros [= -> ->]|done].
Qed.

Lemma disconnect_run others sv c :
  conn_ok others (sv, c) →
  ∃ sv', disconnect (sv, c) = (Ok (), (sv', c)) ∧ world_ok (sv_world sv') ∧
    (∀ name ch, others name ch → registered (sv_ps sv') name ch) ∧
    ∀ name ch, c_subs c !! name = Some ch → ¬ registered (sv_ps sv') name ch.
Proof.
  intros [Hw Hi Hsubs Ho]. unfold disconnect, server_range. cbn in *.
  set (l := map_range (w_tick (sv_world sv)) (c_subs c)).
  set (sv1 := mkServer (mkWorld (S (w_tick (sv_world sv))) (w_mdb (sv_world sv)))
                (sv_aof sv) (sv_rdb sv) (sv_files sv) (sv_requirePass sv)).
  rewrite (bind_ok _ _ _ l (sv1, c)) by done.
  destruct (disconnect_loop others l sv1 c) as (sv' & Hrun & Hw' & Hoth & Hgone).
  5:{ exists sv'. split_and!; [done..|]. intros name ch Hc [_ Hni]%Hgone. apply Hni. by apply map_range_elem. }
  - destruct Hw. by split.
  - apply map_range_NoDup.
  - rewrite list.Forall_forall. intros [name ch] Hin. apply map_range_elem in Hin.
    by apply Hsubs.
  - intros name ch Hoth. destruct (Ho _ _ Hoth) as [Hr Hn]. split; [done|].
    intros Hin. by apply map_range_elem in Hin.
Qed.

Lemma sys_ok_delete sv sv' conns id c :
  sys_ok (mkSystem sv conns) → conns !! id = Some c → world_ok (sv_world sv') →
  (∀ name ch, others_of conns id name ch → registered (sv_ps sv') name ch) →
  sys_ok (mkSystem sv' (delete id conns)).
Proof.
  intros [Hw Hcs] Hid Hw' Ho. split; [done|]. cbn [sys_conns sys_sv].
  intros j cj [Hne Hj]%lookup_delete_Some. destruct (Hcs j cj Hj) as [H1 H2 H3 H4].
  cbn in *. split; cbn; [done..| |].
  - intros name ch Hsub. apply Ho. by exists j, cj.
  - intros name ch (k & ck & Hk & [Hnk Hlook]%lookup_delete_Some & Hsub). split.
    + apply Ho. by exists k, ck.
    + apply H4. by exists k, ck.
Qed.

(** The sweep of all the databases. *)
Lemma wp_SweepAll w :
  world_ok w →
  wp (λ _, False) SweepAll (λ _ w', world_ok w' ∧ same_regs (world_ps w') (world_ps w)) w.
Proof.
  intros Hok. apply (wp_for_each _ _
    (λ w', world_ok w' ∧ same_regs (world_ps w') (world_ps w))); [|done].
  intros i w' Hi [Hok' Hreg].
  eapply wp_mono; [|apply wp_with_DB; [done| |]].
  - intros u w2 [Hok2 Hreg2]. split; [done|]. by etrans.
  - apply elem_of_seq in Hi. lia.
  - intros d Hd. apply (keeps_SweepExpired (world_ps w')). by eapply with_DB_Inv.
Qed.

Lemma sys_ok_step allowed x y : sys_ok x → sys_step wakeups allowed x y → sys_ok y.
Proof.
  intros Hx Hstep. destruct Hstep as
    [sv conns id Hid|sv conns id c input v rest sv' c' Hid Hparse Hall Hfit Hrun
    |sv conns id c name ch sv' c' Hid Hsub Hrun|sv conns id c sv' c' Hid Hrun|sv conns sv' Hrun].
  - eapply sys_ok_update; [by apply conn_ok_new|done].
  - pose proof (so_conns _ Hx id c Hid) as Hc. cbn in Hc.
    assert (Hwire : wire v) by (by eapply Parse_wire).
    pose proof (conn_handleValue wakeups _ True v (sv, c) Hc Hfit Hwire (or_intror I)) as Hwp.
    unfold wp in Hwp. rewrite Hrun in Hwp. by eapply sys_ok_update.
  - pose proof (so_conns _ Hx id c Hid) as Hc. cbn in Hc.
    pose proof (conn_forward _ True ch (sv, c) Hc) as Hwp.
    unfold wp in Hwp. rewrite Hrun in Hwp. by eapply sys_ok_update.
  - pose proof (so_conns _ Hx id c Hid) as Hc. cbn in Hc.
    destruct (disconnect_run _ sv c Hc) as (sv2 & Hrun2 & Hw & Ho & _).
    rewrite Hrun2 in Hrun. injection Hrun as <- <-. by eapply sys_ok_delete.
  - pose proof (wp_SweepAll (sv_world sv) (so_world _ Hx)) as Hwp. revert Hrun.
    unfold wp, on_world, zoom in *. destruct (SweepAll (sv_world sv)) as [[u| | |] w]; try done.
    intros [= _ <-]. destruct Hwp as [Hw Hreg]. split; [done|]. cbn [sys_conns sys_sv].
    intros id c Hid. apply (conn_ok_sv _ sv); [by apply (so_conns _ Hx id c)|]. by split.
Qed.

Lemma sys_ok_fresh n aof rdb files pass :
  sys_ok (mkSystem (fresh_server n aof rdb files pass) ∅).
Proof.
  split; [|intros id c; cbn; by rewrite lookup_empty]. split; cbn.
  - done.
  - repeat (constructor; [apply newDatabase_wf|]). constructor.
  - apply New_wf.
Qed.

Lemma reachable_ok allowed n aof rdb files pass x :
  reachable wakeups allowed (fresh_server n aof rdb files pass) x → sys_ok x.
Proof. induction 1; [apply sys_ok_fresh|by eapply sys_ok_step]. Qed.
End system_inv.
