(* ===== verification/Durability.v ===== *)
(** * Durability: what the append-only file of a running server restores *)
From S2P Require Import Prelude Go Strconv Resp DataStruct PubSub PubSubFacts.
From S2P Require Import Database DbFacts Handler Invariant Rdb RdbFacts Aof AofFacts Server.
From S2P Require Import Recovery System.
From Stdlib Require Import Ascii.

(** A database and its copy: the same data, and no deadlines. *)
Definition dsim (d d' : Database) : Prop := same_data d d' ∧ Expires d = ∅.

Definition dbs_of (sv : Server) : list Database := DBs (w_mdb (sv_world sv)).

Lemma dsim_new : dsim newDatabase newDatabase.
Proof. by split. Qed.

(** ** One database of the world *)
Section with_DB.
Context `{GoEnvLaws}.

Lemma with_DB_inv {A} i (m : M Sess A) w a w' :
  with_DB i m w = (Ok a, w') →
  0 ≤ i ∧ ∃ d s, DBs (w_mdb w) !! Z.to_nat i = Some d ∧
    m (mkSess (w_tick w) d (mdb_PubSub (w_mdb w))) = (Ok a, s) ∧
    w' = mkWorld (s_tick s) (mkMultiDB (<[Z.to_nat i := s_db s]> (DBs (w_mdb w))) (s_ps s)).
Proof.
  unfold with_DB. destruct (Z.ltb_spec i 0); [done|].
  destruct (DBs (w_mdb w) !! Z.to_nat i) as [d|]; [|done].
  destruct (m _) as [r s] eqn:Hm. intros [= -> <-]. split; [done|]. by exists d, s.
Qed.

Lemma Forall2_dsim_update l l' i d d' :
  Forall2 dsim l l' → l' !! i = Some d' → dsim d d' → Forall2 dsim (<[i := d]> l) l'.
Proof.
  intros HF Hi Hd. rewrite <-(list_insert_id l' i d' Hi). by apply Forall2_insert.
Qed.

Lemma with_DB_quiet {A} i (m : M Sess A) w a w' dbs :
  quiet m → with_DB i m w = (Ok a, w') → Forall2 dsim (DBs (w_mdb w)) dbs →
  Forall2 dsim (DBs (w_mdb w')) dbs.
Proof.
  intros Hm (Hi & d & s & Hd & Hrun & ->)%with_DB_inv HF. cbn.
  destruct (Forall2_lookup_l _ _ _ _ _ HF Hd) as (d' & Hd' & Hsim).
  apply (Forall2_dsim_update _ _ _ _ d'); [done..|].
  exact (Hm (mkSess (w_tick w) d (mdb_PubSub (w_mdb w))) (mkSess 0 d' New) _ _ Hsim Hrun).
Qed.

(** A handler on one side, its replay on the other. *)
Lemma with_DB_replays i (h : M Sess Value) (r : M Sess ()) w v w' w2 :
  replays h r → is_error v = false →
  with_DB i h w = (Ok v, w') → Forall2 dsim (DBs (w_mdb w)) (DBs (w_mdb w2)) →
  ∃ w2', with_DB i r w2 = (Ok (), w2') ∧ Forall2 dsim (DBs (w_mdb w')) (DBs (w_mdb w2')).
Proof.
  intros Hh He (Hi & d & s & Hd & Hrun & ->)%with_DB_inv HF. cbn.
  destruct (Forall2_lookup_l _ _ _ _ _ HF Hd) as (d' & Hd' & Hsim).
  pose proof (Hh (mkSess (w_tick w) d (mdb_PubSub (w_mdb w)))
    (mkSess (w_tick w2) d' (mdb_PubSub (w_mdb w2))) _ _ Hsim Hrun) as Hr.
  unfold redone in Hr. rewrite He in Hr. destruct Hr as (t' & Ht & Hs).
  eexists. split; [by apply (with_DB_run i r w2 d')|]. cbn. by apply Forall2_insert.
Qed.

Lemma with_DB_replays_error i (h : M Sess Value) (r : M Sess ()) w v w' dbs :
  replays h r → is_error v = true →
  with_DB i h w = (Ok v, w') → Forall2 dsim (DBs (w_mdb w)) dbs →
  Forall2 dsim (DBs (w_mdb w')) dbs.
Proof.
  intros Hh He (Hi & d & s & Hd & Hrun & ->)%with_DB_inv HF. cbn.
  destruct (Forall2_lookup_l _ _ _ _ _ HF Hd) as (d' & Hd' & Hsim).
  apply (Forall2_dsim_update _ _ _ _ d'); [done..|].
  pose proof (Hh (mkSess (w_tick w) d (mdb_PubSub (w_mdb w))) (mkSess 0 d' New) _ _ Hsim Hrun) as Hr. unfold redone in Hr.
  by rewrite He in Hr.
Qed.
End with_DB.

(** ** The invariant of a server that logs *)
Section durable.
Context `{GoEnvLaws} `{!LogWritten E}.
Context (wakeups : nat).

(** The callback of the replay at startup. *)
Definition replay_fn (dbIndex : Z) (value : Value) : M World () :=
  with_DB dbIndex (replayCommand value).

(** The log is made of complete entries; replaying them over empty databases
    rebuilds the databases, and ends on the database of the last entry. *)
Definition durable (sv : Server) : Prop :=
  ∃ a es, sv_aof sv = Some a ∧ aof_file a = encodes es ∧ Forall wire es ∧
    ∀ n, ∃ cur w, replay_all replay_fn 0 es (mkWorld n NewMultiDB) = (Ok cur, w) ∧
      Forall2 dsim (dbs_of sv) (DBs (w_mdb w)) ∧ (lastDB a = cur ∨ lastDB a = -1).

(** A step that touches neither the log nor the data. *)
Lemma durable_same sv sv' :
  sv_aof sv' = sv_aof sv → dbs_of sv' = dbs_of sv → durable sv → durable sv'.
Proof. unfold durable. by intros -> ->. Qed.

(** A step that only moves what the data does not show. *)
Lemma durable_data sv sv' :
  sv_aof sv' = sv_aof sv →
  (∀ dbs, Forall2 dsim (dbs_of sv) dbs → Forall2 dsim (dbs_of sv') dbs) →
  durable sv → durable sv'.
Proof.
  intros Ha Hd (a & es & Haof & Hf & Hw & Hr). exists a, es.
  rewrite Ha. split_and!; [done..|]. intros n.
  destruct (Hr n) as (cur & w & Hrun & HF & Hl). exists cur, w. auto.
Qed.

(** A logged command: its entries are appended and their replay follows. *)
Lemma durable_append sv sv' a i v :
  durable sv → sv_aof sv = Some a → 0 ≤ i < Z.of_nat NumDatabases → wire v →
  isSelectEntry v = false →
  sv_aof sv' = Some (with_entries i v a) →
  (∀ w, Forall2 dsim (dbs_of sv) (DBs (w_mdb w)) →
     ∃ w', replay_fn i v w = (Ok (), w') ∧ Forall2 dsim (dbs_of sv') (DBs (w_mdb w'))) →
  durable sv'.
Proof.
  intros (a' & es & Haof & Hf & Hw & Hr) Ha Hi Hwv Hsel Haof' Hstep.
  rewrite Haof in Ha. injection Ha as ->.
  assert (Hint : in_int i) by (unfold NumDatabases in Hi; int_lia).
  exists (with_entries i v a),
    (es ++ new_entries (lastDB a) i v).
  split; [done|]. split; [cbn; by rewrite concat_map_app, Hf|]. split.
  { apply Forall_app. split; [done|]. unfold new_entries.
    case_decide; [by apply Forall_singleton|].
    apply list.Forall_cons_2; [by apply selectEntry_wire|by apply Forall_singleton]. }
  intros n. destruct (Hr n) as (cur & w & Hrun & HF & Hl).
  destruct (Hstep w HF) as (w' & Hw' & HF'). exists i, w'. split; [|by split; [|left]].
  rewrite replay_all_app, (bind_ok _ _ _ _ _ Hrun).
  assert (Hentry : ∀ cur, cur = i → replay_entry replay_fn cur v w = (Ok i, w')).
  { intros ? ->. unfold replay_entry. rewrite Hsel. by rewrite (bind_ok _ _ _ _ _ Hw'). }
  unfold new_entries, replay_all. destruct (decide (i = lastDB a)) as [Heq|Hne]; cbn [for_fold].
  - rewrite (bind_ok _ _ _ _ _ (Hentry cur ltac:(unfold NumDatabases in Hi; lia))). done.
  - rewrite (bind_ok _ _ _ _ _ (replay_entry_select replay_fn cur i w Hint)).
    by rewrite (bind_ok _ _ _ _ _ (Hentry i eq_refl)).
Qed.

Lemma rdb_handler_same c (h : list Value → M Server Value) args sv v sv' :
  table_get c RDBCommandHandlers = Some h → h args sv = (Ok v, sv') →
  sv_aof sv' = sv_aof sv ∧ dbs_of sv' = dbs_of sv.
Proof.
  intros Hh Hrun. apply table_get_In in Hh. unfold RDBCommandHandlers in Hh.
  assert (Hsave : ∀ r dbs x sv1, on_rdb r (Save dbs) sv = (x, sv1) →
            sv_aof sv1 = sv_aof sv ∧ dbs_of sv1 = dbs_of sv).
  { intros r dbs x sv1. unfold on_rdb. destruct (Save _ _). by intros [= _ <-]. }
  rewrite !elem_of_cons in Hh.
  destruct Hh as [[= _ ->]|[[= _ ->]|[[= _ ->]|Hn]]]; [..|by apply elem_of_nil in Hn];
    revert Hrun; [unfold save|unfold bgsave|unfold lastsave]; rewrite gets_bind;
    destruct (sv_rdb sv) as [r|]; try (by intros [= _ <-]); rewrite ?gets_bind.
  - intros (e & sv1 & H1 & H2)%bind_ok_inv. apply Hsave in H1.
    destruct e; by injection H2 as _ <-.
  - intros (e & sv1 & H1 & H2)%bind_ok_inv. apply Hsave in H1. by injection H2 as _ <-.
Qed.

(** *** [processCommand] *)
Lemma durable_processCommand c0 args i sv v sv' :
  durable sv → 0 ≤ i < Z.of_nat NumDatabases → wire (vArray (c0 :: args)) →
  ToUpper (Str c0) ∉ unrecoverable →
  processCommand wakeups (ToUpper (Str c0)) args (vArray (c0 :: args)) i sv = (Ok v, sv') →
  durable sv'.
Proof.
  intros Hdur Hi Hwire Hc. unfold processCommand. set (c := ToUpper (Str c0)) in *.
  destruct (table_get c RDBCommandHandlers) as [h|] eqn:Hr.
  { intros Hrun. destruct (rdb_handler_same _ _ _ _ _ _ Hr Hrun). by apply (durable_same sv). }
  destruct (handler_of wakeups c) as [h|] eqn:Hh; [|by intros [= _ <-]].
  pose proof (handler_of_logged wakeups c h Hh Hc args) as Hlog.
  intros (r & sv1 & Hrun & Hk)%bind_ok_inv.
  unfold on_world, zoom in Hrun.
  destruct (with_DB i (h args) (sv_world sv)) as [r' w1] eqn:Hdb. injection Hrun as -> <-.
  change (VType r =? SimpleError)%char with (is_error r) in Hk.
  destruct (shouldPersist c) eqn:Hp.
  - destruct (is_error r) eqn:He; cbn [negb andb] in Hk.
    + injection Hk as _ <-. apply (durable_data sv); [done| |done].
      intros dbs. by apply (with_DB_replays_error i (h args) _ _ _ _ _ Hlog He Hdb).
    + destruct Hdur as (a & es & Ha & Hdur). pose proof (conj Ha Hdur) as Hdur'.
      apply bind_ok_inv in Hk as ([] & sv2 & Hl & Hk).
      unfold log_to_aof in Hl. cbn [sv_aof] in Hl. rewrite Ha in Hl.
      rewrite AofWrite_run in Hl by (done || (unfold NumDatabases in Hi; int_lia)).
      injection Hl as <-. apply bind_ok_inv in Hk as ([] & sv3 & Hcc & Hk).
      injection Hk as _ <-. injection Hcc as <-.
      eapply (durable_append sv _ a i (vArray (c0 :: args)));
        [by exists a, es|done|done|done| |done|].
      * apply isSelectEntry_command. fold c. intros Hsel. rewrite Hsel in Hp. discriminate Hp.
      * intros w HF. unfold replay_fn, replayCommand. cbn [VType vArray Arr].
        change (negb (Array =? Array)%char) with false. cbv iota. fold c.
        by apply (with_DB_replays i (h args) _ _ _ _ w Hlog He Hdb).
  - rewrite andb_false_r in Hk. injection Hk as _ <-. apply (durable_data sv); [done| |done].
    intros dbs. exact (with_DB_quiet i (h args) _ _ _ dbs Hlog Hdb).
Qed.
End durable.

(** ** The other operations of a connection *)
Section inert.
Context `{GoEnvLaws}.

(** Neither the log nor a database changes. *)
Definition inert {A} (m : M CS A) : Prop :=
  ∀ cs r cs', m cs = (r, cs') →
    sv_aof (fst cs') = sv_aof (fst cs) ∧ dbs_of (fst cs') = dbs_of (fst cs).

Lemma inert_ret {A} (a : A) : inert (mret a).
Proof. by intros cs r cs' [= _ <-]. Qed.
Lemma inert_gets {A} (f : CS → A) : inert (gets f).
Proof. by intros cs r cs' [= _ <-]. Qed.
Lemma inert_bind {A B} (m : M CS A) (f : A → M CS B) :
  inert m → (∀ a, inert (f a)) → inert (m ≫= f).
Proof.
  intros Hm Hf cs r cs' Hrun. rewrite bind_eq in Hrun.
  destruct (m cs) as [[a|e|p|] cs1] eqn:H1; destruct (Hm _ _ _ H1) as [Ha Hd];
    [|by injection Hrun as _ <-..].
  destruct (Hf a _ _ _ Hrun) as [Ha' Hd']. by rewrite Ha', Hd'.
Qed.
Lemma inert_for_each {X} (body : X → M CS ()) l : (∀ x, inert (body x)) → inert (for_each body l).
Proof. intros Hb. induction l; [apply inert_ret|by apply inert_bind]. Qed.
Lemma inert_set_conn f : inert (set_conn f).
Proof. by intros [sv c] r cs' [= _ <-]. Qed.
Lemma inert_pubsub {A} (m : M PubSub A) : inert (on_server (on_pubsub m)).
Proof.
  intros [sv c] r cs'. unfold on_server, on_pubsub, on_world, zoom. cbn.
  destruct (m _). by intros [= _ <-].
Qed.
Lemma inert_range {A} (f : CS → gmap string A) : inert (server_range f).
Proof. intros [sv c] r cs'. by intros [= _ <-]. Qed.
End inert.

#[export] Hint Resolve inert_ret inert_gets inert_set_conn inert_pubsub inert_range : shore.

Ltac inert :=
  intros;
  repeat first
    [ progress intros
    | solve [eauto with shore]
    | apply inert_set_conn
    | apply inert_bind
    | apply inert_for_each
    | case_match ].

Section conn.
Context `{GoEnvLaws} `{!LogWritten E}.
Context (wakeups : nat).

Lemma inert_handleAuth args : inert (handleAuth args).
Proof. unfold handleAuth. inert. Qed.
Lemma inert_handleSelect args i : inert (handleSelect args i).
Proof. unfold handleSelect, write. inert. Qed.
Lemma inert_reply kind name : inert (subscription_reply kind name).
Proof. unfold subscription_reply. inert. Qed.
Hint Resolve inert_reply : shore.
Lemma inert_handleSubscribe args : inert (handleSubscribe args).
Proof. unfold handleSubscribe. inert. Qed.
Lemma inert_handleUnsubscribe args : inert (handleUnsubscribe args).
Proof. unfold handleUnsubscribe. inert. Qed.
Lemma inert_forward ch : inert (forward ch).
Proof. unfold forward. inert. Qed.
Lemma inert_disconnect : inert disconnect.
Proof. unfold disconnect. inert. Qed.

(** Requests whose effect the log carries. *)
Definition recoverable (v : Value) : Prop :=
  match Arr v with c :: _ => ToUpper (Str c) ∉ unrecoverable | [] => True end.

Lemma durable_inert {A} (m : M CS A) cs r cs' :
  inert m → m cs = (r, cs') → durable (fst cs) → durable (fst cs').
Proof. intros Hm Hrun. destruct (Hm _ _ _ Hrun). by apply durable_same. Qed.

Lemma durable_handleValue v sv c sv' c' :
  durable sv → 0 ≤ dbIndex c < Z.of_nat NumDatabases → wire v → recoverable v →
  handleValue wakeups v (sv, c) = (Ok (), (sv', c')) → durable sv'.
Proof.
  intros Hdur Hi Hw Hrec. unfold handleValue.
  assert (Hinert : ∀ {A} (m : M CS A) r, inert m → m (sv, c) = (r, (sv', c')) → durable sv').
  { intros A m r Hm Hrun. apply (durable_inert m (sv, c) r (sv', c')); done. }
  destruct (negb (VType v =? Array)%char) eqn:Hty; cbn [orb].
  { apply Hinert, inert_set_conn. }
  apply negb_false_iff, Ascii.eqb_eq in Hty.
  destruct (length (Arr v) =? 0)%nat; [apply Hinert, inert_set_conn|].
  assert (Hv : v = vArray (Arr v)).
  { inversion Hw; subst; cbn in Hty; done. }
  destruct (Arr v) as [|c0 args] eqn:Harr; [by intros [= <- _]|].
  unfold recoverable in Hrec. rewrite Harr in Hrec.
  destruct (String.eqb _ "AUTH").
  { apply Hinert, inert_bind; [apply inert_handleAuth|intros; apply inert_set_conn]. }
  rewrite gets_bind. destruct (negb _); [apply Hinert, inert_set_conn|].
  destruct (String.eqb _ "SELECT").
  { apply Hinert. apply inert_bind; [apply inert_gets|]. intros i.
    apply inert_bind; [apply inert_handleSelect|intros; apply inert_set_conn]. }
  destruct (String.eqb _ "SUBSCRIBE"); [apply Hinert, inert_handleSubscribe|].
  destruct (String.eqb _ "UNSUBSCRIBE"); [apply Hinert, inert_handleUnsubscribe|].
  rewrite gets_bind. intros (r & [sv1 c1] & Hrun & Hwr)%bind_ok_inv.
  injection Hwr as <- _. unfold on_server, zoom in Hrun. cbn in Hrun.
  destruct (processCommand _ _ _ _ _ sv) as [r' sv2] eqn:Hp. injection Hrun as -> <- _.
  rewrite Hv in Hp, Hw. by eapply durable_processCommand.
Qed.

Lemma durable_sweep sv sv' :
  on_world SweepAll sv = (Ok (), sv') → durable sv → durable sv'.
Proof.
  unfold on_world, zoom. destruct (SweepAll (sv_world sv)) as [r w] eqn:Hs.
  intros [= -> <-]. apply durable_data; [done|]. intros dbs. cbn.
  unfold dbs_of. cbn [sv_world]. revert Hs. generalize (sv_world sv) as w0. unfold SweepAll.
  induction (seq 0 NumDatabases) as [|i l IH]; intros w0; [by intros [= <-]|].
  cbn [for_each]. intros (u & w1 & H1 & H2)%bind_ok_inv HF.
  apply (IH w1 H2). by apply (with_DB_quiet _ _ _ _ _ _ quiet_SweepExpired H1).
Qed.

Lemma durable_step x y :
  sys_ok x → durable (sys_sv x) → sys_step wakeups recoverable x y → durable (sys_sv y).
Proof.
  intros Hx Hdur Hstep. destruct Hstep as
    [sv conns id Hid|sv conns id c input v rest sv' c' Hid Hparse Hall Hfit Hrun
    |sv conns id c name ch sv' c' Hid Hsub Hrun|sv conns id c sv' c' Hid Hrun|sv conns sv' Hrun];
    cbn in *.
  - done.
  - eapply durable_handleValue; [done| | |done|done].
    + apply (co_index _ _ (so_conns _ Hx id c Hid)).
    + by eapply Parse_wire.
  - apply (durable_inert _ (sv, c) _ (sv', c') (inert_forward ch) Hrun Hdur).
  - apply (durable_inert _ (sv, c) _ (sv', c') inert_disconnect Hrun Hdur).
  - by eapply durable_sweep.
Qed.

Lemma durable_fresh n k rdb files pass :
  durable (fresh_server n (Some (NewAof k "")) rdb files pass).
Proof.
  exists (NewAof k ""), []. split_and!; [done..|]. intros n'.
  exists 0, (mkWorld n' NewMultiDB). split; [done|]. split; [|by right].
  unfold dbs_of. cbn. repeat constructor; apply dsim_new.
Qed.

Lemma reachable_durable n k rdb files pass x :
  reachable wakeups recoverable (fresh_server n (Some (NewAof k "")) rdb files pass) x →
  durable (sys_sv x).
Proof.
  intros Hr. induction Hr as [|x y Hr IH Hstep]; [apply durable_fresh|].
  eapply durable_step; [by eapply reachable_ok|done|done].
Qed.
End conn.
