(* ===== verification/Replay.v ===== *)
(** * Replay: reading a log back never fails

    Whatever commands the entries of a log hold, and with whatever arguments,
    their replay returns and keeps the data well-formed: [total_replay]. So a log
    of complete entries replays to its end ([replay_all_total]). *)
From S2P Require Import Prelude Go Strconv Resp DataStruct PubSub PubSubFacts.
From S2P Require Import Database DbFacts StringCmds ListCmds SetCmds HashCmds ExpireCmds Handler.
From S2P Require Import CmdFacts Invariant Rdb Aof AofFacts Server Recovery System Durability.
From Stdlib Require Import Ascii.
Import ListFacts SetFacts HashFacts.

Lemma parseInt_in_int s n : Server.parseInt s = inl n → in_int n.
Proof.
  assert (Hloop : ∀ t a r, in_int a → DataStruct.parseInt_loop t a = Some r → in_int r).
  { induction t as [|c t IH]; intros a r Ha; cbn; [by intros [= <-]|].
    case_match; [done|]. apply IH, wrap64_in_int. }
  destruct s as [|c s]; [intros [= <-]; int_lia|]. cbn.
  destruct (parseInt_loop _ 0) as [r|] eqn:Hr; [|done]. apply Hloop in Hr; [|int_lia].
  intros [= <-]. destruct (_ =? _)%char; [apply wrap64_in_int|done].
Qed.

Lemma LSet_total index v l : ∃ b l', ListDS.LSet index v l = (Ok b, l') ∧ length l' = length l.
Proof.
  unfold ListDS.LSet. run. cbn [id]. case_match; [by eexists _, _|]. run.
  eexists _, _. split; [done|]. apply length_insert.
Qed.

Section total.
Context `{GoEnvLaws} (p0 : PubSub).
Abbreviation nothing := (λ _ : Sess, False).
Abbreviation total := (keeps p0 nothing).

(** A method that ends without a result where the handler ends with its reply. *)
Ltac step_match :=
  match goal with
  | |- context [match ?x with _ => _ end] =>
      lazymatch x with context [match _ with _ => _ end] => fail | _ => destruct x end
  end.
Ltac as_handler Hh :=
  let s := fresh "s" in let HI := fresh "HI" in
  intros s HI; generalize (Hh s HI);
  cbv [sadd srem spop hset hdel hmset hincrby]; unfold wp;
  repeat first [done|progress (rewrite ?bind_eq, ?ret_run; cbv beta iota)|step_match].

Lemma total_increment key n : total (replayIncrement key n).
Proof. unfold replayIncrement. keeps. Qed.
Hint Resolve total_increment : shore.

Lemma total_mset n : ∀ args, (length args ≤ n)%nat → total (replay_mset args).
Proof.
  induction n as [|n IH]; intros [|k [|v args]] Hn; cbn in Hn; try lia; cbn [replay_mset];
    try apply keeps_ret.
  keeps. apply IH. lia.
Qed.

Lemma total_pop args left : total (replayListPop args left).
Proof.
  induction args as [|a args IH]; [apply keeps_ret|]. intros s HI. unfold wp.
  rewrite replayListPop_cons. pose proof (purged_Inv p0 (Str a) s HI) as HI1.
  destruct (_ ≫= pop_end left) as [[v l']|]; [|by apply (IH _ HI1)].
  apply set_db_Inv; [auto with shore|done].
Qed.
Hint Resolve total_pop : shore.

Lemma total_push (P : list string → M (list string) Z) (m : list string → list string → list string) k vs :
  (∀ l, P vs l = (Ok (zlen (m vs l)), m vs l)) → (∀ l, m vs l ≠ []) →
  total (_ ← GetOrCreateList k; _ ← on_list k (P vs); mret ()).
Proof.
  intros HP Hne s HI. unfold wp. rewrite (push_run m P k vs (λ _, mret ()) s HP).
  cbn. apply set_db_Inv; [|by apply purged_Inv]. intros Hd. by apply insert_Lists_wf.
Qed.

Lemma total_lset k i v :
  total (list ← GetList k;
         match list with
         | None => mret ()
         | Some _ =>
             match Server.parseInt i with
             | inl index => _ ← on_list k (ListDS.LSet index v); mret ()
             | inr _ => mret ()
             end
         end).
Proof.
  intros s HI. apply wp_bind. eapply wp_eq; [apply GetList_run|].
  apply (purged_Inv p0 k) in HI. destruct (Lists _ !! _) as [l|] eqn:Hl; [|by apply wp_ret].
  destruct (Server.parseInt i) as [index|]; [|by apply wp_ret].
  destruct (LSet_total index v l) as (b & l' & Hset & Hlen).
  apply wp_bind. eapply wp_eq; [by eapply (on_list_run _ _ l)|]. apply wp_ret.
  apply set_db_Inv; [|done]. intros Hd. apply insert_Lists_wf; [done|]. intros ->.
  apply (wf_list _ (proj1 HI) k). rewrite Hl. by destruct l.
Qed.

Lemma total_lrem k i v :
  total (list ← GetList k;
         match list with
         | None => mret ()
         | Some _ =>
             match Server.parseInt i with
             | inl count => _ ← on_list k (ListDS.LRem count v); drop_empty_list k
             | inr _ => mret ()
             end
         end).
Proof.
  intros s HI. apply wp_bind. eapply wp_eq; [apply GetList_run|].
  apply (purged_Inv p0 k) in HI. destruct (Lists _ !! _) as [l|] eqn:Hl; [|by apply wp_ret].
  destruct (Server.parseInt i) as [count|] eqn:Hc; [|by apply wp_ret].
  destruct (lrem_run k l count v (λ _, mret ()) _ Hl (parseInt_in_int _ _ Hc)) as (n & l' & _ & _ & Hrun).
  eapply (keeps_eq p0 nothing _ _ () (set_db (put_list k l') (purged k s))).
  - etrans; [|exact Hrun]. rewrite !bind_eq. destruct (on_list _ _ _) as [[]]; try done.
    rewrite bind_eq. by destruct (drop_empty_list _ _) as [[[]| | |] ?].
  - apply set_db_Inv; [auto with shore|done].
Qed.

Lemma total_sadd k m ms :
  total (_ ← GetOrCreateSet (Str k); _ ← on_set (Str k) (still (SetDS.SAdd (map Str (m :: ms)))); mret ()).
Proof. as_handler (keeps_sadd p0 nothing (k :: m :: ms)). Qed.

Lemma total_srem k m ms :
  total (set ← GetSet (Str k);
         match set with
         | None => mret ()
         | Some _ => _ ← on_set (Str k) (still (SetDS.SRem (map Str (m :: ms)))); drop_empty_set (Str k)
         end).
Proof. as_handler (keeps_srem p0 nothing (k :: m :: ms)). Qed.

Lemma total_spop k :
  total (set ← GetSet (Str k);
         match set with
         | None => mret ()
         | Some _ => _ ← on_set (Str k) SetDS.SPop; drop_empty_set (Str k)
         end).
Proof.
  intros s HI. apply wp_bind. eapply wp_eq; [apply GetSet_run|].
  apply (purged_Inv p0 (Str k)) in HI. destruct (Sets _ !! _) as [x|] eqn:Hx; [|by apply wp_ret].
  pose proof (SPop_spec (s_tick (purged (Str k) s)) x) as Hspec.
  destruct (SetDS.SPop (s_tick (purged (Str k) s), x)) as [[pair| | |] [n x']] eqn:Hp; try done.
  apply wp_bind. eapply wp_eq; [by apply (on_set_run (Str k) SetDS.SPop x _ n x')|].
  eapply wp_eq; [apply drop_empty_set_run; apply lookup_insert_eq|]. unfold set_db. cbn.
  rewrite put_set_insert. apply (mkSess_Inv p0 _ _ (purged (Str k) s)); [done|]. apply put_set_wf, HI.
Qed.

Lemma total_hset k f v :
  total (_ ← GetOrCreateHash (Str k); _ ← on_hash (Str k) (still (HashDS.HSet (Str f) (Str v))); mret ()).
Proof. as_handler (keeps_hset p0 nothing [k; f; v]). Qed.

Lemma total_hdel k m ms :
  total (hash ← GetHash (Str k);
         match hash with
         | None => mret ()
         | Some _ => _ ← on_hash (Str k) (still (HashDS.HDel (map Str (m :: ms)))); drop_empty_hash (Str k)
         end).
Proof. as_handler (keeps_hdel p0 nothing (k :: m :: ms)). Qed.

Lemma total_hmset k f v args :
  total (_ ← GetOrCreateHash (Str k); on_hash (Str k) (HashDS.HMSet (collect_pairs (f :: v :: args) ∅))).
Proof.
  intros s HI. apply wp_bind. eapply wp_eq; [apply GetOrCreateHash_run|].
  eapply wp_eq; [apply on_hash_HMSet; cbn; apply lookup_insert_eq|].
  apply (purged_Inv p0 (Str k)) in HI. apply (mkSess_Inv p0 _ _ (purged (Str k) s)); [done|].
  cbn. rewrite set_Hashes_insert. apply insert_Hashes_wf; [apply HI|].
  intros Hu%map_positive_l. revert Hu. by eapply collect_pairs_nonempty; [|apply insert_non_empty].
Qed.

Lemma total_hincrby k f increment :
  total (_ ← GetOrCreateHash k; _ ← on_hash k (still (try (HashDS.HIncrBy f increment))); mret ()).
Proof.
  intros s HI. apply (purged_Inv p0 k) in HI. apply wp_bind. eapply wp_eq; [apply GetOrCreateHash_run|].
  set (x := default ∅ (Hashes (s_db (purged k s)) !! k)).
  assert (Hx : ∃ r x', try (HashDS.HIncrBy f increment) x = (Ok r, x') ∧ x' ≠ ∅).
  { unfold try. destruct (HIncrBy_total f increment x) as [(n & str & ->)|(v & e & Hv & ->)].
    - eexists _, _. split; [done|apply insert_non_empty].
    - eexists _, _. split; [done|]. intros He. by rewrite He, lookup_empty in Hv. }
  destruct Hx as (r & x' & Hr & Hne). apply wp_bind.
  eapply wp_eq; [by eapply (on_hash_still k _ x); [apply lookup_insert_eq|]|]. apply wp_ret.
  unfold set_db. cbn. rewrite set_Hashes_insert. apply (mkSess_Inv p0 _ _ (purged k s)); [done|].
  by apply insert_Hashes_wf; [apply HI|].
Qed.

(** Whatever the entry, its replay returns and keeps the data well-formed. *)
Lemma total_replay value : total (replayCommand value).
Proof.
  unfold replayCommand. destruct (negb _); [apply keeps_ret|].
  destruct (Arr value) as [|c args]; [apply keeps_ret|]. unfold replay_args.
  repeat match goal with |- keeps _ _ (if String.eqb ?x ?y then _ else _) => destruct (String.eqb x y) end.
  - keeps.
  - keeps.
  - keeps. by eapply total_mset.
  - keeps.
  - keeps.
  - keeps.
  - keeps.
  - destruct args as [|k [|v vs]]; [apply keeps_ret..|].
    apply (total_push ListDS.LPush (λ values l, reverse values ++ l)).
    + intros l. rewrite LPush_spec, length_app, length_reverse. do 2 f_equal. lia.
    + intros l. by apply (push_nonempty _ []).
  - destruct args as [|k [|v vs]]; [apply keeps_ret..|].
    apply (total_push ListDS.RPush (λ values l, l ++ values)).
    + intros l. rewrite RPush_spec, length_app. do 2 f_equal. lia.
    + intros l. by apply (push_nonempty []).
  - keeps.
  - keeps.
  - keeps.
  - keeps.
  - destruct args as [|k [|i [|v vs]]]; try apply keeps_ret. apply total_lset.
  - destruct args as [|k [|i [|v vs]]]; try apply keeps_ret. apply total_lrem.
  - destruct args as [|k [|m ms]]; try apply keeps_ret. apply total_sadd.
  - destruct args as [|k [|m ms]]; try apply keeps_ret. apply total_srem.
  - destruct args as [|k ms]; try apply keeps_ret. apply total_spop.
  - destruct args as [|k [|f [|v vs]]]; try apply keeps_ret. apply total_hset.
  - destruct args as [|k [|m ms]]; try apply keeps_ret. apply total_hdel.
  - destruct args as [|k [|f [|v args]]]; try apply keeps_ret; [].
    destruct (_ && _); [apply total_hmset|apply keeps_ret].
  - destruct args as [|k [|f [|i vs]]]; try apply keeps_ret.
    destruct (Server.parseInt _); [apply total_hincrby|apply keeps_ret].
  - apply keeps_ret.
Qed.
End total.

(** ** A log of complete entries *)

Section replay_all.
Context `{GoEnvLaws}.

(** An entry that [processCommand] logs, or the marker of one of the
    databases. *)
Definition entry_ok (v : Value) : Prop :=
  wire v ∧ (isSelectEntry v = true → ∃ i, v = selectEntry i ∧ 0 ≤ i < Z.of_nat NumDatabases).

Lemma entries_wire es : Forall entry_ok es → Forall wire es.
Proof. intros Hes. eapply list.Forall_impl; [exact Hes|]. by intros v []. Qed.

Lemma new_entries_ok last i v :
  0 ≤ i < Z.of_nat NumDatabases → wire v → isSelectEntry v = false →
  Forall entry_ok (new_entries last i v).
Proof.
  intros Hi Hw Hsel. assert (entry_ok v) by (split; [done|by rewrite Hsel]).
  unfold new_entries. destruct (decide _); [by constructor|]. constructor; [|by constructor].
  split; [apply selectEntry_wire; unfold NumDatabases in Hi; int_lia|]. by exists i.
Qed.

Lemma replay_entry_total cur v w :
  entry_ok v → world_ok w → 0 ≤ cur < Z.of_nat NumDatabases →
  ∃ cur' w', replay_entry replay_fn cur v w = (Ok cur', w') ∧ world_ok w' ∧
    0 ≤ cur' < Z.of_nat NumDatabases.
Proof.
  intros [Hw Hsel] Hok Hcur. destruct (isSelectEntry v) eqn:Hs.
  - destruct (Hsel eq_refl) as (i & -> & Hi). exists i, w. split; [|done].
    apply replay_entry_select. unfold NumDatabases in Hi. int_lia.
  - unfold replay_entry. rewrite Hs.
    assert (Hwp : wp (λ _, False) (replay_fn cur v) (λ _ w', world_ok w' ∧ same_regs (world_ps w') (world_ps w)) w).
    { apply wp_with_DB; [done|done|]. intros d Hd. apply total_replay. by eapply with_DB_Inv. }
    apply wp_total in Hwp as ([] & w' & Hrun & Hok' & _). exists cur, w'.
    by rewrite (bind_ok _ _ _ _ _ Hrun).
Qed.

Lemma replay_all_total es : ∀ cur w,
  Forall entry_ok es → world_ok w → 0 ≤ cur < Z.of_nat NumDatabases →
  ∃ cur' w', replay_all replay_fn cur es w = (Ok cur', w') ∧ world_ok w' ∧
    0 ≤ cur' < Z.of_nat NumDatabases.
Proof.
  unfold replay_all. induction es as [|e es IH]; intros cur w Hes Hok Hcur; [by exists cur, w|].
  apply list.Forall_cons in Hes as [He Hes]. cbn [for_fold].
  destruct (replay_entry_total cur e w He Hok Hcur) as (c1 & w1 & H1 & Hok1 & Hc1).
  rewrite (bind_ok _ _ _ _ _ H1). by apply IH.
Qed.

Lemma NewMultiDB_ok n : world_ok (mkWorld n NewMultiDB).
Proof.
  split; cbn; [done| |apply New_wf]. repeat (constructor; [apply newDatabase_wf|]). constructor.
Qed.

(** Started on such a log, and maybe the beginning of one more entry, over empty
    databases. *)
Lemma replay_torn n k es p :
  Forall entry_ok es → (p = "" ∨ ∃ v q, wire v ∧ encode v = p +:+ q ∧ q ≠ "") →
  ∃ cur w, replay_all replay_fn 0 es (mkWorld n NewMultiDB) = (Ok cur, w) ∧ world_ok w ∧
    (replay_aof (NewAof k (encodes es +:+ p)) (mkWorld n NewMultiDB) = (Ok (), w) ∨
     replay_aof (NewAof k (encodes es +:+ p)) (mkWorld n NewMultiDB) = (Err io_ErrUnexpectedEOF, w)).
Proof.
  intros Hes Hp.
  destruct (replay_all_total es 0 _ Hes (NewMultiDB_ok n)) as (cur & w & Hrun & Hok & _);
    [unfold NumDatabases; lia|].
  exists cur, w. split_and!; [done..|].
  pose proof (AofRead_torn replay_fn (NewAof k (encodes es +:+ p)) es p (mkWorld n NewMultiDB)
    eq_refl (entries_wire es Hes) Hp) as Hread. by rewrite Hrun in Hread.
Qed.
End replay_all.
