(* ===== verification/Lifecycle.v ===== *)
(** * Lifecycle: a server through its restarts

    What [Startup] builds from a disk, and the histories of a server that is
    started, runs, is stopped or crashes, and is started again. *)
From S2P Require Import Prelude Go Strconv Resp DataStruct PubSub PubSubFacts.
From S2P Require Import Database DbFacts StringCmds ListCmds SetCmds HashCmds ExpireCmds Handler.
From S2P Require Import Invariant Rdb RdbFacts Aof AofFacts.
From S2P Require Import Server Config Startup Recovery System Durability.
From Stdlib Require Import Ascii.

(** ** Histories *)
Section lives.
Context `{GoEnv}.
Context (wakeups : nat) (config : Config) (allowed : Value → Prop).

(** The state in which a process leaves its server: it is killed, or it shuts
    down first. *)
Definition stopped (sv sv' : Server) : Prop := sv' = sv ∨ ∃ err, Shutdown sv = (Ok err, sv').

(** A first start without a log, any number of steps and timer rounds, and any
    number of restarts on the disk the previous process left. A restart that
    cannot open the log (the operating system's refusal) ends the history. The
    log and the snapshot have files of their own ([apart]). *)
Inductive lives : System → Prop :=
  | lives_first n files sv b :
      apart config → default "" (files !! aofPath config) = "" →
      start config (boot n files) = (Ok sv, b) → is_Some (sv_aof sv) →
      lives (mkSystem sv ∅)
  | lives_step x y : lives x → sys_step wakeups allowed x y → lives y
  | lives_snapshot sv sv' conns :
      lives (mkSystem sv conns) → sv_fits sv → snapshot_tick config sv = (Ok (), sv') →
      lives (mkSystem sv' conns)
  | lives_restart x sv1 n sv b :
      lives x → stopped (sys_sv x) sv1 →
      start config (boot n (disk_of config sv1)) = (Ok sv, b) → is_Some (sv_aof sv) →
      lives (mkSystem sv ∅).
End lives.

(** ** The replay leaves the broker alone *)
Section broker.
Context `{GoEnv}.

Definition broker_kept {A} (m : M Sess A) : Prop := ∀ s r s', m s = (r, s') → s_ps s' = s_ps s.

Lemma broker_ret {A} (a : A) : broker_kept (mret a).
Proof. by intros s r s' [= _ <-]. Qed.
Lemma broker_bind {A B} (m : M Sess A) (f : A → M Sess B) :
  broker_kept m → (∀ a, broker_kept (f a)) → broker_kept (m ≫= f).
Proof.
  intros Hm Hf s r s' Hrun. rewrite bind_eq in Hrun.
  destruct (m s) as [[a|e|p|] s1] eqn:H1; rewrite <-(Hm _ _ _ H1);
    [by eapply Hf|by injection Hrun as _ <-..].
Qed.
Lemma broker_for_each {X} (body : X → M Sess ()) l :
  (∀ x, broker_kept (body x)) → broker_kept (for_each body l).
Proof. intros Hb. induction l; [apply broker_ret|by apply broker_bind]. Qed.
Lemma broker_gets {A} (f : Database → A) : broker_kept (gets_db f).
Proof. by intros s r s' [= _ <-]. Qed.
Lemma broker_modify f : broker_kept (modify_db f).
Proof. by intros s r s' [= _ <-]. Qed.
Lemma broker_ranged {A} (m : M nat A) : broker_kept (ranged m).
Proof. intros s r s'. unfold ranged, zoom. destruct (m _). by intros [= _ <-]. Qed.
Lemma broker_on_list {A} key (m : M (list string) A) : broker_kept (on_list key m).
Proof. intros s r s'. unfold on_list. case_match; [|by intros [= _ <-]]. destruct (m _). by intros [= _ <-]. Qed.
Lemma broker_on_set {A} key (m : M (nat * gmap string ()) A) : broker_kept (on_set key m).
Proof. intros s r s'. unfold on_set. case_match; [|by intros [= _ <-]]. destruct (m _) as [? []]. by intros [= _ <-]. Qed.
Lemma broker_on_hash {A} key (m : M (nat * gmap string string) A) : broker_kept (on_hash key m).
Proof. intros s r s'. unfold on_hash. case_match; [|by intros [= _ <-]]. destruct (m _) as [? []]. by intros [= _ <-]. Qed.
End broker.

#[export] Hint Resolve broker_ret broker_gets broker_modify broker_ranged broker_on_list
  broker_on_set broker_on_hash : shore.

Ltac broker :=
  intros;
  repeat first
    [ progress intros
    | solve [eauto with shore]
    | apply broker_bind
    | apply broker_for_each
    | case_match ].

Section broker_replay.
Context `{GoEnv}.

Lemma broker_expire key : broker_kept (expireIfNeeded key).
Proof. unfold expireIfNeeded, Now. broker. Qed.
Hint Resolve broker_expire : shore.
Lemma broker_GetList key : broker_kept (GetList key). Proof. unfold GetList. broker. Qed.
Lemma broker_GetSet key : broker_kept (GetSet key). Proof. unfold GetSet. broker. Qed.
Lemma broker_GetHash key : broker_kept (GetHash key). Proof. unfold GetHash. broker. Qed.
Lemma broker_MakeList key : broker_kept (GetOrCreateList key). Proof. unfold GetOrCreateList. broker. Qed.
Lemma broker_MakeSet key : broker_kept (GetOrCreateSet key). Proof. unfold GetOrCreateSet. broker. Qed.
Lemma broker_MakeHash key : broker_kept (GetOrCreateHash key). Proof. unfold GetOrCreateHash. broker. Qed.
Lemma broker_DeleteKey key : broker_kept (DeleteKey key). Proof. unfold DeleteKey, delete_from. broker. Qed.
Lemma broker_drop_list key : broker_kept (drop_empty_list key). Proof. unfold drop_empty_list. broker. Qed.
Lemma broker_drop_set key : broker_kept (drop_empty_set key). Proof. unfold drop_empty_set. broker. Qed.
Lemma broker_drop_hash key : broker_kept (drop_empty_hash key). Proof. unfold drop_empty_hash. broker. Qed.
Lemma broker_increment key n : broker_kept (replayIncrement key n).
Proof. unfold replayIncrement. broker. Qed.
Hint Resolve broker_GetList broker_GetSet broker_GetHash broker_MakeList broker_MakeSet
  broker_MakeHash broker_DeleteKey broker_drop_list broker_drop_set broker_drop_hash
  broker_increment : shore.

Lemma broker_pop args left : broker_kept (replayListPop args left).
Proof. induction args; cbn [replayListPop]; broker. Qed.
Lemma broker_mset args : broker_kept (replay_mset args).
Proof.
  revert args. fix IH 1. intros [|k [|v args]]; [apply broker_ret..|].
  cbn [replay_mset]. apply broker_bind; [apply broker_modify|intros _].
  apply broker_bind; [apply broker_modify|intros _]. apply IH.
Qed.
Hint Resolve broker_pop broker_mset : shore.

Lemma broker_replay value : broker_kept (replayCommand value).
Proof. unfold replayCommand, replay_args. broker. Qed.

(** Neither the broker nor the number of databases changes in a replay. *)
Lemma replay_entry_world cur value w cur' w' :
  replay_entry replay_fn cur value w = (Ok cur', w') →
  world_ps w' = world_ps w ∧ length (DBs (w_mdb w')) = length (DBs (w_mdb w)).
Proof.
  unfold replay_entry. destruct (isSelectEntry value).
  { destruct (Arr value !! 1%nat); [|done]. destruct (Atoi _) as [? []]; by intros [= _ <-]. }
  intros ([] & w1 & Hrun & [= _ <-])%bind_ok_inv. unfold replay_fn in Hrun.
  apply with_DB_inv in Hrun as (_ & d & s & _ & Hr & ->). split.
  - apply (broker_replay _ _ _ _ Hr).
  - cbn. by rewrite length_insert.
Qed.

Lemma replay_all_world es : ∀ cur w cur' w',
  replay_all replay_fn cur es w = (Ok cur', w') →
  world_ps w' = world_ps w ∧ length (DBs (w_mdb w')) = length (DBs (w_mdb w)).
Proof.
  unfold replay_all. induction es as [|e es IH]; intros cur w cur' w'; [by intros [= _ <-]|].
  cbn [for_fold]. intros (c1 & w1 & H1 & H2)%bind_ok_inv.
  apply replay_entry_world in H1 as [Hp Hl]. apply IH in H2 as [Hp' Hl']. by rewrite Hp', Hl'.
Qed.
End broker_replay.

(** ** Starting on a log *)
Section boot_steps.
Context `{GoEnv}.

Lemma NewRDB_run config b :
  NewRDBWithoutLoad config b =
    (Ok (mkRDB (rdbPath config) 0 (time_Now (w_tick (b_world b)))),
     mkBoot (mkWorld (S (w_tick (b_world b))) (w_mdb (b_world b))) (b_files b)).
Proof. done. Qed.

Lemma boot_call_run b :
  boot_call b = (Ok (io_call (w_tick (b_world b))),
    mkBoot (mkWorld (S (w_tick (b_world b))) (w_mdb (b_world b))) (b_files b)).
Proof. done. Qed.

Lemma os_Open_run path b :
  os_Open path b =
    (Ok (match io_call (w_tick (b_world b)) with Some _ => None | None => b_files b !! path end),
     mkBoot (mkWorld (S (w_tick (b_world b))) (w_mdb (b_world b))) (b_files b)).
Proof.
  unfold os_Open. rewrite (bind_ok _ _ _ _ _ (boot_call_run b)). by destruct (io_call _).
Qed.

Lemma OpenAof_run config b :
  let content := default "" (b_files b !! aofPath config) in
  let w := mkWorld (S (w_tick (b_world b))) (w_mdb (b_world b)) in
  OpenAof config b =
    match io_call (w_tick (b_world b)) with
    | Some _ => (Ok None, mkBoot w (b_files b))
    | None => (Ok (Some (NewAof (w_tick w) content)), mkBoot w (<[aofPath config := content]> (b_files b)))
    end.
Proof.
  cbv zeta. unfold OpenAof, os_OpenFile.
  rewrite (bind_eq _ _ b), (bind_ok _ _ _ _ _ (boot_call_run b)).
  by destruct (io_call _).
Qed.
End boot_steps.

Section start.
Context `{GoEnvLaws} `{!LogWritten E}.
Context (config : Config).
Hypothesis Haof : aofEnabled config = true.

(** Either the log could not be opened and the server starts empty without
    one, or it is the server the replay of the log builds. *)
Lemma start_run n files :
  let content := default "" (files !! aofPath config) in
  let rdb := mkRDB (rdbPath config) 0 (time_Now n) in
  start config (boot n files) =
    match io_call (S n) with
    | Some _ =>
        (Ok (mkServer (mkWorld (S (S n)) NewMultiDB) None (Some rdb) files
               (cfg_requirePass config)),
         boot (S (S n)) files)
    | None =>
        let files' := <[aofPath config := content]> files in
        match replay_logged (NewAof (S (S n)) content) (mkWorld (S (S n)) NewMultiDB) with
        | (Ok _, w) =>
            (Ok (mkServer w (Some (NewAof (S (S n)) content)) (Some rdb) files' (cfg_requirePass config)),
             mkBoot w files')
        | (Err e, w) => (Err e, mkBoot w files')
        | (Panic p, w) => (Panic p, mkBoot w files')
        | (NoFuel, w) => (NoFuel, mkBoot w files')
        end
    end.
Proof.
  cbv zeta. unfold start. rewrite Haof. rewrite (bind_ok _ _ _ _ _ (NewRDB_run config _)).
  cbn [boot b_world b_files w_tick w_mdb]. rewrite bind_eq, OpenAof_run.
  cbn [b_world b_files w_tick w_mdb].
  destruct (io_call (S n)); [done|]. rewrite bind_eq. unfold b_on_world, zoom.
  cbn [b_world b_files w_tick w_mdb].
  by destruct (replay_logged _ _) as [[] w].
Qed.

Lemma start_durable sv n files a :
  world_ok (sv_world sv) → durable sv → sv_aof sv = Some a →
  files !! aofPath config = Some (aof_file a) →
  ∃ sv' b, start config (boot n files) = (Ok sv', b) ∧
    (is_Some (sv_aof sv') →
     Forall2 same_data (dbs_of sv) (dbs_of sv') ∧ durable sv' ∧ world_ok (sv_world sv')).
Proof.
  intros Hw (a' & es & Ha & Hfile & Hwire & Hr) Ha' Hdisk. rewrite Ha in Ha'.
  injection Ha' as ->. rewrite start_run, Hdisk. cbn [default id from_option].
  destruct (io_call (S n)); [eexists _, _; split; [done|]; by intros [? ?]|].
  destruct (Hr (S (S n))) as (cur & w & Hrun & HF & Hl).
  assert (Hreplay : replay_logged (NewAof (S (S n)) (aof_file a)) (mkWorld (S (S n)) NewMultiDB) = (Ok (), w)).
  { unfold replay_logged, replay_aof. rewrite (AofRead_entries _ _ es) by done.
    by rewrite (bind_ok _ _ _ _ _ Hrun). }
  rewrite Hreplay. eexists _, _. split; [done|]. intros _. cbn [sv_world dbs_of].
  assert (HF' : Forall2 same_data (dbs_of sv) (DBs (w_mdb w))).
  { eapply list.Forall2_impl; [exact HF|]. by intros d d' []. }
  split; [exact HF'|]. split.
  - exists (NewAof (S (S n)) (aof_file a)), es. split; [done|]. split; [done|]. split; [done|].
    intros m. destruct (Hr m) as (cur2 & w2 & Hrun2 & HF2 & _). exists cur2, w2.
    split; [done|]. split; [|by right]. unfold dbs_of. cbn [sv_world].
    revert HF HF2. generalize (DBs (w_mdb w)), (DBs (w_mdb w2)). generalize (dbs_of sv).
    intros l1 l2 l3 H12 H13. apply Forall2_same_length_lookup. split.
    { rewrite <-(list.Forall2_length _ _ _ H12). by apply list.Forall2_length in H13. }
    intros i d2 d3 Hd2 Hd3.
    destruct (Forall2_lookup_r _ _ _ _ _ H12 Hd2) as (d1 & Hd1 & [Hs1 He1]).
    destruct (Forall2_lookup_lr _ _ _ _ _ _ H13 Hd1 Hd3) as [Hs2 _].
    split; [by transitivity d1|]. destruct Hs1 as (_ & _ & _ & _ & <-). done.
  - destruct (replay_all_world _ _ _ _ _ Hrun) as [Hps Hlen]. split.
    + rewrite Hlen. done.
    + apply list.Forall_forall. intros d' Hd'.
      apply list_elem_of_lookup in Hd' as [i Hd'].
      destruct (Forall2_lookup_r _ _ _ _ _ HF' Hd') as (d & Hd & (HS & HL & HSe & HH & _)).
      assert (Hwf : data_wf d) by (eapply Forall_lookup_1; [apply (wo_data _ Hw)|exact Hd]).
      destruct Hwf. split; intros key; by rewrite <-?HL, <-?HSe, <-?HH.
    + change (ps_wf (world_ps w)). rewrite Hps. apply New_wf.
Qed.
End start.

(** ** Snapshots taken by a running server *)
Section snapshots.
Context `{GoEnvLaws}.
Context (config : Config).

(** Neither the log nor anything the connections see changes. *)
Definition same_service (sv sv' : Server) : Prop :=
  sv_aof sv' = sv_aof sv ∧ w_mdb (sv_world sv') = w_mdb (sv_world sv) ∧
  sv_requirePass sv' = sv_requirePass sv.

Lemma on_rdb_same r {A} (m : M RdbSt A) sv x sv' :
  on_rdb r m sv = (x, sv') → same_service sv sv'.
Proof. unfold on_rdb. destruct (m _). by intros [= _ <-]. Qed.

Lemma world_now_same sv x sv' : on_world world_now sv = (x, sv') → same_service sv sv'.
Proof. by intros [= _ <-]. Qed.

Lemma Shutdown_same sv x sv' : Shutdown sv = (x, sv') → same_service sv sv'.
Proof.
  unfold Shutdown, CloseRDB. rewrite gets_bind. destruct (sv_rdb sv) as [r|].
  - rewrite gets_bind. apply on_rdb_same.
  - by intros [= _ <-].
Qed.

Lemma same_service_trans sv1 sv2 sv3 :
  same_service sv1 sv2 → same_service sv2 sv3 → same_service sv1 sv3.
Proof. unfold same_service. intuition congruence. Qed.

Lemma snapshot_rules_same rules elapsed changes r sv sv' :
  snapshot_rules rules elapsed changes r sv = (Ok (), sv') → same_service sv sv'.
Proof.
  induction rules as [|s rules IH]; cbn [snapshot_rules]; [by intros [= <-]|].
  destruct (due _ _ _); [|done]. rewrite gets_bind.
  intros (e & sv1 & H1%on_rdb_same & H2)%bind_ok_inv. apply (same_service_trans _ sv1); [done|].
  destruct e; [by injection H2 as <-|]. apply bind_ok_inv in H2 as (now & sv2 & H2 & H3).
  apply (same_service_trans _ sv2); [by apply world_now_same in H2|]. by injection H3 as <-.
Qed.

Lemma snapshot_tick_same sv sv' : snapshot_tick config sv = (Ok (), sv') → same_service sv sv'.
Proof.
  unfold snapshot_tick. rewrite gets_bind. destruct (sv_rdb sv) as [r|]; [|by intros [= <-]].
  intros (now & sv1 & H1 & H2)%bind_ok_inv. apply (same_service_trans _ sv1).
  - by apply world_now_same in H1.
  - by apply snapshot_rules_same in H2.
Qed.

Lemma same_service_durable sv sv' : same_service sv sv' → durable sv → durable sv'.
Proof. intros (Ha & Hw & _). apply durable_same; [done|]. unfold dbs_of. by rewrite Hw. Qed.

Lemma same_service_world sv sv' :
  same_service sv sv' → world_ok (sv_world sv) → world_ok (sv_world sv').
Proof. intros (_ & Hw & _) []. by split; rewrite Hw. Qed.

Lemma same_service_sys sv sv' conns :
  same_service sv sv' → sys_ok (mkSystem sv conns) → sys_ok (mkSystem sv' conns).
Proof.
  intros Hs [Hw Hc]. split; [by eapply same_service_world|]. intros id c Hid.
  apply (conn_ok_sv _ sv); [by apply (Hc id c)|]. destruct Hs as (Ha & Hm & Hp). split; [by apply (same_service_world sv)|].
  split; [|done]. cbn [sys_sv]. unfold sv_ps, world_ps. by rewrite Hm.
Qed.
End snapshots.

(** ** The invariant of every history of a server that logs *)
Section lives_inv.
Context `{GoEnvLaws} `{!LogWritten E}.
Context (wakeups : nat) (config : Config).
Hypothesis Haof : aofEnabled config = true.

Lemma stopped_same sv sv' : stopped sv sv' → same_service sv sv'.
Proof. intros [->|[err Hs]]; [done|]. by eapply Shutdown_same. Qed.

Lemma disk_of_log sv a : sv_aof sv = Some a →
  disk_of config sv !! aofPath config = Some (aof_file a).
Proof. intros Ha. unfold disk_of. rewrite Ha. by rewrite lookup_insert_eq. Qed.

Lemma restart_durable sv sv1 n :
  world_ok (sv_world sv) → durable sv → stopped sv sv1 →
  ∃ sv' b, start config (boot n (disk_of config sv1)) = (Ok sv', b) ∧
    (is_Some (sv_aof sv') →
     Forall2 same_data (dbs_of sv) (dbs_of sv') ∧ durable sv' ∧ world_ok (sv_world sv')).
Proof.
  intros Hw Hd Hs%stopped_same.
  pose proof (same_service_durable _ _ Hs Hd) as Hd1.
  pose proof (same_service_world _ _ Hs Hw) as Hw1.
  assert (Hsame : dbs_of sv1 = dbs_of sv) by (unfold dbs_of; by destruct Hs as (_ & -> & _)).
  destruct Hd1 as (a & es & Ha & Hrest). rewrite <-Hsame.
  apply (start_durable config Haof sv1 n _ a); [done|by exists a, es|done|].
  by apply disk_of_log.
Qed.

Lemma start_empty n files sv b :
  default "" (files !! aofPath config) = "" → start config (boot n files) = (Ok sv, b) →
  is_Some (sv_aof sv) →
  ∃ m k rdb files' pass, sv = fresh_server m (Some (NewAof k "")) rdb files' pass.
Proof.
  intros Hempty. rewrite (start_run config Haof), Hempty.
  destruct (io_call (S n)); [intros [= <- _]; by intros []|].
  intros [= <- _] _. by eexists _, _, _, _, _.
Qed.

Lemma lives_inv x :
  lives wakeups config recoverable x → sys_ok x ∧ durable (sys_sv x).
Proof.
  induction 1 as [n files sv b _ Hempty Hstart Hlog|x y _ [Hok Hd] Hstep
    |sv sv' conns _ [Hok Hd] _ Hsnap|x sv1 n sv b _ [Hok Hd] Hstop Hstart Hlog].
  - destruct (start_empty _ _ _ _ Hempty Hstart Hlog) as (m & k & rdb & f & pass & ->).
    split; [apply sys_ok_fresh|apply durable_fresh].
  - split; [by eapply sys_ok_step|by eapply durable_step].
  - apply snapshot_tick_same in Hsnap. split; [by eapply same_service_sys|].
    by eapply same_service_durable.
  - destruct (restart_durable _ _ n (so_world _ Hok) Hd Hstop) as (sv' & b' & Hrun & Hres).
    rewrite Hrun in Hstart. injection Hstart as -> _.
    destruct (Hres Hlog) as (_ & Hd' & Hw'). split; [|done]. split; [done|].
    intros id c. cbn. by rewrite lookup_empty.
Qed.
End lives_inv.
