(* ===== verification/Histories.v ===== *)
(** * Histories: the log of a server through its restarts, and the file at its path *)
From S2P Require Import Prelude Go Strconv Resp DataStruct PubSub PubSubFacts.
From S2P Require Import Database DbFacts Handler Invariant Rdb RdbFacts Aof AofFacts.
From S2P Require Import Server Config Startup Recovery System Durability Replay Lifecycle.
From Stdlib Require Import Ascii.

(** ** What a step does to the files

    The snapshot stays at its path, only that path and the temporary file beside
    it are written, and the log only grows. *)
Record frame (sv sv' : Server) : Prop := {
  fr_rdb r' : sv_rdb sv' = Some r' → ∃ r, sv_rdb sv = Some r ∧ rdb_path r' = rdb_path r;
  fr_files p : (∀ r, sv_rdb sv = Some r → p ≠ rdb_path r ∧ p ≠ rdb_path r +:+ ".tmp") →
    sv_files sv' !! p = sv_files sv !! p;
  fr_aof a : sv_aof sv = Some a → ∃ a' q, sv_aof sv' = Some a' ∧ aof_file a' = aof_file a +:+ q;
}.

Lemma frame_same sv sv' :
  sv_rdb sv' = sv_rdb sv → sv_files sv' = sv_files sv → sv_aof sv' = sv_aof sv → frame sv sv'.
Proof.
  intros Hr Hf Ha. split; rewrite ?Hr, ?Hf, ?Ha; [by eauto|done|].
  intros a ->. exists a, "". by rewrite string_app_nil_r.
Qed.

#[export] Instance frame_preorder : PreOrder frame.
Proof.
  split; [intros sv; by apply frame_same|]. intros sv1 sv2 sv3 [R1 F1 A1] [R2 F2 A2]. split.
  - intros r3 (r2 & (r1 & H1 & H12)%R1 & H23)%R2. exists r1. split; [done|congruence].
  - intros p Hp. rewrite F2, F1; [done|done|]. intros r2 (r1 & H1 & ->)%R1. by apply Hp.
  - intros a (a2 & q & H2 & Hf2)%A1. destruct (A2 _ H2) as (a3 & q' & H3 & Hf3).
    exists a3, (q +:+ q'). split; [done|]. by rewrite Hf3, Hf2, string_app_assoc.
Qed.

Definition framed {A} (m : M Server A) : Prop := ∀ sv r sv', m sv = (r, sv') → frame sv sv'.
Definition cs_framed {A} (m : M CS A) : Prop :=
  ∀ cs r cs', m cs = (r, cs') → frame (fst cs) (fst cs').

Section frames.
Context `{GoEnv}.

Lemma framed_ret {A} (a : A) : framed (mret a).
Proof. by intros sv r sv' [= _ <-]. Qed.
Lemma framed_gets {A} (f : Server → A) : framed (gets f).
Proof. by intros sv r sv' [= _ <-]. Qed.
Lemma framed_bind {A B} (m : M Server A) (f : A → M Server B) :
  framed m → (∀ a, framed (f a)) → framed (m ≫= f).
Proof.
  intros Hm Hf sv r sv' Hrun. rewrite bind_eq in Hrun.
  destruct (m sv) as [[a|e|p|] sv1] eqn:H1; pose proof (Hm _ _ _ H1) as Hfr;
    [etrans; [exact Hfr|by eapply Hf]|by injection Hrun as _ <-..].
Qed.
Lemma framed_on_world {A} (m : M World A) : framed (on_world m).
Proof. intros sv r sv'. unfold on_world, zoom. destruct (m _). intros [= _ <-]. by apply frame_same. Qed.
Lemma framed_count : framed count_change.
Proof.
  intros sv r sv' [= _ <-]. split; cbn; [|done|intros a ->; exists a, ""; by rewrite string_app_nil_r].
  intros r' (r0 & -> & ->)%fmap_Some. by exists r0.
Qed.

(** [Save], however it ends. *)
Definition quiet_at (p : string) {A} (m : M RdbSt A) : Prop :=
  ∀ s r s', m s = (r, s') → rs_files s' !! p = rs_files s !! p ∧ rs_rdb s' = rs_rdb s.

Lemma quiet_at_ret p {A} (a : A) : quiet_at p (mret a).
Proof. by intros s r s' [= _ <-]. Qed.
Lemma quiet_at_bind p {A B} (m : M RdbSt A) (f : A → M RdbSt B) :
  quiet_at p m → (∀ a, quiet_at p (f a)) → quiet_at p (m ≫= f).
Proof.
  intros Hm Hf s r s' Hrun. rewrite bind_eq in Hrun.
  destruct (m s) as [[a|e|msg|] s1] eqn:H1; destruct (Hm _ _ _ H1) as [Hp Hr];
    [|by injection Hrun as _ <-..].
  destruct (Hf a _ _ _ Hrun) as [Hp' Hr']. by rewrite Hp', Hr'.
Qed.
Lemma quiet_at_call p f : (∀ files : gmap string string, f files !! p = files !! p) → quiet_at p (os_call f).
Proof. intros Hf s r s'. unfold os_call. destruct (io_call _); intros [= _ <-]; [done|]. by split; [apply Hf|]. Qed.
Lemma quiet_at_stop p {A} (x : res A) : quiet_at p (λ s, (x, s)).
Proof. by intros s r s' [= _ <-]. Qed.

Lemma rename_other tmp path p (files : gmap string string) :
  p ≠ path → p ≠ tmp → rename tmp path files !! p = files !! p.
Proof.
  intros Hp Ht. unfold rename. destruct (files !! tmp); [|done].
  by rewrite lookup_insert_ne, lookup_delete_ne by done.
Qed.

Lemma Save_frame dbs s r s' p :
  p ≠ rdb_path (rs_rdb s) → p ≠ rdb_path (rs_rdb s) +:+ ".tmp" →
  Save dbs s = (r, s') → rs_files s' !! p = rs_files s !! p ∧ rs_rdb s' = rs_rdb s.
Proof.
  intros Hp Ht. unfold Save. rewrite gets_bind. set (tmp := rdb_path (rs_rdb s) +:+ ".tmp") in *.
  set (path := rdb_path (rs_rdb s)) in *. clearbody tmp path.
  match goal with |- ?m s = _ → _ => enough (Hm : quiet_at p m) by apply Hm end.
  assert (Hput : ∀ text, quiet_at p (os_call <[tmp := text]>)).
  { intros text. apply quiet_at_call. intros files. by rewrite lookup_insert_ne. }
  assert (Hid : quiet_at p (os_call id)) by by apply quiet_at_call.
  assert (Hren : quiet_at p (os_call (rename tmp path)))
    by (apply quiet_at_call; intros files; by apply rename_other).
  assert (Hfail : ∀ msg, quiet_at p (fail_save tmp msg)).
  { intros msg. unfold fail_save. apply quiet_at_bind; [|intros; apply quiet_at_ret].
    apply quiet_at_call. intros files. by rewrite lookup_delete_ne. }
  assert (Hrun : quiet_at p (run_writer dbs)).
  { intros t x t'. unfold run_writer. destruct (write_snapshot _ _). by intros [= _ <-]. }
  repeat first [progress intros|done|apply quiet_at_ret|apply quiet_at_stop|apply quiet_at_bind|case_match].
Qed.

Lemma framed_Save r sv x sv' :
  sv_rdb sv = Some r → on_rdb r (Save (DBs (w_mdb (sv_world sv)))) sv = (x, sv') → frame sv sv'.
Proof.
  intros Hr. unfold on_rdb. destruct (Save _ _) as [y t] eqn:Hs. intros [= _ <-].
  assert (Hrdb : rs_rdb t = r).
  { refine (proj2 (Save_frame _ _ _ _ (rdb_path r +:+ ".tmp.") _ _ Hs)); cbn;
      intros Hp; apply (f_equal String.length) in Hp; rewrite !string_length_app in Hp; cbn in Hp; lia. }
  split; cbn.
  - intros r' [= <-]. exists r. split; [done|]. by rewrite Hrdb.
  - intros p Hp. destruct (Hp r Hr) as [H1 H2]. apply (Save_frame _ _ _ _ p) in Hs as [Hf _]; done.
  - intros a ->. exists a, "". by rewrite string_app_nil_r.
Qed.

Lemma write_value_grows v a r a' : write_value v a = (r, a') → ∃ q, aof_file a' = aof_file a +:+ q.
Proof.
  assert (Hw : ∀ s a r a', file_Write s a = (r, a') → ∃ q, aof_file a' = aof_file a +:+ q).
  { intros s a1 r1 a1'. unfold file_Write. destruct (log_write _) as [[k e]|]; intros [= _ <-]; by eexists. }
  unfold write_value. destruct (Write _ _) as [[u|e|p|] w].
  - apply Hw.
  - rewrite bind_eq. destruct (file_Write _ a) as [x a1] eqn:H1. apply Hw in H1.
    by destruct x; intros [= _ <-].
  - intros [= _ <-]. exists "". by rewrite string_app_nil_r.
  - intros [= _ <-]. exists "". by rewrite string_app_nil_r.
Qed.

Lemma AofWrite_grows i v a r a' : AofWrite i v a = (r, a') → ∃ q, aof_file a' = aof_file a +:+ q.
Proof.
  unfold AofWrite. rewrite gets_bind. case_bool_decide; [|apply write_value_grows].
  rewrite !(bind_eq (_ ≫= _)), (bind_eq (write_value _)).
  destruct (write_value (selectEntry i) a) as [[u|e|p|] a1] eqn:H1; apply write_value_grows in H1 as [q Hq];
    [|by intros [= _ <-]; exists q..].
  intros (q' & Hq')%write_value_grows. exists (q +:+ q'). rewrite Hq'. cbn. by rewrite Hq, string_app_assoc.
Qed.

Lemma framed_log i v : framed (log_to_aof i v).
Proof.
  intros sv r sv'. unfold log_to_aof. destruct (sv_aof sv) as [a|] eqn:Ha; [|by intros [= _ <-]].
  destruct (AofWrite i v a) as [x a'] eqn:Hw. apply AofWrite_grows in Hw as [q Hq]. intros [= _ <-].
  split; cbn; [by eauto|done|]. intros a0 Ha0. rewrite Ha0 in Ha. injection Ha as ->. by exists a', q.
Qed.
End frames.

#[export] Hint Resolve framed_ret framed_gets framed_on_world framed_count framed_log : shore.

(** ** The steps of the system *)
Section steps.
Context `{GoEnv}.
Context (wakeups : nat).

Lemma framed_rdb_handler c (h : list Value → M Server Value) args :
  table_get c RDBCommandHandlers = Some h → framed (h args).
Proof.
  intros Hh%table_get_In sv x sv' Hrun. unfold RDBCommandHandlers in Hh. rewrite !elem_of_cons in Hh.
  destruct Hh as [[= _ ->]|[[= _ ->]|[[= _ ->]|Hn]]]; [..|by apply elem_of_nil in Hn]; revert Hrun;
    [unfold save|unfold bgsave|unfold lastsave]; rewrite gets_bind;
    destruct (sv_rdb sv) as [r|] eqn:Hr; try (by intros [= _ <-]); rewrite ?gets_bind, bind_eq.
  all: destruct (on_rdb _ _ sv) as [y sv1] eqn:H1; apply (framed_Save r) in H1; [|done].
  - destruct y as [[e|]|e|p|]; by intros [= _ <-].
  - destruct y; by intros [= _ <-].
Qed.

Lemma framed_processCommand c args original i : framed (processCommand wakeups c args original i).
Proof.
  unfold processCommand. destruct (table_get c RDBCommandHandlers) eqn:Hh; [by eapply framed_rdb_handler|].
  destruct (handler_of wakeups c); [|apply framed_ret]. apply framed_bind; [apply framed_on_world|]. intros v.
  destruct (_ && _); [|apply framed_ret]. apply framed_bind; [apply framed_log|]. intros _.
  apply framed_bind; [apply framed_count|]. intros _. apply framed_ret.
Qed.

Lemma cs_ret {A} (a : A) : cs_framed (mret a).
Proof. by intros cs r cs' [= _ <-]. Qed.
Lemma cs_gets {A} (f : CS → A) : cs_framed (gets f).
Proof. by intros cs r cs' [= _ <-]. Qed.
Lemma cs_bind {A B} (m : M CS A) (f : A → M CS B) :
  cs_framed m → (∀ a, cs_framed (f a)) → cs_framed (m ≫= f).
Proof.
  intros Hm Hf cs r cs' Hrun. rewrite bind_eq in Hrun.
  destruct (m cs) as [[a|e|p|] cs1] eqn:H1; pose proof (Hm _ _ _ H1) as Hfr;
    [etrans; [exact Hfr|by eapply Hf]|by injection Hrun as _ <-..].
Qed.
Lemma cs_for_each {X} (body : X → M CS ()) l : (∀ x, cs_framed (body x)) → cs_framed (for_each body l).
Proof. intros Hb. induction l; [apply cs_ret|by apply cs_bind]. Qed.
Lemma cs_set_conn f : cs_framed (set_conn f).
Proof. by intros [sv c] r cs' [= _ <-]. Qed.
Lemma cs_server {A} (m : M Server A) : framed m → cs_framed (on_server m).
Proof. intros Hm [sv c] r cs'. unfold on_server, zoom. cbn. destruct (m sv) eqn:Hr. intros [= _ <-]. by eapply Hm. Qed.
Lemma cs_pubsub {A} (m : M PubSub A) : cs_framed (on_server (on_pubsub m)).
Proof. apply cs_server, framed_on_world. Qed.
Lemma cs_range {A} (f : CS → gmap string A) : cs_framed (server_range f).
Proof. intros [sv c] r cs' [= _ <-]. by apply frame_same. Qed.
End steps.

#[export] Hint Resolve cs_ret cs_gets cs_set_conn cs_pubsub cs_range framed_processCommand : shore.

Ltac framed :=
  intros;
  repeat first
    [ progress intros
    | solve [eauto with shore]
    | apply cs_set_conn
    | apply cs_bind
    | apply cs_for_each
    | apply cs_server
    | case_match ].

Section system_steps.
Context `{GoEnv}.
Context (wakeups : nat).

Lemma cs_handleValue v : cs_framed (handleValue wakeups v).
Proof.
  unfold handleValue, handleAuth, handleSelect, handleSubscribe, handleUnsubscribe, subscription_reply, write.
  framed.
Qed.
Lemma cs_forward ch : cs_framed (forward ch).
Proof. unfold forward, write. framed. Qed.
Lemma cs_disconnect : cs_framed disconnect.
Proof. unfold disconnect. framed. Qed.

Lemma step_frame allowed x y : sys_step wakeups allowed x y → frame (sys_sv x) (sys_sv y).
Proof.
  destruct 1 as [| sv conns id c input v rest sv' c' _ _ _ _ Hrun
    | sv conns id c name ch sv' c' _ _ Hrun | sv conns id c sv' c' _ Hrun | sv conns sv' Hrun]; cbn.
  - done.
  - apply (cs_handleValue v (sv, c) _ _ Hrun).
  - apply (cs_forward ch (sv, c) _ _ Hrun).
  - apply (cs_disconnect (sv, c) _ _ Hrun).
  - apply (framed_on_world _ _ _ _ Hrun).
Qed.

Context (config : Config).

Lemma snapshot_frame sv sv' : snapshot_tick config sv = (Ok (), sv') → frame sv sv'.
Proof.
  unfold snapshot_tick. rewrite gets_bind. destruct (sv_rdb sv) as [r|] eqn:Hr; [|by intros [= <-]].
  intros (now & sv1 & H1 & H2)%bind_ok_inv. injection H1 as Hnow <-. clear Hnow.
  set (sv1 := mkServer _ _ _ _ _) in H2. transitivity sv1; [by apply frame_same|].
  assert (Hr1 : sv_rdb sv1 = Some r) by done. clearbody sv1. clear sv Hr.
  induction (cfg_rdb config) as [|s rules IH]; cbn [snapshot_rules] in H2; [by injection H2 as <-|].
  destruct (due _ _ _); [|by apply IH]. rewrite gets_bind in H2. apply bind_ok_inv in H2 as (err & sv2 & Hs & H2).
  apply (framed_Save r) in Hs as Hf; [|done]. etrans; [exact Hf|]. destruct err; [by injection H2 as <-|].
  apply bind_ok_inv in H2 as (t & sv3 & H3 & H4). injection H3 as _ <-. injection H4 as <-.
  unfold on_rdb in Hs. destruct (Save _ _) as [y u]. injection Hs as _ <-.
  split; cbn; [|done|intros a ->; exists a, ""; by rewrite string_app_nil_r].
  intros r' [= <-]. eexists. split; [done|].
  destruct (fr_rdb _ _ Hf _ eq_refl) as (r0 & H0 & Hp). rewrite Hr1 in H0. injection H0 as <-. cbn in Hp. by rewrite Hp.
Qed.

Lemma stopped_frame sv sv' : stopped sv sv' → frame sv sv'.
Proof.
  intros [->|[err Hs]]; [done|]. unfold Shutdown, CloseRDB in Hs. rewrite gets_bind in Hs.
  destruct (sv_rdb sv) as [r|] eqn:Hr; [|by injection Hs as _ <-]. rewrite gets_bind in Hs.
  by eapply framed_Save.
Qed.
End system_steps.

(** ** The file at the log's path

    No save and no start puts another file there: it is still the one the process
    has open, which began as what the path held then. This is what makes
    [disk_of] the disk that a process leaves. *)
Definition log_in_place (config : Config) (sv : Server) : Prop :=
  ∃ a content q, sv_aof sv = Some a ∧ sv_files sv !! aofPath config = Some content ∧
    aof_file a = content +:+ q.

Definition paths_kept (config : Config) (sv : Server) : Prop :=
  (∀ r, sv_rdb sv = Some r → rdb_path r = rdbPath config) ∧ log_in_place config sv.

Lemma frame_paths config sv sv' :
  apart config → frame sv sv' → paths_kept config sv → paths_kept config sv'.
Proof.
  intros [Ha Ht] [Hr Hf Hl] [Hp (a & content & q & Haof & Hfile & Htext)]. split.
  - intros r' (r & Hrdb & ->)%Hr. by apply Hp.
  - destruct (Hl a Haof) as (a' & q' & Ha' & Hgrow). exists a', content, (q +:+ q'). split_and!; [done| |].
    + rewrite Hf; [done|]. intros r Hrdb. by rewrite (Hp r Hrdb).
    + by rewrite Hgrow, Htext, string_app_assoc.
Qed.

(** ** The entries of the log *)
Section entries.
Context `{GoEnvLaws} `{!LogWritten E}.
Context (wakeups : nat).

(** The log after a request: as before, or with the entries of one command. *)
Definition log_step (sv sv' : Server) : Prop :=
  sv_aof sv' = sv_aof sv ∨
  ∃ a i v, sv_aof sv = Some a ∧ sv_aof sv' = Some (with_entries i v a) ∧
    0 ≤ i < Z.of_nat NumDatabases ∧ wire v ∧ isSelectEntry v = false.

Lemma processCommand_logged c0 args i sv r sv' :
  0 ≤ i < Z.of_nat NumDatabases → wire (vArray (c0 :: args)) →
  processCommand wakeups (ToUpper (Str c0)) args (vArray (c0 :: args)) i sv = (r, sv') → log_step sv sv'.
Proof.
  intros Hi Hw. unfold processCommand. set (c := ToUpper (Str c0)).
  destruct (table_get c RDBCommandHandlers) as [h|] eqn:Hh.
  { intros Hrun. left. revert Hh Hrun. intros Hh%table_get_In. unfold RDBCommandHandlers in Hh.
    assert (Hsave : ∀ r dbs x sv1, on_rdb r (Save dbs) sv = (x, sv1) → sv_aof sv1 = sv_aof sv)
      by (intros r0 dbs x sv1; unfold on_rdb; destruct (Save _ _); by intros [= _ <-]).
    rewrite !elem_of_cons in Hh.
    destruct Hh as [[= _ ->]|[[= _ ->]|[[= _ ->]|Hn]]]; [..|by apply elem_of_nil in Hn];
      [unfold save|unfold bgsave|unfold lastsave]; rewrite gets_bind;
      destruct (sv_rdb sv) as [r0|]; try (by intros [= _ <-]); rewrite ?gets_bind, bind_eq.
    all: destruct (on_rdb _ _ sv) as [y sv1] eqn:H1; apply Hsave in H1.
    - destruct y as [[e|]|e|p|]; intros [= _ <-]; exact H1.
    - destruct y; intros [= _ <-]; exact H1. }
  destruct (handler_of wakeups c) as [h|]; [|intros [= _ <-]; by left].
  rewrite bind_eq. unfold on_world, zoom. destruct (with_DB i (h args) (sv_world sv)) as [x w].
  destruct x as [v|e|p|]; [|intros [= _ <-]; by left..].
  destruct (negb _ && shouldPersist c) eqn:Hlog; [|intros [= _ <-]; by left].
  rewrite bind_eq. unfold log_to_aof. cbn [sv_aof].
  destruct (sv_aof sv) as [a|] eqn:Ha; [|intros [= _ <-]; left; by rewrite Ha].
  rewrite AofWrite_run by (done || (unfold NumDatabases in Hi; int_lia)). intros [= _ <-].
  right. exists a, i, (vArray (c0 :: args)). split_and!; [done|done|lia|lia|done|].
  apply isSelectEntry_command. fold c. intros Hsel. rewrite Hsel, andb_comm in Hlog. discriminate Hlog.
Qed.

Lemma handleValue_logged v sv c r sv' c' :
  0 ≤ dbIndex c < Z.of_nat NumDatabases → wire v →
  handleValue wakeups v (sv, c) = (r, (sv', c')) → log_step sv sv'.
Proof.
  intros Hi Hw. unfold handleValue.
  assert (Hinert : ∀ {A} (m : M CS A) r, inert m → m (sv, c) = (r, (sv', c')) → log_step sv sv').
  { intros A m r0 Hm Hrun. destruct (Hm _ _ _ Hrun) as [Ha _]. by left. }
  destruct (negb (VType v =? Array)%char) eqn:Hty; cbn [orb]; [apply Hinert, inert_set_conn|].
  apply negb_false_iff, Ascii.eqb_eq in Hty.
  destruct (length (Arr v) =? 0)%nat; [apply Hinert, inert_set_conn|].
  assert (Hv : v = vArray (Arr v)) by (inversion Hw; subst; cbn in Hty; done).
  destruct (Arr v) as [|c0 args]; [intros [= _ <- _]; by left|].
  destruct (String.eqb _ "AUTH").
  { apply Hinert, inert_bind; [apply inert_handleAuth|intros; apply inert_set_conn]. }
  rewrite gets_bind. destruct (negb _); [apply Hinert, inert_set_conn|].
  destruct (String.eqb _ "SELECT").
  { apply Hinert. apply inert_bind; [apply inert_gets|]. intros i.
    apply inert_bind; [apply inert_handleSelect|intros; apply inert_set_conn]. }
  destruct (String.eqb _ "SUBSCRIBE"); [apply Hinert, inert_handleSubscribe|].
  destruct (String.eqb _ "UNSUBSCRIBE"); [apply Hinert, inert_handleUnsubscribe|].
  rewrite gets_bind, bind_eq. unfold on_server, zoom. cbn [fst snd].
  destruct (processCommand _ _ _ _ _ sv) as [x sv1] eqn:Hp. rewrite Hv in Hp, Hw.
  apply processCommand_logged in Hp; [|done..]. destruct x; by intros [= _ <- _].
Qed.

Lemma step_logged allowed x y :
  sys_ok x → sys_step wakeups allowed x y → log_step (sys_sv x) (sys_sv y).
Proof.
  intros Hx Hstep. destruct Hstep as
    [sv conns id Hid|sv conns id c input v rest sv' c' Hid Hparse Hall Hfit Hrun
    |sv conns id c name ch sv' c' Hid Hsub Hrun|sv conns id c sv' c' Hid Hrun|sv conns sv' Hrun];
    cbn [sys_sv] in *.
  - by left.
  - eapply handleValue_logged; [|by eapply Parse_wire|exact Hrun].
    apply (co_index _ _ (so_conns _ Hx id c Hid)).
  - left. by destruct (inert_forward ch _ _ _ Hrun).
  - left. by destruct (inert_disconnect _ _ _ Hrun).
  - left. revert Hrun. unfold on_world, zoom. destruct (SweepAll _). by intros [= _ <-].
Qed.

(** The log is made of complete entries. *)
Definition log_ok (sv : Server) : Prop :=
  ∃ a es, sv_aof sv = Some a ∧ aof_file a = encodes es ∧ Forall entry_ok es.

Lemma log_step_ok sv sv' : log_step sv sv' → log_ok sv → log_ok sv'.
Proof.
  intros Hstep (a & es & Ha & Hf & Hes). destruct Hstep as [Hsame|(a1 & i & v & Ha1 & Ha' & Hi & Hw & Hsel)].
  - exists a, es. by rewrite Hsame.
  - rewrite Ha in Ha1. injection Ha1 as <-. exists (with_entries i v a), (es ++ new_entries (lastDB a) i v).
    split_and!; [done|cbn; by rewrite concat_map_app, Hf|]. apply Forall_app. split; [done|].
    by apply new_entries_ok.
Qed.
End entries.

(** ** Every history of a server that logs *)
Section histories.
Context `{GoEnvLaws} `{!LogWritten E}.
Context (wakeups : nat) (config : Config) (allowed : Value → Prop).
Hypothesis Haof : aofEnabled config = true.

(** A start on a log of complete entries, and maybe the beginning of one more. *)
Lemma start_torn n files es p :
  files !! aofPath config = Some (encodes es +:+ p) → Forall entry_ok es →
  (p = "" ∨ ∃ v q, wire v ∧ encode v = p +:+ q ∧ q ≠ "") →
  ∃ sv b, start config (boot n files) = (Ok sv, b) ∧
    (is_Some (sv_aof sv) → paths_kept config sv ∧ world_ok (sv_world sv) ∧
      aof_file <$> sv_aof sv = Some (encodes es +:+ p) ∧
      ∃ cur, replay_all replay_fn 0 es (mkWorld (S (S n)) NewMultiDB) = (Ok cur, sv_world sv)).
Proof.
  intros Hfile Hes Hp. rewrite (start_run config Haof), Hfile. cbn [default id from_option].
  destruct (io_call (S n)); [eexists _, _; split; [done|]; by intros []|].
  destruct (replay_torn (S (S n)) (S (S n)) es p Hes Hp) as (cur & w & Hrun & Hok & Hread).
  assert (Hlog : replay_logged (NewAof (S (S n)) (encodes es +:+ p)) (mkWorld (S (S n)) NewMultiDB) = (Ok (), w)).
  { unfold replay_logged. by destruct Hread as [-> | ->]. }
  rewrite Hlog. eexists _, _. split; [done|]. intros _. split_and!; [|done|done|by exists cur].
  split; [by intros r [= <-]|]. eexists _, _, "". cbn. rewrite lookup_insert_eq.
  by rewrite string_app_nil_r.
Qed.

Record logging (x : System) : Prop := {
  lg_sys : sys_ok x;
  lg_log : log_ok (sys_sv x);
  lg_paths : paths_kept config (sys_sv x);
}.

Lemma lives_apart x : lives wakeups config allowed x → apart config.
Proof. by induction 1. Qed.

Lemma lives_logging x : lives wakeups config allowed x → logging x.
Proof.
  intros Hl. pose proof (lives_apart x Hl) as Hap.
  induction Hl as [n files sv b _ Hempty Hstart Hlog|x y _ [Hok Hlog Hp] Hstep
    |sv sv' conns _ [Hok Hlog Hp] _ Hsnap|x sv1 n sv b _ [Hok Hlog Hp] Hstop Hstart Hopen].
  - revert Hstart Hlog. rewrite (start_run config Haof), Hempty.
    destruct (io_call (S n)); [intros [= <- _]; by intros []|].
    intros [= <- _] _. split; cbn.
    + apply sys_ok_fresh.
    + by exists (NewAof (S (S n)) ""), [].
    + split; [by intros r [= <-]|]. eexists _, "", "". cbn. by rewrite lookup_insert_eq.
  - split; [by eapply sys_ok_step| |by eapply frame_paths, Hp; [|eapply step_frame]].
    eapply log_step_ok, Hlog. by eapply step_logged.
  - split; [by apply snapshot_tick_same in Hsnap; eapply same_service_sys| |].
    + apply snapshot_tick_same in Hsnap as (Ha & _). destruct Hlog as (a & es & Hlog). exists a, es. cbn. by rewrite Ha.
    + eapply frame_paths, Hp; [done|]. by eapply snapshot_frame.
  - destruct Hlog as (a & es & Ha & Hf & Hes). apply stopped_same in Hstop as Hsame.
    assert (Ha1 : sv_aof sv1 = Some a) by by destruct Hsame as [-> _].
    destruct (start_torn n (disk_of config sv1) es "") as (sv2 & b2 & Hrun & Hres);
      [by rewrite (disk_of_log _ _ _ Ha1), Hf, string_app_nil_r|done|by left|].
    rewrite Hrun in Hstart. injection Hstart as -> _.
    destruct (Hres Hopen) as (Hpaths & Hw & Hfile & _). split; cbn; [|by destruct (sv_aof sv) as [a2|] eqn:Ha2; [exists a2, es; injection Hfile as ->; rewrite string_app_nil_r|]|done].
    split; [done|]. intros id c. cbn. by rewrite lookup_empty.
Qed.
End histories.

(** ** Killed while a request is served *)
Section killed.
Context `{GoEnvLaws} `{!LogWritten E}.
Context (wakeups : nat) (config : Config).
Hypothesis Haof : aofEnabled config = true.

(** The disk of a process killed between [x] and [y]: of what the log gains in
    this step, some of the bytes are in the file. *)
Definition killed_during (x y : System) (files : gmap string string) : Prop :=
  ∃ a a' p q, sv_aof (sys_sv x) = Some a ∧ sv_aof (sys_sv y) = Some a' ∧
    aof_file a +:+ p +:+ q = aof_file a' ∧ files !! aofPath config = Some (aof_file a +:+ p).

(** A marker, or the beginning of an entry, behind a log adds nothing to it. *)
Lemma start_behind sv n files a es1 p :
  durable sv → sv_aof sv = Some a → (es1 = [] ∨ ∃ i, es1 = [selectEntry i] ∧ in_int i) →
  (p = "" ∨ ∃ v q, wire v ∧ encode v = p +:+ q ∧ q ≠ "") →
  files !! aofPath config = Some (aof_file a +:+ encodes es1 +:+ p) →
  ∃ sv' b, start config (boot n files) = (Ok sv', b) ∧
    (is_Some (sv_aof sv') → Forall2 same_data (dbs_of sv) (dbs_of sv')).
Proof.
  intros (a' & es & Ha & Hf & Hw & Hr) Ha' Hes1 Hp Hfile. rewrite Ha in Ha'. injection Ha' as ->.
  rewrite (start_run config Haof), Hfile. cbn [default id from_option].
  destruct (io_call (S n)); [eexists _, _; split; [done|]; by intros []|].
  destruct (Hr (S (S n))) as (cur & w & Hrun & HF & _).
  assert (Hrun1 : ∃ cur1, replay_all replay_fn 0 (es ++ es1) (mkWorld (S (S n)) NewMultiDB) = (Ok cur1, w)).
  { rewrite replay_all_app, (bind_ok _ _ _ _ _ Hrun). destruct Hes1 as [->|(i & -> & Hi)]; [by eexists|].
    exists i. unfold replay_all. cbn [for_fold]. by rewrite (bind_ok _ _ _ _ _ (replay_entry_select _ _ _ _ Hi)). }
  destruct Hrun1 as [cur1 Hrun1].
  assert (Hw1 : Forall wire (es ++ es1)).
  { apply Forall_app. split; [done|]. destruct Hes1 as [->|(i & -> & Hi)]; [done|].
    constructor; [by apply selectEntry_wire|done]. }
  pose proof (AofRead_torn replay_fn (NewAof (S (S n)) (aof_file a +:+ encodes es1 +:+ p)) (es ++ es1) p
    (mkWorld (S (S n)) NewMultiDB)) as Hread. rewrite Hrun1 in Hread.
  assert (Hlog : replay_logged (NewAof (S (S n)) (aof_file a +:+ encodes es1 +:+ p)) (mkWorld (S (S n)) NewMultiDB) = (Ok (), w)).
  { unfold replay_logged, replay_aof. fold replay_fn. destruct Hread as [Hread|Hread]; [|done|done| |].
    - cbn. by rewrite Hf, concat_map_app, string_app_assoc.
    - by rewrite Hread.
    - by rewrite Hread. }
  rewrite Hlog. eexists _, _. split; [done|]. intros _.
  eapply list.Forall2_impl; [exact HF|]. by intros d d' [].
Qed.

Lemma killed_start x y files n :
  sys_ok x → durable (sys_sv x) → sys_step wakeups recoverable x y → killed_during x y files →
  ∃ sv' b, start config (boot n files) = (Ok sv', b) ∧
    (is_Some (sv_aof sv') →
     Forall2 same_data (dbs_of (sys_sv x)) (dbs_of sv') ∨ Forall2 same_data (dbs_of (sys_sv y)) (dbs_of sv')).
Proof.
  intros Hx Hd Hstep (a & a' & p & q & Ha & Ha' & Hpq & Hfile).
  pose proof (durable_step _ _ _ Hx Hd Hstep) as Hdy.
  pose proof (sys_ok_step _ _ _ _ Hx Hstep) as Hy.
  assert (Hbefore : ∀ es1 p', p = encodes es1 +:+ p' → (es1 = [] ∨ ∃ i, es1 = [selectEntry i] ∧ in_int i) →
    (p' = "" ∨ ∃ v q, wire v ∧ encode v = p' +:+ q ∧ q ≠ "") →
    ∃ sv' b, start config (boot n files) = (Ok sv', b) ∧
      (is_Some (sv_aof sv') → Forall2 same_data (dbs_of (sys_sv x)) (dbs_of sv') ∨
        Forall2 same_data (dbs_of (sys_sv y)) (dbs_of sv'))).
  { intros es1 p' -> Hes1 Hp'. destruct (start_behind (sys_sv x) n files a es1 p') as (sv' & b & Hrun & Hres);
      [done..|]. exists sv', b. split; [done|]. intros Hlog. left. by apply Hres. }
  destruct (step_logged wakeups recoverable x y Hx Hstep) as [Hsame|(a1 & i & v & Ha1 & Ha1' & Hi & Hw & Hsel)].
  { rewrite Ha, Ha' in Hsame. injection Hsame as ->.
    assert (p = "") as ->.
    { apply (f_equal String.length) in Hpq. rewrite !string_length_app in Hpq. destruct p; [done|cbn in Hpq; lia]. }
    apply (Hbefore [] ""); [done|by left|by left]. }
  rewrite Ha in Ha1. injection Ha1 as <-. rewrite Ha' in Ha1'. injection Ha1' as ->. cbn in Hpq.
  apply string_app_inj_l in Hpq. destruct (encodes_prefix _ _ _ Hpq) as (es1 & es2 & p' & Hes & Hp & Hp').
  assert (Hint : in_int i) by (unfold NumDatabases in Hi; int_lia).
  assert (Hsplit : es2 = [] ∨ (es1 = [] ∨ ∃ i, es1 = [selectEntry i] ∧ in_int i)).
  { revert Hes. unfold new_entries. destruct (decide _), es1 as [|e1 [|e2 es1]]; try (intros; right; by left); cbn.
    - intros [= _ Hnil]. by left.
    - intros [= <- _]. right. right. by exists i.
    - intros [= _ _ Hnil]. destruct es1; [left; by symmetry|done]. }
  assert (Hwes : Forall wire es2).
  { assert (Hall : Forall wire (new_entries (lastDB a) i v)) by (apply entries_wire; by apply new_entries_ok).
    rewrite Hes in Hall. apply Forall_app in Hall as [_ Hall]. exact Hall. }
  destruct Hsplit as [->|Hes1].
  - destruct Hp' as [->|(? & ? & ? & [=] & _)]. rewrite app_nil_r in Hes. subst es1.
    destruct (start_durable config Haof (sys_sv y) n files (with_entries i v a)) as (sv' & b & Hrun & Hres);
      [apply Hy|done|done|by rewrite Hfile, Hp, string_app_nil_r|].
    exists sv', b. split; [done|]. intros Hlog. right. by destruct (Hres Hlog).
  - apply (Hbefore es1 p'); [done|done|]. destruct Hp' as [->|(v' & es3 & q' & -> & Hv & Hq)]; [by left|right].
    apply list.Forall_cons in Hwes as [Hwv _]. by exists v', q'.
Qed.
End killed.
