(* ===== verification/Demo.v ===== *)
(** * Demo: a concrete environment, and small runs to evaluate on

    The clock advances by one second per reading, a [range] follows the order
    of [map_to_list], the disk never fails, nor does a write to the log. It satisfies the laws the theorems
    assume of the runtime. *)
From S2P Require Import Prelude Go Strconv Resp DataStruct PubSub PubSubFacts.
From S2P Require Import Database DbFacts ExpireCmds Handler Invariant Rdb RdbFacts Aof AofFacts Server.
From S2P Require Import Recovery System Durability.
From Stdlib Require Import Ascii.

#[export] Instance demo_env : GoEnv := {
  time_Now n := Z.of_nat n * Second;
  map_range K A _ _ n m := map_to_list m;
  io_call _ := None;
  log_write _ := None;
  float64 := Z;
  ParseFloat s := match Atoi s with (n, None) => Some n | _ => None end;
  float_neg t := t <? 0;
  float_pos t := 0 <? t;
  float_seconds t := t * Second;
  unicode_ToUpper s := s;
  unicode_ToLower s := s;
  unicode_EqualFold s t := String.eqb s t;
  Quote s := s;
}.

#[export] Instance demo_laws : GoEnvLaws demo_env.
Proof.
  split.
  - intros n n' Hn. cbn. unfold Second. lia.
  - intros. cbn. done.
  - intros s Hs. cbn in *. by apply String.eqb_eq in Hs.
Qed.

#[export] Instance demo_log_written : LogWritten demo_env.
Proof. by split. Qed.

(** A command as a client sends it. *)
Definition cmd (words : list string) : Value := vArray (map vBulk words).
Definition args (words : list string) : list Value := map vBulk words.

(** A server with an empty log, and the system after one client has connected
    and sent some commands. *)
Definition demo_server : Server := fresh_server 0 (Some (NewAof 0 "")) None ∅ "".

Definition demo_handle (words : list string) (cs : CS) : CS :=
  snd (handleValue 0 (cmd words) cs).

Definition demo_conn : CS := (demo_server, NewConn "").

(** An environment with one database, for the handlers. *)
Definition demo_sess (d : Database) : Sess := mkSess 0 d New.
