(* ===== verification/LogOrder.v ===== *)
(** * LogOrder: commands of several connections and the append-only file

    [processCommand] runs in the goroutine of each connection. The handler
    locks what it touches and the log has a mutex of its own, but nothing spans
    the two: between a handler and its log entry, others may run and log. Here
    a handler is one section, as are the entry and the count of changes. *)
From S2P Require Import Prelude Go Goroutine Strconv Resp DataStruct PubSub Database StringCmds Handler.
From S2P Require Import Rdb Aof AofFacts Server Durability Startup Demo.
From Stdlib Require Import Ascii.

Section commands.
Context `{GoEnv}.
Context (wakeups : nat).

Definition concurrentCommand (command : string) (args : list Value) (original : Value)
    (dbIndex : Z) : prog Server Value :=
  match table_get command RDBCommandHandlers with
  | Some rdbHandler => atomically (rdbHandler args)
  | None =>
      match handler_of wakeups command with
      | None => mret (vError ("ERR unknown command '" +:+ command +:+ "'"))
      | Some handler =>
          response ← atomically (on_world (with_DB dbIndex (handler args)));
          if negb (VType response =? SimpleError)%char && shouldPersist command then
            _ ← atomically (log_to_aof dbIndex original);
            _ ← atomically count_change;
            mret response
          else mret response
      end
  end.

(** Alone, it is [processCommand]. *)
Lemma concurrentCommand_alone command args original dbIndex s :
  alone (concurrentCommand command args original dbIndex) s =
  processCommand wakeups command args original dbIndex s.
Proof.
  unfold concurrentCommand, processCommand.
  destruct (table_get command RDBCommandHandlers) as [h|]; [apply alone_atomically|].
  destruct (handler_of wakeups command) as [h|]; [|done].
  rewrite alone_bind, !bind_eq, alone_atomically.
  destruct (on_world _ s) as [[v|e|e|] s1]; try done.
  destruct (_ && _); [|done].
  rewrite alone_bind, !bind_eq, alone_atomically.
  destruct (log_to_aof dbIndex original s1) as [[v'|e|e|] s2]; try done.
Qed.

(** ** What the log holds *)

(** A command of a connection: its name, arguments, wire form and database. *)
Record Job := mkJob { j_command : string; j_args : list Value; j_original : Value; j_db : Z }.

Definition run_job (j : Job) : prog Server Value :=
  concurrentCommand (j_command j) (j_args j) (j_original j) (j_db j).

(** The commands [processCommand] logs, going by their reply. *)
Definition job_logged (j : Job) (response : Value) : bool :=
  negb (VType response =? SimpleError)%char && shouldPersist (j_command j).

(** What the parser and SELECT ensure of a request that is not a SELECT. *)
Definition job_ok (j : Job) : Prop :=
  in_int (j_db j) ∧ 0 ≤ j_db j ∧ wire (j_original j) ∧ isSelectEntry (j_original j) = false.

(** How far a goroutine has come. *)
Inductive Stage :=
  | Fresh
  | Executed (response : Value)    (* the entry is still to be written *)
  | Logged (response : Value)      (* the change is still to be counted *)
  | Finished (response : Value).

Definition stage_prog (j : Job) (st : Stage) : prog Server Value :=
  match st with
  | Fresh => run_job j
  | Executed v =>
      _ ← atomically (log_to_aof (j_db j) (j_original j)); _ ← atomically count_change; mret v
  | Logged v => _ ← atomically count_change; mret v
  | Finished v => mret v
  end.

Definition past_log (j : Job) (st : Stage) : bool :=
  match st with
  | Fresh | Executed _ => false
  | Logged _ => true
  | Finished v => job_logged j v
  end.

(** The entries of commands logged one after the other. *)
Fixpoint log_entries (last : Z) (js : list Job) : list Value :=
  match js with
  | [] => []
  | j :: js => new_entries last (j_db j) (j_original j) ++ log_entries (j_db j) js
  end.

Fixpoint last_db (last : Z) (js : list Job) : Z :=
  match js with [] => last | j :: js => last_db (j_db j) js end.

Lemma log_entries_snoc last js j :
  log_entries last (js ++ [j]) =
  log_entries last js ++ new_entries (last_db last js) (j_db j) (j_original j).
Proof.
  revert last. induction js as [|j' js IH]; intros last; cbn; [by rewrite app_nil_r|].
  by rewrite IH, app_assoc.
Qed.

Lemma last_db_snoc last js j : last_db last (js ++ [j]) = j_db j.
Proof. revert last. induction js as [|j' js IH]; intros last; [done|apply IH]. Qed.

(** Reading it back. *)
Lemma replay_log_entries {S} (fn : Z → Value → M S ()) last cur js s :
  Forall job_ok js → last = cur ∨ last < 0 →
  replay_all fn cur (log_entries last js) s =
    (_ ← for_each (λ j, fn (j_db j) (j_original j)) js; mret (last_db cur js)) s.
Proof.
  intros Hjs. revert last cur s. induction Hjs as [|j js (Hin & Hpos & Hw & Hsel) Hjs IH];
    intros last cur s Hlast; [done|].
  cbn [log_entries for_each last_db]. rewrite replay_all_app.
  assert (Hone : ∀ s, replay_all fn cur (new_entries last (j_db j) (j_original j)) s =
    (_ ← fn (j_db j) (j_original j); mret (j_db j)) s).
  { intros s1. unfold new_entries, replay_all. destruct (decide (j_db j = last)) as [Heq|Hne]; cbn [for_fold].
    - assert (cur = j_db j) as -> by lia. unfold replay_entry. rewrite Hsel, !bind_eq.
      by destruct (fn _ _ s1) as [[] ?].
    - rewrite (bind_ok _ _ _ _ _ (replay_entry_select fn cur _ s1 Hin)). unfold replay_entry.
      rewrite Hsel, !bind_eq. by destruct (fn _ _ s1) as [[] ?]. }
  rewrite bind_eq, Hone, !bind_eq. destruct (fn _ _ s) as [[[]|e|e|] s1]; try done.
  cbn. rewrite IH by auto. by rewrite bind_eq.
Qed.

Lemma log_entries_wire last js : Forall job_ok js → Forall wire (log_entries last js).
Proof.
  intros Hjs. revert last. induction Hjs as [|j js (Hin & _ & Hw & _) Hjs IH]; intros last; [done|].
  cbn [log_entries]. apply Forall_app. split; [|apply IH]. unfold new_entries.
  destruct (decide _); [by constructor|]. constructor; [by apply selectEntry_wire|by constructor].
Qed.

(** ** The invariant of the pool *)
Definition stage_ok (j : Job) (st : Stage) : Prop :=
  match st with
  | Executed v | Logged v => job_logged j v = true
  | _ => True
  end.

Definition past (js : list (Job * Stage)) : list Job :=
  concat (map (λ '(j, st), if past_log j st then [j] else []) js).

Lemma past_insert js i j st st' : js !! i = Some (j, st) →
  past (<[i := (j, st')]> js) ++ (if past_log j st then [j] else []) ≡ₚ
  past js ++ (if past_log j st' then [j] else []).
Proof.
  intros Hi. unfold past. rewrite list_fmap_insert. apply concat_insert_perm.
  by rewrite list_lookup_fmap, Hi.
Qed.

(** A section of one goroutine. *)
Lemma rdb_not_persisted name h :
  table_get name RDBCommandHandlers = Some h → shouldPersist name = false.
Proof.
  intros Hh%table_get_In. unfold RDBCommandHandlers in Hh. rewrite !elem_of_cons in Hh.
  by destruct Hh as [[= -> _]|[[= -> _]|[[= -> _]|Hn%elem_of_nil]]].
Qed.

Lemma prog_step_atomically {S A B} (m : M S A) (f : A → prog S B) s p s' :
  prog_step (atomically m ≫= f) s = (Ok p, s') → ∃ x, m s = (Ok x, s') ∧ p = f x.
Proof. intros (x & s1 & Hm & [= <- <-])%bind_ok_inv. by exists x. Qed.

(** The log gains the command's entries in one stage only. *)
Lemma stage_step `{!LogWritten _} j st s p s' a : job_ok j → stage_ok j st → sv_aof s = Some a →
  prog_step (stage_prog j st) s = (Ok p, s') →
  ∃ st' a', p = stage_prog j st' ∧ stage_ok j st' ∧ sv_aof s' = Some a' ∧
    ((past_log j st' = past_log j st ∧ a' = a) ∨
     (past_log j st = false ∧ past_log j st' = true ∧
      a' = with_entries (j_db j) (j_original j) a)).
Proof.
  intros (Hin & _ & Hw & _) Hst Ha. destruct st as [|v|v|v]; cbn [stage_prog].
  - unfold run_job, concurrentCommand. destruct (table_get (j_command j) RDBCommandHandlers) as [h|] eqn:Hr.
    + intros Hstep. apply bind_ok_inv in Hstep as (v & s1 & Hrun & [= <- <-]).
      exists (Finished v), a. split_and!; [done|done|by rewrite (proj1 (rdb_handler_same _ _ _ _ _ _ Hr Hrun))|].
      left. cbn. unfold job_logged. by rewrite (rdb_not_persisted _ _ Hr), andb_false_r.
    + destruct (handler_of wakeups (j_command j)) as [h|] eqn:Hh.
      * intros (v & Hrun & ->)%prog_step_atomically.
        assert (sv_aof s' = Some a) as Ha'.
        { unfold on_world, zoom in Hrun. destruct (with_DB _ _ _) as [r w]. by injection Hrun as _ <-. }
        destruct (job_logged j v) eqn:Hlog; unfold job_logged in Hlog; rewrite Hlog.
        -- exists (Executed v), a. split_and!; [done|by unfold stage_ok, job_logged|done|by left].
        -- exists (Finished v), a. split_and!; [done|done|done|]. left. split; [|done]. exact Hlog.
      * intros [= <- <-]. exists Fresh, a. split_and!; [|done|done|by left].
        cbn. unfold run_job, concurrentCommand. by rewrite Hr, Hh.
  - intros (u & Hrun & ->)%prog_step_atomically. unfold log_to_aof in Hrun. rewrite Ha in Hrun.
    rewrite AofWrite_run in Hrun by done. injection Hrun as _ <-.
    exists (Logged v), (with_entries (j_db j) (j_original j) a).
    split_and!; [done|done|done|by right].
  - intros (u & [= _ <-] & ->)%prog_step_atomically. exists (Finished v), a. split_and!; [done|done|done|].
    left. by split.
  - intros [= <- <-]. exists (Finished v), a. split_and!; [done|done|done|by left].
Qed.

(** The log of a server whose goroutines are at stages [js]. *)
Definition log_inv (a0 : Aof) (js : list (Job * Stage)) (x : Server * list (prog Server Value)) : Prop :=
  snd x = map (λ '(j, st), stage_prog j st) js ∧
  Forall (λ '(j, st), job_ok j ∧ stage_ok j st) js ∧
  ∃ a ops, sv_aof (fst x) = Some a ∧
    aof_file a = aof_file a0 +:+ encodes (log_entries (lastDB a0) ops) ∧
    lastDB a = last_db (lastDB a0) ops ∧ ops ≡ₚ past js ∧ Forall job_ok ops.

Lemma log_inv_step `{!LogWritten _} a0 i js x x' : log_inv a0 js x → pool_step i x = (Ok (), x') →
  ∃ js', map fst js' = map fst js ∧ log_inv a0 js' x'.
Proof.
  destruct x as [s ps]. intros (Hps & Hjs & a & ops & Ha & Hfile & Hlast & Hops & Hok) Hstep. cbn in *.
  apply pool_step_run in Hstep as [[_ ->]|(p & p' & s' & Hp & Hstep & ->)].
  { exists js. split; [done|]. split_and!; [done..|]. by exists a, ops. }
  rewrite Hps, list_lookup_fmap in Hp. destruct (js !! i) as [[j st]|] eqn:Hi; [|done].
  injection Hp as <-. destruct (list.Forall_lookup_1 _ _ _ _ Hjs Hi) as [Hj Hst].
  destruct (stage_step j st s p' s' a Hj Hst Ha Hstep) as (st' & a' & -> & Hst' & Ha' & Hcase).
  exists (<[i := (j, st')]> js). split.
  { rewrite list_fmap_insert. apply list_insert_id. by rewrite list_lookup_fmap, Hi. }
  pose proof (past_insert js i j st st' Hi) as Hpast.
  split_and!; cbn [fst snd].
  - by rewrite Hps, list_fmap_insert.
  - by apply list.Forall_insert.
  - destruct Hcase as [[Heq ->]|(H1 & H2 & ->)].
    + exists a, ops. split_and!; [done|done|done| |done]. rewrite Heq in Hpast.
      rewrite Hops. symmetry. by apply Permutation_app_inv_r in Hpast.
    + eexists _, (ops ++ [j]). split_and!; [done| | | |].
      * unfold with_entries. cbn [aof_file]. rewrite Hfile, log_entries_snoc, concat_map_app, Hlast. by rewrite string_app_assoc.
      * cbn. by rewrite last_db_snoc.
      * rewrite H1, H2, app_nil_r in Hpast. by rewrite Hpast, Hops.
      * apply Forall_app. by split; [|constructor].
Qed.

Lemma log_inv_run `{!LogWritten _} a0 order : ∀ js x x', log_inv a0 js x → pool_run order x = (Ok (), x') →
  ∃ js', map fst js' = map fst js ∧ log_inv a0 js' x'.
Proof.
  induction order as [|i order IH]; intros js x x' Hx Hrun.
  - injection Hrun as <-. by exists js.
  - apply bind_ok_inv in Hrun as ([] & x1 & H1 & H2).
    destruct (log_inv_step a0 i js x x1 Hx H1) as (js1 & Hj1 & Hx1).
    destruct (IH js1 x1 x' Hx1 H2) as (js2 & Hj2 & Hx2). exists js2. split; [congruence|done].
Qed.

(** The commands whose replies say they were logged. *)
Definition acknowledged (jobs : list Job) (vs : list Value) : list Job :=
  concat (zip_with (λ j v, if job_logged j v then [j] else []) jobs vs).

Lemma past_finished js vs :
  map (λ '(j, st), stage_prog j st) js = map Done vs → past js = acknowledged (map fst js) vs.
Proof.
  revert vs. induction js as [|[j st] js IH]; intros [|v vs] Heq; try done.
  injection Heq as Hst Hjs. cbn [map fst]. unfold past, acknowledged in *. cbn [map concat zip_with].
  rewrite (IH vs Hjs). f_equal.
  assert (past_log j st = job_logged j v) as ->; [|done].
  destruct st; cbn in Hst; [|done|done|by injection Hst as ->].
  unfold run_job, concurrentCommand in Hst. cbn. unfold job_logged.
  destruct (table_get _ RDBCommandHandlers); [done|].
  destruct (handler_of wakeups (j_command j)); [done|]. by injection Hst as <-.
Qed.

(** C10: if no write to the append-only file fails ([LogWritten]), then however
    the goroutines of the connections interleave, when the commands are done the
    file reads back as the commands that changed the data and were acknowledged:
    each exactly once, whole, and against its own database. (Their order is
    another matter: see [log_reordered]. A write that fails is only printed by
    [processCommand], which acknowledges the command all the same: see
    [Fsync.failed_write_corrupts].) *)
Theorem log_complete `{!LogWritten _} {S} (fn : Z → Value → M S ()) order sv jobs sv' vs (t : S) :
  sv_aof sv = Some (NewAof 0 "") → Forall job_ok jobs →
  pool_run order (sv, map run_job jobs) = (Ok (), (sv', map Done vs)) →
  ∃ a ops, sv_aof sv' = Some a ∧ ops ≡ₚ acknowledged jobs vs ∧
    AofRead fn a t = for_each (λ j, fn (j_db j) (j_original j)) ops t.
Proof.
  intros Ha Hjobs Hrun.
  assert (Hstart : log_inv (NewAof 0 "") (map (λ j, (j, Fresh)) jobs) (sv, map run_job jobs)).
  { split_and!; cbn [fst snd].
    - by rewrite map_map.
    - apply list.Forall_fmap. by eapply list.Forall_impl.
    - exists (NewAof 0 ""), []. split_and!; [done|done|done| |done].
      unfold past. clear Hjobs Hrun. by induction jobs. }
  destruct (log_inv_run _ _ _ _ _ Hstart Hrun) as (js & Hjs & Hps & _ & a & ops & Ha' & Hfile & _ & Hops & Hok).
  exists a, ops. split; [done|]. split.
  - rewrite Hops. cbn [snd] in Hps. rewrite (past_finished js vs) by done.
    rewrite Hjs, map_map. cbn. by rewrite map_id.
  - rewrite (AofRead_entries fn a _ t Hfile) by (by apply log_entries_wire).
    rewrite bind_eq, replay_log_entries by (done || (right; cbn; lia)). rewrite bind_eq.
    destruct (for_each _ ops t) as [[[]|e|e|] t']; done.
Qed.
End commands.

(** Two clients set the same key. The second SET comes last, the log has it
    first, and a restart brings back the value that was overwritten. *)
Definition set_job (v : string) : Job :=
  mkJob "SET" (args ["k"; v]) (cmd ["SET"; "k"; v]) 0.

Definition value_of (w : World) : option string :=
  d ← DBs (w_mdb w) !! 0%nat; Store d !! "k".

Lemma log_reordered : ∃ order sv ps a,
  pool_run order (demo_server, map (run_job 0) [set_job "old"; set_job "new"]) = (Ok (), (sv, ps)) ∧
  ps = [Done vOK; Done vOK] ∧ sv_aof sv = Some a ∧
  value_of (sv_world sv) = Some "new" ∧
  value_of (snd (replay_aof a (mkWorld 0 NewMultiDB))) = Some "old".
Proof.
  exists [0; 1; 1; 1; 0; 0]%nat. eexists _, _, _. split; [vm_compute; reflexivity|].
  split; [reflexivity|]. split; [reflexivity|]. by vm_compute.
Qed.

Lemma log_complete_witness :
  Forall job_ok [set_job "old"; set_job "new"] ∧
  ∃ a ops, sv_aof (fst (snd (pool_run [0; 1; 1; 1; 0; 0]%nat
      (demo_server, map (run_job 0) [set_job "old"; set_job "new"])))) = Some a ∧
    ops ≡ₚ acknowledged [set_job "old"; set_job "new"] [vOK; vOK] ∧
    AofRead (λ i v, with_DB i (replayCommand v)) a (mkWorld 0 NewMultiDB) =
      for_each (λ j, with_DB (j_db j) (replayCommand (j_original j))) ops (mkWorld 0 NewMultiDB).
Proof.
  assert (Hok : Forall job_ok [set_job "old"; set_job "new"]) by (by repeat constructor).
  split; [done|].
  apply (log_complete 0 (λ i v, with_DB i (replayCommand v)) [0; 1; 1; 1; 0; 0]%nat demo_server
    [set_job "old"; set_job "new"] _ [vOK; vOK] (mkWorld 0 NewMultiDB)); [done|done|].
  vm_compute. reflexivity.
Defined.
