(* ===== verification/SystemProps.v ===== *)
(** * SystemProps: what the server guarantees as a whole *)
From S2P Require Import Prelude Go Strconv Resp DataStruct PubSub PubSubFacts.
From S2P Require Import Database DbFacts StringCmds ExpireCmds Handler Invariant Rdb RdbFacts.
From S2P Require Import Aof AofFacts Server.
From S2P Require Import Recovery System Durability Replies Demo.
From Stdlib Require Import Ascii.

Section durability.
Context `{GoEnvLaws} `{!LogWritten E}.
Context (wakeups : nat).

(** Start a server with an empty append-only file, let any number of
    clients connect, send any requests but EXPIRE, PEXPIRE and SPOP in any
    order, and stop it at any point between two requests: replaying the file
    over empty databases, as the next start does, ends without an error and
    gives every one of the sixteen databases the strings, lists, sets and
    hashes it had. *)
Theorem aof_recovers n rdb files pass x n' :
  reachable wakeups recoverable (fresh_server n (Some (NewAof 0 "")) rdb files pass) x →
  ∃ a w, sv_aof (sys_sv x) = Some a ∧
    replay_aof a (mkWorld n' NewMultiDB) = (Ok (), w) ∧
    Forall2 same_data (dbs_of (sys_sv x)) (DBs (w_mdb w)).
Proof.
  intros Hr. destruct (reachable_durable _ _ _ _ _ _ _ Hr) as (a & es & Ha & Hf & Hw & Hrun).
  destruct (Hrun n') as (cur & w & Hall & HF & _). exists a, w. split; [done|]. split.
  - unfold replay_aof. rewrite (AofRead_entries _ _ _ _ Hf Hw).
    by rewrite (bind_ok _ _ _ _ _ Hall).
  - eapply list.Forall2_impl; [exact HF|]. by intros d d' [].
Qed.
End durability.

(** The system after one client has sent a SELECT and two writes. *)
Definition demo_after : CS :=
  demo_handle ["RPUSH"; "l"; "a"; "b"] (demo_handle ["select"; "3"] (demo_handle ["Set"; "k"; "v"] demo_conn)).

Lemma demo_step words cs :
  wire (cmd words) → recoverable (cmd words) → sv_fits (fst cs) →
  fst (handleValue 0 (cmd words) cs) = Ok () →
  reachable 0 recoverable demo_server (mkSystem (fst cs) {[ 0%nat := snd cs ]}) →
  reachable 0 recoverable demo_server
    (mkSystem (fst (demo_handle words cs)) {[ 0%nat := snd (demo_handle words cs) ]}).
Proof.
  intros Hw Hrec Hfit Hok Hr. eapply reach_step; [exact Hr|].
  replace {[ 0%nat := snd (demo_handle words cs) ]}
    with (<[0%nat := snd (demo_handle words cs)]> {[ 0%nat := snd cs ]} : gmap nat Conn)
    by apply insert_singleton_eq.
  eapply (step_request _ _ _ _ 0%nat (snd cs) (encode (cmd words)) (cmd words) "").
  - apply lookup_singleton_eq.
  - rewrite <-(string_app_nil_r (encode (cmd words))). by apply Parse_encode.
  - done.
  - done.
  - unfold demo_handle. destruct cs as [sv c]. cbn [fst snd] in *.
    destruct (handleValue 0 (cmd words) (sv, c)) as [r [sv' c']]. cbn in Hok. by subst.
Qed.

Lemma cmd_wire words :
  valueSize * zlen words ≤ maxAlloc → Forall (λ s, slen s ≤ maxAlloc) words → wire (cmd words).
Proof.
  intros Hlen Hw. constructor; [by rewrite length_map|].
  apply list.Forall_fmap. eapply list.Forall_impl; [exact Hw|]. intros s Hs. by constructor.
Qed.

(** A decidable goal on concrete data, by evaluation. *)
Ltac compute_decide := apply (bool_decide_unpack _); vm_compute; exact I.

Definition demo_system : System :=
  mkSystem (fst demo_after) {[ 0%nat := snd demo_after ]}.

Lemma demo_reachable : reachable 0 recoverable demo_server demo_system.
Proof.
  unfold demo_system, demo_after.
  do 3 (apply demo_step;
    [apply cmd_wire; [done|compute_decide]|unfold recoverable; cbn [Arr cmd]; compute_decide
    |compute_decide|by vm_compute|]).
  eapply reach_step; [apply reach_start|].
  apply (step_connect _ _ demo_server ∅ 0%nat). apply lookup_empty.
Qed.

Lemma aof_recovers_witness :
  dbs_of (sys_sv demo_system) !! 0%nat = Some (set_Store <["k" := "v"]> newDatabase) ∧
  ∃ a w, sv_aof (sys_sv demo_system) = Some a ∧
    replay_aof a (mkWorld 7 NewMultiDB) = (Ok (), w) ∧
    Forall2 same_data (dbs_of (sys_sv demo_system)) (DBs (w_mdb w)).
Proof.
  split; [by vm_compute|]. exact (aof_recovers 0 0 None ∅ "" demo_system 7 demo_reachable).
Defined.

(** ** Safety *)
Section safety.
Context `{GoEnvLaws}.
Context (wakeups : nat).

(** It returns, or is still blocked: no panic, no error. *)
Definition survives {S A} (m : M S A) (s : S) : Prop := wp (λ _, True) m (λ _ _, True) s.

Lemma wp_survives {S A} stuck (m : M S A) Q s : wp stuck m Q s → survives m s.
Proof. unfold survives. by apply wp_imp. Qed.

(** C3: whatever well-formed requests the clients of a server send, in
    whatever order they are handled, no request, no forwarded message, no
    cleanup of a closed connection and no sweep of expired keys panics (a
    panic would end the process, all clients with it). *)
Theorem server_never_panics allowed n aof rdb files pass x id c :
  reachable wakeups allowed (fresh_server n aof rdb files pass) x →
  sv_fits (sys_sv x) → sys_conns x !! id = Some c →
  (∀ input v rest, Parse input = (Ok v, rest) → survives (handleValue wakeups v) (sys_sv x, c)) ∧
  (∀ ch, survives (forward ch) (sys_sv x, c)) ∧
  survives disconnect (sys_sv x, c) ∧
  survives (on_world SweepAll) (sys_sv x).
Proof.
  intros Hr Hfit Hc. pose proof (reachable_ok _ _ _ _ _ _ _ _ Hr) as Hok.
  pose proof (so_conns _ Hok id c Hc) as Hco. split_and!.
  - intros input v rest Hp. eapply wp_survives, (conn_handleValue _ _ True); [done|done| |by right].
    by eapply Parse_wire.
  - intros ch. by eapply wp_survives, (conn_forward _ True).
  - destruct (disconnect_run _ _ _ Hco) as (sv' & Hrun & _). unfold survives, wp. by rewrite Hrun.
  - apply wp_zoom. by eapply wp_survives, wp_SweepAll, so_world.
Qed.

(** C6: in every state the server can reach, no key holds an empty list, set
    or hash, every connection works on one of the sixteen databases, the
    channels a connection is subscribed to are open and registered with the
    broker, and no two connections share one. *)
Theorem server_invariant allowed n aof rdb files pass x :
  reachable wakeups allowed (fresh_server n aof rdb files pass) x →
  length (dbs_of (sys_sv x)) = NumDatabases ∧ Forall data_wf (dbs_of (sys_sv x)) ∧
  (∀ id c, sys_conns x !! id = Some c →
     0 ≤ dbIndex c < Z.of_nat NumDatabases ∧
     ∀ name ch, c_subs c !! name = Some ch →
       registered (sv_ps (sys_sv x)) name ch ∧
       (∃ buf, chans (sv_ps (sys_sv x)) !! ch = Some (mkChan buf false)) ∧
       ∀ id' c' name', sys_conns x !! id' = Some c' → c_subs c' !! name' = Some ch →
         id' = id ∧ name' = name).
Proof.
  intros Hr. destruct (reachable_ok _ _ _ _ _ _ _ _ Hr) as [[Hlen Hwf Hps] Hconns].
  split; [done|]. split; [done|]. intros id c Hc. destruct (Hconns id c Hc) as [_ Hi Hsubs Hoth].
  split; [done|]. intros name ch Hsub. pose proof (Hsubs _ _ Hsub) as Hreg.
  split; [done|]. destruct Hreg as (ss & Hss & Hin).
  split; [by apply (ps_open _ Hps name ss)|]. intros id' c' name' Hc' Hsub'.
  destruct (Hconns id' c' Hc') as [_ _ Hsubs' _].
  destruct (Hsubs' _ _ Hsub') as (ss' & Hss' & Hin').
  assert (name' = name) as -> by (by eapply (ps_unique _ Hps)). split; [|done].
  destruct (decide (id' = id)) as [|Hne]; [done|]. exfalso.
  destruct (Hoth name ch) as [_ Hno]; [by exists id', c'|done].
Qed.
End safety.

Lemma server_never_panics_witness :
  sys_conns demo_system !! 0%nat = Some (snd demo_after) ∧
  survives (handleValue 0 (cmd ["LRANGE"; "l"; "0"; "-1"])) (sys_sv demo_system, snd demo_after).
Proof.
  split; [done|].
  apply (proj1 (server_never_panics 0 recoverable 0 (Some (NewAof 0 "")) None ∅ "" demo_system 0%nat
    (snd demo_after) demo_reachable ltac:(compute_decide) ltac:(done))
    (encode (cmd ["LRANGE"; "l"; "0"; "-1"])) _ "").
  by vm_compute.
Defined.

Lemma server_invariant_witness :
  sys_conns demo_system !! 0%nat = Some (snd demo_after) ∧ dbIndex (snd demo_after) = 3 ∧
  Forall data_wf (dbs_of (sys_sv demo_system)).
Proof.
  split; [done|]. split; [by vm_compute|].
  apply (server_invariant 0 recoverable 0 (Some (NewAof 0 "")) None ∅ "" demo_system demo_reachable).
Defined.

(** ** Authentication *)
Section auth.
Context `{GoEnv}.
Context (wakeups : nat).

(** C22: with a password set, a connection that has not presented it changes
    nothing: whatever it sends, the whole server (data, broker, files, log)
    stays as it was, the connection keeps its database and its
    subscriptions, and gets exactly one reply. It becomes authenticated only
    by an AUTH with the password, and every other reply is an error. *)
Theorem unauthenticated_harmless v sv c r sv' c' :
  sv_requirePass sv ≠ "" → authenticated c = false →
  handleValue wakeups v (sv, c) = (r, (sv', c')) →
  r = Ok () ∧ sv' = sv ∧ dbIndex c' = dbIndex c ∧ c_subs c' = c_subs c ∧
  ∃ reply, c_out c' = c_out c ++ [reply] ∧
    if authenticated c' then
      reply = vOK ∧ ∃ auth pass, Arr v = [auth; pass] ∧
        ToUpper (Str auth) = "AUTH" ∧ Str pass = sv_requirePass sv
    else is_error reply = true.
Proof.
  intros Hpass Hauth. unfold handleValue.
  assert (Herr : ∀ msg, write (vError msg) (sv, c) = (r, (sv', c')) →
    r = Ok () ∧ sv' = sv ∧ dbIndex c' = dbIndex c ∧ c_subs c' = c_subs c ∧
    ∃ reply, c_out c' = c_out c ++ [reply] ∧
      if authenticated c' then
        reply = vOK ∧ ∃ auth pass, Arr v = [auth; pass] ∧
          ToUpper (Str auth) = "AUTH" ∧ Str pass = sv_requirePass sv
      else is_error reply = true).
  { intros msg [= <- <- <-]. cbn. rewrite Hauth. split_and!; [done..|]. by eexists. }
  destruct (Arr v) as [|auth args] eqn:Harr; [rewrite orb_true_r; apply Herr|].
  cbn [length Nat.eqb]. rewrite orb_false_r. destruct (negb _); [apply Herr|].
  destruct (String.eqb_spec (ToUpper (Str auth)) "AUTH") as [Hcmd|_].
  2:{ rewrite gets_bind. cbn [snd]. rewrite Hauth. apply Herr. }
  unfold handleAuth.
  destruct args as [|pass [|]]; rewrite bind_eq, gets_bind; cbn [fst];
    rewrite (proj2 (String.eqb_neq _ "")) by done.
  1, 3: intros [= <- <- <-]; split_and!; try done; by eexists.
  destruct (String.eqb_spec (Str pass) (sv_requirePass sv)) as [Heq|_]; cbn [negb];
    intros [= <- <- <-]; split_and!; try done; eexists; (split; [done|]); [|done].
  cbn. split; [done|]. by exists auth, pass.
Qed.
End auth.

Lemma unauthenticated_harmless_witness :
  let sv := fresh_server 0 None None ∅ "secret" in
  let c := NewConn "secret" in
  let out := handleValue 0 (cmd ["SET"; "k"; "v"]) (sv, c) in
  authenticated c = false ∧ fst (snd out) = sv ∧ authenticated (snd (snd out)) = false.
Proof.
  cbn zeta. split; [done|].
  set (out := handleValue 0 _ _).
  destruct (unauthenticated_harmless 0 (cmd ["SET"; "k"; "v"])
    (fresh_server 0 None None ∅ "secret") (NewConn "secret") (fst out)
    (fst (snd out)) (snd (snd out)) ltac:(done) ltac:(done) ltac:(done)) as (_ & Hsv & _).
  split; [exact Hsv|done].
Defined.

(** ** The end of a connection *)
Section termination.
Context `{GoEnvLaws}.
Context (wakeups : nat) (sent : nat → bool).

(** The states in which the loop of a connection parses its next request, and
    what is left of the input there. *)
Inductive served (cs : CS) (input : string) : CS → string → Prop :=
  | served_start : served cs input cs input
  | served_next cs1 input1 v rest cs2 :
      served cs input cs1 input1 → Parse input1 = (Ok v, rest) →
      handleValue wakeups v cs1 = (Ok (), cs2) → served cs input cs2 rest.

Lemma served_first cs input v rest cs1 cs2 input2 :
  Parse input = (Ok v, rest) → handleValue wakeups v cs = (Ok (), cs1) →
  served cs1 rest cs2 input2 → served cs input cs2 input2.
Proof.
  intros Hp Hv. induction 1; [by eapply served_next; [apply served_start|..]|by eapply served_next].
Qed.

(** How the loop ends: the connection is closed and its subscriptions are gone;
    or the parser panics; or a blocking pop is still waiting. *)
Definition loop_ends (cs : CS) (input : string) (out : res () * CS) : Prop :=
  match out with
  | (Ok _, (sv', c')) =>
      world_ok (sv_world sv') ∧ ∀ name ch, c_subs c' !! name = Some ch → ¬ registered (sv_ps sv') name ch
  | (Err _, _) => False
  | (Panic p, cs') => ∃ rest, served cs input cs' rest ∧ fst (Parse rest) = Panic p
  | (NoFuel, cs') => ∃ cs1 input1 v rest, served cs input cs1 input1 ∧ Parse input1 = (Ok v, rest) ∧
      blocking_request v = true ∧ handleValue wakeups v cs1 = (NoFuel, cs')
  end.

Lemma loop_ends_first cs input v rest cs1 out :
  Parse input = (Ok v, rest) → handleValue wakeups v cs = (Ok (), cs1) →
  loop_ends cs1 rest out → loop_ends cs input out.
Proof.
  intros Hp Hv. destruct out as [[u|e|p|] cs']; [done|done|..].
  - intros (rest' & Hs & Hr). exists rest'. split; [by eapply served_first|done].
  - intros (cs2 & input2 & v2 & rest2 & Hs & Hrest). exists cs2, input2, v2, rest2.
    split; [by eapply served_first|done].
Qed.

Lemma disconnect_ends others cs input : conn_ok others cs → loop_ends cs input (disconnect cs).
Proof.
  destruct cs as [sv c]. intros Hok. destruct (disconnect_run others sv c Hok) as (sv' & -> & Hw & _ & Hsubs).
  by split.
Qed.

(** C28: every connection comes to its end. Whatever bytes the client sends, in
    however many requests, the loop needs at most one round more than the input
    has bytes ([handleConnection] has that many), and more change nothing. When it
    is over, be it at the end of the input, at bytes that are no value or at a
    reply that cannot be written, the broker has none of the connection's
    subscriptions left. There are two other outcomes: a length the parser cannot
    allocate has panicked it ([bad_length_panics]), or a BLPOP or BRPOP still
    waits; every other request has returned. The one assumption is that no stored
    list gets longer than an [int] can count. *)
Theorem connection_loop_terminates others fuel input cs :
  conn_ok others cs → (∀ cs' rest, served cs input cs' rest → sv_fits (fst cs')) →
  (String.length input < fuel)%nat →
  connection_loop wakeups sent fuel input cs = handleConnection wakeups sent input cs ∧
  loop_ends cs input (handleConnection wakeups sent input cs).
Proof.
  intros Hok Hfit Hlt. assert (Hgen : ∀ f1 f2 input cs,
    (String.length input < f1)%nat → (String.length input < f2)%nat →
    connection_loop wakeups sent f1 input cs = connection_loop wakeups sent f2 input cs).
  { clear. induction f1 as [|f1 IH]; intros [|f2] input cs H1 H2; try lia. cbn [connection_loop].
    destruct (Parse input) as [[v|e|p|] rest] eqn:Hp; try done.
    apply Parse_consumes in Hp. rewrite !gets_bind, !bind_eq.
    destruct (handleValue wakeups v cs) as [[[]| | |] cs']; try done.
    rewrite !gets_bind. destruct (_ && _); [done|]. apply IH; lia. }
  split; [unfold handleConnection; apply Hgen; lia|]. clear Hgen Hlt fuel.
  unfold handleConnection. set (fuel := (1 + String.length input)%nat).
  assert (Hlt : (String.length input < fuel)%nat) by lia. clearbody fuel. revert input cs Hok Hfit Hlt.
  induction fuel as [|fuel IH]; intros input cs Hok Hfit Hlt; [lia|]. cbn [connection_loop].
  pose proof (Parse_total input) as Htot.
  destruct (Parse input) as [[v|e|p|] rest] eqn:Hp; [|by eapply disconnect_ends| |done].
  2:{ exists input. split; [apply served_start|by rewrite Hp]. }
  rewrite gets_bind, bind_eq.
  pose proof (conn_handleValue wakeups others (blocking_request v = true) v cs Hok
    (Hfit _ _ (served_start _ _)) (Parse_wire _ _ _ Hp)) as Hwp.
  unfold wp in Hwp. destruct (handleValue wakeups v cs) as [[[]|e|p|] cs1] eqn:Hv.
  - rewrite gets_bind. assert (Hok1 : conn_ok others cs1) by (apply Hwp; destruct (blocking_request v); auto).
    destruct (_ && _); eapply (loop_ends_first _ _ _ _ _ _ Hp Hv); [by eapply disconnect_ends|].
    apply IH; [done| |apply Parse_consumes in Hp; lia].
    intros cs2 rest2 Hs. apply (Hfit cs2 rest2). by eapply served_first.
  - apply Hwp. destruct (blocking_request v); auto.
  - destruct Hwp. destruct (blocking_request v); auto.
  - exists cs, input, v, rest. split_and!; [apply served_start|done| |done].
    apply Hwp. destruct (blocking_request v); auto.
Qed.
End termination.

(** ** Replies *)
Section replies.
Context `{GoEnv}.
Context (wakeups : nat).

(** C25: whatever a client requests, every value the server writes to it is a
    value of the protocol whose status and error texts hold no line end, and whose
    numbers are [int]s unless they count what is in memory (the requests of
    [counting_request], LASTSAVE among them). Such a value, if its lengths are
    those of slices and its counts are [int]s, is read back by the client as
    exactly itself, whatever follows it. And every request but SUBSCRIBE and
    UNSUBSCRIBE gets exactly one reply. The client must not put a line end into the
    name of a command or of a subcommand of COMMAND, and the operating system none
    into its errors. *)
Theorem replies_typed v cs r cs' :
  (∀ n e, io_call n = Some e → LF ∉ bytes e) → plain_request v →
  handleValue wakeups v cs = (r, cs') →
  ∃ new, c_out (snd cs') = c_out (snd cs) ++ new ∧
    Forall (λ w, shape (λ n, counting_request v = false → in_int n) w ∧
      (sized w = true → shape in_int w → ∀ rest, Parse (encode w +:+ rest) = (Ok w, rest))) new ∧
    (subscription_request v = false → r = Ok () → length new = 1%nat).
Proof.
  intros Hos Hp Hrun.
  assert (Hcount : counting_request v = false ∨ ∀ n, counting_request v = false → in_int n)
    by (destruct (counting_request v); [by right|by left]).
  destruct (handleValue_outs (λ n Hn _, Hn) wakeups Hos v Hp Hcount cs r cs' Hrun) as (new & Ho & Hs & Hk).
  exists new. split; [done|]. split.
  - eapply list.Forall_impl; [exact Hs|]. intros w Hw. split; [done|]. intros Hsm Hint rest.
    apply Parse_encode. by apply shape_wire.
  - intros Hsub ->. by rewrite Hsub in Hk.
Qed.
End replies.

Lemma replies_typed_witness :
  plain_request (cmd ["LRANGE"; "l"; "0"; "x"]) ∧
  ∃ new, c_out (snd (demo_handle ["LRANGE"; "l"; "0"; "x"] demo_conn)) = [] ++ new ∧
    Forall (λ w, shape (λ n, false = false → in_int n) w ∧
      (sized w = true → shape in_int w → ∀ rest, Parse (encode w +:+ rest) = (Ok w, rest))) new ∧
    (false = false → Ok () = Ok () → length new = 1%nat).
Proof.
  assert (Hp : plain_request (cmd ["LRANGE"; "l"; "0"; "x"])).
  { split; [by apply plain_LF|]. done. }
  split; [exact Hp|].
  apply (replies_typed 0 (cmd ["LRANGE"; "l"; "0"; "x"]) demo_conn (Ok ())); [done|exact Hp|].
  vm_compute. reflexivity.
Defined.

(** A connection that subscribes to a channel and is closed. *)
Definition demo_input : string := encode (cmd ["SUBSCRIBE"; "news"]).

Lemma connection_loop_terminates_witness :
  (String.length demo_input < 100)%nat ∧
  connection_loop 0 (λ _, true) 100 demo_input demo_conn = handleConnection 0 (λ _, true) demo_input demo_conn ∧
  loop_ends 0 demo_conn demo_input (handleConnection 0 (λ _, true) demo_input demo_conn).
Proof.
  assert (Hlen : (String.length demo_input < 100)%nat) by (vm_compute; lia).
  split; [exact Hlen|].
  apply (connection_loop_terminates 0 (λ _, true) (λ _ _, False) 100 demo_input demo_conn); [| |exact Hlen].
  - split; [apply (so_world (mkSystem demo_server ∅)), sys_ok_fresh|by vm_compute|intros name ch Hs; by vm_compute in Hs|done].
  - assert (Hall : ∀ cs' rest, served 0 demo_conn demo_input cs' rest →
      (cs', rest) ∈ [(demo_conn, demo_input); (demo_handle ["SUBSCRIBE"; "news"] demo_conn, "")]).
    { intros cs' rest. induction 1 as [|cs1 input1 v rest cs2 _ IH Hp Hv]; [left|].
      apply elem_of_cons in IH as [[= -> ->]|IH].
      - vm_compute in Hp. injection Hp as <- <-. vm_compute in Hv. injection Hv as <-. right. left.
      - apply list_elem_of_singleton in IH as [= -> ->]. by vm_compute in Hp. }
    intros cs' rest Hs. apply Hall in Hs. rewrite !elem_of_cons in Hs.
    destruct Hs as [[= -> _]|[[= -> _]|Hn%elem_of_nil]]; [| |done].
    + repeat constructor; compute_decide.
    + apply (bool_decide_unpack _). vm_compute. exact I.
Defined.
