(* ===== verification/Fsync.v ===== *)
(** * Fsync: the append-only file, its disk, and writes that fail
    (src/pkg/persistence/aof.go)

    [Aof] has the bytes of the file as the process sees them. Here the goroutine
    of [syncLoop] forces the bytes to the disk from time to time, a power failure
    may take what was not forced, and the file can be closed. *)
From S2P Require Import Prelude Go Strconv Resp DataStruct PubSub Database ExpireCmds Config.
From S2P Require Import Aof AofFacts Server Durability Demo SystemProps.
From Stdlib Require Import Ascii.

(** [Aof], with what the operating system knows of the file: its bytes, and how
    many of them are on the disk. *)
Record LogFile := mkLogFile {
  lf_tick : nat;          (* serial number of the next call to the system *)
  lf_data : string;
  lf_synced : nat;
  lf_open : bool;
  lf_lastDB : Z;
  lf_fsync : string
}.

(** The interval of [syncLoop]; [None]: the goroutine ends, or never starts. *)
Definition syncInterval (fsync : string) : option Z :=
  if String.eqb fsync Always then Some (100 * Millisecond)
  else if String.eqb fsync EverySec then Some Second
  else None.

Section ops.
Context `{GoEnv}.

(** [NewAof] on a file with some content, part of it on the disk. *)
Definition OpenLog (fsync content : string) (synced tick : nat) : LogFile :=
  mkLogFile tick content synced true (-1) fsync.

(** [os.File.Write]. *)
Definition lf_Write (s : string) : M LogFile () := λ f,
  if negb (lf_open f) then (Err (errorf "file already closed"), f) else
  let next s := mkLogFile (S (lf_tick f)) (lf_data f +:+ s) (lf_synced f) (lf_open f) (lf_lastDB f)
                  (lf_fsync f) in
  match log_write (lf_tick f) with
  | None => (Ok (), next s)
  | Some (k, e) => (Err (errorf e), next (str_take k s))
  end.

(** [writer.Write(v)], as in [Aof]. *)
Definition lf_write_value (v : Value) : M LogFile () := λ f,
  match Write v (mkWriter "" "") with
  | (Ok _, w) => lf_Write (w_out w) f
  | (Err e, w) => (_ ← lf_Write (w_out w); raise e) f
  | (Panic p, _) => (Panic p, f)
  | (NoFuel, _) => (NoFuel, f)
  end.

Definition set_lastDB (dbIndex : Z) : M LogFile () := modify (λ f,
  mkLogFile (lf_tick f) (lf_data f) (lf_synced f) (lf_open f) dbIndex (lf_fsync f)).

(** [Aof.Write]. *)
Definition LogWrite (dbIndex : Z) (value : Value) : M LogFile () :=
  last ← gets lf_lastDB;
  _ ← (if bool_decide (dbIndex ≠ last) then
         _ ← lf_write_value (selectEntry dbIndex);
         set_lastDB dbIndex
       else mret ());
  lf_write_value value.

(** One tick of [syncLoop]; a failed [Sync] is logged. *)
Definition sync_tick : M LogFile () := λ f,
  match syncInterval (lf_fsync f), lf_open f with
  | Some _, true =>
      let next n := mkLogFile (S (lf_tick f)) (lf_data f) n (lf_open f) (lf_lastDB f) (lf_fsync f) in
      match io_call (lf_tick f) with
      | None => (Ok (), next (String.length (lf_data f)))
      | Some _ => (Ok (), next (lf_synced f))
      end
  | _, _ => (Ok (), f)
  end.

(** [Aof.Close]: it does not force anything to the disk. *)
Definition CloseLog : M LogFile () := λ f,
  let f' := mkLogFile (S (lf_tick f)) (lf_data f) (lf_synced f) false (lf_lastDB f) (lf_fsync f) in
  match io_call (lf_tick f) with
  | None => (Ok (), f')
  | Some e => (Err (errorf e), f')
  end.

(** [processCommand]: an error of [Write] is logged, and the client gets the
    reply of the handler all the same. *)
Definition log_ignoring (dbIndex : Z) (value : Value) : M LogFile () := λ f,
  match LogWrite dbIndex value f with
  | (Err _, f') => (Ok (), f')
  | r => r
  end.

(** ** Histories of a log *)
Inductive LogEvent :=
  | Append (dbIndex : Z) (value : Value)
  | SyncTick.

Definition log_event (e : LogEvent) : M LogFile () :=
  match e with Append dbIndex value => LogWrite dbIndex value | SyncTick => sync_tick end.
Definition log_run (evs : list LogEvent) : M LogFile () := for_each log_event evs.

Definition event_ok (e : LogEvent) : Prop :=
  match e with Append dbIndex value => in_int dbIndex ∧ wire value | SyncTick => True end.

(** The entries a history appends. *)
Fixpoint appended (last : Z) (evs : list LogEvent) : list Value :=
  match evs with
  | [] => []
  | Append dbIndex value :: evs => new_entries last dbIndex value ++ appended dbIndex evs
  | SyncTick :: evs => appended last evs
  end.

(** ** What is in the file *)
Lemma lf_write_value_ok v f f' : wire v → lf_write_value v f = (Ok (), f') →
  lf_data f' = lf_data f +:+ encode v ∧ lf_synced f' = lf_synced f ∧ lf_open f' = lf_open f ∧
  lf_lastDB f' = lf_lastDB f ∧ lf_fsync f' = lf_fsync f.
Proof.
  intros Hv. unfold lf_write_value. rewrite (Write_run v (mkWriter "" "") Hv). unfold lf_Write.
  destruct (negb (lf_open f)); [done|]. destruct (log_write (lf_tick f)) as [[k e]|]; [done|].
  by intros [= <-].
Qed.

(** [f'] is [f] after the entries [es] have been appended. *)
Record extends (es : list Value) (f f' : LogFile) : Prop := {
  ext_data : lf_data f' = lf_data f +:+ encodes es;
  ext_synced : (lf_synced f ≤ lf_synced f')%nat;
  ext_bound : (lf_synced f' ≤ String.length (lf_data f'))%nat;
  ext_open : lf_open f' = lf_open f;
  ext_fsync : lf_fsync f' = lf_fsync f;
}.

Lemma extends_trans es es' f f1 f2 : extends es f f1 → extends es' f1 f2 → extends (es ++ es') f f2.
Proof.
  intros [D1 S1 B1 O1 F1] [D2 S2 B2 O2 F2]. split; [|lia|done|congruence..].
  by rewrite D2, D1, concat_map_app, string_app_assoc.
Qed.

Lemma extends_write es f f' : (lf_synced f ≤ String.length (lf_data f))%nat →
  lf_data f' = lf_data f +:+ encodes es → lf_synced f' = lf_synced f → lf_open f' = lf_open f →
  lf_fsync f' = lf_fsync f → extends es f f'.
Proof.
  intros Hb Hd Hs Ho Hf. split; [done|lia| |done..]. rewrite Hd, Hs, string_length_app. lia.
Qed.

Lemma LogWrite_appends dbIndex v f f' : in_int dbIndex → wire v → LogWrite dbIndex v f = (Ok (), f') →
  lf_data f' = lf_data f +:+ encodes (new_entries (lf_lastDB f) dbIndex v) ∧
  lf_lastDB f' = dbIndex ∧ lf_synced f' = lf_synced f ∧ lf_open f' = lf_open f ∧
  lf_fsync f' = lf_fsync f.
Proof.
  intros Hi Hv. unfold LogWrite. rewrite (bind_ok _ _ _ (lf_lastDB f) f) by done.
  unfold new_entries. destruct (decide (dbIndex = lf_lastDB f)) as [Heq|Hne].
  - rewrite bool_decide_false by tauto. rewrite (bind_ok _ _ _ () f) by done.
    intros (Hd & Hs & Ho & Hl & Hf)%lf_write_value_ok; [|done]. rewrite concat_map_single.
    split_and!; congruence.
  - rewrite bool_decide_true by done.
    intros ([] & f1 & H1 & H2)%bind_ok_inv. apply bind_ok_inv in H1 as ([] & f0 & H0 & H1).
    injection H1 as <-. apply lf_write_value_ok in H0 as (D1 & S1 & O1 & L1 & F1); [|by apply selectEntry_wire].
    apply lf_write_value_ok in H2 as (D2 & S2 & O2 & L2 & F2); [|done].
    cbn in D2, S2, O2, L2, F2. split_and!; [|congruence..]. by rewrite D2, D1, concat_map_cons, concat_map_single, string_app_assoc.
Qed.

(** On an open file, it is the operation of [Aof], failures included. *)
Definition process_view (f : LogFile) : Aof := mkAof (lf_data f) (lf_lastDB f) (lf_tick f).

Lemma lf_write_value_agrees v f r f' : lf_open f = true → lf_write_value v f = (r, f') →
  write_value v (process_view f) = (r, process_view f') ∧ lf_open f' = true.
Proof.
  intros Ho. unfold lf_write_value, write_value. destruct (Write v _) as [[u|e|p|] w]; [| |by intros [= <- <-]..].
  2: rewrite !bind_eq.
  all: unfold lf_Write, file_Write; rewrite Ho; cbn [negb process_view aof_next aof_file lastDB];
    destruct (log_write (lf_tick f)) as [[k e']|]; by intros [= <- <-].
Qed.

Lemma LogWrite_agrees dbIndex v f r f' : lf_open f = true → LogWrite dbIndex v f = (r, f') →
  AofWrite dbIndex v (process_view f) = (r, process_view f') ∧ lf_open f' = true.
Proof.
  intros Ho. unfold LogWrite, AofWrite. rewrite !gets_bind. cbn [process_view lastDB].
  case_bool_decide; [|rewrite !ret_bind; by apply lf_write_value_agrees].
  rewrite !(bind_eq (_ ≫= _)), !(bind_eq (_ (selectEntry _))).
  destruct (lf_write_value (selectEntry dbIndex) f) as [r1 f1] eqn:H1.
  destruct (lf_write_value_agrees _ _ _ _ Ho H1) as [-> Ho1].
  destruct r1; [|by intros [= <- <-]..]. cbn [set_lastDB modify].
  apply (lf_write_value_agrees v (mkLogFile (lf_tick f1) (lf_data f1) (lf_synced f1) (lf_open f1) dbIndex (lf_fsync f1))).
  exact Ho1.
Qed.

Lemma sync_tick_extends f f' : (lf_synced f ≤ String.length (lf_data f))%nat →
  sync_tick f = (Ok (), f') → extends [] f f' ∧ lf_lastDB f' = lf_lastDB f.
Proof.
  intros Hb. unfold sync_tick.
  assert (Hsame : extends [] f f) by (by split; [rewrite string_app_nil_r|..]).
  destruct (syncInterval (lf_fsync f)), (lf_open f) eqn:Ho; [|by intros [= <-]..].
  destruct (io_call (lf_tick f)); intros [= <-]; (split; [|done]); split; cbn;
    rewrite ?string_app_nil_r; done.
Qed.

Lemma sync_tick_forces f f' : lf_open f = true → syncInterval (lf_fsync f) ≠ None →
  io_call (lf_tick f) = None → sync_tick f = (Ok (), f') →
  lf_data f' = lf_data f ∧ lf_synced f' = String.length (lf_data f) ∧ lf_lastDB f' = lf_lastDB f.
Proof.
  intros Ho Hmode Hio. unfold sync_tick. rewrite Ho, Hio.
  destruct (syncInterval (lf_fsync f)); [|done]. by intros [= <-].
Qed.

Lemma log_run_extends evs : ∀ f f',
  Forall event_ok evs → (lf_synced f ≤ String.length (lf_data f))%nat →
  log_run evs f = (Ok (), f') → extends (appended (lf_lastDB f) evs) f f'.
Proof.
  induction evs as [|e evs IH]; intros f f' Hevs Hb.
  - intros [= <-]. split; [by rewrite string_app_nil_r|done..].
  - apply list.Forall_cons in Hevs as [He Hevs].
    intros ([] & f1 & H1 & H2)%bind_ok_inv. destruct e as [dbIndex v|]; cbn [log_event appended] in *.
    + destruct He as [Hi Hv]. apply LogWrite_appends in H1 as (Hd & Hl & Hs & Ho & Hf); [|done..].
      assert (Hext : extends (new_entries (lf_lastDB f) dbIndex v) f f1) by by apply extends_write.
      eapply extends_trans; [exact Hext|]. rewrite <-Hl. apply IH; [done|apply Hext|done].
    + apply sync_tick_extends in H1 as [Hext Hl]; [|done].
      change (appended (lf_lastDB f) evs) with ([] ++ appended (lf_lastDB f) evs).
      eapply extends_trans; [exact Hext|]. rewrite <-Hl. apply IH; [done|apply Hext|done].
Qed.

Lemma appended_wire evs last : Forall event_ok evs → Forall wire (appended last evs).
Proof.
  intros Hevs. revert last. induction Hevs as [|e evs He _ IH]; intros last; [constructor|].
  destruct e as [i v|]; cbn; [|apply IH]. apply Forall_app. split; [|apply IH].
  destruct He as [Hi Hv]. unfold new_entries. case_decide; [by constructor|].
  constructor; [by apply selectEntry_wire|by constructor].
Qed.
End ops.

Section durable.
Context `{GoEnvLaws} {S : Type} (fn : Z → Value → M S ()).

(** C26: what [syncLoop] has forced to the disk survives a power failure. Take a
    log in which every write succeeded, and cut it anywhere behind the bytes
    forced so far: reading what is left replays whole entries in order, all
    those written before the last [Sync] that succeeded among them, and ends
    normally or with the error of a truncated entry. *)
Theorem synced_survive evs1 evs2 f0 f1 f2 es0 cut lost s :
  lf_open f0 = true → syncInterval (lf_fsync f0) ≠ None →
  lf_data f0 = encodes es0 → Forall wire es0 → (lf_synced f0 ≤ String.length (lf_data f0))%nat →
  Forall event_ok (evs1 ++ evs2) →
  log_run evs1 f0 = (Ok (), f1) → io_call (lf_tick f1) = None →
  log_run (SyncTick :: evs2) f1 = (Ok (), f2) →
  cut +:+ lost = lf_data f2 → (lf_synced f2 ≤ String.length cut)%nat →
  ∃ es1 es2 p,
    es0 ++ appended (lf_lastDB f0) evs1 ++ appended (lf_lastDB f1) evs2 = es1 ++ es2 ∧
    es0 ++ appended (lf_lastDB f0) evs1 `prefix_of` es1 ∧ cut = encodes es1 +:+ p ∧
    ∀ cur s', replay_all fn 0 es1 s = (Ok cur, s') →
      AofRead fn (NewAof 0 cut) s = (Ok (), s') ∨
      AofRead fn (NewAof 0 cut) s = (Err io_ErrUnexpectedEOF, s').
Proof.
  intros Ho Hmode Hd Hw Hb [Hev1 Hev2]%Forall_app Hrun1 Hio Hrun2 Hcut Hlen.
  apply log_run_extends in Hrun1 as Hx1; [|done..].
  set (esA := es0 ++ appended (lf_lastDB f0) evs1).
  set (esB := appended (lf_lastDB f1) evs2).
  assert (HdA : lf_data f1 = encodes esA).
  { unfold esA. by rewrite (ext_data _ _ _ Hx1), Hd, concat_map_app. }
  apply bind_ok_inv in Hrun2 as ([] & f1' & Htick & Hrun2).
  destruct (sync_tick_forces f1 f1') as (Hd1 & Hs1 & Hl1);
    [by rewrite (ext_open _ _ _ Hx1)|by rewrite (ext_fsync _ _ _ Hx1)|done|done|].
  apply log_run_extends in Hrun2 as Hx2; [|done|by rewrite Hd1, Hs1].
  pose proof (ext_data _ _ _ Hx2) as HdB. pose proof (ext_synced _ _ _ Hx2) as HsB.
  rewrite Hl1 in HdB. fold esB in HdB. rewrite Hd1, HdA, <-Hcut in HdB. rewrite Hs1, HdA in HsB.
  assert (HwA : Forall wire esA) by (by apply Forall_app; split; [|apply appended_wire]).
  assert (HwB : Forall wire esB) by by apply appended_wire.
  assert (∃ c, cut = encodes esA +:+ c ∧ c +:+ lost = encodes esB) as (c & -> & Hc).
  { destruct (string_app_split _ _ _ _ HdB) as [(c & -> & Hc)|(q & Hq & Hc & Hne)].
    - by exists c.
    - apply (f_equal String.length) in Hq. rewrite string_length_app in Hq.
      destruct q; [done|cbn in Hq; lia]. }
  destruct (encodes_prefix esB c lost Hc) as (es1 & es2 & p & HB & -> & Hp).
  exists (esA ++ es1), es2, p. unfold esA at 1. rewrite <-!app_assoc. fold esB. split_and!.
  - by rewrite HB.
  - by apply prefix_app_r.
  - by rewrite concat_map_app, string_app_assoc.
  - intros cur s' Hrep. rewrite HB in HwB. apply Forall_app in HwB as [Hw1 Hw2].
    pose proof (AofRead_torn fn (NewAof 0 (encodes esA +:+ encodes es1 +:+ p)) (esA ++ es1) p s) as Hread.
    rewrite Hrep in Hread. apply Hread.
    + cbn. by rewrite concat_map_app, string_app_assoc.
    + by apply Forall_app.
    + destruct Hp as [->|(v & es3 & q & -> & Hv & Hq)]; [by left|right].
      apply list.Forall_cons in Hw2 as [Hwv _]. by exists v, q.
Qed.
End durable.

(** ** Concrete logs *)

(** The disk is full at the third write, which leaves 20 bytes. *)
Definition full_disk : GoEnv := {|
  time_Now := @time_Now demo_env;
  map_range := @map_range demo_env;
  io_call _ := None;
  log_write n := if (n =? 2)%nat then Some (20%nat, "no space left on device") else None;
  float64 := @float64 demo_env;
  ParseFloat := @ParseFloat demo_env;
  float_neg := @float_neg demo_env;
  float_pos := @float_pos demo_env;
  float_seconds := @float_seconds demo_env;
  unicode_ToUpper := @unicode_ToUpper demo_env;
  unicode_ToLower := @unicode_ToLower demo_env;
  unicode_EqualFold := @unicode_EqualFold demo_env;
  Quote := @Quote demo_env;
|}.

Definition three_sets : M LogFile () :=
  for_each (λ words, @log_ignoring full_disk 0 (cmd words))
    [["SET"; "a"; "1"]; ["SET"; "b"; "2"]; ["SET"; "c"; "3"]].

(** Three SETs are acknowledged. The second reaches the file in part, the third
    is written behind it, and a restart reads it as the value of the second:
    [b] is the empty string and [c] is gone. *)
Lemma failed_write_corrupts :
  Store <$> DBs (w_mdb (snd (replay_aof (NewAof 0 (lf_data (snd (three_sets (OpenLog EverySec "" 0 0)))))
    (mkWorld 0 NewMultiDB)))) !! 0%nat = Some {["a" := "1"; "b" := ""]}.
Proof. by vm_compute. Qed.

Definition first_set : LogEvent := Append 0 (cmd ["SET"; "a"; "1"]).
Definition second_set : LogEvent := Append 1 (cmd ["SET"; "b"; "2"]).
Definition demo_lf : LogFile := OpenLog EverySec "" 0 0.
Definition demo_lf1 : LogFile := snd (log_run [first_set] demo_lf).
Definition demo_lf2 : LogFile := snd (log_run [SyncTick; second_set] demo_lf1).

(** A power failure takes the second SET, which was not forced to the disk. *)
Lemma synced_survive_witness :
  lf_synced demo_lf2 = 50%nat ∧
  ∃ es1 es2 p,
    [] ++ appended (lf_lastDB demo_lf) [first_set] ++ appended (lf_lastDB demo_lf1) [second_set] = es1 ++ es2 ∧
    [] ++ appended (lf_lastDB demo_lf) [first_set] `prefix_of` es1 ∧
    str_take 60 (lf_data demo_lf2) = encodes es1 +:+ p ∧
    ∀ cur s', replay_all replay_fn 0 es1 (mkWorld 0 NewMultiDB) = (Ok cur, s') →
      AofRead replay_fn (NewAof 0 (str_take 60 (lf_data demo_lf2))) (mkWorld 0 NewMultiDB) = (Ok (), s') ∨
      AofRead replay_fn (NewAof 0 (str_take 60 (lf_data demo_lf2))) (mkWorld 0 NewMultiDB) =
        (Err io_ErrUnexpectedEOF, s').
Proof.
  split; [by vm_compute|].
  apply (synced_survive replay_fn [first_set] [second_set] demo_lf demo_lf1 demo_lf2 []
           _ (str_drop 60 (lf_data demo_lf2))); [done|done|done|constructor|done| |by vm_compute|done|
    by vm_compute|apply str_take_drop|vm_compute; lia].
  constructor; [|constructor; [|constructor]]; (split; [int_lia|apply cmd_wire; [done|compute_decide]]).
Defined.
