(* ===== verification/PersistProps.v ===== *)
(** * PersistProps: snapshots, and what goes wrong at startup *)
From S2P Require Import Prelude Go Strconv Resp DataStruct PubSub.
From S2P Require Import Database DbFacts StringCmds Invariant Rdb RdbFacts.
From S2P Require Import Aof AofFacts Server System Durability Demo SystemProps.
From Stdlib Require Import Ascii.

(** ** Snapshots *)
Section rdb.
Context `{GoEnvLaws}.

(** C2: when [Save] reports success, the file at the snapshot's path loads
    without an error into empty databases, to the last byte, and every
    database then holds exactly the strings, lists, sets and hashes that were
    saved (deadlines are not part of a snapshot). *)
Theorem rdb_roundtrip dbs s s' n ps :
  length dbs = NumDatabases → Forall data_wf dbs → Forall fits dbs → Forall storable dbs →
  Save dbs s = (Ok None, s') →
  ∃ file keys n', rs_files s' !! rdb_path (rs_rdb s) = Some file ∧
    Load (mkLoadSt file (mkWorld n (mkMultiDB (replicate NumDatabases newDatabase) ps))) =
      (Ok keys, mkLoadSt "" (mkWorld n' (mkMultiDB (restored <$> dbs) ps))).
Proof.
  intros Hlen Hwf Hfit Hst Hsave. destruct (Save_saved dbs s Hfit) as (err & s2 & Hrun & Hs).
  rewrite Hsave in Hrun. injection Hrun as <- <-. destruct Hs as (_ & _ & its & Hits & Hfile).
  destruct (Load_file dbs its n ps Hlen Hwf Hst Hits) as (keys & n' & Hload).
  by exists (file_text its), keys, n'.
Qed.

(** C7: [Save] always returns. If it fails, at whichever of the calls to the
    operating system, the previous snapshot is still at its path, byte for
    byte; it never touches a file other than the snapshot and the temporary
    file beside it. *)
Theorem rdb_save_atomic dbs s :
  Forall fits dbs →
  ∃ err s', Save dbs s = (Ok err, s') ∧
    (err ≠ None → rs_files s' !! rdb_path (rs_rdb s) = rs_files s !! rdb_path (rs_rdb s)) ∧
    ∀ p, p ≠ rdb_path (rs_rdb s) → p ≠ rdb_path (rs_rdb s) +:+ ".tmp" →
      rs_files s' !! p = rs_files s !! p.
Proof.
  intros Hfit. destruct (Save_saved dbs s Hfit) as (err & s' & Hrun & _ & Hother & Hs).
  exists err, s'. split; [done|]. split; [|done]. destruct err; [done|]. by intros [].
Qed.
End rdb.

(** A database with one entry of each kind, and the sixteen of a server. *)
Definition demo_db : Database :=
  set_Store <["s" := "1"]> (set_Lists <["l" := ["a"; "b"; "a"]]>
    (set_Sets <["m" := {[ "x" := (); "y" := () ]}]>
      (set_Hashes <["h" := {[ "f" := "v" ]}]> newDatabase))).
Definition demo_dbs : list Database := <[2%nat := demo_db]> (replicate NumDatabases newDatabase).
Definition demo_rdb : RdbSt := mkRdbSt 0 {[ "dump.rdb" := "old" ]} (mkRDB "dump.rdb" 0 0).

(** The invariants as decidable conditions. *)
Lemma data_wf_check d :
  map_Forall (λ _ l, l ≠ []) (Lists d) ∧ map_Forall (λ _ x, x ≠ ∅) (Sets d) ∧
  map_Forall (λ _ x, x ≠ ∅) (Hashes d) → data_wf d.
Proof.
  intros (H1 & H2 & H3). split; intros k Hk; [by eapply H1|by eapply H2|by eapply H3].
Qed.

#[export] Instance short_dec s : Decision (short s).
Proof. unfold short. apply _. Defined.

Lemma storable_check d :
  map_Forall (λ k v, short k ∧ short v) (Store d) ∧
  map_Forall (λ k l, short k ∧ zlen l < 2 ^ 32 ∧ Forall short l) (Lists d) ∧
  map_Forall (λ k x, short k ∧ Z.of_nat (size x) < 2 ^ 32 ∧ map_Forall (λ m _, short m) x) (Sets d) ∧
  map_Forall (λ k x, short k ∧ Z.of_nat (size x) < 2 ^ 32 ∧
    map_Forall (λ f v, short f ∧ short v) x) (Hashes d) ∧
  totalKeys d < 2 ^ 32 → storable d.
Proof.
  intros (H1 & H2 & H3 & H4 & H5). split; [exact H1|exact H2| |exact H4|exact H5].
  intros k x Hx. destruct (H3 k x Hx) as (Hk & Hs & Hm). split_and!; [done..|].
  intros m [u Hu]%elem_of_dom. by eapply Hm.
Qed.

Lemma Forall_check (P Q : Database → Prop) l : (∀ d, P d → Q d) → Forall P l → Forall Q l.
Proof. intros HPQ HP. by eapply list.Forall_impl. Qed.

Lemma rdb_roundtrip_witness :
  fst (Save demo_dbs demo_rdb) = Ok None ∧
  ∃ file keys n', rs_files (snd (Save demo_dbs demo_rdb)) !! "dump.rdb" = Some file ∧
    Load (mkLoadSt file (mkWorld 5 NewMultiDB)) =
      (Ok keys, mkLoadSt "" (mkWorld n' (mkMultiDB (restored <$> demo_dbs) New))).
Proof.
  split; [by vm_compute|].
  apply (rdb_roundtrip demo_dbs demo_rdb (snd (Save demo_dbs demo_rdb)) 5 New).
  - done.
  - eapply Forall_check; [apply data_wf_check|]. compute_decide.
  - compute_decide.
  - eapply Forall_check; [apply storable_check|]. compute_decide.
  - by vm_compute.
Defined.

Lemma rdb_save_atomic_witness :
  Forall fits demo_dbs ∧ ∃ err s', Save demo_dbs demo_rdb = (Ok err, s') ∧
    (err ≠ None → rs_files s' !! "dump.rdb" = Some "old").
Proof.
  assert (Hfit : Forall fits demo_dbs) by compute_decide. split; [exact Hfit|].
  destruct (rdb_save_atomic demo_dbs demo_rdb Hfit) as (err & s' & Hrun & Hkeep & _).
  exists err, s'. split; [exact Hrun|]. intros He. etrans; [exact (Hkeep He)|done].
Defined.

(** ** What goes wrong at startup, and LASTSAVE *)
Section findings.
Context `{GoEnv}.

(** An entry of the log that selects a database that does not exist makes
    the replay index out of the array: the server panics at startup instead of
    reporting a corrupted file. *)
Theorem replay_bad_select_panics n i v :
  in_int i → (i < 0 ∨ Z.of_nat NumDatabases ≤ i) → wire v → isSelectEntry v = false →
  fst (replay_aof (NewAof 0 (encode (selectEntry i) +:+ encode v)) (mkWorld n NewMultiDB)) =
    Panic "runtime error: index out of range".
Proof.
  intros Hi Hout Hv Hsel. unfold replay_aof, AofRead.
  assert (Hlen : ∃ k, (1 + String.length (aof_file (NewAof 0 (encode (selectEntry i) +:+ encode v))))%nat
            = S (S k)).
  { cbn [aof_file NewAof]. rewrite string_length_app.
    pose proof (encode_nonempty v). exists (String.length (encode (selectEntry i)) +
      String.length (encode v) - 1)%nat. lia. }
  destruct Hlen as [k ->]. cbn [Read_loop aof_file NewAof].
  rewrite Parse_encode by (by apply selectEntry_wire).
  rewrite (bind_ok _ _ _ i (mkWorld n NewMultiDB)).
  2:{ unfold replay_entry. change (isSelectEntry (selectEntry i)) with true. cbv iota.
      change (Arr (selectEntry i) !! 1%nat) with (Some (vBulk (Itoa i))). cbn [Str vBulk].
      by rewrite Atoi_Itoa. }
  cbn [Read_loop]. rewrite <-(string_app_nil_r (encode v)), Parse_encode by done.
  unfold replay_entry. rewrite Hsel, !bind_eq. unfold with_DB.
  destruct (Z.ltb_spec i 0); [done|].
  rewrite lookup_ge_None_2; [done|]. cbn [DBs w_mdb NewMultiDB]. rewrite length_replicate. lia.
Qed.

(** LASTSAVE does not tell the time of the last save: a SAVE that has
    just written its snapshot leaves the reply of LASTSAVE as it was. *)
Theorem lastsave_after_save `{!GoEnvLaws _} sv r sv1 v :
  sv_fits sv → sv_rdb sv = Some r → save [] sv = (Ok v, sv1) →
  fst (lastsave [] sv1) = fst (lastsave [] sv).
Proof.
  intros Hfit Hr. unfold save, lastsave. rewrite !gets_bind, Hr, gets_bind.
  intros (err & sv2 & H1 & H2)%bind_ok_inv. unfold on_rdb in H1.
  destruct (Save_saved (DBs (w_mdb (sv_world sv)))
    (mkRdbSt (w_tick (sv_world sv)) (sv_files sv) r) Hfit) as (err' & t & Hs & Hrdb & _).
  cbv beta in H1. rewrite Hs in H1. injection H1 as -> <-. cbn in Hrdb.
  destruct err; injection H2 as _ <-; cbn; by rewrite Hrdb.
Qed.
End findings.

Lemma replay_bad_select_panics_witness :
  in_int 16 ∧ fst (replay_aof (NewAof 0 (encode (selectEntry 16) +:+ encode (cmd ["SET"; "k"; "v"])))
    (mkWorld 0 NewMultiDB)) = Panic "runtime error: index out of range".
Proof.
  split; [int_lia|]. apply replay_bad_select_panics; [int_lia|by right| |done].
  by apply cmd_wire; [|compute_decide].
Defined.

(** A snapshot may find a set that SREM has emptied and not yet deleted
    ([SetLocksProps.empty_set_saved]). It is not written, so no key comes back. *)
Definition emptied : list Database :=
  <[0%nat := set_Sets <["k" := ∅]> newDatabase]> (replicate NumDatabases newDatabase).
Lemma empty_set_skipped :
  let files := rs_files (snd (Save emptied demo_rdb)) in
  let loaded := snd (Load (mkLoadSt (default "" (files !! "dump.rdb")) (mkWorld 0 NewMultiDB))) in
  let sess := mkSess 0 (default newDatabase (DBs (w_mdb (l_world loaded)) !! 0%nat)) New in
  fst (exists_ (args ["k"]) sess) = Ok (vInt 0).
Proof. by vm_compute. Qed.

Definition demo_saving : Server :=
  mkServer (mkWorld 0 (mkMultiDB demo_dbs New)) None (Some (mkRDB "dump.rdb" 0 0)) ∅ "".

Lemma lastsave_after_save_witness :
  fst (save [] demo_saving) = Ok vOK ∧
  fst (lastsave [] (snd (save [] demo_saving))) = fst (lastsave [] demo_saving).
Proof.
  split; [by vm_compute|].
  apply (lastsave_after_save demo_saving (mkRDB "dump.rdb" 0 0) _ vOK);
    [compute_decide|done|by vm_compute].
Defined.
