(* ===== verification/CoreProps.v ===== *)
(** * CoreProps: the protocol, the containers and the broker *)
From S2P Require Import Prelude Go Strconv Resp DataStruct PubSub PubSubFacts Demo.
From Stdlib Require Import Ascii.
Import ListFacts SetFacts HashFacts.

(** ** RESP *)

(** C4: what the writer sends, the parser reads back: every value of the
    protocol (arrays nested to any depth) is written without an error, in full,
    and parses to itself, leaving the bytes that follow unread. *)
Theorem resp_roundtrip v out :
  wire v →
  ∃ text, Write v (mkWriter "" out) = (Ok (), mkWriter "" (out +:+ text)) ∧
    ∀ rest, Parse (text +:+ rest) = (Ok v, rest).
Proof.
  intros Hw. exists (encode v). split.
  - rewrite Write_run by done. cbn [w_out w_buf]. by rewrite string_app_nil_l.
  - intros rest. by apply Parse_encode.
Qed.

Lemma resp_roundtrip_witness :
  wire (vArray [vBulk "SET"; vInt (-7); vArray [vNull; vSimple "OK"]]) ∧
  ∃ text, Write (vArray [vBulk "SET"; vInt (-7); vArray [vNull; vSimple "OK"]]) (mkWriter "" "x") =
      (Ok (), mkWriter "" ("x" +:+ text)) ∧
    ∀ rest, Parse (text +:+ rest) = (Ok (vArray [vBulk "SET"; vInt (-7); vArray [vNull; vSimple "OK"]]), rest).
Proof.
  assert (Hw : wire (vArray [vBulk "SET"; vInt (-7); vArray [vNull; vSimple "OK"]])).
  { repeat constructor; try int_lia; cbn; try int_lia. apply (bool_decide_unpack _). by vm_compute. }
  split; [exact Hw|]. by apply resp_roundtrip.
Defined.

(** C21: the parser does not care how the bytes of a stream arrive. What it
    concludes on the bytes received so far (a value, a protocol error) it
    concludes with any more bytes behind them; a value received only in part is
    never taken for another value or for an error of the protocol. *)
Theorem resp_incremental s t r s' :
  Parse s = (r, s') →
  (conclusive r → Parse (s +:+ t) = (r, s' +:+ t)) ∧
  (∀ v q, wire v → encode v = s +:+ q → q ≠ "" → r = Err io_EOF ∨ r = Err io_ErrUnexpectedEOF).
Proof.
  intros Hp. split.
  - by apply Parse_extends.
  - intros v q Hw He Hq. destruct (Parse_prefix v s q Hw He Hq) as [H|H]; rewrite Hp in H; auto.
Qed.

Lemma resp_incremental_witness :
  Parse "+OK" = (Err io_EOF, "") ∧
  (conclusive (Err (A:=Value) io_EOF) → Parse ("+OK" +:+ "x") = (Err io_EOF, "" +:+ "x")) ∧
  (∀ v q, wire v → encode v = "+OK" +:+ q → q ≠ "" →
     Err (A:=Value) io_EOF = Err io_EOF ∨ Err (A:=Value) io_EOF = Err io_ErrUnexpectedEOF).
Proof. split; [by vm_compute|]. apply resp_incremental. by vm_compute. Defined.

(** C29: the parser always answers, on any bytes: it never runs for ever, a value
    it returns is a value of the protocol, and each value takes at least one
    byte of the input. *)
Theorem parse_total s :
  match Parse s with
  | (Ok v, rest) => wire v ∧ (String.length rest < String.length s)%nat
  | (NoFuel, _) => False
  | _ => True
  end.
Proof.
  pose proof (Parse_total s) as Ht. destruct (Parse s) as [r rest] eqn:Hp. cbn in Ht.
  destruct r; [|done..]. split; [by eapply Parse_wire|by eapply Parse_consumes].
Qed.

(** A length below -1, or one that no slice can have, is not rejected: the
    parser allocates a buffer of that many bytes, or an array of that many values,
    and panics. Any client can end the process with seven bytes. *)
Theorem bad_length_panics n rest :
  in_int n →
  (bad_length 1 n → fst (Parse (String BulkString (Itoa n +:+ CRLF +:+ rest))) =
    Panic "runtime error: makeslice: len out of range") ∧
  (bad_length valueSize n → fst (Parse (String Array (Itoa n +:+ CRLF +:+ rest))) =
    Panic "runtime error: makeslice: len out of range").
Proof.
  intros Hi. split; intros Hn.
  - unfold Parse. cbn [ParseFuel String.length].
    rewrite bind_eq. cbn [ReadByte].
    rewrite readBulkString_bad by done. done.
  - unfold Parse. cbn [ParseFuel String.length].
    rewrite bind_eq. cbn [ReadByte].
    change (fst (readArray (ParseFuel (S (String.length (Itoa n +:+ CRLF +:+ rest))))
      (Itoa n +:+ CRLF +:+ rest)) = Panic "runtime error: makeslice: len out of range").
    by rewrite readArray_bad.
Qed.

Lemma bad_length_panics_witness :
  (in_int (-2) ∧ in_int (2 ^ 62)) ∧
  fst (Parse ("$" +:+ Itoa (-2) +:+ CRLF +:+ "")) =
    Panic "runtime error: makeslice: len out of range" ∧
  fst (Parse ("*" +:+ Itoa (2 ^ 62) +:+ CRLF +:+ "")) =
    Panic "runtime error: makeslice: len out of range".
Proof.
  split; [split; int_lia|]. split.
  - apply (bad_length_panics (-2) ""); [int_lia|by left].
  - apply (bad_length_panics (2 ^ 62) ""); [int_lia|by right].
Defined.

(** ** The broker *)
Section broker.
Context `{GoEnvLaws}.

(** PUBLISH hands the message to every channel subscribed to the name
    that has room in its buffer of 16, once, behind what the buffer holds;
    drops it for the full ones; touches no other channel and no
    registration; and replies how many it handed over. It never blocks and
    never sends on a closed channel. *)
Theorem publish_delivers name payload n p :
  ps_wf p →
  ∃ n' p', Publish name payload (n, p) =
      (Ok (Z.of_nat (size (filter (λ ch, has_room p ch = true) (subscribers p name)))), (n', p')) ∧
    ps_wf p' ∧
    (∀ name' ch, registered p' name' ch ↔ registered p name' ch) ∧
    (∀ ch buf, ch ∈ subscribers p name → chans p !! ch = Some (mkChan buf false) →
      chans p' !! ch = Some (mkChan (take 16 (buf ++ [mkMessage name payload])) false)) ∧
    (∀ ch, ch ∉ subscribers p name → chans p' !! ch = chans p !! ch).
Proof.
  intros Hwf. destruct (Publish_run name payload n p Hwf) as (n' & p' & Hrun & _ & Hch).
  destruct (Publish_wf name payload n p Hwf) as (v & n1 & p1 & Hrun1 & Hwf1 & Hreg).
  rewrite Hrun in Hrun1. injection Hrun1 as _ <- <-.
  exists n', p'. split_and!; [done..| |].
  - intros ch buf Hin Hbuf. rewrite Hch, decide_True, Hbuf by done.
    apply push_msg_take. by apply (ps_bounded p Hwf) in Hbuf.
  - intros ch Hin. by rewrite Hch, decide_False.
Qed.

(** C31: a subscriber receives what is published after it subscribed, in the
    order of publication and without repetition: its buffer holds the first
    16 messages it has not taken yet; the ones after that are lost, whatever
    was published on other names meanwhile. *)
Theorem subscriber_receives name ch msgs n p p1 :
  ps_wf p → Subscribe name p = (Ok ch, p1) →
  ∃ n' p', for_each (λ m, _ ← Publish (Channel m) (Payload m); mret ()) msgs (n, p1) = (Ok (), (n', p')) ∧
    chans p' !! ch = Some (mkChan (take 16 (filter (λ m, Channel m = name) msgs)) false) ∧
    match filter (λ m, Channel m = name) msgs with
    | m :: _ => fst (Receive ch p') = Ok (Some m)
    | [] => fst (Receive ch p') = Ok None
    end.
Proof.
  intros Hwf Hsub. pose proof (Subscribe_wf name p Hwf) as Hwf1.
  pose proof (Subscribe_registered p name name (fresh_chan p)) as Hreg.
  rewrite Hsub in Hwf1, Hreg. injection Hsub as Hch Hp1. cbn in Hwf1, Hreg.
  destruct (publish_all name ch msgs n p1 []) as (n' & p' & Hrun & Hbuf); [done| | |].
  { rewrite <-Hch. apply Hreg. by right. }
  { rewrite <-Hch, <-Hp1. cbn. apply lookup_insert_eq. }
  exists n', p'. split_and!; [done..|]. unfold Receive. rewrite Hbuf. cbn [app].
  by destruct (filter _ msgs).
Qed.

(** UNSUBSCRIBE takes the channel out of every list of subscribers and
    closes it, once; a later PUBLISH leaves it alone and does not panic. *)
Theorem unsubscribe_stops name ch payload n p :
  ps_wf p → registered p name ch →
  ∃ p1, Unsubscribe name ch p = (Ok (), p1) ∧ ps_wf p1 ∧
    (∀ name', ¬ registered p1 name' ch) ∧
    (∃ buf, chans p1 !! ch = Some (mkChan buf true)) ∧
    ∀ name', ∃ v n' p', Publish name' payload (n, p1) = (Ok v, (n', p')) ∧
      chans p' !! ch = chans p1 !! ch.
Proof.
  intros Hwf Hreg. destruct (Unsubscribe_run p name ch Hwf Hreg) as (p1 & Hrun & Hwf1 & Hr & Hbuf).
  assert (Hno : ∀ name', ¬ registered p1 name' ch) by (intros name' Hn; by apply Hr in Hn as [_ ?]).
  exists p1. split_and!; [done..|]. intros name'.
  destruct (Publish_run name' payload n p1 Hwf1) as (n' & p' & Hp & _ & Hch).
  eexists _, n', p'. split; [exact Hp|]. rewrite Hch, decide_False; [done|].
  intros Hin. apply (Hno name'). unfold registered, subscribers in *.
  destruct (subs p1 !! name') as [ss|]; cbn in Hin; [|set_solver]. eauto.
Qed.
End broker.

(** A broker with one subscription. *)
Definition demo_ps : PubSub := snd (Subscribe "news" New).

Lemma demo_ps_wf : ps_wf demo_ps.
Proof. apply (Subscribe_wf "news"), New_wf. Qed.

Lemma publish_delivers_witness :
  ps_wf demo_ps ∧
  ∃ n' p', Publish "news" "hi" (0%nat, demo_ps) =
      (Ok (Z.of_nat (size (filter (λ ch, has_room demo_ps ch = true) (subscribers demo_ps "news")))), (n', p')) ∧
    ps_wf p' ∧
    (∀ name' ch, registered p' name' ch ↔ registered demo_ps name' ch) ∧
    (∀ ch buf, ch ∈ subscribers demo_ps "news" → chans demo_ps !! ch = Some (mkChan buf false) →
      chans p' !! ch = Some (mkChan (take 16 (buf ++ [mkMessage "news" "hi"])) false)) ∧
    (∀ ch, ch ∉ subscribers demo_ps "news" → chans p' !! ch = chans demo_ps !! ch).
Proof. split; [exact demo_ps_wf|]. exact (publish_delivers "news" "hi" 0 demo_ps demo_ps_wf). Defined.

Lemma subscriber_receives_witness :
  Subscribe "news" New = (Ok 0%nat, demo_ps) ∧
  ∃ n' p', for_each (λ m, _ ← Publish (Channel m) (Payload m); mret ())
      [mkMessage "news" "1"; mkMessage "b" "2"] (0%nat, demo_ps) = (Ok (), (n', p')) ∧
    chans p' !! 0%nat = Some (mkChan (take 16
      (filter (λ m, Channel m = "news") [mkMessage "news" "1"; mkMessage "b" "2"])) false) ∧
    match filter (λ m, Channel m = "news") [mkMessage "news" "1"; mkMessage "b" "2"] with
    | m :: _ => fst (Receive 0 p') = Ok (Some m)
    | [] => fst (Receive 0 p') = Ok None
    end.
Proof.
  split; [by vm_compute|].
  apply (subscriber_receives "news" 0 [mkMessage "news" "1"; mkMessage "b" "2"] 0 New demo_ps);
    [apply New_wf|by vm_compute].
Defined.

Lemma unsubscribe_stops_witness :
  registered demo_ps "news" 0 ∧
  ∃ p1, Unsubscribe "news" 0 demo_ps = (Ok (), p1) ∧ ps_wf p1 ∧
    (∀ name', ¬ registered p1 name' 0) ∧
    (∃ buf, chans p1 !! 0%nat = Some (mkChan buf true)) ∧
    ∀ name', ∃ v n' p', Publish name' "x" (5%nat, p1) = (Ok v, (n', p')) ∧
      chans p' !! 0%nat = chans p1 !! 0%nat.
Proof.
  assert (Hreg : registered demo_ps "news" 0).
  { exists {[ 0%nat := () ]}. split; [by vm_compute|]. rewrite dom_singleton_L. set_solver. }
  split; [exact Hreg|]. exact (unsubscribe_stops "news" 0 "x" 5 demo_ps demo_ps_wf Hreg).
Defined.
