(* ===== verification/KeyProps.v ===== *)
(** * KeyProps: strings, keys and their expiration *)
From S2P Require Import Prelude Go Strconv Resp DataStruct PubSub PubSubFacts.
From S2P Require Import Database DbFacts StringCmds ListCmds SetCmds HashCmds ExpireCmds AdminCmds.
From S2P Require Import CmdFacts Handler Invariant Demo.
Import ListFacts SetFacts HashFacts.

Section total.
Context `{GoEnvLaws}.

(** C5: every command of the table that does not block returns a reply, on
    any arguments: a wrong number of arguments, a bad integer or a missing key is
    answered, never raised, and the database stays well-formed. *)
Theorem handlers_total wakeups name h args s :
  handler_of wakeups name = Some h → blocking name = false →
  data_wf (s_db s) → ps_wf (s_ps s) → fits (s_db s) →
  ∃ reply s', h args s = (Ok reply, s') ∧ data_wf (s_db s') ∧ ps_wf (s_ps s').
Proof.
  intros Hh Hb Hd Hps Hf.
  pose proof (handler_of_keeps (s_ps s) (λ _, False) wakeups name h Hh (or_introl Hb)) as Hk.
  destruct (proj1 (wp_total _ _ _) (Hk args s ltac:(done) Hf)) as (r & s' & Hrun & Hinv).
  exists r, s'. split; [done|]. split; apply Hinv.
Qed.
End total.

Lemma handlers_total_witness :
  handler_of 0 "LPOP" = Some lpop ∧
  ∃ reply s', lpop (args ["a"; "b"; "c"]) (demo_sess newDatabase) = (Ok reply, s') ∧
    data_wf (s_db s') ∧ ps_wf (s_ps s').
Proof.
  split; [done|].
  apply (handlers_total 0 "LPOP" lpop); [done|done|apply newDatabase_wf|apply New_wf|apply newDatabase_fits].
Defined.

Section strings.
Context `{GoEnvLaws}.
Implicit Types (s : Sess) (k v : Value).

(** SET stores the value and drops the deadline the key had; a GET
    reads it back, at any later time; no other key changes. *)
Theorem set_then_get k v s :
  ∃ s', set [k; v] s = (Ok vOK, s') ∧
    same_but [Str k] (s_db s) (s_db s') ∧
    ∀ n, let s1 := mkSess n (s_db s') (s_ps s') in
      get [k] s1 = (Ok (vBulk (Str v)), s1) ∧ ttl [k] s1 = (Ok (vInt (-1)), s1).
Proof.
  eexists. split; [done|]. split.
  - intros k' Hk'. rewrite list_elem_of_singleton in Hk'. unfold at_key. cbn.
    by rewrite lookup_insert_ne, lookup_delete_ne by done.
  - intros n s1. assert (Hp : purged (Str k) s1 = s1).
    { apply purged_no_deadline. cbn. apply lookup_delete_eq. }
    assert (Hs : Store (s_db s1) !! Str k = Some (Str v)) by (cbn; apply lookup_insert_eq).
    split.
    + by rewrite get_run, Hp, Hs.
    + unfold ttl, ttlValue. rewrite (bind_ok _ _ _ _ _ (expireIfNeeded_run _ s1)), Hp.
      unfold gets_db. run. unfold keyExistsLocked. rewrite Hs. cbn.
      unfold gets_db. run. cbn. by rewrite lookup_delete_eq.
Qed.

(** C34: a key whose deadline has passed is gone for every command that
    reads it: GET replies null, EXISTS 0, TYPE none, TTL -2, and whatever it
    held is evicted, the rest of the database untouched. *)
Theorem expired_key_hidden k s exp :
  Expires (s_db s) !! Str k = Some exp → exp ≤ time_Now (s_tick s) →
  ∃ s', s_db s' = evict (Str k) (s_db s) ∧
    at_key (Str k) (s_db s') = (None, None, None, None, None) ∧
    same_but [Str k] (s_db s) (s_db s') ∧
    get [k] s = (Ok vNull, s') ∧ exists_ [k] s = (Ok (vInt 0), s') ∧
    typeCmd [k] s = (Ok (vSimple "none"), s') ∧ ttl [k] s = (Ok (vInt (-2)), s') ∧
    persist [k] s = (Ok (vInt 0), s').
Proof.
  intros Hexp Hle. pose proof (purged_expired _ _ _ Hexp Hle) as Hdb.
  assert (Hat : at_key (Str k) (s_db (purged (Str k) s)) = (None, None, None, None, None)).
  { rewrite Hdb. unfold at_key, evict. cbn. by rewrite !lookup_delete_eq. }
  exists (purged (Str k) s). pose proof (proj1 (at_key_eq _ _ _ _ _ _ _) Hat) as (HS & HL & HSt & HH & HE).
  assert (Hno : keyExistsLocked (s_db (purged (Str k) s)) (Str k) = false).
  { unfold keyExistsLocked. by rewrite HS, HL, HSt, HH. }
  split_and!; [done|done| | | | | |].
  - intros k' Hk'. rewrite list_elem_of_singleton in Hk'. rewrite Hdb. unfold at_key. cbn.
    by rewrite !lookup_delete_ne by done.
  - by rewrite get_run, HS.
  - by rewrite exists_single, Hno.
  - unfold typeCmd. rewrite (bind_ok _ _ _ _ _ (GetKeyType_run _ s)). unfold type_name.
    by rewrite HS, HL, HSt, HH.
  - by apply ttlValue_none.
  - by rewrite persist_run, HE.
Qed.
End strings.

(** A database with one string, one list and one key that expires at second 5. *)
Definition demo_keys : Database :=
  mkDatabase {[ "n" := "41"; "old" := "x" ]} {[ "l" := ["a"] ]} ∅ ∅
    {[ "old" := 0; "l" := 5 * Second ]} 0.

Lemma expired_key_hidden_witness :
  Expires (s_db (demo_sess demo_keys)) !! "old" = Some 0 ∧
  ∃ s', s_db s' = evict "old" (s_db (demo_sess demo_keys)) ∧
    at_key "old" (s_db s') = (None, None, None, None, None) ∧
    same_but ["old"] (s_db (demo_sess demo_keys)) (s_db s') ∧
    get [vBulk "old"] (demo_sess demo_keys) = (Ok vNull, s') ∧
    exists_ [vBulk "old"] (demo_sess demo_keys) = (Ok (vInt 0), s') ∧
    typeCmd [vBulk "old"] (demo_sess demo_keys) = (Ok (vSimple "none"), s') ∧
    ttl [vBulk "old"] (demo_sess demo_keys) = (Ok (vInt (-2)), s') ∧
    persist [vBulk "old"] (demo_sess demo_keys) = (Ok (vInt 0), s').
Proof.
  split; [by vm_compute|].
  apply (expired_key_hidden (vBulk "old") (demo_sess demo_keys) 0); [by vm_compute|done].
Defined.

(** ** Deadlines *)
Section deadlines.
Context `{GoEnvLaws}.
Implicit Types (s : Sess) (k : Value).

Lemma saturate_ttl d a :
  0 ≤ a → d ≤ a * Second → 0 ≤ Z.quot (Z.max 0 (saturate d)) Second ≤ a.
Proof.
  intros Ha Hd. unfold saturate.
  set (r := Z.max 0 (Z.max minInt (Z.min maxInt d))).
  assert (0 ≤ r ≤ a * Second) by (subst r; unfold minInt, maxInt, Second in *; lia).
  split; [apply Z.quot_pos; unfold Second; lia|].
  rewrite <-(Z.quot_mul a Second) by done. apply Z.quot_le_mono; unfold Second in *; lia.
Qed.

(** C35: EXPIRE of an existing key with a number of seconds that fits a
    Duration sets its deadline and touches nothing else. From then on, until
    the clock reaches the deadline, TTL answers a number of seconds between 0 and
    the one asked for and the key keeps its value; once it has reached it,
    TTL answers -2 and the key is evicted. *)
Theorem expire_then_ttl k str a s :
  Atoi str = (a, None) → 0 ≤ a → a * Second ≤ maxInt →
  keyExistsLocked (s_db (purged (Str k) s)) (Str k) = true →
  ∃ deadline s1, expire [k; vBulk str] s = (Ok (vInt 1), s1) ∧
    s_db s1 = set_Expires <[Str k := deadline]> (s_db (purged (Str k) s)) ∧
    deadline = time_Now (s_tick (purged (Str k) s)) + a * Second ∧
    ∀ n, (s_tick s1 ≤ n)%nat →
      let s2 := mkSess n (s_db s1) (s_ps s1) in
      ∃ r s3, ttl [k] s2 = (Ok (vInt r), s3) ∧
        if time_Now n <? deadline then 0 ≤ r ≤ a ∧ s_db s3 = s_db s1
        else r = -2 ∧ s_db s3 = evict (Str k) (s_db s1).
Proof.
  intros Ha Ha0 Hmax Hk.
  set (deadline := time_Now (s_tick (purged (Str k) s)) + a * Second).
  exists deadline. eexists. split; [|split; [|split; [done|]]].
  - unfold expire. cbn [Str vBulk]. rewrite (setExpire_run _ _ a) by done. by rewrite Hk.
  - cbn [s_db]. do 2 f_equal. subst deadline. rewrite wrap64_small; [done|].
    unfold Second in *. int_lia.
  - rewrite wrap64_small by (unfold Second in *; int_lia). fold deadline.
    cbn [s_tick s_db s_ps]. intros n Hn.
    set (d1 := set_Expires <[Str k := deadline]> (s_db (purged (Str k) s))).
    set (s2 := mkSess n d1 _).
    assert (Hexp : Expires (s_db s2) !! Str k = Some deadline) by apply lookup_insert_eq.
    destruct (Z.ltb_spec (time_Now n) deadline) as [Hlt|Hge].
    + assert (Hp : s_db (purged (Str k) s2) = d1) by (by eapply (purged_live (Str k) s2)).
      assert (Ht : s_tick (purged (Str k) s2) = S n) by (unfold purged; cbn [s_tick]; by rewrite Hexp).
      eexists _, _. split.
      * apply (ttlValue_deadline (Str k) Second s2 deadline).
        -- rewrite Hp. exact Hk.
        -- by rewrite Hp.
      * rewrite Ht, Hp. split; [|done]. apply saturate_ttl; [done|].
        pose proof (time_Now_mono (s_tick (purged (Str k) s)) (S n) ltac:(lia)).
        subst deadline. lia.
    + assert (Hp : s_db (purged (Str k) s2) = evict (Str k) d1) by (by apply (purged_expired (Str k) s2 deadline)).
      eexists _, _. split; [|split; [done|exact Hp]].
      apply ttlValue_none. rewrite Hp. unfold keyExistsLocked, evict. cbn.
      by rewrite !lookup_delete_eq.
Qed.

(** PERSIST answers 1 exactly when the key has a deadline still to come,
    removes it, and the key no longer expires. *)
Theorem persist_cancels k s exp :
  Expires (s_db s) !! Str k = Some exp → time_Now (s_tick s) < exp →
  ∃ s1, persist [k] s = (Ok (vInt 1), s1) ∧
    s_db s1 = set_Expires (delete (Str k)) (s_db s) ∧
    ∀ n, let s2 := mkSess n (s_db s1) (s_ps s1) in
      purged (Str k) s2 = s2 ∧ persist [k] s2 = (Ok (vInt 0), s2).
Proof.
  intros Hexp Hlt. pose proof (purged_live _ _ _ Hexp Hlt) as Hp.
  exists (set_db (set_Expires (delete (Str k))) (purged (Str k) s)).
  split; [by rewrite persist_run, Hp, Hexp|]. split; [cbn [s_db set_db]; by rewrite Hp|].
  intros n s2. assert (Hno : Expires (s_db s2) !! Str k = None) by (cbn; apply lookup_delete_eq).
  pose proof (purged_no_deadline _ _ Hno) as Hs2.
  split; [done|]. by rewrite persist_run, Hs2, Hno.
Qed.

(** A number of seconds above the range of a Duration is not refused:
    the product wraps around, and when it wraps to a negative number the key
    is gone at once although EXPIRE answered 1. *)
Theorem expire_overflow k str a s :
  Atoi str = (a, None) → 0 < a → wrap64 (a * Second) ≤ 0 →
  keyExistsLocked (s_db (purged (Str k) s)) (Str k) = true →
  ∃ s1, expire [k; vBulk str] s = (Ok (vInt 1), s1) ∧
    ∀ n, (s_tick s1 ≤ n)%nat →
      ∃ s3, get [k] (mkSess n (s_db s1) (s_ps s1)) = (Ok vNull, s3) ∧
        s_db s3 = evict (Str k) (s_db s1).
Proof.
  intros Ha Hpos Hw Hk. eexists. split.
  - unfold expire. cbn [Str vBulk]. rewrite (setExpire_run _ _ a) by done. by rewrite Hk.
  - cbn [s_tick s_db s_ps]. intros n Hn.
    set (deadline := time_Now (s_tick (purged (Str k) s)) + wrap64 (a * Second)).
    set (s2 := mkSess n _ _).
    assert (Hexp : Expires (s_db s2) !! Str k = Some deadline) by apply lookup_insert_eq.
    pose proof (time_Now_mono (s_tick (purged (Str k) s)) n ltac:(lia)).
    assert (Hp : s_db (purged (Str k) s2) = evict (Str k) (s_db s2)).
    { apply (purged_expired (Str k) s2 deadline); [done|]. cbn [s_tick s2]. lia. }
    exists (purged (Str k) s2). split; [|done]. rewrite get_run, Hp.
    unfold evict. cbn. by rewrite lookup_delete_eq.
Qed.

(** The sweep of the expired keys, which the server runs five times a
    second, evicts exactly the keys whose deadline lies before the time it starts,
    and leaves everything under the other keys as it is. *)
Theorem sweep_exact s :
  ∃ s', SweepExpired s = (Ok (), s') ∧ s_ps s' = s_ps s ∧
    ∀ key, at_key key (s_db s') =
      if past (time_Now (s_tick s)) (s_db s) key then (None, None, None, None, None)
      else at_key key (s_db s).
Proof.
  destruct (SweepExpired_run s) as (n & keys & Hrun & Hin).
  eexists. split; [exact Hrun|]. split; [done|]. intros key. cbn [s_db].
  rewrite at_key_evict_all. specialize (Hin key).
  destruct (past _ _ key) eqn:Hp; case_decide as Hd; naive_solver.
Qed.
End deadlines.

Lemma expire_then_ttl_witness :
  keyExistsLocked demo_keys "n" = true ∧
  ∃ deadline s1, expire [vBulk "n"; vBulk "10"] (demo_sess demo_keys) = (Ok (vInt 1), s1) ∧
    s_db s1 = set_Expires <["n" := deadline]> (s_db (purged "n" (demo_sess demo_keys))) ∧
    deadline = time_Now (s_tick (purged "n" (demo_sess demo_keys))) + 10 * Second ∧
    ∀ n, (s_tick s1 ≤ n)%nat →
      let s2 := mkSess n (s_db s1) (s_ps s1) in
      ∃ r s3, ttl [vBulk "n"] s2 = (Ok (vInt r), s3) ∧
        if time_Now n <? deadline then 0 ≤ r ≤ 10 ∧ s_db s3 = s_db s1
        else r = -2 ∧ s_db s3 = evict "n" (s_db s1).
Proof.
  split; [by vm_compute|].
  apply (expire_then_ttl (vBulk "n") "10" 10 (demo_sess demo_keys)); [by vm_compute|lia|done|by vm_compute].
Defined.

Lemma persist_cancels_witness :
  Expires demo_keys !! "l" = Some (5 * Second) ∧
  ∃ s1, persist [vBulk "l"] (demo_sess demo_keys) = (Ok (vInt 1), s1) ∧
    s_db s1 = set_Expires (delete "l") demo_keys ∧
    ∀ n, let s2 := mkSess n (s_db s1) (s_ps s1) in
      purged "l" s2 = s2 ∧ persist [vBulk "l"] s2 = (Ok (vInt 0), s2).
Proof.
  split; [by vm_compute|].
  apply (persist_cancels (vBulk "l") (demo_sess demo_keys) (5 * Second)); [by vm_compute|done].
Defined.

Lemma expire_overflow_witness :
  wrap64 (9223372037 * Second) ≤ 0 ∧
  ∃ s1, expire [vBulk "n"; vBulk "9223372037"] (demo_sess demo_keys) = (Ok (vInt 1), s1) ∧
    ∀ n, (s_tick s1 ≤ n)%nat →
      ∃ s3, get [vBulk "n"] (mkSess n (s_db s1) (s_ps s1)) = (Ok vNull, s3) ∧
        s_db s3 = evict "n" (s_db s1).
Proof.
  split; [done|].
  apply (expire_overflow (vBulk "n") "9223372037" 9223372037); [by vm_compute|lia|done|by vm_compute].
Defined.

Lemma sweep_exact_witness :
  past (time_Now 2) demo_keys "old" = true ∧
  ∃ s', SweepExpired (mkSess 2 demo_keys New) = (Ok (), s') ∧ s_ps s' = New ∧
    ∀ key, at_key key (s_db s') =
      if past (time_Now 2) demo_keys key then (None, None, None, None, None)
      else at_key key demo_keys.
Proof. split; [by vm_compute|]. exact (sweep_exact (mkSess 2 demo_keys New)). Defined.
