(* ===== verification/StringProps.v ===== *)
(** * StringProps: counters, several keys at once, and the listing of keys *)
From S2P Require Import Prelude Go Strconv Resp DataStruct PubSub PubSubFacts.
From S2P Require Import Database StringCmds ListCmds SetCmds HashCmds ExpireCmds DbFacts Glob AdminCmds.
From S2P Require Import CmdFacts Demo.
Import ListFacts SetFacts HashFacts.

(** ** Counters *)
Section counters.
Context `{GoEnv}.
Implicit Types (s : Sess) (k : Value).

(** A key that does not expire and holds the number [m] (a missing key
    counts as 0). *)
Definition counter (key : string) (m : Z) (d : Database) : Prop :=
  in_int m ∧ Expires d !! key = None ∧ default "0" (Store d !! key) = Itoa m.

Lemma increment_step key m j s :
  counter key m (s_db s) →
  increment key j s =
    (Ok (vInt (wrap64 (m + j))), set_db (set_Store <[key := Itoa (wrap64 (m + j))]>) s).
Proof.
  intros (Hm & Hexp & Hst). rewrite increment_run, purged_no_deadline by done. by rewrite Hst, Atoi_Itoa.
Qed.

Lemma incrby_step k m j s :
  counter (Str k) m (s_db s) → in_int j →
  incrby [k; vBulk (Itoa j)] s =
    (Ok (vInt (wrap64 (m + j))), set_db (set_Store <[Str k := Itoa (wrap64 (m + j))]>) s).
Proof. intros Hc Hj. unfold incrby. cbn [Str vBulk]. rewrite Atoi_Itoa by done. by apply increment_step. Qed.

Lemma counter_set key m d : in_int m → Expires d !! key = None → counter key m (set_Store <[key := Itoa m]> d).
Proof. intros Hm He. split_and!; [done..|]. cbn. by rewrite lookup_insert_eq. Qed.

(** C40: any sequence of INCRBYs adds up modulo 2^64: the key ends with the
    sum of the amounts, wrapped around to a 64-bit number, in its shortest
    decimal form, and no other key changes. There is no overflow error. *)
Theorem incrby_sum k m js s :
  counter (Str k) m (s_db s) → Forall in_int js →
  ∃ s', for_each (λ j, _ ← incrby [k; vBulk (Itoa j)]; mret ()) js s = (Ok (), s') ∧
    counter (Str k) (wrap64 (m + foldr Z.add 0 js)) (s_db s') ∧
    same_but [Str k] (s_db s) (s_db s').
Proof.
  intros Hc Hjs. revert m s Hc. induction Hjs as [|j js Hj Hjs IH]; intros m s Hc.
  - exists s. split; [done|]. cbn. rewrite Z.add_0_r, wrap64_small by apply Hc. by split.
  - set (s1 := set_db (set_Store <[Str k := Itoa (wrap64 (m + j))]>) s).
    destruct (IH (wrap64 (m + j)) s1) as (s' & Hrun & Hc' & Hsame).
    { apply counter_set; [apply wrap64_in_int|apply Hc]. }
    exists s'. split_and!.
    + cbn [for_each]. erewrite bind_ok; [exact Hrun|].
      by rewrite (bind_ok _ _ _ _ _ (incrby_step k m j s Hc Hj)).
    + replace (wrap64 (m + foldr Z.add 0 (j :: js))) with (wrap64 (wrap64 (m + j) + foldr Z.add 0 js)); [done|].
      apply wrap64_eq. cbn [foldr]. rewrite Z.add_mod, wrap64_mod, <-Z.add_mod by done. f_equal. lia.
    + intros k' Hk'. rewrite (Hsame k' Hk'). unfold at_key. cbn.
      rewrite list_elem_of_singleton in Hk'. by rewrite lookup_insert_ne.
Qed.

(** A counter command never guesses: where the value is not the decimal
    form of a 64-bit integer, or the amount is not one, it answers the error
    of Redis and leaves the database as it is. *)
Theorem counter_rejects k v s :
  Expires (s_db s) !! Str k = None →
  (snd (Atoi (default "0" (Store (s_db s) !! Str k))) ≠ None →
    incr [k] s = (Ok not_an_integer, s) ∧ decr [k] s = (Ok not_an_integer, s)) ∧
  (snd (Atoi (Str v)) ≠ None →
    incrby [k; v] s = (Ok not_an_integer, s) ∧ decrby [k; v] s = (Ok not_an_integer, s)).
Proof.
  intros Hexp. split; intros Ha.
  - unfold incr, decr. rewrite !increment_run, purged_no_deadline by done.
    by destruct (Atoi _) as [n [e|]].
  - unfold incrby, decrby. by destruct (Atoi _) as [n [e|]].
Qed.
End counters.

Lemma incrby_sum_witness :
  counter "n" 41 {| Store := {[ "n" := "41" ]}; Lists := ∅; Sets := ∅; Hashes := ∅;
                    Expires := ∅; listCond := 0 |} ∧
  ∃ s', for_each (λ j, _ ← incrby [vBulk "n"; vBulk (Itoa j)]; mret ()) [maxInt; -5]
      (demo_sess (set_Store <["n" := "41"]> newDatabase)) = (Ok (), s') ∧
    counter "n" (wrap64 (41 + foldr Z.add 0 [maxInt; -5])) (s_db s') ∧
    same_but ["n"] (set_Store <["n" := "41"]> newDatabase) (s_db s').
Proof.
  split; [split_and!; [int_lia|done..]|].
  apply (incrby_sum (vBulk "n") 41 [maxInt; -5]); [split_and!; [int_lia|done..]|].
  repeat constructor; int_lia.
Defined.

Lemma counter_rejects_witness :
  Expires (s_db (demo_sess (set_Store <["n" := "4x"]> newDatabase))) !! "n" = None ∧
  let s := demo_sess (set_Store <["n" := "4x"]> newDatabase) in
  (snd (Atoi (default "0" (Store (s_db s) !! "n"))) ≠ None →
    incr [vBulk "n"] s = (Ok not_an_integer, s) ∧ decr [vBulk "n"] s = (Ok not_an_integer, s)) ∧
  (snd (Atoi "") ≠ None →
    incrby [vBulk "n"; vBulk ""] s = (Ok not_an_integer, s) ∧
    decrby [vBulk "n"; vBulk ""] s = (Ok not_an_integer, s)).
Proof. split; [done|]. by apply (counter_rejects (vBulk "n") (vBulk "")). Defined.

(** ** MSET and MGET *)
Section many.
Context `{GoEnv}.
Implicit Types (s : Sess) (kvs : list (Value * Value)).

Definition put_string (d : Database) '((k, v) : Value * Value) : Database :=
  set_Expires (delete (Str k)) (set_Store <[Str k := Str v]> d).

Lemma mset_loop_run kvs : ∀ s,
  mset_loop (flat kvs) s = (Ok (), set_db (λ d, foldl put_string d kvs) s).
Proof.
  induction kvs as [|[k v] kvs IH]; intros s; [by rewrite set_db_id|].
  change (flat ((k, v) :: kvs)) with (k :: v :: flat kvs). cbn [mset_loop].
  unfold modify_db. run. by rewrite IH.
Qed.

Lemma put_strings_other kvs : ∀ d key, key ∉ map (λ '(k, _), Str k) kvs →
  at_key key (foldl put_string d kvs) = at_key key d.
Proof.
  induction kvs as [|[k v] kvs IH]; intros d key Hk; [done|].
  cbn [map] in Hk. apply not_elem_of_cons in Hk as [Hne Hk].
  cbn [foldl]. rewrite IH by done. unfold at_key. cbn.
  by rewrite lookup_insert_ne, lookup_delete_ne by congruence.
Qed.

Lemma put_strings_same kvs : ∀ d k v, NoDup (map (λ '(k, _), Str k) kvs) → (k, v) ∈ kvs →
  let d' := foldl put_string d kvs in
  Store d' !! Str k = Some (Str v) ∧ Expires d' !! Str k = None.
Proof.
  induction kvs as [|[k0 v0] kvs IH]; intros d k v Hnd Hin; [by apply elem_of_nil in Hin|].
  cbn [map] in Hnd. apply list.NoDup_cons in Hnd as [Hk0 Hnd]. cbn [foldl].
  apply elem_of_cons in Hin as [[= <- <-]|Hin]; [|by apply IH].
  pose proof (put_strings_other kvs (put_string d (k, v)) (Str k) Hk0) as Hat.
  apply at_key_eq in Hat as (HS & _ & _ & _ & HE). rewrite HS, HE. cbn.
  by rewrite lookup_insert_eq, lookup_delete_eq.
Qed.

Lemma expire_none keys s :
  Forall (λ k, Expires (s_db s) !! Str k = None) keys →
  for_each (λ k, expireIfNeeded (Str k)) keys s = (Ok (), s).
Proof.
  induction 1 as [|k keys Hk Hks IH]; [done|]. cbn [for_each].
  by rewrite (bind_ok _ _ _ _ _ (expireIfNeeded_run _ s)), purged_no_deadline.
Qed.

(** MSET of any number of distinct keys, then MGET of them, replies the
    values in order; the keys no longer expire and no other key changes. An odd
    number of arguments is refused and changes nothing. *)
Theorem mset_then_mget kvs s :
  kvs ≠ [] → NoDup (map (λ '(k, _), Str k) kvs) →
  (∃ s', mset (flat kvs) s = (Ok vOK, s') ∧
    mget (map fst kvs) s' = (Ok (vArray (map (λ '(_, v), vBulk (Str v)) kvs)), s') ∧
    same_but (map (λ '(k, _), Str k) kvs) (s_db s) (s_db s')) ∧
  ∀ k, mset (k :: flat kvs) s = (Ok (wrong_args "mset"), s).
Proof.
  intros Hne Hnd. pose proof (flat_length kvs) as Hlen.
  assert (Hpos : (1 ≤ length kvs)%nat) by (destruct kvs; cbn; [done|lia]).
  split.
  - set (s' := set_db (λ d, foldl put_string d kvs) s). exists s'. split_and!.
    + unfold mset. rewrite Hlen, Nat.even_mul. destruct (Nat.ltb_spec (2 * length kvs) 2); [lia|].
      cbn [negb orb Nat.even]. by rewrite (bind_ok _ _ _ _ _ (mset_loop_run kvs s)).
    + unfold mget. rewrite length_map. destruct (Nat.ltb_spec (length kvs) 1); [lia|].
      rewrite (bind_ok _ _ _ _ _ (expire_none (map fst kvs) s' ltac:(
        apply list.Forall_forall; intros k Hk; apply list_elem_of_fmap in Hk as ([k' v] & -> & Hin);
        by apply (put_strings_same kvs (s_db s) k' v Hnd Hin)))).
      unfold gets_db. run. rewrite map_map.
      change (s_db s') with (foldl put_string (s_db s) kvs). do 3 f_equal.
      apply map_ext_in. intros [k v] Hin%list_elem_of_In. cbn [fst].
      by rewrite (proj1 (put_strings_same kvs (s_db s) k v Hnd Hin)).
    + intros key Hk. by apply put_strings_other.
  - intros k. unfold mset. cbn [length]. rewrite Hlen.
    destruct (Nat.ltb_spec (S (2 * length kvs)) 2); [done|].
    cbn [orb]. rewrite Nat.even_succ, <-Nat.negb_even, Nat.even_mul. done.
Qed.
End many.

Lemma mset_then_mget_witness :
  let kvs := [(vBulk "a", vBulk "1"); (vBulk "b", vBulk "2")] in
  (∃ s', mset (flat kvs) (demo_sess newDatabase) = (Ok vOK, s') ∧
    mget (map fst kvs) s' = (Ok (vArray (map (λ '(_, v), vBulk (Str v)) kvs)), s') ∧
    same_but (map (λ '(k, _), Str k) kvs) newDatabase (s_db s')) ∧
  ∀ k, mset (k :: flat kvs) (demo_sess newDatabase) = (Ok (wrong_args "mset"), demo_sess newDatabase).
Proof.
  apply (mset_then_mget [(vBulk "a", vBulk "1"); (vBulk "b", vBulk "2")]); [done|].
  apply (bool_decide_unpack _). by vm_compute.
Defined.

(** ** DEL, KEYS and DBSIZE *)
Section keys.
Context `{GoEnvLaws}.
Implicit Types (s : Sess).

Lemma purged_same key s : same_but [key] (s_db s) (s_db (purged key s)).
Proof.
  intros k' Hk'. rewrite list_elem_of_singleton in Hk'. unfold purged, purge, evict, at_key. cbn.
  destruct (Expires (s_db s) !! key) as [exp|]; [|done].
  destruct (_ <? exp); [done|]. cbn. by rewrite !lookup_delete_ne by done.
Qed.

Lemma at_key_evict key d k :
  at_key k (evict key d) = if decide (k = key) then (None, None, None, None, None) else at_key k d.
Proof.
  unfold at_key, evict. cbn. case_decide as Hk; [subst; by rewrite !lookup_delete_eq|].
  by rewrite !lookup_delete_ne by congruence.
Qed.

Lemma types_at_bounds d key : 0 ≤ types_at d key ≤ 4.
Proof. unfold types_at. repeat case_match; lia. Qed.

(** DEL removes everything stored under each of its keys, of whatever
    type, with the deadline, and nothing else. What it replies for one key is
    the number of types the key had a value of: 2, not 1, for a key that held
    both a string and a list. *)
Theorem del_removes ks s :
  ks ≠ [] →
  ∃ n s', del ks s = (Ok (vInt n), s') ∧
    (∀ k, k ∈ map Str ks → at_key k (s_db s') = (None, None, None, None, None)) ∧
    same_but (map Str ks) (s_db s) (s_db s') ∧
    0 ≤ n ≤ 4 * zlen ks ∧
    ∀ k, ks = [k] → n = types_at (s_db (purged (Str k) s)) (Str k).
Proof.
  intros Hne.
  assert (Hloop : ∀ ks n0 s, ∃ n s',
    for_fold (λ deleted arg, n ← DeleteKey (Str arg); mret (deleted + n)) n0 ks s = (Ok n, s') ∧
    (∀ k, at_key k (s_db s') = if decide (k ∈ map Str ks) then (None, None, None, None, None)
                              else at_key k (s_db s)) ∧
    n0 ≤ n ≤ n0 + 4 * zlen ks).
  { clear. induction ks as [|k ks IH]; intros n0 s.
    - exists n0, s. split; [done|]. split; [|cbn; lia]. intros k.
      by rewrite decide_False by apply not_elem_of_nil.
    - set (s1 := set_db (evict (Str k)) (purged (Str k) s)).
      pose proof (types_at_bounds (s_db (purged (Str k) s)) (Str k)) as Hb.
      destruct (IH (n0 + types_at (s_db (purged (Str k) s)) (Str k)) s1) as (n & s' & Hrun & Hat & Hn).
      exists n, s'. split_and!; [| |cbn [length]; lia|cbn [length]; lia].
      + cbn [for_fold]. erewrite bind_ok; [exact Hrun|].
        by rewrite (bind_ok _ _ _ _ _ (DeleteKey_run (Str k) s)).
      + intros k'. rewrite Hat. subst s1. cbn [s_db set_db]. rewrite at_key_evict.
        destruct (decide (k' ∈ map Str ks)) as [Hin|Hin].
        * rewrite decide_True; [done|]. by right.
        * destruct (decide (k' = Str k)) as [->|Hk].
          -- rewrite decide_True; [done|]. by left.
          -- rewrite decide_False.
             2:{ cbn [map]. rewrite elem_of_cons. by intros [?|?]. }
             apply purged_same. by rewrite list_elem_of_singleton. }
  destruct (Hloop ks 0 s) as (n & s' & Hrun & Hat & Hn). exists n, s'. split_and!; try lia.
  - unfold del. destruct (Nat.ltb_spec (length ks) 1); [destruct ks; [done|cbn in *; lia]|].
    by rewrite (bind_ok _ _ _ _ _ Hrun).
  - intros k Hk. by rewrite Hat, decide_True.
  - intros k Hk. by rewrite Hat, decide_False.
  - intros k ->. cbn [for_fold] in Hrun. rewrite !bind_eq, DeleteKey_run in Hrun.
    by injection Hrun as <- _.
Qed.

Lemma keys_in_run {A} pattern (m : gmap string A) s :
  ∃ l s', keys_in pattern m s = (Ok (map vBulk l), s') ∧
    s_db s' = s_db s ∧ s_ps s' = s_ps s ∧
    ∀ k, k ∈ l ↔ is_Some (m !! k) ∧ matched pattern k = true.
Proof.
  eexists _, _. split; [reflexivity|]. split_and!; [done..|]. intros k.
  rewrite list_elem_of_In, filter_In, <-list_elem_of_In, list_elem_of_fmap. split.
  - intros [([k' a] & -> & Hk) Hm]. split; [|done]. apply map_range_elem in Hk. by eexists.
  - intros [[a Ha] Hm]. split; [|done]. exists (k, a). split; [done|]. by apply map_range_elem.
Qed.

(** KEYS replies exactly the keys that hold a value, have not expired
    and match the pattern. *)
Theorem keys_exact pattern s :
  ∃ l s', keysCmd [pattern] s = (Ok (vArray (map vBulk l)), s') ∧
    ∀ key, key ∈ l ↔
      keyExistsLocked (s_db s) key = true ∧
      past (time_Now (s_tick s)) (s_db s) key = false ∧
      matched (Str pattern) key = true.
Proof.
  destruct (SweepExpired_run s) as (n & keys & Hsweep & Hkeys).
  set (d := foldl (flip evict) (s_db s) keys) in *.
  unfold keysCmd. rewrite (bind_ok _ _ _ _ _ Hsweep). unfold gets_db. run. cbn [id s_db].
  destruct (keys_in_run (Str pattern) (Store d) (mkSess n d (s_ps s))) as (l1 & s1 & R1 & D1 & _ & E1).
  destruct (keys_in_run (Str pattern) (Lists d) s1) as (l2 & s2 & R2 & D2 & _ & E2).
  destruct (keys_in_run (Str pattern) (Sets d) s2) as (l3 & s3 & R3 & D3 & _ & E3).
  destruct (keys_in_run (Str pattern) (Hashes d) s3) as (l4 & s4 & R4 & D4 & _ & E4).
  exists (l1 ++ l2 ++ l3 ++ l4), s4. split.
  - rewrite (bind_ok _ _ _ _ _ R1), (bind_ok _ _ _ _ _ R2), (bind_ok _ _ _ _ _ R3), (bind_ok _ _ _ _ _ R4).
    run. by rewrite !map_app.
  - intros key. rewrite !elem_of_app, E1, E2, E3, E4, keyExistsLocked_spec.
    pose proof (at_key_evict_all keys (s_db s) key) as Hat. fold d in Hat. specialize (Hkeys key).
    destruct (past _ _ key) eqn:Hp; case_decide as Hin;
      [|exfalso; by apply Hin, Hkeys|exfalso; by apply Hkeys in Hin|];
      apply at_key_eq in Hat as (-> & -> & -> & -> & _).
    + unfold is_Some. naive_solver.
    + naive_solver.
Qed.
End keys.

Lemma del_removes_witness :
  let s := demo_sess (set_Lists <["k" := ["a"]]> (set_Store <["k" := "v"]> newDatabase)) in
  ∃ n s', del [vBulk "k"] s = (Ok (vInt n), s') ∧
    (∀ k, k ∈ map Str [vBulk "k"] → at_key k (s_db s') = (None, None, None, None, None)) ∧
    same_but (map Str [vBulk "k"]) (s_db s) (s_db s') ∧
    0 ≤ n ≤ 4 * zlen [vBulk "k"] ∧
    ∀ k, [vBulk "k"] = [k] → n = types_at (s_db (purged (Str k) s)) (Str k).
Proof. by apply del_removes. Defined.

Lemma keys_exact_witness :
  let s := demo_sess (set_Lists <["b" := ["x"]]> (set_Store <["a" := "1"]> newDatabase)) in
  ∃ l s', keysCmd [vBulk "[ab]"] s = (Ok (vArray (map vBulk l)), s') ∧
    ∀ key, key ∈ l ↔
      keyExistsLocked (s_db s) key = true ∧
      past (time_Now (s_tick s)) (s_db s) key = false ∧
      matched "[ab]" key = true.
Proof. exact (keys_exact (vBulk "[ab]") _). Defined.
