(* ===== verification/StringOrderProps.v ===== *)
(** * StringOrderProps: string commands under the mutex, one at a time *)
From S2P Require Import Prelude Go Goroutine Locks Atomic Sections Clients Strconv Resp DataStruct PubSub Database.
From S2P Require Import StringCmds DbFacts Handler StringLocks StringLocksFacts StringOrder StringProps Demo.

Section theorems.
Context `{GoEnv} (reqs : list (list Command)).

(** C15: SET, GET, MSET, MGET, TYPE, INCR, DECR, INCRBY, DECRBY, and DEL and
    EXISTS of one key, are linearizable. However the locks and steps of any number
    of clients that send them interleave, on keys without deadlines, nothing
    panics, and at every moment a history explains what happened: the sequential
    handlers, given its commands one by one, give the replies of the clients and
    the database, each client's commands in its order, none twice or made up. From
    then on the history only grows: what took effect stays before what takes
    effect later. And some order of steps brings all clients to their ends.

    DEL and EXISTS of several keys are not among the commands: they take the mutex
    once for each key, and the claim is false of them, see [del_not_atomic]. *)
Theorem one_at_a_time d0 n order :
  Forall (Forall wide) reqs → timeless d0 →
  ∃ t hist d, task_run order (clients (n, d0) reqs) = (Ok (), t) ∧ explains reqs d0 hist d t ∧
    (∀ n ps, one_by_one hist.*2.*1 (mkSess n d0 ps) = (Ok hist.*2.*2, mkSess n d ps)) ∧
    (∀ order', ∃ t' more d', task_run order' t = (Ok (), t') ∧ explains reqs d0 (hist ++ more) d' t') ∧
    ∃ order' t', task_run order' t = (Ok (), t') ∧ Forall (λ p, finished p = true) (tk_tasks t').
Proof.
  intros Hreqs Hd.
  destruct (served_moment (HS:=strings) reqs Hreqs d0 (n, d0) order Hd eq_refl) as (t & hist & d & Hrun & Hex & Hmore & Hend).
  exists t, hist, d. split_and!; [done|done| |done|done]. apply chain_one_by_one, Hex.
Qed.

(** ** Counters *)
(** A counter no command can take past the 64 bits. *)
Lemma incrs_run k K : ∀ m n d ps,
  counter k m d → m + Z.of_nat K ≤ maxInt →
  ∃ d', one_by_one (replicate K (INCR k)) (mkSess n d ps) =
      (Ok (map vInt (seqZ (m + 1) (Z.of_nat K))), mkSess n d' ps) ∧ counter k (m + Z.of_nat K) d'.
Proof.
  induction K as [|K IH]; intros m n d ps Hc Hmax.
  - exists d. by rewrite Z.add_0_r.
  - assert (Hm : in_int (m + 1)) by (destruct Hc as [Hm _]; int_lia).
    destruct (IH (m + 1) n (set_Store <[k := Itoa (m + 1)]> d) ps) as (d' & Hrun & Hc').
    { apply counter_set; [done|apply Hc]. }
    { lia. }
    exists d'. split; [|by replace (m + Z.of_nat (S K)) with (m + 1 + Z.of_nat K) by lia].
    cbn [replicate one_by_one].
    change (sequential (INCR k)) with (StringCmds.increment k 1).
    rewrite (bind_ok _ _ _ _ _ (increment_step k m 1 (mkSess n d ps) Hc)), wrap64_small by done.
    unfold set_db. cbn [s_db s_tick s_ps]. rewrite (bind_ok _ _ _ _ _ Hrun).
    rewrite Nat2Z.inj_succ, (seqZ_cons (m + 1)), Z.pred_succ by lia. by rewrite <-Z.add_1_r.
Qed.

End theorems.

(** C39: no INCR is lost and no number is handed out twice. Clients that send any
    numbers of INCRs of one key at the same time, however they interleave, are
    told together every number from the next one to the last, each once, and the
    key ends with the last. *)
Theorem incr_unique `{GoEnv} k m counts d0 n order :
  timeless d0 → counter k m d0 → m + Z.of_nat (sum_list counts) ≤ maxInt →
  ∃ t, task_run order (clients (n, d0) (map (λ j, replicate j (INCR k)) counts)) = (Ok (), t) ∧
    (Forall (λ p, finished p = true) (tk_tasks t) →
     counter k (m + Z.of_nat (sum_list counts)) (tk_data t).2 ∧
     ∃ rss, tk_tasks t = map TDone rss ∧
       concat rss ≡ₚ map vInt (seqZ (m + 1) (Z.of_nat (sum_list counts)))).
Proof.
  intros Hd Hc Hmax. set (reqs := map (λ j, replicate j (INCR k)) counts).
  assert (Hwide : Forall (Forall wide) reqs).
  { apply List.Forall_map, list.Forall_forall. intros j _. by apply list.Forall_replicate. }
  destruct (served_moment (HS:=strings) reqs Hwide d0 (n, d0) order Hd eq_refl) as (t & hist & d & Hrun & Hex & _).
  exists t. split; [done|]. intros Hfin.
  destruct (explains_end reqs d0 hist d t Hex Hfin) as [Hreqs Htasks].
  pose proof (ex_clients _ _ _ _ _ Hex) as Hlt.
  assert (Hcmds : hist.*2.*1 = replicate (sum_list counts) (INCR k)).
  { symmetry. apply replicate_Permutation. rewrite <-(own_all fst hist _ Hlt).
    change (λ i, fst <$> own i hist) with (λ i, (own i hist).*1). rewrite Hreqs. subst reqs. clear.
    induction counts as [|j counts IH]; [done|]. cbn [sum_list map concat]. by rewrite replicate_add, IH. }
  destruct (incrs_run k (sum_list counts) m 0 d0 PubSub.New Hc Hmax) as (d' & Hrun' & Hc').
  pose proof (chain_one_by_one _ _ _ (ex_chain _ _ _ _ _ Hex) 0%nat PubSub.New) as Htold.
  rewrite Hcmds, Hrun' in Htold. injection Htold as Hvs ->.
  destruct (ex_shows _ _ _ _ _ Hex) as (s & Hs & _ & Hpart).
  specialize (Hpart dbMu (or_intror Hfin)). cbn in Hs, Hpart. rewrite Hpart, Hs. split; [done|].
  exists (map (λ i, (own i hist).*2) (seq 0 (length reqs))). rewrite List.map_map. split; [done|].
  by rewrite (own_all snd hist _ Hlt), Hvs.
Qed.

(** ** Two clients *)
Definition demo_requests : list (list Command) :=
  [[MSET "a" "1" [("b", "2")]; INCR "n"; GET "a"]; [MGET "a" ["b"]; INCR "n"; DECRBY "n" 5]].
Definition turns : list nat := concat (replicate 60 [0; 1]%nat).

Lemma demo_wide : Forall (Forall wide) demo_requests.
Proof. repeat constructor; int_lia. Qed.

Lemma one_at_a_time_witness :
  Forall (Forall wide) demo_requests ∧ timeless newDatabase ∧
  ∃ t hist d, task_run turns (clients (0%nat, newDatabase) demo_requests) = (Ok (), t) ∧
    explains demo_requests newDatabase hist d t ∧
    (∀ n ps, one_by_one hist.*2.*1 (mkSess n newDatabase ps) = (Ok hist.*2.*2, mkSess n d ps)) ∧
    (∀ order', ∃ t' more d', task_run order' t = (Ok (), t') ∧
      explains demo_requests newDatabase (hist ++ more) d' t') ∧
    ∃ order' t', task_run order' t = (Ok (), t') ∧ Forall (λ p, finished p = true) (tk_tasks t').
Proof.
  split; [apply demo_wide|]. split; [done|].
  apply (one_at_a_time demo_requests newDatabase 0 turns); [apply demo_wide|done].
Defined.

Lemma incr_unique_witness :
  timeless newDatabase ∧ counter "n" 0 newDatabase ∧ 0 + Z.of_nat (sum_list [2; 1]%nat) ≤ maxInt ∧
  ∃ t, task_run turns (clients (0%nat, newDatabase) (map (λ j, replicate j (INCR "n")) [2; 1]%nat)) = (Ok (), t) ∧
    (Forall (λ p, finished p = true) (tk_tasks t) →
     counter "n" (0 + Z.of_nat (sum_list [2; 1]%nat)) (tk_data t).2 ∧
     ∃ rss, tk_tasks t = map TDone rss ∧
       concat rss ≡ₚ map vInt (seqZ (0 + 1) (Z.of_nat (sum_list [2; 1]%nat)))).
Proof.
  assert (Hc : counter "n" 0 newDatabase) by (split_and!; [int_lia|done..]).
  split; [done|]. split; [exact Hc|]. split; [by vm_compute|].
  apply (incr_unique "n" 0 [2; 1]%nat newDatabase 0 turns); [done|exact Hc|by vm_compute].
Defined.

Lemma incrs_interleaved :
  tk_tasks (snd (task_run turns (clients (0%nat, newDatabase) [[INCR "n"; INCR "n"]; [INCR "n"]]))) =
    [TDone [vInt 1; vInt 3]; TDone [vInt 2]].
Proof. by vm_compute. Qed.

(** DEL takes the mutex for each key: of an MSET that comes in between it deletes
    one value and leaves the other, which no order of the two would. *)
Definition two_keys : Database := set_Store (λ _, {[ "a" := "0"; "b" := "0" ]}) newDatabase.
Definition del_both : P Value := del [vBulk "a"; vBulk "b"].
Definition mset_both : P Value := mset [vBulk "a"; vBulk "1"; vBulk "b"; vBulk "1"].

Lemma del_not_atomic :
  let final order := Store (tk_data (snd (task_run order
    (mkTasks (0%nat, two_keys) ∅ (map locked [del_both; mset_both]))))).2 in
  final (replicate 15 0 ++ replicate 60 1 ++ replicate 60 0)%nat = {[ "a" := "1" ]} ∧
  final (replicate 60 0 ++ replicate 60 1)%nat = {[ "a" := "1"; "b" := "1" ]} ∧
  final (replicate 60 1 ++ replicate 60 0)%nat = ∅.
Proof. by vm_compute. Qed.
