(* ===== verification/ListProps.v ===== *)
(** * ListProps: lists, queues and blocking pops *)
From S2P Require Import Prelude Go Strconv Resp DataStruct PubSub PubSubFacts.
From S2P Require Import Database StringCmds ListCmds SetCmds HashCmds ExpireCmds DbFacts.
From S2P Require Import CmdFacts Demo.
Import ListFacts SetFacts HashFacts.

Section lists.
Context `{GoEnv}.
Implicit Types (s : Sess) (k v : Value).

(** The list at a key that does not expire; a missing key counts as empty. *)
Definition list_of (key : string) (l : list string) (d : Database) : Prop :=
  Expires d !! key = None ∧ default [] (Lists d !! key) = l.

Lemma list_of_lookup key l d : list_of key l d → l ≠ [] → Lists d !! key = Some l.
Proof. intros [_ Hl] Hne. destruct (Lists d !! key); cbn in Hl; naive_solver. Qed.

Lemma list_of_purged key l s : list_of key l (s_db s) → purged key s = s.
Proof. intros [He _]. by apply purged_no_deadline. Qed.

(** LRANGE of a key that does not expire. *)
Lemma lrange_run k a b start stop l s :
  Atoi a = (start, None) → Atoi b = (stop, None) →
  list_of (Str k) l (s_db s) → zlen l < maxInt →
  lrange [k; vBulk a; vBulk b] s = (Ok (vArray (map vBulk (range_spec start stop l))), s).
Proof.
  intros Ha Hb Hl Hlen. unfold lrange. cbn [Str vBulk]. rewrite Ha, Hb.
  rewrite (bind_ok _ _ _ _ _ (GetList_run (Str k) s)), (list_of_purged _ l) by done.
  destruct Hl as [_ Hl]. destruct (Lists (s_db s) !! Str k) as [l0|] eqn:Hk; cbn in Hl; subst.
  - rewrite (bind_ok _ _ _ _ _ (on_list_read (Str k) (ListDS.LRange start stop) l _ s Hk
      (LRange_spec start stop l (Atoi_in_int _ _ Ha) (Atoi_in_int _ _ Hb) Hlen))). done.
  - unfold range_spec. by rewrite drop_nil, take_nil.
Qed.

(** C36: RPUSH appends its arguments in order and LPUSH puts them in front
    one after the other (so reversed); both reply the new length, and LRANGE then
    reads any slice of the whole list: negative positions count from the
    end, positions outside are clipped. *)
Theorem push_then_lrange left k vs a b start stop l s :
  Atoi a = (start, None) → Atoi b = (stop, None) → vs ≠ [] →
  list_of (Str k) l (s_db s) → zlen l + zlen vs < maxInt →
  let l' := if left : bool then reverse (map Str vs) ++ l else l ++ map Str vs in
  ∃ s', (if left then lpush else rpush) (k :: vs) s = (Ok (vInt (zlen l + zlen vs)), s') ∧
    same_but [Str k] (s_db s) (s_db s') ∧ list_of (Str k) l' (s_db s') ∧
    lrange [k; vBulk a; vBulk b] s' = (Ok (vArray (map vBulk (range_spec start stop l'))), s').
Proof.
  intros Ha Hb Hne Hl Hlen l'. destruct vs as [|v vs]; [done|].
  assert (Hlen' : zlen l' = zlen l + zlen (v :: vs)).
  { subst l'. destruct left; rewrite length_app, ?length_reverse, length_map; lia. }
  set (s' := set_db (λ d, set_listCond S (set_Lists <[Str k := l']> d)) s). exists s'.
  assert (Hl' : list_of (Str k) l' (s_db s')).
  { split; [apply Hl|]. cbn. by rewrite lookup_insert_eq. }
  split; [|split; [|split; [done|]]].
  - rewrite <-Hlen'. subst s' l'. destruct Hl as [He <-]. destruct left.
    + by rewrite lpush_run, purged_no_deadline.
    + by rewrite rpush_run, purged_no_deadline.
  - intros k' Hk'. rewrite list_elem_of_singleton in Hk'. unfold at_key. cbn.
    by rewrite lookup_insert_ne by congruence.
  - eapply lrange_run; [done..|]. lia.
Qed.

Lemma lpop_cons k x l s :
  list_of (Str k) (x :: l) (s_db s) →
  ∃ s', lpop [k] s = (Ok (vBulk x), s') ∧ list_of (Str k) l (s_db s') ∧
    (l = [] → Lists (s_db s') !! Str k = None).
Proof.
  intros Hl. exists (set_db (put_list (Str k) l) s). split_and!.
  - rewrite lpop_run. unfold pop_result. rewrite (list_of_purged _ _ _ Hl).
    by rewrite (list_of_lookup _ _ _ Hl).
  - split; [apply Hl|]. cbn. case_decide as Hd; [by rewrite lookup_delete_eq, Hd|].
    by rewrite lookup_insert_eq.
  - intros ->. unfold put_list. cbn [s_db set_db set_Lists Lists].
    rewrite decide_True by done. apply lookup_delete_eq.
Qed.

(** A list fed by RPUSH and drained by LPOP is a first-in first-out
    queue: as many LPOPs reply the elements in the order they were pushed,
    and then the key is gone and LPOP replies null. *)
Theorem queue_fifo k vs s :
  vs ≠ [] → list_of (Str k) [] (s_db s) →
  ∃ s1 s2, rpush (k :: vs) s = (Ok (vInt (zlen vs)), s1) ∧
    for_fold (λ replies _, r ← lpop [k]; mret (replies ++ [r])) [] vs s1 =
      (Ok (map (λ v, vBulk (Str v)) vs), s2) ∧
    Lists (s_db s2) !! Str k = None ∧ lpop [k] s2 = (Ok vNull, s2).
Proof.
  intros Hne Hl. destruct vs as [|v vs]; [done|].
  set (s1 := set_db (λ d, set_listCond S (set_Lists <[Str k := map Str (v :: vs)]> d)) s).
  assert (Hloop : ∀ (l : list Value) acc s, list_of (Str k) (map Str l) (s_db s) → l ≠ [] →
    ∃ s2, for_fold (λ replies _, r ← lpop [k]; mret (replies ++ [r])) acc l s =
        (Ok (acc ++ map (λ v, vBulk (Str v)) l), s2) ∧
      list_of (Str k) [] (s_db s2) ∧ Lists (s_db s2) !! Str k = None).
  { clear. induction l as [|v l IH]; intros acc s Hl Hne; [done|].
    cbn [map] in Hl. destruct (lpop_cons k (Str v) (map Str l) s Hl) as (s' & Hrun & Hl' & Hnil).
    cbn [for_fold]. rewrite bind_eq, (bind_ok _ _ _ _ _ Hrun). run.
    destruct l as [|w l].
    - exists s'. split; [done|]. split; [done|]. by apply Hnil.
    - destruct (IH (acc ++ [vBulk (Str v)]) s' Hl' ltac:(done)) as (s2 & Hr & Hl2 & Hn2).
      exists s2. split; [|done]. rewrite Hr. cbn [map]. by rewrite <-app_assoc. }
  destruct (Hloop (v :: vs) [] s1) as (s2 & Hrun & [He2 _] & Hnone); [|done|].
  { split; [apply Hl|]. cbn. by rewrite lookup_insert_eq. }
  exists s1, s2. split_and!; [|exact Hrun|exact Hnone|].
  - destruct Hl as [He Hl]. rewrite rpush_run, purged_no_deadline, Hl by done.
    cbn zeta. rewrite app_nil_l, length_map. done.
  - rewrite lpop_run. unfold pop_result. by rewrite purged_no_deadline, Hnone.
Qed.

(** LREM removes the elements equal to its argument, all of them for a
    count of 0, the first [count] from the head for a positive one, the last
    [-count] for a negative one, keeps the order of the others, replies how
    many it removed and removes the key with the last element. For the
    one count that has no absolute value, the least 64-bit integer, it
    removes nothing. *)
Theorem lrem_exact k c count v l s :
  Atoi c = (count, None) → list_of (Str k) l (s_db s) → l ≠ [] →
  let l' := if count =? minInt then l else rem_spec count (Str v) l in
  ∃ s', lrem [k; vBulk c; v] s = (Ok (vInt (zlen l - zlen l')), s') ∧
    s_db s' = put_list (Str k) l' (s_db s).
Proof.
  intros Hc Hl Hne l'. pose proof (list_of_lookup _ _ _ Hl Hne) as Hk.
  pose proof (Atoi_in_int _ _ Hc) as Hin.
  destruct (lrem_run (Str k) l count (Str v) (λ n, mret (vInt n)) s Hk Hin)
    as (n & l1 & Hr & _ & Hrun).
  assert (n = zlen l - zlen l' ∧ l1 = l') as [-> ->].
  { subst l'. destruct (Z.eqb_spec count minInt) as [->|Hmin].
    - rewrite LRem_minInt in Hr. injection Hr as <- <-. split; [lia|done].
    - rewrite LRem_spec in Hr by done. by injection Hr as <- <-. }
  exists (set_db (put_list (Str k) l') s). split; [|done]. unfold lrem. cbn [Str vBulk].
  rewrite Hc, (bind_ok _ _ _ _ _ (GetList_run (Str k) s)), (list_of_purged _ _ _ Hl), Hk.
  exact Hrun.
Qed.

(** LSET replaces the element at a position inside the list, which
    LINDEX then reads, and refuses any other position, leaving the list as it
    is; LINDEX replies null there. *)
Theorem lset_then_lindex k i n v l s :
  Atoi i = (n, None) → list_of (Str k) l (s_db s) → l ≠ [] → zlen l ≤ maxInt →
  let j := norm (zlen l) n in
  if (0 <=? j) && (j <? zlen l) then
    ∃ s', lset [k; vBulk i; v] s = (Ok vOK, s') ∧
      list_of (Str k) (<[Z.to_nat j := Str v]> l) (s_db s') ∧
      lindex [k; vBulk i] s' = (Ok (vBulk (Str v)), s')
  else
    lset [k; vBulk i; v] s = (Ok (vError "ERR index out of range"), s) ∧
    lindex [k; vBulk i] s = (Ok vNull, s).
Proof.
  intros Hi Hl Hne Hlen j. pose proof (list_of_lookup _ _ _ Hl Hne) as Hk.
  pose proof (Atoi_in_int _ _ Hi) as Hin.
  pose proof (LSet_spec n (Str v) l Hin Hlen) as Hset. cbn zeta in Hset. fold j in Hset.
  assert (Hread : ∀ l s, list_of (Str k) l (s_db s) → Lists (s_db s) !! Str k = Some l → zlen l ≤ maxInt →
    lindex [k; vBulk i] s = (Ok (match (if norm (zlen l) n <? 0 then None else l !! Z.to_nat (norm (zlen l) n)) with
      | Some v => vBulk v | None => vNull end), s)).
  { clear -Hi Hin. intros l s Hl Hk Hlen. unfold lindex. cbn [Str vBulk]. rewrite Hi.
    rewrite (bind_ok _ _ _ _ _ (GetList_run (Str k) s)), (list_of_purged _ _ _ Hl), Hk.
    rewrite (bind_ok _ _ _ _ _ (on_list_read (Str k) _ l _ s Hk (LIndex_spec n l Hin Hlen))).
    by destruct (if _ <? 0 then None else _). }
  assert (Hwrite : lset [k; vBulk i; v] s = (ok ← on_list (Str k) (ListDS.LSet n (Str v));
    if negb ok then mret (vError "ERR index out of range") else mret vOK) s).
  { unfold lset. cbn [Str vBulk]. rewrite Hi.
    by rewrite (bind_ok _ _ _ _ _ (GetList_run (Str k) s)), (list_of_purged _ _ _ Hl), Hk. }
  rewrite Hwrite. destruct ((0 <=? j) && (j <? zlen l)) eqn:Hj.
  - apply andb_true_iff in Hj as [H0 H1]. apply Z.leb_le in H0. apply Z.ltb_lt in H1.
    set (l' := <[Z.to_nat j := Str v]> l) in *.
    exists (set_db (set_Lists <[Str k := l']>) s).
    assert (Hl' : list_of (Str k) l' (set_Lists <[Str k := l']> (s_db s))).
    { split; [apply Hl|]. cbn. by rewrite lookup_insert_eq. }
    assert (Hlen' : length l' = length l) by apply length_insert.
    split_and!; [by rewrite (bind_ok _ _ _ _ _ (on_list_run _ _ _ _ _ _ Hk Hset))|done|].
    rewrite (Hread l'); [|done|cbn; apply lookup_insert_eq|by rewrite Hlen'].
    rewrite Hlen'. fold j. destruct (Z.ltb_spec j 0); [lia|].
    subst l'. by rewrite list_lookup_insert_eq by lia.
  - split; [by rewrite (bind_ok _ _ _ _ _ (on_list_read _ _ _ _ _ Hk Hset))|].
    rewrite (Hread l) by done. fold j. apply andb_false_iff in Hj.
    destruct (Z.ltb_spec j 0); [done|]. rewrite lookup_ge_None_2; [done|].
    destruct Hj as [Hj|Hj]; [apply Z.leb_gt in Hj|apply Z.ltb_ge in Hj]; lia.
Qed.
End lists.

Definition demo_lists : Database :=
  mkDatabase ∅ {[ "l" := ["a"; "b"; "a"]; "q" := ["x"] ]} ∅ ∅ {[ "q" := 5 * Second ]} 0.

Lemma push_then_lrange_witness :
  list_of "l" ["a"; "b"; "a"] (s_db (demo_sess demo_lists)) ∧
  ∃ s', lpush (vBulk "l" :: [vBulk "c"; vBulk "d"]) (demo_sess demo_lists) = (Ok (vInt 5), s') ∧
    same_but ["l"] demo_lists (s_db s') ∧ list_of "l" ["d"; "c"; "a"; "b"; "a"] (s_db s') ∧
    lrange [vBulk "l"; vBulk "1"; vBulk "-2"] s' =
      (Ok (vArray (map vBulk (range_spec 1 (-2) ["d"; "c"; "a"; "b"; "a"]))), s').
Proof.
  split; [done|].
  apply (push_then_lrange true (vBulk "l") [vBulk "c"; vBulk "d"] "1" "-2" 1 (-2) ["a"; "b"; "a"]);
    [by vm_compute|by vm_compute|done|done|done].
Defined.

Lemma queue_fifo_witness :
  list_of "new" [] (s_db (demo_sess demo_lists)) ∧
  ∃ s1 s2, rpush (vBulk "new" :: [vBulk "1"; vBulk "2"]) (demo_sess demo_lists) = (Ok (vInt 2), s1) ∧
    for_fold (λ replies _, r ← lpop [vBulk "new"]; mret (replies ++ [r])) [] [vBulk "1"; vBulk "2"] s1 =
      (Ok (map (λ v, vBulk (Str v)) [vBulk "1"; vBulk "2"]), s2) ∧
    Lists (s_db s2) !! "new" = None ∧ lpop [vBulk "new"] s2 = (Ok vNull, s2).
Proof. split; [done|]. by apply (queue_fifo (vBulk "new") [vBulk "1"; vBulk "2"]). Defined.

Lemma lrem_exact_witness :
  list_of "l" ["a"; "b"; "a"] (s_db (demo_sess demo_lists)) ∧
  ∃ s', lrem [vBulk "l"; vBulk "-1"; vBulk "a"] (demo_sess demo_lists) = (Ok (vInt 1), s') ∧
    s_db s' = put_list "l" ["a"; "b"] demo_lists.
Proof.
  split; [done|].
  by apply (lrem_exact (vBulk "l") "-1" (-1) (vBulk "a") ["a"; "b"; "a"]).
Defined.

Lemma lset_then_lindex_witness :
  list_of "l" ["a"; "b"; "a"] (s_db (demo_sess demo_lists)) ∧
  ∃ s', lset [vBulk "l"; vBulk "-1"; vBulk "z"] (demo_sess demo_lists) = (Ok vOK, s') ∧
    list_of "l" (<[2%nat := "z"]> ["a"; "b"; "a"]) (s_db s') ∧
    lindex [vBulk "l"; vBulk "-1"] s' = (Ok (vBulk "z"), s').
Proof.
  split; [done|].
  by apply (lset_then_lindex (vBulk "l") "-1" (-1) (vBulk "z") ["a"; "b"; "a"]).
Defined.

(** ** The deadline of an emptied key *)
Section stale.
Context `{GoEnvLaws}.

(** A pop that empties a list removes the list but not the deadline of
    the key: the key no longer exists, PERSIST still answers 1 on it, and a list
    pushed under the same key later is evicted by the deadline of the old
    one. (DEL removes both.) *)
Theorem lpop_leaves_deadline k x w s exp :
  at_key (Str k) (s_db s) = (None, Some [x], None, None, Some exp) →
  time_Now (S (s_tick s)) < exp →
  ∃ s1, lpop [k] s = (Ok (vBulk x), s1) ∧
    at_key (Str k) (s_db s1) = (None, None, None, None, Some exp) ∧
    keyExistsLocked (s_db s1) (Str k) = false ∧
    fst (persist [k] s1) = Ok (vInt 1) ∧
    ∃ s2, rpush [k; w] s1 = (Ok (vInt 1), s2) ∧
      at_key (Str k) (s_db s2) = (None, Some [Str w], None, None, Some exp).
Proof.
  intros Hat Hlt. apply at_key_eq in Hat as (HS & HL & HSe & HH & HE).
  assert (Hlt0 : time_Now (s_tick s) < exp).
  { pose proof (time_Now_mono (s_tick s) (S (s_tick s)) ltac:(lia)). lia. }
  set (s1 := set_db (put_list (Str k) []) (purged (Str k) s)).
  pose proof (purged_live _ _ _ HE Hlt0) as Hp.
  assert (Ht : s_tick (purged (Str k) s) = S (s_tick s)) by (unfold purged; cbn [s_tick]; by rewrite HE).
  assert (Hat1 : at_key (Str k) (s_db s1) = (None, None, None, None, Some exp)).
  { apply at_key_eq. subst s1. cbn [s_db set_db]. rewrite Hp. unfold put_list.
    cbn [set_Lists Store Lists Sets Hashes Expires]. by rewrite decide_True, lookup_delete_eq by done. }
  pose proof (proj1 (at_key_eq _ _ _ _ _ _ _) Hat1) as (HS1 & HL1 & HSe1 & HH1 & HE1).
  assert (Hp1 : s_db (purged (Str k) s1) = s_db s1).
  { apply (purged_live _ _ _ HE1). subst s1. cbn [s_tick set_db]. by rewrite Ht. }
  exists s1. split_and!; [|done| | |].
  - rewrite lpop_run. unfold pop_result. rewrite Hp, HL. done.
  - unfold keyExistsLocked. by rewrite HS1, HL1, HSe1, HH1.
  - by rewrite persist_run, Hp1, HE1.
  - eexists. split; [rewrite rpush_run, Hp1, HL1; done|]. cbn [s_db set_db]. rewrite Hp1.
    apply at_key_eq. cbn [set_listCond set_Lists Store Lists Sets Hashes Expires].
    rewrite lookup_insert_eq. done.
Qed.
End stale.

Lemma lpop_leaves_deadline_witness :
  at_key "q" (s_db (demo_sess demo_lists)) = (None, Some ["x"], None, None, Some (5 * Second)) ∧
  ∃ s1, lpop [vBulk "q"] (demo_sess demo_lists) = (Ok (vBulk "x"), s1) ∧
    at_key "q" (s_db s1) = (None, None, None, None, Some (5 * Second)) ∧
    keyExistsLocked (s_db s1) "q" = false ∧
    fst (persist [vBulk "q"] s1) = Ok (vInt 1) ∧
    ∃ s2, rpush [vBulk "q"; vBulk "y"] s1 = (Ok (vInt 1), s2) ∧
      at_key "q" (s_db s2) = (None, Some ["y"], None, None, Some (5 * Second)).
Proof.
  split; [by vm_compute|].
  apply (lpop_leaves_deadline (vBulk "q") "x" (vBulk "y") (demo_sess demo_lists)); [by vm_compute|done].
Defined.

(** ** Blocking pops *)
Section blocking.
Context `{GoEnvLaws}.
Implicit Types (s : Sess) (t : Value).

(** No key of the command holds an element, and none expires. *)
Definition nothing_to_pop (keys : list Value) (d : Database) : Prop :=
  Forall (λ k, list_of (Str k) [] d) keys.

Lemma pop_first_skip keys1 keys2 left s :
  nothing_to_pop keys1 (s_db s) →
  pop_first (map Str keys1 ++ keys2) left s = pop_first keys2 left s.
Proof.
  induction 1 as [|k keys Hk Hks IH]; [done|]. cbn [map app].
  rewrite pop_first_cons, (list_of_purged _ _ _ Hk). destruct Hk as [_ Hk].
  destruct (Lists (s_db s) !! Str k) as [l|]; cbn in Hk; [subst|exact IH].
  replace (Some [] ≫= pop_end left) with (@None (string * list string)); [exact IH|].
  by destruct left.
Qed.

Lemma blocking_args keys t :
  keys ≠ [] →
  (length (keys ++ [t]) <? 2)%nat = false ∧
  take (length (keys ++ [t]) - 1) (keys ++ [t]) = keys ∧
  (keys ++ [t]) !! (length (keys ++ [t]) - 1)%nat = Some t.
Proof.
  intros Hne. rewrite length_app. cbn [length]. rewrite Nat.add_sub. split_and!.
  - apply Nat.ltb_ge. destruct keys; [done|]. cbn. lia.
  - apply take_app_length.
  - by rewrite list_lookup_middle.
Qed.

(** BLPOP and BRPOP take one element, from the first key of the command
    that has one, and reply the key with the element; the earlier keys are
    skipped, the later ones are not looked at, and the command does not
    wait. *)
Theorem blocking_pop_first wakeups left keys1 k keys2 t f l x l' s :
  nothing_to_pop keys1 (s_db s) → list_of (Str k) l (s_db s) →
  pop_end left l = Some (x, l') → ParseFloat (Str t) = Some f → float_neg f = false →
  ∃ s', blockingPop (S wakeups) ((keys1 ++ k :: keys2) ++ [t]) left s =
      (Ok (vArray [vBulk (Str k); vBulk x]), s') ∧
    s_db s' = put_list (Str k) l' (s_db s).
Proof.
  intros Hno Hl Hx Ht Hneg.
  destruct (blocking_args (keys1 ++ k :: keys2) t) as (Hlen & Htake & Hlast); [by destruct keys1|].
  assert (Hloop : ∀ b d s', s_db s' = s_db s →
    ∃ s'', blocking_loop (S wakeups) (map Str (keys1 ++ k :: keys2)) left b d s' =
        (Ok (vArray [vBulk (Str k); vBulk x]), s'') ∧
      s_db s'' = put_list (Str k) l' (s_db s)).
  { intros b d s' Hs'. rewrite <-Hs' in Hno, Hl |- *.
    exists (set_db (put_list (Str k) l') s'). split; [|done]. cbn [blocking_loop].
    rewrite map_app, bind_eq, pop_first_skip by done. cbn [map].
    rewrite pop_first_cons, (list_of_purged _ _ _ Hl).
    assert (l ≠ []) as Hne by (intros ->; by destruct left).
    rewrite (list_of_lookup _ _ _ Hl Hne). cbn [mbind option_bind]. by rewrite Hx. }
  unfold blockingPop. rewrite Hlen, Htake, Hlast, Ht, Hneg. cbn zeta.
  destruct (float_pos f).
  - rewrite (bind_ok _ _ _ (time_Now (s_tick s) + float_seconds f) (mkSess (S (s_tick s)) (s_db s) (s_ps s))) by done.
    by apply Hloop.
  - rewrite (bind_ok _ _ _ 0 s) by done. by apply Hloop.
Qed.

Lemma blocking_loop_wait wakeups keys left deadline s :
  nothing_to_pop keys (s_db s) →
  blocking_loop (S wakeups) (map Str keys) left true deadline s =
    if time_Now (s_tick s) >? deadline then
      (Ok vNull, mkSess (S (s_tick s)) (s_db s) (s_ps s))
    else blocking_loop wakeups (map Str keys) left true deadline
           (mkSess (S (S (s_tick s))) (s_db s) (s_ps s)).
Proof.
  intros Hno. cbn [blocking_loop]. rewrite bind_eq.
  rewrite <-(app_nil_r (map Str keys)) at 1. rewrite pop_first_skip by done. cbn [pop_first]. run.
  rewrite (bind_ok _ _ _ (time_Now (s_tick s) >? deadline) (mkSess (S (s_tick s)) (s_db s) (s_ps s))) by done.
  destruct (time_Now (s_tick s) >? deadline); [done|].
  rewrite (bind_ok _ _ _ () (mkSess (S (S (s_tick s))) (s_db s) (s_ps s))); [done|].
  unfold waitForListSignal. rewrite (bind_ok _ _ _ _ _ (Now_run _)). cbn [s_tick].
  by destruct (_ <=? 0).
Qed.

(** With a positive timeout and nothing to pop, a blocking pop ends:
    once the clock passes the deadline it replies null, not before, and leaves the
    database as it was. *)
Theorem blocking_pop_times_out left keys t f s late :
  keys ≠ [] → nothing_to_pop keys (s_db s) →
  ParseFloat (Str t) = Some f → float_neg f = false → float_pos f = true →
  time_Now (s_tick s) + float_seconds f < time_Now late →
  ∃ wakeups s' n, blockingPop wakeups (keys ++ [t]) left s = (Ok vNull, s') ∧
    s_db s' = s_db s ∧ (s_tick s < n < s_tick s')%nat ∧
    time_Now (s_tick s) + float_seconds f < time_Now n.
Proof.
  intros Hne Hno Ht Hneg Hpos Hlate.
  destruct (blocking_args keys t Hne) as (Hlen & Htake & Hlast).
  set (deadline := time_Now (s_tick s) + float_seconds f) in *.
  assert (Hloop : ∀ m s', nothing_to_pop keys (s_db s') → (late ≤ s_tick s' + m)%nat →
    ∃ wakeups s'' n, blocking_loop wakeups (map Str keys) left true deadline s' = (Ok vNull, s'') ∧
      s_db s'' = s_db s' ∧ (s_tick s' ≤ n < s_tick s'')%nat ∧ deadline < time_Now n).
  { clear -Hlate H. induction m as [|m IH]; intros s' Hno Hm.
    - exists 1%nat, (mkSess (S (s_tick s')) (s_db s') (s_ps s')), (s_tick s').
      pose proof (time_Now_mono late (s_tick s') ltac:(lia)).
      rewrite blocking_loop_wait by done.
      destruct (Z.gtb_spec (time_Now (s_tick s')) deadline); [|lia].
      split_and!; cbn; [done|done|lia|lia|lia].
    - destruct (Z.gtb_spec (time_Now (s_tick s')) deadline) as [Hgt|Hle].
      + exists 1%nat, (mkSess (S (s_tick s')) (s_db s') (s_ps s')), (s_tick s').
        rewrite blocking_loop_wait by done.
        destruct (Z.gtb_spec (time_Now (s_tick s')) deadline); [|lia].
        split_and!; cbn; [done|done|lia|lia|lia].
      + destruct (IH (mkSess (S (S (s_tick s'))) (s_db s') (s_ps s'))) as (w & s'' & n & Hrun & Hdb & Hn & Hlt);
          [done|cbn; lia|].
        exists (S w), s'', n. rewrite blocking_loop_wait by done.
        destruct (Z.gtb_spec (time_Now (s_tick s')) deadline); [lia|].
        cbn in Hn, Hdb. split_and!; [done|done|lia|lia|done]. }
  destruct (Hloop late (mkSess (S (s_tick s)) (s_db s) (s_ps s))) as (w & s'' & n & Hrun & Hdb & Hn & Hlt);
    [done|cbn; lia|].
  exists w, s'', n. cbn in Hn, Hdb. split_and!; [|done|lia|lia|done].
  unfold blockingPop. rewrite Hlen, Htake, Hlast, Ht, Hneg, Hpos. cbn zeta.
  by rewrite (bind_ok _ _ _ deadline (mkSess (S (s_tick s)) (s_db s) (s_ps s))).
Qed.
End blocking.

Definition demo_three : @float64 demo_env := 3.

Lemma blocking_pop_first_witness :
  nothing_to_pop [vBulk "none"] (s_db (demo_sess demo_lists)) ∧
  ∃ s', blockingPop 1 (([vBulk "none"] ++ vBulk "l" :: [vBulk "q"]) ++ [vBulk "3"]) true (demo_sess demo_lists) =
      (Ok (vArray [vBulk "l"; vBulk "a"]), s') ∧
    s_db s' = put_list "l" ["b"; "a"] demo_lists.
Proof.
  split; [by repeat constructor|].
  apply (blocking_pop_first 0 true [vBulk "none"] (vBulk "l") [vBulk "q"] (vBulk "3") demo_three ["a"; "b"; "a"]);
    [by repeat constructor|done|done|by vm_compute|done].
Defined.

Lemma blocking_pop_times_out_witness :
  nothing_to_pop [vBulk "none"] (s_db (demo_sess demo_lists)) ∧
  ∃ wakeups s' n, blockingPop wakeups ([vBulk "none"] ++ [vBulk "3"]) false (demo_sess demo_lists) = (Ok vNull, s') ∧
    s_db s' = demo_lists ∧ (0 < n < s_tick s')%nat ∧
    time_Now 0 + 3 * Second < time_Now n.
Proof.
  split; [by repeat constructor|].
  apply (blocking_pop_times_out false [vBulk "none"] (vBulk "3") demo_three (demo_sess demo_lists) 4);
    [done|by repeat constructor|by vm_compute|done..].
Defined.
