(* ===== verification/SetHashProps.v ===== *)
(** * SetHashProps: sets and hashes *)
From S2P Require Import Prelude Go Strconv Resp DataStruct PubSub PubSubFacts.
From S2P Require Import Database StringCmds ListCmds SetCmds HashCmds ExpireCmds DbFacts.
From S2P Require Import CmdFacts Demo.
Import ListFacts SetFacts HashFacts.

(** ** Sets *)

(** The members of the set at a key; a missing key is the empty set. *)
Definition members (d : Database) (key : string) : gset string := dom (default ∅ (Sets d !! key)).

Section sets.
Context `{GoEnvLaws}.
Implicit Types (s : Sess) (k : Value).

Abbreviation lives key s := (Expires (s_db s) !! key = None).

Lemma GetSet_lives key s : lives key s → GetSet key s = (Ok (Sets (s_db s) !! key), s).
Proof. intros Hk. by rewrite GetSet_run, purged_no_deadline. Qed.

(** SADD adds its arguments to the members of the set and replies how
    many are new; SREM takes them out, replies how many were there, and
    removes the key with the last one. SISMEMBER and SCARD then answer for
    exactly these members. *)
Theorem sadd_srem_members add k ms s :
  lives (Str k) s → ms ≠ [] →
  let old := members (s_db s) (Str k) in
  let new := if add : bool then old ∪ list_to_set (map Str ms) else old ∖ list_to_set (map Str ms) in
  ∃ s', (if add then sadd else srem) (k :: ms) s =
      (Ok (vInt (Z.abs (Z.of_nat (size new) - Z.of_nat (size old)))), s') ∧
    same_but [Str k] (s_db s) (s_db s') ∧
    members (s_db s') (Str k) = new ∧
    scard [k] s' = (Ok (vInt (Z.of_nat (size new))), s') ∧
    ∀ m, sismember [k; m] s' = (Ok (vInt (if decide (Str m ∈ new) then 1 else 0)), s').
Proof.
  intros Hk Hne old new. destruct ms as [|m ms]; [done|].
  set (x := default ∅ (Sets (s_db s) !! Str k)).
  assert (Hreads : ∀ s', lives (Str k) s' → members (s_db s') (Str k) = new →
    scard [k] s' = (Ok (vInt (Z.of_nat (size new))), s') ∧
    ∀ m, sismember [k; m] s' = (Ok (vInt (if decide (Str m ∈ new) then 1 else 0)), s')).
  { clear. intros s' Hl Hm. unfold scard, sismember.
    rewrite (bind_ok _ _ _ _ _ (GetSet_lives _ _ Hl)). unfold members in Hm.
    destruct (Sets (s_db s') !! Str k) as [y|] eqn:Hy; cbn [default from_option id] in Hm.
    - split; [unfold SetDS.SCard; by rewrite <-Hm, size_dom|]. intros m'.
      rewrite (bind_ok _ _ _ _ _ (GetSet_lives _ _ Hl)), Hy, <-Hm.
      pose proof (SIsMember_spec y (Str m')) as Hs.
      case_decide as Hd; [by rewrite (proj2 Hs Hd)|].
      destruct (SetDS.SIsMember y (Str m')); [|done]. by destruct Hd; apply Hs.
    - rewrite <-Hm. split; [by rewrite dom_empty_L, size_empty|]. intros m'.
      rewrite (bind_ok _ _ _ _ _ (GetSet_lives _ _ Hl)), Hy.
      by rewrite decide_False by (rewrite dom_empty_L; set_solver). }
  assert (Hold : size old = size x) by (subst old; unfold members; by rewrite size_dom).
  destruct add; cbn beta iota in new.
  - set (x' := add_all (map Str (m :: ms)) x).
    assert (Hnew : dom x' = new) by (subst x'; rewrite add_all_dom; set_solver).
    exists (set_db (set_Sets <[Str k := x']>) s).
    assert (Hm : members (set_Sets <[Str k := x']> (s_db s)) (Str k) = new).
    { unfold members. cbn. by rewrite lookup_insert_eq. }
    split; [|split; [|split; [done|by apply Hreads]]].
    + rewrite sadd_run, purged_no_deadline by done. cbn zeta. fold x x'.
      rewrite Hold, <-Hnew, size_dom, Z.abs_eq; [done|].
      assert (size x ≤ size x')%nat; [|lia]. rewrite <-!(size_dom (D:=gset string)).
      apply subseteq_size. rewrite Hnew. subst new old. unfold members. fold x. set_solver.
    + intros k' Hk'. rewrite list_elem_of_singleton in Hk'. unfold at_key. cbn.
      by rewrite lookup_insert_ne by congruence.
  - rewrite srem_run, purged_no_deadline by done.
    destruct (Sets (s_db s) !! Str k) as [x0|] eqn:Hx.
    2:{ exists s. assert (Hm : old = ∅) by (subst old; unfold members; rewrite Hx; apply dom_empty_L).
        assert (Hn : new = ∅) by (subst new; rewrite Hm; set_solver).
        split; [|split; [done|split; [|apply Hreads; [done|]]]].
        - by rewrite Hm, Hn, size_empty.
        - by rewrite Hn, <-Hm.
        - by rewrite Hn, <-Hm. }
    cbn in x. subst x. cbn zeta. set (x' := remove_all (map Str (m :: ms)) x0).
    assert (Hdold : old = dom x0) by (subst old; unfold members; by rewrite Hx).
    assert (Hnew : dom x' = new) by (subst x' new; by rewrite remove_all_dom, Hdold).
    exists (set_db (put_set (Str k) x') s).
    assert (Hm : members (put_set (Str k) x' (s_db s)) (Str k) = new).
    { unfold members, put_set. cbn [set_Sets Sets]. case_decide as He.
      - rewrite lookup_delete_eq. cbn [default from_option id]. by rewrite <-Hnew, He.
      - by rewrite lookup_insert_eq. }
    split; [|split; [|split; [done|by apply Hreads]]].
    + rewrite Hold, <-Hnew, size_dom, Z.abs_neq; [do 3 f_equal; lia|].
      assert (size x' ≤ size x0)%nat; [|lia]. rewrite <-!(size_dom (D:=gset string)).
      apply subseteq_size. rewrite Hnew. subst new. rewrite Hdold. set_solver.
    + intros k' Hk'. rewrite list_elem_of_singleton in Hk'. unfold at_key, put_set.
      cbn [set_db s_db set_Sets Store Lists Sets Hashes Expires].
      case_decide; by rewrite ?lookup_delete_ne, ?lookup_insert_ne by congruence.
Qed.

(** SPOP takes one member out of a non-empty set and replies it; the
    others stay, and the key goes with the last one. *)
Theorem spop_takes_one k s :
  lives (Str k) s → members (s_db s) (Str k) ≠ ∅ →
  ∃ m s', spop [k] s = (Ok (vBulk m), s') ∧ m ∈ members (s_db s) (Str k) ∧
    members (s_db s') (Str k) = members (s_db s) (Str k) ∖ {[ m ]} ∧
    same_but [Str k] (s_db s) (s_db s') ∧
    (members (s_db s) (Str k) = {[ m ]} → Sets (s_db s') !! Str k = None).
Proof.
  intros Hk Hne. pose proof (spop_run k s) as Hrun. rewrite purged_no_deadline in Hrun by done.
  unfold members in *. destruct (Sets (s_db s) !! Str k) as [x|] eqn:Hx; [|by destruct Hne; apply dom_empty_L].
  cbn [default from_option id] in *.
  assert (x ≠ ∅) as Hx0 by (intros ->; by rewrite dom_empty_L in Hne).
  destruct Hrun as (n & v & x' & Hrun & [[? _]|(m & Hm & -> & ->)]); [done|].
  rewrite decide_False in Hrun by done.
  eexists m, _. split; [exact Hrun|]. cbn [s_db]. split_and!; [done| | |].
  - cbn [set_Sets Sets]. case_decide as He.
    + rewrite lookup_delete_eq. cbn. by rewrite <-dom_delete_L, He.
    + rewrite lookup_insert_eq. cbn. apply dom_delete_L.
  - intros k' Hk'. rewrite list_elem_of_singleton in Hk'. unfold at_key.
    cbn [set_Sets Store Lists Sets Hashes Expires].
    case_decide; by rewrite ?lookup_delete_ne, ?lookup_insert_ne by congruence.
  - intros Hd. cbn [set_Sets Sets]. rewrite decide_True; [apply lookup_delete_eq|].
    apply (dom_empty_inv_L (D:=gset string)). rewrite dom_delete_L, Hd. set_solver.
Qed.

(** The sets behind the keys of a command. *)
Definition sets_at (d : Database) (ks : list Value) : list (gset string) :=
  map (λ k, members d (Str k)) ks.

Lemma get_present_sets_run ks s :
  Forall (λ k, lives (Str k) s) ks →
  ∃ xs, get_present_sets ks s = (Ok xs, s) ∧
    ∀ m, Exists (λ x, m ∈ dom x) xs ↔ Exists (λ X, m ∈ X) (sets_at (s_db s) ks).
Proof.
  intros Hks. unfold get_present_sets.
  assert (Hloop : ∀ acc, ∃ xs, for_fold (λ otherSets k,
      set ← GetSet (Str k);
      match set with None => mret otherSets | Some set => mret (otherSets ++ [set]) end) acc ks s =
        (Ok xs, s) ∧
      ∀ m, Exists (λ x, m ∈ dom x) xs ↔
        Exists (λ x, m ∈ dom x) acc ∨ Exists (λ X, m ∈ X) (sets_at (s_db s) ks)).
  { induction Hks as [|k ks Hk Hks IH]; intros acc.
    - exists acc. split; [done|]. intros m. cbn. rewrite Exists_nil. tauto.
    - cbn [for_fold]. rewrite bind_eq, (bind_ok _ _ _ _ _ (GetSet_lives _ _ Hk)).
      cbn [sets_at map]. setoid_rewrite Exists_cons. unfold members at 1.
      destruct (Sets (s_db s) !! Str k) as [x|]; cbn [default from_option id].
      + destruct (IH (acc ++ [x])) as (xs & Hrun & Hxs). exists xs. split; [exact Hrun|].
        intros m. rewrite Hxs, Exists_app, Exists_cons, Exists_nil. tauto.
      + destruct (IH acc) as (xs & Hrun & Hxs). exists xs. split; [exact Hrun|].
        intros m. rewrite Hxs, dom_empty_L. set_solver. }
  destruct (Hloop []) as (xs & Hrun & Hxs). exists xs. split; [exact Hrun|].
  intros m. rewrite Hxs, Exists_nil. tauto.
Qed.

Lemma get_all_sets_run ks s : ∀ acc,
  Forall (λ k, lives (Str k) s) ks →
  ∃ r, get_all_sets ks acc s = (Ok r, s) ∧
    match r with
    | Some xs => ∀ m, Forall (λ x, m ∈ dom x) xs ↔
        Forall (λ x, m ∈ dom x) acc ∧ Forall (λ X, m ∈ X) (sets_at (s_db s) ks)
    | None => ∀ m, ¬ Forall (λ X, m ∈ X) (sets_at (s_db s) ks)
    end.
Proof.
  intros acc Hks. revert acc. induction Hks as [|k ks Hk Hks IH]; intros acc.
  - exists (Some acc). split; [done|]. intros m. cbn. split; [by split; [|constructor]|by intros []].
  - cbn [get_all_sets]. rewrite (bind_ok _ _ _ _ _ (GetSet_lives _ _ Hk)).
    assert (Hcons : ∀ m, Forall (λ X, m ∈ X) (sets_at (s_db s) (k :: ks)) ↔
      m ∈ members (s_db s) (Str k) ∧ Forall (λ X, m ∈ X) (sets_at (s_db s) ks))
      by (intros m; apply list.Forall_cons).
    unfold members in Hcons.
    destruct (Sets (s_db s) !! Str k) as [x|]; cbn [default from_option id] in Hcons.
    + destruct (IH (acc ++ [x])) as (r & Hrun & Hr). exists r. split; [exact Hrun|].
      destruct r as [xs|].
      * intros m. rewrite Hr, Hcons, Forall_app, list.Forall_cons.
        split; [by intros [[? []] ?]|intros (?&?&?); by split_and!].
      * intros m [_ Hf]%Hcons. by eapply Hr.
    + exists None. split; [done|]. intros m [Hm _]%Hcons. set_solver.
Qed.

(** C38: SINTER, SUNION and SDIFF reply, without repetition, exactly the
    members of the intersection, of the union, and of the first set less
    the others; a missing key is the empty set, and the database is left as it
    is. *)
Theorem set_algebra k ks s :
  Forall (λ k, lives (Str k) s) (k :: ks) →
  let first := members (s_db s) (Str k) in
  let others := sets_at (s_db s) ks in
  ∃ inter union diff s1 s2 s3,
    sinter (k :: ks) s = (Ok (vArray (map vBulk inter)), s1) ∧
    sunion (k :: ks) s = (Ok (vArray (map vBulk union)), s2) ∧
    sdiff (k :: ks) s = (Ok (vArray (map vBulk diff)), s3) ∧
    s_db s1 = s_db s ∧ s_db s2 = s_db s ∧ s_db s3 = s_db s ∧
    NoDup inter ∧ NoDup union ∧ NoDup diff ∧
    ∀ m, (m ∈ inter ↔ m ∈ first ∧ Forall (λ X, m ∈ X) others) ∧
         (m ∈ union ↔ m ∈ first ∨ Exists (λ X, m ∈ X) others) ∧
         (m ∈ diff ↔ m ∈ first ∧ ¬ Exists (λ X, m ∈ X) others).
Proof.
  intros Hks first others. apply list.Forall_cons in Hks as [Hk Hks].
  destruct (get_present_sets_run ks s Hks) as (xs & Hp & Hxs).
  destruct (get_all_sets_run ks s [] Hks) as (r & Ha & Hr).
  subst first others. unfold members at 1 2 3.
  assert (HU : ∀ x : gmap string (), ∃ l s2, (members ← ranged (SetDS.SUnion x xs); mret (vArray (map vBulk members))) s =
      (Ok (vArray (map vBulk l)), s2) ∧ s_db s2 = s_db s ∧ NoDup l ∧
      ∀ m, m ∈ l ↔ m ∈ dom x ∨ Exists (λ X, m ∈ X) (sets_at (s_db s) ks)).
  { intros x. destruct (SUnion_spec (s_tick s) x xs) as (l & n' & Hl & Hnd & Hin).
    exists l, (mkSess n' (s_db s) (s_ps s)). split; [|split; [done|split; [done|]]].
    - unfold ranged, zoom. rewrite bind_eq. by rewrite Hl.
    - intros m. by rewrite Hin, Hxs. }
  unfold sinter, sunion, sdiff. rewrite !(bind_ok _ _ _ _ _ (GetSet_lives _ _ Hk)).
  destruct (Sets (s_db s) !! Str k) as [x|] eqn:Hx; cbn [default from_option id].
  - rewrite (bind_ok _ _ _ _ _ Ha), !(bind_ok _ _ _ _ _ Hp).
    destruct (HU x) as (lu & s2 & Hu & Hs2 & Hnu & Hinu).
    destruct (SDiff_spec (s_tick s) x xs) as (ld & nd & Hd & Hnd & Hind).
    assert (HI : ∃ li s1, match r with
        | Some otherSets => members ← ranged (SetDS.SInter x otherSets); mret (vArray (map vBulk members))
        | None => mret (vArray []) end s = (Ok (vArray (map vBulk li)), s1) ∧ s_db s1 = s_db s ∧ NoDup li ∧
        ∀ m, m ∈ li ↔ m ∈ dom x ∧ Forall (λ X, m ∈ X) (sets_at (s_db s) ks)).
    { destruct r as [ys|].
      - destruct (SInter_spec (s_tick s) x ys) as (li & ni & Hi & Hni & Hini).
        exists li, (mkSess ni (s_db s) (s_ps s)). split; [|split; [done|split; [done|]]].
        + unfold ranged, zoom. rewrite bind_eq. by rewrite Hi.
        + intros m. rewrite Hini, Hr. split; [by intros (?&_&?)|intros []; split_and!; by try constructor].
      - exists [], s. split; [done|]. split; [done|]. split; [constructor|].
        intros m. rewrite elem_of_nil. split; [done|]. intros [_ Hf]. by eapply Hr. }
    destruct HI as (li & s1 & Hi & Hs1 & Hni & Hini).
    exists li, lu, ld, s1, s2, (mkSess nd (s_db s) (s_ps s)).
    split_and!; [exact Hi|exact Hu| |done..|].
    + unfold ranged, zoom. rewrite bind_eq. by rewrite Hd.
    + intros m. split; [apply Hini|]. split; [apply Hinu|].
      rewrite Hind, <-(Hxs m), List.Forall_Exists_neg. done.
  - rewrite (bind_ok _ _ _ _ _ Hp).
    destruct (HU ∅) as (lu & s2 & Hu & Hs2 & Hnu & Hinu).
    exists [], lu, [], s, s2, s.
    split_and!; [done|exact Hu|done|done|done|done|constructor|done|constructor|].
    intros m. rewrite elem_of_nil, dom_empty_L in *. split; [set_solver|].
    split; [apply Hinu|set_solver].
Qed.
End sets.

Definition demo_sets : Database :=
  mkDatabase ∅ ∅ {[ "a" := {[ "x" := (); "y" := () ]}; "b" := {[ "y" := () ]} ]}
    {[ "h" := {[ "f" := "1"; "m" := "-9223372036854775807" ]} ]} ∅ 0.

Lemma sadd_srem_members_witness :
  members (s_db (demo_sess demo_sets)) "a" = {[ "x"; "y" ]} ∧
  let new := members demo_sets "a" ∖ list_to_set (map Str [vBulk "x"; vBulk "z"]) in
  ∃ s', srem (vBulk "a" :: [vBulk "x"; vBulk "z"]) (demo_sess demo_sets) =
      (Ok (vInt (Z.abs (Z.of_nat (size new) - Z.of_nat (size (members demo_sets "a"))))), s') ∧
    same_but ["a"] demo_sets (s_db s') ∧
    members (s_db s') "a" = new ∧
    scard [vBulk "a"] s' = (Ok (vInt (Z.of_nat (size new))), s') ∧
    ∀ m, sismember [vBulk "a"; m] s' = (Ok (vInt (if decide (Str m ∈ new) then 1 else 0)), s').
Proof.
  split; [by vm_compute|].
  by apply (sadd_srem_members false (vBulk "a") [vBulk "x"; vBulk "z"] (demo_sess demo_sets)).
Defined.

Lemma spop_takes_one_witness :
  members (s_db (demo_sess demo_sets)) "b" ≠ ∅ ∧
  ∃ m s', spop [vBulk "b"] (demo_sess demo_sets) = (Ok (vBulk m), s') ∧ m ∈ members demo_sets "b" ∧
    members (s_db s') "b" = members demo_sets "b" ∖ {[ m ]} ∧
    same_but ["b"] demo_sets (s_db s') ∧
    (members demo_sets "b" = {[ m ]} → Sets (s_db s') !! "b" = None).
Proof.
  assert (Hne : members (s_db (demo_sess demo_sets)) "b" ≠ ∅) by by vm_compute.
  split; [exact Hne|]. by apply (spop_takes_one (vBulk "b") (demo_sess demo_sets)).
Defined.

Lemma set_algebra_witness :
  Forall (λ k, Expires (s_db (demo_sess demo_sets)) !! Str k = None) [vBulk "a"; vBulk "b"; vBulk "none"] ∧
  let first := members demo_sets "a" in
  let others := sets_at demo_sets [vBulk "b"; vBulk "none"] in
  ∃ inter union diff s1 s2 s3,
    sinter [vBulk "a"; vBulk "b"; vBulk "none"] (demo_sess demo_sets) = (Ok (vArray (map vBulk inter)), s1) ∧
    sunion [vBulk "a"; vBulk "b"; vBulk "none"] (demo_sess demo_sets) = (Ok (vArray (map vBulk union)), s2) ∧
    sdiff [vBulk "a"; vBulk "b"; vBulk "none"] (demo_sess demo_sets) = (Ok (vArray (map vBulk diff)), s3) ∧
    s_db s1 = demo_sets ∧ s_db s2 = demo_sets ∧ s_db s3 = demo_sets ∧
    NoDup inter ∧ NoDup union ∧ NoDup diff ∧
    ∀ m, (m ∈ inter ↔ m ∈ first ∧ Forall (λ X, m ∈ X) others) ∧
         (m ∈ union ↔ m ∈ first ∨ Exists (λ X, m ∈ X) others) ∧
         (m ∈ diff ↔ m ∈ first ∧ ¬ Exists (λ X, m ∈ X) others).
Proof.
  assert (Hk : Forall (λ k, Expires (s_db (demo_sess demo_sets)) !! Str k = None)
    [vBulk "a"; vBulk "b"; vBulk "none"]) by by repeat constructor.
  split; [exact Hk|]. exact (set_algebra (vBulk "a") [vBulk "b"; vBulk "none"] (demo_sess demo_sets) Hk).
Defined.

(** ** Hashes *)

(** The fields of the hash at a key; a missing key is the empty hash. *)
Definition fields_of (d : Database) (key : string) : gmap string string := default ∅ (Hashes d !! key).

Section hashes.
Context `{GoEnvLaws}.
Implicit Types (s : Sess) (k f v : Value).

Abbreviation lives key s := (Expires (s_db s) !! key = None).

Lemma GetHash_lives key s : lives key s → GetHash key s = (Ok (Hashes (s_db s) !! key), s).
Proof. intros Hk. by rewrite GetHash_run, purged_no_deadline. Qed.

Lemma hget_run k f s :
  lives (Str k) s →
  hget [k; f] s = (Ok (match fields_of (s_db s) (Str k) !! Str f with
                       | Some v => vBulk v | None => vNull end), s).
Proof.
  intros Hk. unfold hget, fields_of. rewrite (bind_ok _ _ _ _ _ (GetHash_lives _ _ Hk)).
  destruct (Hashes (s_db s) !! Str k) as [x|]; cbn [default from_option id]; [|by rewrite lookup_empty].
  unfold HashDS.HGet. by destruct (x !! Str f).
Qed.

(** HSET stores the value in the field, answers 1 for a new field and 0
    for one it overwrites, and leaves the other fields alone; HGET reads the value
    back. *)
Theorem hset_then_hget k f v s :
  lives (Str k) s →
  ∃ s', hset [k; f; v] s =
      (Ok (vInt (if decide (fields_of (s_db s) (Str k) !! Str f = None) then 1 else 0)), s') ∧
    fields_of (s_db s') (Str k) = <[Str f := Str v]> (fields_of (s_db s) (Str k)) ∧
    same_but [Str k] (s_db s) (s_db s') ∧
    hget [k; f] s' = (Ok (vBulk (Str v)), s') ∧
    ∀ f', Str f' ≠ Str f → fst (hget [k; f'] s') = fst (hget [k; f'] s).
Proof.
  intros Hk. eexists. split; [rewrite hset_run, purged_no_deadline by done; done|].
  set (s' := set_db _ s).
  assert (Hf : fields_of (s_db s') (Str k) = <[Str f := Str v]> (fields_of (s_db s) (Str k)))
    by (unfold fields_of; cbn; by rewrite lookup_insert_eq).
  split_and!; [done| | |].
  - intros k' Hk'. rewrite list_elem_of_singleton in Hk'. unfold at_key. cbn.
    by rewrite lookup_insert_ne by congruence.
  - rewrite hget_run by done. by rewrite Hf, lookup_insert_eq.
  - intros f' Hne. rewrite !hget_run by done. cbn [fst]. by rewrite Hf, lookup_insert_ne by congruence.
Qed.

(** HDEL removes the fields it names and no other, replies how many
    there were, and removes the key with the last field. *)
Theorem hdel_removes k fs s :
  lives (Str k) s → fs ≠ [] →
  let old := fields_of (s_db s) (Str k) in
  ∃ s' new, hdel (k :: fs) s = (Ok (vInt (Z.of_nat (size old) - Z.of_nat (size new))), s') ∧
    fields_of (s_db s') (Str k) = new ∧
    (∀ name, new !! name = if decide (name ∈ map Str fs) then None else old !! name) ∧
    (new = ∅ → Hashes (s_db s) !! Str k ≠ Some ∅ → Hashes (s_db s') !! Str k = None) ∧
    same_but [Str k] (s_db s) (s_db s').
Proof.
  intros Hk Hne old. destruct fs as [|f fs]; [done|].
  rewrite hdel_run, purged_no_deadline by done. unfold old, fields_of.
  destruct (Hashes (s_db s) !! Str k) as [x|] eqn:Hx; cbn [default from_option id].
  - cbn zeta. set (x' := del_all (map Str (f :: fs)) x).
    exists (set_db (put_hash (Str k) x') s), x'. split_and!; [done| | | |].
    + unfold put_hash. cbn [set_db s_db set_Hashes Hashes]. case_decide as He.
      * by rewrite lookup_delete_eq, He.
      * by rewrite lookup_insert_eq.
    + intros name. apply del_all_lookup.
    + intros He _. unfold put_hash. cbn [set_db s_db set_Hashes Hashes].
      rewrite decide_True by done. apply lookup_delete_eq.
    + intros k' Hk'. rewrite list_elem_of_singleton in Hk'. unfold at_key, put_hash.
      cbn [set_db s_db set_Hashes Store Lists Sets Hashes Expires].
      case_decide; by rewrite ?lookup_delete_ne, ?lookup_insert_ne by congruence.
  - exists s, ∅. split_and!; [by rewrite map_size_empty|by rewrite Hx| |done|done].
    intros name. rewrite lookup_empty. by case_decide.
Qed.

(** The pairs an HMSET collects. *)
Lemma collect_pairs_other fvs : ∀ pairs name, name ∉ map (λ '(f, _), Str f) fvs →
  collect_pairs (flat fvs) pairs !! name = pairs !! name.
Proof.
  induction fvs as [|[f0 v0] fvs IH]; intros pairs name Hn; [done|].
  cbn [map] in Hn. apply not_elem_of_cons in Hn as [Hne Hn].
  change (flat ((f0, v0) :: fvs)) with (f0 :: v0 :: flat fvs). cbn [collect_pairs].
  by rewrite IH, lookup_insert_ne by congruence.
Qed.

Lemma collect_pairs_in fvs : ∀ pairs f v, NoDup (map (λ '(f, _), Str f) fvs) → (f, v) ∈ fvs →
  collect_pairs (flat fvs) pairs !! Str f = Some (Str v).
Proof.
  induction fvs as [|[f0 v0] fvs IH]; intros pairs f v Hnd Hin; [by apply elem_of_nil in Hin|].
  cbn [map] in Hnd. apply list.NoDup_cons in Hnd as [Hf0 Hnd].
  change (flat ((f0, v0) :: fvs)) with (f0 :: v0 :: flat fvs). cbn [collect_pairs].
  apply elem_of_cons in Hin as [[= <- <-]|Hin]; [|by apply IH].
  by rewrite collect_pairs_other, lookup_insert_eq.
Qed.

(** The replies of HMGET, field by field. *)
Lemma hmget_values (x : gmap string string) names :
  zip_with (λ (field v : string),
    if bool_decide (v = "") && negb (HashDS.HExists x field) then vNull else vBulk v)
    names (HashDS.HMGet x names) =
  map (λ name, match x !! name with Some v => vBulk v | None => vNull end) names.
Proof.
  induction names as [|name names IH]; [done|]. unfold HashDS.HMGet, HashDS.HExists in *.
  cbn [map zip_with]. f_equal; [|exact IH].
  destruct (x !! name) as [v|]; [|done]. cbn. by rewrite andb_false_r.
Qed.

(** HMSET of any number of distinct fields, then HMGET of them and of a
    missing one, replies the values in order and null for the missing one;
    the other fields of the hash and the other keys do not change. *)
Theorem hmset_then_hmget k fvs missing s :
  lives (Str k) s → fvs ≠ [] → NoDup (map (λ '(f, _), Str f) fvs) →
  Str missing ∉ map (λ '(f, _), Str f) fvs → fields_of (s_db s) (Str k) !! Str missing = None →
  ∃ s', hmset (k :: flat fvs) s = (Ok vOK, s') ∧
    hmget (k :: map fst fvs ++ [missing]) s' =
      (Ok (vArray (map (λ '(_, v), vBulk (Str v)) fvs ++ [vNull])), s') ∧
    (∀ name, name ∉ map (λ '(f, _), Str f) fvs →
      fields_of (s_db s') (Str k) !! name = fields_of (s_db s) (Str k) !! name) ∧
    same_but [Str k] (s_db s) (s_db s').
Proof.
  intros Hk Hne Hnd Hmiss Hnone. set (x := fields_of (s_db s) (Str k)) in *.
  set (x' := collect_pairs (flat fvs) ∅ ∪ x).
  assert (Hin : ∀ f v, (f, v) ∈ fvs → x' !! Str f = Some (Str v)).
  { intros f v Hfv. subst x'. apply lookup_union_Some_l. by apply collect_pairs_in. }
  assert (Hout : ∀ name, name ∉ map (λ '(f, _), Str f) fvs → x' !! name = x !! name).
  { intros name Hn. subst x'. apply lookup_union_r. by rewrite collect_pairs_other. }
  exists (mkSess (S (s_tick s)) (set_Hashes <[Str k := x']> (s_db s)) (s_ps s)).
  set (s' := mkSess _ _ _).
  assert (Hf : fields_of (s_db s') (Str k) = x')
    by (unfold fields_of; cbn; by rewrite lookup_insert_eq).
  split_and!.
  - pose proof (flat_length fvs) as Hlen.
    assert (Hpos : (1 ≤ length fvs)%nat) by (destruct fvs; cbn; [done|lia]).
    unfold hmset. cbn [length]. rewrite Hlen, Nat.even_succ, <-Nat.negb_even, Nat.even_mul.
    destruct (Nat.ltb_spec (S (2 * length fvs)) 3); [lia|]. cbn [negb orb Nat.even].
    rewrite (bind_ok _ _ _ _ _ (GetOrCreateHash_run (Str k) s)), purged_no_deadline by done.
    fold (fields_of (s_db s) (Str k)). fold x.
    erewrite bind_ok; [|apply (on_hash_HMSet _ _ x); cbn; apply lookup_insert_eq].
    run. unfold s', set_db. cbn. by rewrite set_Hashes_insert.
  - assert (Hh : Hashes (s_db s') !! Str k = Some x') by (cbn; apply lookup_insert_eq).
    unfold hmget. destruct (map fst fvs ++ [missing]) as [|f0 fs] eqn:Hfs; [by destruct fvs|].
    rewrite <-Hfs. rewrite (bind_ok _ _ _ _ _ (GetHash_lives (Str k) s' Hk)), Hh. run.
    do 3 f_equal. rewrite hmget_values, !map_app, !map_map. f_equal.
    + apply map_ext_in. intros [f v] Hfv%list_elem_of_In. cbn [fst]. by rewrite (Hin f v).
    + cbn [map]. by rewrite Hout, Hnone.
  - intros name Hn. by rewrite Hf, Hout.
  - intros k' Hk'. rewrite list_elem_of_singleton in Hk'. unfold at_key. cbn.
    by rewrite lookup_insert_ne by congruence.
Qed.

(** HINCRBY adds modulo 2^64 to the number in the field (a missing
    field counts as 0) and leaves its decimal form there. *)
Theorem hincrby_adds k f i inc cur s :
  lives (Str k) s → Atoi i = (inc, None) →
  (fields_of (s_db s) (Str k) !! Str f = None ∧ cur = 0 ∨
   ∃ text, fields_of (s_db s) (Str k) !! Str f = Some text ∧ Atoi text = (cur, None)) →
  wrap64 (cur + inc) ≠ minInt →
  ∃ s', hincrby [k; f; vBulk i] s = (Ok (vInt (wrap64 (cur + inc))), s') ∧
    fields_of (s_db s') (Str k) = <[Str f := Itoa (wrap64 (cur + inc))]> (fields_of (s_db s) (Str k)) ∧
    same_but [Str k] (s_db s) (s_db s').
Proof.
  intros Hk Hi Hcur Hmin. set (x := fields_of (s_db s) (Str k)) in *.
  assert (Hr : HashDS.HIncrBy (Str f) inc x = (Ok (wrap64 (cur + inc)), <[Str f := Itoa (wrap64 (cur + inc))]> x)).
  { apply HIncrBy_ok; [|done]. destruct Hcur as [?|(v & Hv & Ha)]; [by left|right].
    exists v. split; [done|]. by apply parseInt_Atoi. }
  eexists. split; [|split].
  - unfold hincrby. cbn [Str vBulk]. rewrite Hi.
    rewrite (bind_ok _ _ _ _ _ (GetOrCreateHash_run (Str k) s)), purged_no_deadline by done.
    erewrite bind_ok; [|apply (on_hash_still (Str k) _ x (Ok (inl (wrap64 (cur + inc)))));
      [cbn; apply lookup_insert_eq|unfold try; by rewrite Hr]]. run. reflexivity.
  - unfold fields_of. cbn. by rewrite lookup_insert_eq.
  - intros k' Hk'. rewrite list_elem_of_singleton in Hk'. unfold at_key. cbn.
    by rewrite !lookup_insert_ne by congruence.
Qed.

(** The least 64-bit integer is the one number HINCRBY cannot store: it
    leaves a lone minus sign in the field, which the next HINCRBY reads as
    zero, so the number is lost. *)
Theorem hincrby_loses_minInt k f s :
  lives (Str k) s → fields_of (s_db s) (Str k) !! Str f = Some "-9223372036854775807" →
  ∃ s1 s2, hincrby [k; f; vBulk "-1"] s = (Ok (vInt minInt), s1) ∧
    fields_of (s_db s1) (Str k) !! Str f = Some "-" ∧
    hincrby [k; f; vBulk "0"] s1 = (Ok (vInt 0), s2) ∧
    fields_of (s_db s2) (Str k) !! Str f = Some "0".
Proof.
  intros Hk Hf. set (x := fields_of (s_db s) (Str k)) in *.
  destruct (HIncrBy_minInt (Str f) x) as [H1 H2]; [by vm_compute Itoa|].
  assert (Hstep : ∀ i inc n x x' s, lives (Str k) s → Atoi i = (inc, None) →
    fields_of (s_db s) (Str k) = x → HashDS.HIncrBy (Str f) inc x = (Ok n, x') →
    ∃ s', hincrby [k; f; vBulk i] s = (Ok (vInt n), s') ∧ lives (Str k) s' ∧
      fields_of (s_db s') (Str k) = x').
  { clear. intros i inc n x x' s Hk Hi Hx Hr. eexists. split; [|split].
    - unfold hincrby. cbn [Str vBulk]. rewrite Hi.
      rewrite (bind_ok _ _ _ _ _ (GetOrCreateHash_run (Str k) s)), purged_no_deadline by done.
      fold (fields_of (s_db s) (Str k)). rewrite Hx.
      erewrite bind_ok; [|apply (on_hash_still (Str k) _ x (Ok (inl n)));
        [cbn; apply lookup_insert_eq|unfold try; by rewrite Hr]]. run. reflexivity.
    - exact Hk.
    - unfold fields_of. cbn. by rewrite lookup_insert_eq. }
  destruct (Hstep "-1" (-1) _ _ _ s Hk eq_refl eq_refl H1) as (s1 & Hr1 & Hk1 & Hx1).
  destruct (Hstep "0" 0 _ _ _ s1 Hk1 eq_refl Hx1 H2) as (s2 & Hr2 & _ & Hx2).
  exists s1, s2. rewrite Hx1, Hx2, !lookup_insert_eq. done.
Qed.
End hashes.

Lemma hset_then_hget_witness :
  Expires (s_db (demo_sess demo_sets)) !! "h" = None ∧
  ∃ s', hset [vBulk "h"; vBulk "f"; vBulk "2"] (demo_sess demo_sets) = (Ok (vInt 0), s') ∧
    fields_of (s_db s') "h" = <["f" := "2"]> (fields_of demo_sets "h") ∧
    same_but ["h"] demo_sets (s_db s') ∧
    hget [vBulk "h"; vBulk "f"] s' = (Ok (vBulk "2"), s') ∧
    ∀ f', Str f' ≠ "f" → fst (hget [vBulk "h"; f'] s') = fst (hget [vBulk "h"; f'] (demo_sess demo_sets)).
Proof.
  split; [done|]. by apply (hset_then_hget (vBulk "h") (vBulk "f") (vBulk "2") (demo_sess demo_sets)).
Defined.

Lemma hdel_removes_witness :
  Expires (s_db (demo_sess demo_sets)) !! "h" = None ∧
  let old := fields_of demo_sets "h" in
  ∃ s' new, hdel (vBulk "h" :: [vBulk "f"]) (demo_sess demo_sets) =
      (Ok (vInt (Z.of_nat (size old) - Z.of_nat (size new))), s') ∧
    fields_of (s_db s') "h" = new ∧
    (∀ name, new !! name = if decide (name ∈ map Str [vBulk "f"]) then None else old !! name) ∧
    (new = ∅ → Hashes demo_sets !! "h" ≠ Some ∅ → Hashes (s_db s') !! "h" = None) ∧
    same_but ["h"] demo_sets (s_db s').
Proof.
  split; [done|]. by apply (hdel_removes (vBulk "h") [vBulk "f"] (demo_sess demo_sets)).
Defined.

Lemma hmset_then_hmget_witness :
  fields_of (s_db (demo_sess demo_sets)) "h" !! "none" = None ∧
  let fvs := [(vBulk "f", vBulk ""); (vBulk "g", vBulk "2")] in
  ∃ s', hmset (vBulk "h" :: flat fvs) (demo_sess demo_sets) = (Ok vOK, s') ∧
    hmget (vBulk "h" :: map fst fvs ++ [vBulk "none"]) s' =
      (Ok (vArray (map (λ '(_, v), vBulk (Str v)) fvs ++ [vNull])), s') ∧
    (∀ name, name ∉ map (λ '(f, _), Str f) fvs →
      fields_of (s_db s') "h" !! name = fields_of demo_sets "h" !! name) ∧
    same_but ["h"] demo_sets (s_db s').
Proof.
  split; [by vm_compute|].
  apply (hmset_then_hmget (vBulk "h") [(vBulk "f", vBulk ""); (vBulk "g", vBulk "2")] (vBulk "none")
    (demo_sess demo_sets)); [done|done|apply (bool_decide_unpack _); by vm_compute..|by vm_compute].
Defined.

Lemma hincrby_adds_witness :
  Expires (s_db (demo_sess demo_sets)) !! "h" = None ∧
  ∃ s', hincrby [vBulk "h"; vBulk "f"; vBulk "41"] (demo_sess demo_sets) = (Ok (vInt (wrap64 (1 + 41))), s') ∧
    fields_of (s_db s') "h" = <["f" := Itoa (wrap64 (1 + 41))]> (fields_of demo_sets "h") ∧
    same_but ["h"] demo_sets (s_db s').
Proof.
  split; [done|].
  apply (hincrby_adds (vBulk "h") (vBulk "f") "41" 41 1 (demo_sess demo_sets));
    [done|by vm_compute|right; exists "1"; by vm_compute|done].
Defined.

Lemma hincrby_loses_minInt_witness :
  fields_of (s_db (demo_sess demo_sets)) "h" !! "m" = Some "-9223372036854775807" ∧
  ∃ s1 s2, hincrby [vBulk "h"; vBulk "m"; vBulk "-1"] (demo_sess demo_sets) = (Ok (vInt minInt), s1) ∧
    fields_of (s_db s1) "h" !! "m" = Some "-" ∧
    hincrby [vBulk "h"; vBulk "m"; vBulk "0"] s1 = (Ok (vInt 0), s2) ∧
    fields_of (s_db s2) "h" !! "m" = Some "0".
Proof.
  split; [by vm_compute|].
  apply (hincrby_loses_minInt (vBulk "h") (vBulk "m") (demo_sess demo_sets)); by vm_compute.
Defined.
