(* ===== verification/HashOrderProps.v ===== *)
(** * HashOrderProps: hash commands under their mutexes, one at a time *)
From S2P Require Import Prelude Go Goroutine Locks Atomic Sections Clients Strconv Resp DataStruct PubSub.
From S2P Require Import Database StringCmds HashCmds Handler HashLocks HashOrder HashAlone Demo.

(** C16: hash commands that hold one mutex at a time are linearizable. However
    the locks and steps of any number of clients that send HSET, HGET, HEXISTS,
    HGETALL, HKEYS, HVALS, HLEN, HMSET and HINCRBY interleave, on keys without
    deadlines, nothing panics, and at every moment a history explains what
    happened: the sequential handlers, given its commands one by one, reply to
    the clients what they were told and lead to the hashes there are, each
    client's commands in its order. From then on the history only grows, and some
    order of steps brings all clients to their ends. *)
Theorem hashes_one_at_a_time `{GoEnvLaws} reqs d0 s order :
  Forall (Forall wide) reqs → bound_well s → showing d0 s →
  ∃ t hist d, task_run order (clients s reqs) = (Ok (), t) ∧ explains reqs d0 hist d t ∧
    (∀ order', ∃ t' more d', task_run order' t = (Ok (), t') ∧ explains reqs d0 (hist ++ more) d' t') ∧
    ∃ order' t', task_run order' t = (Ok (), t') ∧ Forall (λ p, finished p = true) (tk_tasks t').
Proof. intros Hreqs Hs Hd. by apply (served_moment (HS:=hashes)). Qed.




(** ** Two clients *)
Definition demo_state : St :=
  mkSt 1 (mkHDb ∅ ∅ ∅ {[ "h" := 0%nat ]} ∅ 0 1) {[ 0%nat := {[ "f" := "1" ]} ]}.
Definition demo_database : Database := set_Hashes <["h" := {[ "f" := "1" ]}]> newDatabase.

Lemma demo_bound_well : bound_well demo_state.
Proof.
  assert (Hone : ∀ k c, bound demo_state k c → k = "h" ∧ c = 0%nat).
  { intros k c. unfold bound. cbn. rewrite lookup_singleton_Some. naive_solver. }
  split; [done|by vm_compute; lia| | |].
  - intros k c [-> ->]%Hone. cbn. lia.
  - intros k1 k2 c [-> _]%Hone [-> _]%Hone. done.
  - intros [|c] Hc; [cbn in Hc; lia|]. unfold hash_at. cbn. by rewrite lookup_singleton_ne.
Qed.

Lemma demo_showing : showing demo_database demo_state.
Proof.
  split; [done|]. intros key. unfold hash_of, hash_in. cbn.
  destruct (decide ("h" = key)) as [<-|Hk]; [done|].
  rewrite lookup_insert_ne by done. by rewrite lookup_empty, lookup_singleton_ne.
Qed.

Definition demo_requests : list (list Command) :=
  [[HINCRBY "h" "f" 5; HGETALL "h"]; [HMSET "new" "a" "1" [("b", "2")]; HINCRBY "h" "f" 1]].
Definition turns : list nat := concat (replicate 60 [0; 1]%nat).

Lemma demo_hash_wide : Forall (Forall wide) demo_requests.
Proof. repeat constructor; int_lia. Qed.

Lemma hashes_one_at_a_time_witness :
  Forall (Forall wide) demo_requests ∧ bound_well demo_state ∧ showing demo_database demo_state ∧
  ∃ t hist d, task_run turns (clients demo_state demo_requests) = (Ok (), t) ∧
    explains demo_requests demo_database hist d t ∧
    (∀ order', ∃ t' more d', task_run order' t = (Ok (), t') ∧
      explains demo_requests demo_database (hist ++ more) d' t') ∧
    ∃ order' t', task_run order' t = (Ok (), t') ∧ Forall (λ p, finished p = true) (tk_tasks t').
Proof.
  split; [apply demo_hash_wide|]. split; [apply demo_bound_well|]. split; [apply demo_showing|].
  apply (hashes_one_at_a_time demo_requests demo_database demo_state turns);
    [apply demo_hash_wide|apply demo_bound_well|apply demo_showing].
Defined.


Lemma hincrby_interleaved :
  tk_tasks (snd (task_run turns (clients demo_state
    [[HINCRBY "h" "f" 5; HINCRBY "h" "f" 5]; [HINCRBY "h" "f" 1]]))) =
    [TDone [vInt 6; vInt 12]; TDone [vInt 7]].
Proof. by vm_compute. Qed.

(** ** What is not one at a time *)
Definition two (p q : P Value) (order : list nat) : Tasks St Value :=
  snd (task_run order (mkTasks demo_state ∅ [locked p; locked q])).

(** HDEL deletes the key of a hash it found empty in a section of its own: a field
    that an HSET adds in between is acknowledged and lost. *)
Lemma hset_lost :
  let t := two (hdel [vBulk "h"; vBulk "f"]) (hset [vBulk "h"; vBulk "g"; vBulk "2"])
    (replicate 7 1 ++ replicate 14 0 ++ replicate 9 1 ++ replicate 9 0)%nat in
  tk_tasks t = [TDone (vInt 1); TDone (vInt 1)] ∧ hash_in (tk_data t) "h" = ∅.
Proof. by vm_compute. Qed.

(** HMGET reads the values and then asks, in sections of their own, whether the
    fields of the empty ones are there: for a field that an HSET adds in between
    it replies the empty string, which nobody wrote. *)
Lemma hmget_unwritten :
  tk_tasks (two (hmget [vBulk "h"; vBulk "g"]) (hset [vBulk "h"; vBulk "g"; vBulk "2"])
    (replicate 9 0 ++ replicate 20 1 ++ replicate 9 0)%nat) =
    [TDone (vArray [vBulk ""]); TDone (vInt 1)].
Proof. by vm_compute. Qed.
