(* ===== verification/LifecycleProps.v ===== *)
(** * LifecycleProps: configuration, restarts and snapshots of a running server *)
From S2P Require Import Prelude Go Strconv Resp DataStruct PubSub PubSubFacts.
From S2P Require Import Database DbFacts StringCmds ExpireCmds Invariant Rdb RdbFacts Aof AofFacts.
From S2P Require Import Server Glob Config Startup Recovery System Durability Replay Lifecycle Histories Demo.
From S2P Require Import SystemProps PersistProps.
From Stdlib Require Import Ascii.

(** ** The log *)
Section log.
Context `{GoEnvLaws} `{!LogWritten E}.
Context (wakeups : nat) (config : Config).


End log.

(** ** Snapshots *)
Section snapshots.
Context `{GoEnvLaws}.
Context (config : Config).

(** What [Save] on the handle of the server leaves on the disk. *)
Lemma on_rdb_Save r sv :
  sv_fits sv → world_ok (sv_world sv) → Forall storable (dbs_of sv) →
  ∃ err sv', on_rdb r (Save (dbs_of sv)) sv = (Ok err, sv') ∧ sv_rdb sv' = Some r ∧
    same_service sv sv' ∧
    match err with
    | Some _ => sv_files sv' !! rdb_path r = sv_files sv !! rdb_path r
    | None => ∃ file, sv_files sv' !! rdb_path r = Some file ∧ ∀ n ps, ∃ keys n',
        Load (mkLoadSt file (mkWorld n (mkMultiDB (replicate NumDatabases newDatabase) ps))) =
          (Ok keys, mkLoadSt "" (mkWorld n' (mkMultiDB (restored <$> dbs_of sv) ps)))
    end.
Proof.
  intros Hfit [Hlen Hwf _] Hst. unfold on_rdb.
  destruct (Save_saved (dbs_of sv) (mkRdbSt (w_tick (sv_world sv)) (sv_files sv) r) Hfit)
    as (err & s' & Hrun & Hrdb & _ & Hs).
  rewrite Hrun. cbn in Hrdb, Hs. eexists err, _. split; [done|]. split; [by rewrite Hrdb|].
  split; [done|]. cbn [sv_files]. destruct err as [e|]; [done|].
  destruct Hs as (its & Hits & Hfile). exists (file_text its). split; [done|].
  intros n ps. by apply Load_file.
Qed.

(** C11: without the append-only file, a server that has shut down and
    reported success comes back, started on the disk it left, with exactly the
    strings, lists, sets and hashes it had, no deadlines, and no changes to
    save. *)
Theorem shutdown_then_start sv r sv' n :
  aofEnabled config = false → sv_rdb sv = Some r → rdb_path r = rdbPath config →
  sv_aof sv = None → sv_fits sv → world_ok (sv_world sv) → Forall storable (dbs_of sv) →
  Shutdown sv = (Ok None, sv') → io_call (S n) = None →
  ∃ sv2 b, start config (boot n (disk_of config sv')) = (Ok sv2, b) ∧
    dbs_of sv2 = restored <$> dbs_of sv ∧
    sv_rdb sv2 = Some (mkRDB (rdbPath config) 0 (time_Now n)).
Proof.
  intros Haof Hr Hpath Hlog Hfit Hw Hst Hdown Hopen. unfold Shutdown in Hdown.
  rewrite gets_bind, Hr in Hdown. unfold CloseRDB in Hdown. rewrite gets_bind in Hdown.
  destruct (on_rdb_Save r sv Hfit Hw Hst) as (err & s & Hrun & _ & (Ha & _) & Hfile).
  unfold dbs_of in Hrun. rewrite Hrun in Hdown. injection Hdown as -> ->.
  destruct Hfile as (file & Hfile & Hload). rewrite Hpath in Hfile.
  unfold disk_of. rewrite Ha, Hlog. unfold start. rewrite Haof. unfold NewRDB.
  rewrite bind_eq, (bind_ok _ _ _ _ _ (NewRDB_run config _)).
  rewrite (bind_ok _ _ _ _ _ (os_Open_run _ _)).
  cbn [boot b_world b_files w_tick w_mdb rdb_path]. rewrite Hopen, Hfile.
  destruct (Hload (S (S n)) PubSub.New) as (keys & n' & Hl).
  rewrite bind_eq. unfold b_on_world, zoom, load_file. cbn [b_world b_files w_tick w_mdb].
  unfold NewMultiDB. rewrite Hl. cbn [l_world]. by eexists _, _.
Qed.

(** The server, [n] events into the world. *)
Definition at_tick (n : nat) (sv : Server) : Server :=
  mkServer (mkWorld n (w_mdb (sv_world sv))) (sv_aof sv) (sv_rdb sv) (sv_files sv) (sv_requirePass sv).

(** A round in which a rule is due, [n] the number of the next event: one call of
    [Save], and then, if it succeeded, one reading of the clock. *)
Definition snapshot_taken (r : RDB) (n : nat) (sv sv' : Server) : Prop :=
  ∃ err t, Save (dbs_of sv) (mkRdbSt n (sv_files sv) r) = (Ok err, t) ∧
    let saved m r' := mkServer (mkWorld m (w_mdb (sv_world sv))) (sv_aof sv) (Some r') (rs_files t)
                        (sv_requirePass sv) in
    match err with
    | Some _ => sv' = saved (rs_n t) r ∧ sv_files sv' !! rdb_path r = sv_files sv !! rdb_path r
    | None =>
        sv' = saved (S (rs_n t)) (mkRDB (rdb_path r) 0 (time_Now (rs_n t))) ∧
        ∃ file, sv_files sv' !! rdb_path r = Some file ∧ ∀ n ps, ∃ keys n',
          Load (mkLoadSt file (mkWorld n (mkMultiDB (replicate NumDatabases newDatabase) ps))) =
            (Ok keys, mkLoadSt "" (mkWorld n' (mkMultiDB (restored <$> dbs_of sv) ps)))
    end.

Lemma snapshot_rules_run rules elapsed changes r sv :
  sv_rdb sv = Some r → sv_fits sv → world_ok (sv_world sv) → Forall storable (dbs_of sv) →
  ∃ sv', snapshot_rules rules elapsed changes r sv = (Ok (), sv') ∧
    if existsb (due elapsed changes) rules then snapshot_taken r (w_tick (sv_world sv)) sv sv' else sv' = sv.
Proof.
  intros Hr Hfit Hw Hst. induction rules as [|s rules IH]; [by exists sv|].
  cbn [snapshot_rules existsb]. destruct (due elapsed changes s); cbn [orb]; [|done].
  rewrite gets_bind. destruct (on_rdb_Save r sv Hfit Hw Hst) as (err & sv1 & Hrun & Hr1 & _ & Hs).
  unfold dbs_of in Hrun. rewrite (bind_ok _ _ _ _ _ Hrun).
  unfold on_rdb in Hrun. destruct (Save _ _) as [x t] eqn:Hsave. injection Hrun as -> <-.
  injection Hr1 as Hrdb. destruct err as [e|].
  - eexists. split; [done|]. exists (Some e), t. split; [done|]. cbn in Hrdb, Hs. rewrite Hrdb. by split.
  - eexists. split; [done|]. exists None, t. split; [done|]. split; [done|exact Hs].
Qed.

(** C12: a round of the snapshot timer saves if one of the configured rules is
    due, by exactly one call of [Save], whatever comes of it and however many rules
    are due; otherwise it does nothing but read the clock. A save that succeeds
    leaves a file that loads to the data of the moment, no changes counted and the
    time after the save; one that fails leaves the snapshot, the count and the
    time as they were. The data, the log and the subscribers never change. *)
Theorem snapshot_timer sv r :
  sv_rdb sv = Some r → sv_fits sv → world_ok (sv_world sv) → Forall storable (dbs_of sv) →
  ∃ sv', snapshot_tick config sv = (Ok (), sv') ∧ same_service sv sv' ∧
    if existsb (due (Since (time_Now (w_tick (sv_world sv))) (rdb_lastSave r)) (rdb_changes r))
         (cfg_rdb config)
    then snapshot_taken r (S (w_tick (sv_world sv))) sv sv'
    else sv' = at_tick (S (w_tick (sv_world sv))) sv.
Proof.
  intros Hr Hfit Hw Hst. set (elapsed := Since _ _).
  set (sv1 := at_tick (S (w_tick (sv_world sv))) sv).
  destruct (snapshot_rules_run (cfg_rdb config) elapsed (rdb_changes r) r sv1)
    as (sv' & Hrun & Hres); [done|done|by destruct Hw; split|done|].
  assert (Htick : snapshot_tick config sv = (Ok (), sv')).
  { unfold snapshot_tick. rewrite gets_bind, Hr. exact Hrun. }
  exists sv'. split; [done|]. split; [by apply snapshot_tick_same in Htick|].
  destruct (existsb _ _); [exact Hres|done].
Qed.
End snapshots.

(** ** The configuration file *)
Section configuration.
Context `{GoEnv}.

(** C32: a configuration whose values are single words of visible ASCII (and
    whose numbers are [int]s) is read back from its text exactly as it is, and
    the server that [New] builds on that file is the one for that
    configuration. *)
Theorem config_roundtrip n files path c :
  writable c → io_call n = None → files !! path = Some (config_text c) → path ≠ "" →
  ∃ b, ReadConfig path (boot n files) = (Ok c, b) ∧ b_files b = files ∧
    w_mdb (b_world b) = NewMultiDB ∧ ∀ addr, New (mkOptions addr path) (boot n files) = start c b.
Proof.
  intros Hc Hio Hf Hp.
  assert (Hread : ∃ b, ReadConfig path (boot n files) = (Ok c, b) ∧ b_files b = files ∧
                    w_mdb (b_world b) = NewMultiDB).
  { unfold ReadConfig. rewrite (bind_ok _ _ _ _ _ (os_Open_run _ _)).
    cbn [boot b_world b_files w_tick w_mdb]. rewrite Hio, Hf. cbv zeta.
    rewrite scan_config_text by done.
    destruct (_ && _); [|by eexists]. rewrite bind_eq, (bind_ok _ _ _ _ _ (boot_call_run _)).
    by eexists. }
  destruct Hread as (b & Hrun & Hfiles & Hw). exists b. split_and!; [done..|].
  intros addr. unfold New. cbn [ConfigPath].
  destruct (String.eqb_spec path ""); [done|]. by rewrite (bind_ok _ _ _ _ _ Hrun).
Qed.
End configuration.

(** ** A log that ends in the middle of an entry *)

(** What a crash leaves of a SET of a key of one byte when it cuts the entry right
    behind the length of the key. *)
Definition torn_set : string :=
  "*3" +:+ CRLF +:+ "$3" +:+ CRLF +:+ "SET" +:+ CRLF +:+ "$1" +:+ CRLF.

Definition set_star : Value := vArray [vBulk "SET"; vBulk "*"; vBulk "SELECT"].

Lemma Parse_torn i rest :
  Parse (torn_set +:+ encode (selectEntry i) +:+ rest) =
    (Ok set_star, encode (vBulk (Itoa i)) +:+ rest).
Proof.
  assert (Henc : encode (selectEntry i) +:+ rest =
    "*2" +:+ CRLF +:+ "$6" +:+ CRLF +:+ "SELECT" +:+ CRLF +:+ (encode (vBulk (Itoa i)) +:+ rest)).
  { unfold selectEntry. rewrite encode_array, concat_map_cons, concat_map_single.
    change (encode (vBulk "SELECT")) with ("$6" +:+ CRLF +:+ "SELECT" +:+ CRLF).
    by autorewrite with go_str. }
  rewrite Henc. generalize (encode (vBulk (Itoa i)) +:+ rest). intros s.
  assert (Hp : Parse (torn_set +:+ "*2" +:+ CRLF +:+ "$6" +:+ CRLF +:+ "SELECT" +:+ CRLF) =
            (Ok set_star, "")) by (vm_compute; reflexivity).
  pose proof (Parse_extends _ s _ _ Hp I) as Hs.
  by rewrite !string_app_assoc in Hs.
Qed.

Section torn.
Context `{GoEnvLaws} `{!LogWritten E} {T : Type}.
Context (fn : Z → Value → M T ()).

Lemma Read_loop_end fuel cur (s : T) : Read_loop (S fuel) fn cur "" s = (Ok (), s).
Proof. done. Qed.

(** C33: a log that ends in a torn entry is appended to, and the next start reads
    the two together. Take a log cut right behind the key's length in a SET of a
    one-byte key, and a server started on it that logs a command [v] for database
    [i], and then more. The start after that reads what is behind the complete
    entries as: a SET of the key [*] to the value [SELECT], which no client sent;
    the number [i] as a value of its own, which no longer selects a database; and
    [v] and all that was logged behind it. So these are applied to the database of
    the last complete entry up to the next marker, whatever [i] is. *)
Theorem torn_log_corrupts es i v k a es2 last k' s :
  Forall wire es → 0 ≤ i < Z.of_nat NumDatabases → wire v → Forall wire es2 →
  AofWrite i v (NewAof k (encodes es +:+ torn_set)) = (Ok (), a) →
  AofRead fn (mkAof (aof_file a +:+ encodes es2) last k') s =
    (_ ← replay_all fn 0 (es ++ [set_star; vBulk (Itoa i); v] ++ es2); mret ()) s.
Proof.
  unfold NumDatabases. intros Hes Hi Hv Hes2. assert (Hint : in_int i) by int_lia.
  rewrite AofWrite_run by done. intros [= <-]. unfold with_entries. cbn [aof_file NewAof lastDB].
  assert (Hnew : new_entries (-1) i v = [selectEntry i; v]) by (unfold new_entries; case_decide; [lia|done]).
  rewrite Hnew, concat_map_cons, concat_map_single, !string_app_assoc.
  set (text := encode v +:+ encodes es2). unfold AofRead. cbn [aof_file].
  assert (Hlen : (String.length (encodes es +:+ torn_set +:+ encode (selectEntry i) +:+ text) =
            String.length (encodes es) + String.length torn_set +
            String.length (encode (selectEntry i)) + String.length text)%nat)
    by (rewrite !string_length_app; lia).
  pose proof (encodes_length es) as Hl1. pose proof (encodes_length (v :: es2)) as Hl2.
  rewrite concat_map_cons in Hl2. fold text in Hl2. cbn [length] in Hl2.
  assert (Htorn : (2 ≤ String.length torn_set)%nat) by (vm_compute; lia).
  rewrite Read_loop_entries by (done || lia).
  rewrite (bind_eq (replay_all fn 0 (es ++ _))), replay_all_app, !bind_eq.
  destruct (replay_all fn 0 es s) as [[cur| | |] s1]; try done.
  destruct (_ - length es)%nat as [|fuel] eqn:Hfuel; [lia|]. cbn [Read_loop].
  rewrite Parse_torn. cbn [app]. unfold replay_all. cbn [for_fold]. rewrite !bind_eq.
  destruct (replay_entry fn cur set_star s1) as [[cur1| | |] s2]; try done.
  replace (encode (vBulk (Itoa i)) +:+ text) with (encodes (vBulk (Itoa i) :: v :: es2) +:+ "")
    by (by rewrite !concat_map_cons, string_app_nil_r).
  rewrite Read_loop_entries; [| |cbn; lia].
  2:{ pose proof (Itoa_length i Hint). constructor; [constructor; int_lia|by constructor]. }
  unfold replay_all. cbn [for_fold]. rewrite !bind_eq.
  destruct (replay_entry fn cur1 _ s2) as [[cur2| | |] s3]; try done.
  rewrite !bind_eq. destruct (replay_entry fn cur2 v s3) as [[cur3| | |] s4]; try done.
  destruct (for_fold (replay_entry fn) cur3 es2 s4) as [[cur4| | |] s5]; try done.
  destruct (fuel - _)%nat eqn:Hf; [cbn in Hf; lia|]. apply Read_loop_end.
Qed.
End torn.

(** ** Concrete runs *)
Definition demo_config : Config :=
  mkConfig "data" [mkSnapshot 900 1; mkSnapshot 2 2] "dump.rdb" true "appendonly.aof" EverySec "".


Definition connected (sv : Server) : System := mkSystem sv (<[0%nat := NewConn ""]> ∅).
Definition after (words : list string) (x : System) : System :=
  let cs := demo_handle words (sys_sv x, default (NewConn "") (sys_conns x !! 0%nat)) in
  mkSystem (fst cs) (<[0%nat := snd cs]> (sys_conns x)).












(** If the snapshot had the name of the log, which the configuration allows, a
    save would replace the log, and the next start find no command in it. *)
Definition same_file_config : Config :=
  mkConfig "." [] "shore.db" true "shore.db" EverySec "".
Definition same_file_saved : Server :=
  let sv := match fst (start same_file_config (boot 0 ∅)) with Ok sv => sv | _ => demo_server end in
  sys_sv (after ["SAVE"] (after ["SET"; "k"; "v"] (connected sv))).

Lemma same_file_loses_log :
  Store <$> (dbs_of same_file_saved !! 0%nat) = Some {[ "k" := "v" ]} ∧
  ∃ sv b, start same_file_config (boot 20 (sv_files same_file_saved)) = (Ok sv, b) ∧
    is_Some (sv_aof sv) ∧ dbs_of sv = DBs NewMultiDB.
Proof.
  split; [by vm_compute|]. eexists _, _. split; [vm_compute; reflexivity|]. split; [by eexists|by vm_compute].
Qed.

(** A server with data, without a log. *)
Definition demo_rdb_config : Config :=
  mkConfig "." [mkSnapshot 900 1; mkSnapshot 2 2] "dump.rdb" false "appendonly.aof" EverySec "".
Definition demo_handle_rdb : RDB := mkRDB "dump.rdb" 2 0.
Definition demo_full : Server :=
  mkServer (mkWorld 5 (mkMultiDB demo_dbs PubSub.New)) None (Some demo_handle_rdb) ∅ "".

Lemma demo_full_world : world_ok (sv_world demo_full).
Proof.
  split; [done| |apply New_wf]. eapply Forall_check; [apply data_wf_check|]. compute_decide.
Qed.

Lemma demo_full_storable : Forall storable (dbs_of demo_full).
Proof. eapply Forall_check; [apply storable_check|]. compute_decide. Qed.

Lemma shutdown_then_start_witness :
  fst (Shutdown demo_full) = Ok None ∧
  ∃ sv2 b, start demo_rdb_config (boot 3 (disk_of demo_rdb_config (snd (Shutdown demo_full)))) =
      (Ok sv2, b) ∧
    dbs_of sv2 = restored <$> demo_dbs ∧
    sv_rdb sv2 = Some (mkRDB "dump.rdb" 0 (time_Now 3)).
Proof.
  split; [by vm_compute|].
  apply (shutdown_then_start demo_rdb_config demo_full demo_handle_rdb).
  - done.
  - done.
  - by vm_compute.
  - done.
  - compute_decide.
  - apply demo_full_world.
  - apply demo_full_storable.
  - by vm_compute.
  - done.
Defined.

Lemma snapshot_timer_witness :
  existsb (due (Since (time_Now 5) 0) 2) (cfg_rdb demo_rdb_config) = true ∧
  ∃ sv', snapshot_tick demo_rdb_config demo_full = (Ok (), sv') ∧
    snapshot_taken demo_handle_rdb 6 demo_full sv'.
Proof.
  assert (Hdue : existsb (due (Since (time_Now 5) 0) 2) (cfg_rdb demo_rdb_config) = true)
    by (vm_compute; reflexivity).
  split; [exact Hdue|].
  destruct (snapshot_timer demo_rdb_config demo_full demo_handle_rdb) as (sv' & Hrun & _ & Hres).
  - done.
  - compute_decide.
  - apply demo_full_world.
  - apply demo_full_storable.
  - exists sv'. split; [exact Hrun|].
    change (w_tick (sv_world demo_full)) with 5%nat in Hres.
    change (rdb_lastSave demo_handle_rdb) with 0 in Hres.
    change (rdb_changes demo_handle_rdb) with 2 in Hres. by rewrite Hdue in Hres.
Defined.

Lemma config_roundtrip_witness :
  config_text demo_config <> "" ∧
  ∃ b, ReadConfig "redis.config" (boot 0 {[ "redis.config" := config_text demo_config ]}) =
      (Ok demo_config, b).
Proof.
  split; [done|].
  destruct (config_roundtrip 0 {[ "redis.config" := config_text demo_config ]} "redis.config"
    demo_config) as (b & Hb & _).
  - split; cbn; [by repeat split..|by left|].
    repeat constructor; cbn; int_lia.
  - done.
  - by vm_compute.
  - done.
  - by exists b.
Defined.

(** The complete log selects database 0; the server that starts on it stores a
    value in database 5, and the next start finds it in database 0. *)
Definition demo_log : list Value := [selectEntry 0; cmd ["SET"; "a"; "1"]].
Definition demo_torn : Aof :=
  snd (AofWrite 5 (cmd ["SET"; "x"; "y"]) (NewAof 0 (encodes demo_log +:+ torn_set))).

Lemma torn_log_corrupts_witness :
  (Store <$> DBs (w_mdb (snd (AofRead replay_fn (mkAof (aof_file demo_torn +:+ encodes []) 5 0)
     (mkWorld 0 NewMultiDB))))) !! 0%nat = Some {[ "a" := "1"; "*" := "SELECT"; "x" := "y" ]} ∧
  AofRead replay_fn (mkAof (aof_file demo_torn +:+ encodes []) 5 0) (mkWorld 0 NewMultiDB) =
    (_ ← replay_all replay_fn 0
       (demo_log ++ [set_star; vBulk (Itoa 5); cmd ["SET"; "x"; "y"]] ++ []); mret ())
      (mkWorld 0 NewMultiDB).
Proof.
  split; [by vm_compute|]. apply (torn_log_corrupts replay_fn demo_log 5 _ 0 demo_torn []).
  - constructor; [by apply selectEntry_wire|]. constructor; [|constructor].
    apply cmd_wire; [done|compute_decide].
  - done.
  - apply cmd_wire; [done|compute_decide].
  - constructor.
  - by vm_compute.
Defined.
