(* ===== verification/ClientProps.v ===== *)
(** * ClientProps: the embedded client against the server *)
From S2P Require Import Prelude Go Strconv Resp DataStruct PubSub PubSubFacts.
From S2P Require Import Database DbFacts StringCmds HashCmds ExpireCmds Handler CmdFacts Invariant.
From S2P Require Import Rdb RdbFacts Aof AofFacts Server Config Startup Client.
From S2P Require Import System Durability Lifecycle Demo SystemProps.
From Stdlib Require Import Ascii.
Import ListFacts SetFacts HashFacts.

(** ** [Do] and the methods over it *)
Section run.
Context `{GoEnv}.
Context (wakeups : nat).

Definition known (command : string) : Prop :=
  is_Some (table_get command RDBCommandHandlers) ∨ is_Some (handler_of wakeups command).

Lemma on_shared_run {A} (m : M Server A) sh i r sv :
  m (serving None "" sh) = (r, sv) → on_shared m (sh, i) = (r, (of_server sv, i)).
Proof. intros Hm. unfold on_shared, zoom. cbn. by rewrite Hm. Qed.

(** A command of the table, on the client's database [d]. *)
Lemma Do_run cmd h args sh i d r s :
  table_get (normalizeCmd cmd) RDBCommandHandlers = None →
  handler_of wakeups (normalizeCmd cmd) = Some h →
  0 ≤ i → DBs (w_mdb (sh_world sh)) !! Z.to_nat i = Some d →
  h (map vBulk args) (mkSess (w_tick (sh_world sh)) d (mdb_PubSub (w_mdb (sh_world sh)))) = (Ok r, s) →
  Do wakeups cmd args (sh, i) =
    (Ok (r, None),
     (mkShared (mkWorld (s_tick s)
        (mkMultiDB (<[Z.to_nat i := s_db s]> (DBs (w_mdb (sh_world sh)))) (s_ps s)))
        (sh_rdb sh) (sh_files sh), i)).
Proof.
  intros Ht Hh Hi Hd Hrun. unfold Do. rewrite gets_bind, Ht, Hh. cbn [dbIndexOf snd].
  assert (Hw : on_world (with_DB i (h (map vBulk args))) (serving None "" sh) =
    (Ok r, serving None "" (mkShared (mkWorld (s_tick s)
        (mkMultiDB (<[Z.to_nat i := s_db s]> (DBs (w_mdb (sh_world sh)))) (s_ps s)))
        (sh_rdb sh) (sh_files sh)))).
  { unfold on_world, zoom. cbn [sv_world serving]. by erewrite with_DB_run. }
  by rewrite (bind_ok _ _ _ _ _ (on_shared_run _ _ i _ _ Hw)).
Qed.

(** The world after a method has left [s] in database [i]. *)
Definition put_sess (i : Z) (s : Sess) (sh : Shared) : Shared :=
  mkShared (mkWorld (s_tick s)
    (mkMultiDB (<[Z.to_nat i := s_db s]> (DBs (w_mdb (sh_world sh)))) (s_ps s)))
    (sh_rdb sh) (sh_files sh).
Definition sess_of (i : Z) (d : Database) (sh : Shared) : Sess :=
  mkSess (w_tick (sh_world sh)) d (mdb_PubSub (w_mdb (sh_world sh))).
End run.

(** ** The same commands as over the network *)
Section agree.
Context `{GoEnv}.
Context (wakeups : nat).

Definition outcome {A B} (f : A → B) (r : res A) : res B :=
  match r with Ok a => Ok (f a) | Err e => Err e | Panic p => Panic p | NoFuel => NoFuel end.

(** Commands of a connection, not of a database: [handleValue] answers them. *)
Definition connection_command (command : string) : Prop :=
  command ∈ ["AUTH"; "SELECT"; "SUBSCRIBE"; "UNSUBSCRIBE"].

Definition replied (v : Value) (c : Conn) : Conn :=
  mkConn (authenticated c) (dbIndex c) (c_subs c) (c_out c ++ [v]).

(** A command that replied [v] has changed the data; the log and the count of
    changes after it. *)
Definition changes_data (command : string) (v : Value) : bool :=
  negb (VType v =? SimpleError)%char && shouldPersist command.
Definition log_after (command : string) (i : Z) (request v : Value) (log : option Aof) : option Aof :=
  if changes_data command v then (λ a, snd (AofWrite i request a)) <$> log else log.
Definition count_after (command : string) (v : Value) (rdb : option RDB) : option RDB :=
  if changes_data command v then IncrementChanges <$> rdb else rdb.

Lemma on_rdb_serving r {A} (m : M RdbSt A) log pass sh :
  ∃ x sh', on_rdb r m (serving None "" sh) = (x, serving None "" sh') ∧
    on_rdb r m (serving log pass sh) = (x, serving log pass sh').
Proof.
  unfold on_rdb. cbn. destruct (m _) as [x t]. exists x.
  by exists (mkShared (mkWorld (rs_n t) (w_mdb (sh_world sh))) (Some (rs_rdb t)) (rs_files t)).
Qed.

(** The handlers of the snapshot commands see neither the log nor the password. *)
Lemma rdb_handler_serving c (h : list Value → M Server Value) args log pass sh :
  table_get c RDBCommandHandlers = Some h →
  ∃ x sh', h args (serving None "" sh) = (x, serving None "" sh') ∧
    h args (serving log pass sh) = (x, serving log pass sh').
Proof.
  intros Hh%table_get_In. unfold RDBCommandHandlers in Hh. rewrite !elem_of_cons in Hh.
  destruct Hh as [[= _ ->]|[[= _ ->]|[[= _ ->]|Hn]]]; [..|by apply elem_of_nil in Hn];
    [unfold save|unfold bgsave|unfold lastsave]; rewrite !gets_bind; cbn [serving sv_rdb];
    destruct (sh_rdb sh) as [r|] eqn:Hr; try (by eexists _, sh); rewrite !gets_bind, !bind_eq.
  all: destruct (on_rdb_serving r (Save (DBs (w_mdb (sh_world sh)))) log pass sh) as (x & sh' & H1 & H2).
  all: cbn [serving sv_world] in *; rewrite H1, H2.
  - destruct x as [[e|]|e|p|]; by eexists _, sh'.
  - destruct x; by eexists _, sh'.
Qed.

(** A command of the tables, on a server and over [Do]. *)
Lemma processCommand_Do cmd args request sh i log pass r sv' :
  is_ascii cmd = true → wire request → in_int i → known wakeups (ToUpper cmd) →
  processCommand wakeups (ToUpper cmd) args request i (serving log pass sh) = (r, sv') →
  ∀ words, args = map vBulk words → ∃ sh',
    Do wakeups cmd words (sh, i) = (outcome (λ v, (v, None)) r, (sh', i)) ∧
    sh_world sh' = sv_world sv' ∧ sh_files sh' = sv_files sv' ∧
    sv_rdb sv' = match r with Ok v => count_after (ToUpper cmd) v (sh_rdb sh') | _ => sh_rdb sh' end ∧
    sv_requirePass sv' = pass ∧
    sv_aof sv' = match r with Ok v => log_after (ToUpper cmd) i request v log | _ => log end.
Proof.
  intros Hascii Hw Hi Hk Hrun words ->.
  assert (Hcmd : normalizeCmd cmd = ToUpper cmd) by (unfold ToUpper; by rewrite Hascii).
  unfold processCommand in Hrun. unfold Do. rewrite gets_bind, Hcmd. cbn [dbIndexOf snd].
  destruct (table_get (ToUpper cmd) RDBCommandHandlers) as [h|] eqn:Ht.
  { destruct (rdb_handler_serving _ h (map vBulk words) log pass sh Ht) as (x & sh' & H1 & H2).
    rewrite H2 in Hrun. injection Hrun as <- <-. exists sh'.
    rewrite bind_eq, (on_shared_run _ _ _ _ _ H1). unfold log_after, count_after, changes_data.
    assert (shouldPersist (ToUpper cmd) = false) as ->.
    { apply table_get_In in Ht. unfold RDBCommandHandlers in Ht. rewrite !elem_of_cons in Ht.
      by destruct Ht as [[= -> _]|[[= -> _]|[[= -> _]|Hn%elem_of_nil]]]. }
    destruct sh' as [w rdb files], x; split_and!; try done; by rewrite andb_false_r. }
  destruct (handler_of wakeups (ToUpper cmd)) as [h|] eqn:Hh; [|destruct Hk as [[? Hs]|[? Hs]]; congruence].
  unfold on_shared, on_world, zoom in *. rewrite bind_eq in Hrun. rewrite bind_eq.
  cbn [serving sv_world sv_aof sv_rdb sv_files sv_requirePass fst] in *.
  destruct (with_DB i (h (map vBulk words)) (sh_world sh)) as [x w]. exists (mkShared w (sh_rdb sh) (sh_files sh)).
  destruct x as [v|e|p|]; [|injection Hrun as <- <-; by split_and!..]. unfold log_after, count_after, changes_data.
  destruct (negb _ && _) eqn:Hlg; [|injection Hrun as <- <-; rewrite Hlg; by split_and!].
  rewrite bind_eq in Hrun. unfold log_to_aof in Hrun. cbn [sv_aof] in Hrun.
  destruct log as [a|]; [|injection Hrun as <- <-; rewrite Hlg; by split_and!].
  destruct (AofWrite_cases i request a Hi Hw) as (y & p & q & a' & HA & Hy & _). rewrite HA in Hrun.
  destruct Hy as [->|[e ->]]; injection Hrun as <- <-; rewrite Hlg; cbn [fmap option_fmap option_map]; rewrite HA;
    by split_and!.
Qed.

(** C13: [Do] against a server over the same data, with or without a log, that
    gets the same words from a connection on the same database. A command of the
    tables (its name in ASCII) does the same to the databases, the subscribers
    and the files, and its reply is what the connection is sent; a panic or a
    wait is one of both. Two things are the server's alone: it logs the request
    and counts the change, when there was one ([changes_data]). For any other name
    [Do] returns an error and changes nothing: the server answers
    unknown-command, or, for AUTH, SELECT, SUBSCRIBE and UNSUBSCRIBE, what the
    connection is there for. *)
Theorem do_agrees cmd args sh log pass c r sv' c' :
  let request := vArray (map vBulk (cmd :: args)) in
  is_ascii cmd = true → wire request → authenticated c = true → in_int (dbIndex c) →
  handleValue wakeups request (serving log pass sh, c) = (r, (sv', c')) →
  (known wakeups (ToUpper cmd) ∧ ∃ result sh',
     Do wakeups cmd args (sh, dbIndex c) = (outcome (λ v, (v, None)) result, (sh', dbIndex c)) ∧
     r = outcome (λ _, ()) result ∧
     c' = match result with Ok v => replied v c | _ => c end ∧
     sh_world sh' = sv_world sv' ∧ sh_files sh' = sv_files sv' ∧
     sv_rdb sv' = match result with Ok v => count_after (ToUpper cmd) v (sh_rdb sh') | _ => sh_rdb sh' end ∧
     sv_requirePass sv' = pass ∧
     sv_aof sv' = match result with
                  | Ok v => log_after (ToUpper cmd) (dbIndex c) request v log
                  | _ => log
                  end) ∨
  (¬ known wakeups (ToUpper cmd) ∧
   (∃ e, Do wakeups cmd args (sh, dbIndex c) = (Ok (noResult, Some e), (sh, dbIndex c))) ∧
   (connection_command (ToUpper cmd) ∨
    r = Ok () ∧ sv' = serving log pass sh ∧
    c' = replied (vError ("ERR unknown command '" +:+ ToUpper cmd +:+ "'")) c)).
Proof.
  intros request Hascii Hw Hauth Hi. assert (Hcmd : normalizeCmd cmd = ToUpper cmd) by (unfold ToUpper; by rewrite Hascii).
  assert (Hunknown : ¬ known wakeups (ToUpper cmd) →
    ∃ e, Do wakeups cmd args (sh, dbIndex c) = (Ok (noResult, Some e), (sh, dbIndex c))).
  { intros Hk. unfold known in Hk. unfold Do. rewrite gets_bind, Hcmd.
    destruct (table_get _ RDBCommandHandlers); [by destruct Hk; left|].
    destruct (handler_of wakeups _); [by destruct Hk; right|]. by eexists. }
  assert (Hconn : connection_command (ToUpper cmd) → ¬ known wakeups (ToUpper cmd)).
  { unfold connection_command, known. rewrite !elem_of_cons.
    intros [-> |[-> |[-> |[-> |Hn%elem_of_nil]]]]; [by intros [[? [=]]|[? [=]]]..|done]. }
  unfold handleValue. cbn [request VType vArray Arr map length Nat.eqb Str vBulk].
  rewrite orb_false_r, Ascii.eqb_refl. cbn [negb].
  destruct (String.eqb_spec (ToUpper cmd) "AUTH") as [Heq|Hne1].
  { intros _. right. assert (connection_command (ToUpper cmd)) by (rewrite Heq; by left). auto. }
  rewrite gets_bind. cbn [snd]. rewrite Hauth. cbn [negb].
  destruct (String.eqb_spec (ToUpper cmd) "SELECT") as [Heq|Hne2].
  { intros _. right. assert (connection_command (ToUpper cmd)) by (rewrite Heq; right; by left). auto. }
  destruct (String.eqb_spec (ToUpper cmd) "SUBSCRIBE") as [Heq|Hne3].
  { intros _. right. assert (connection_command (ToUpper cmd)) by (rewrite Heq; do 2 right; by left). auto. }
  destruct (String.eqb_spec (ToUpper cmd) "UNSUBSCRIBE") as [Heq|Hne4].
  { intros _. right. assert (connection_command (ToUpper cmd)) by (rewrite Heq; do 3 right; by left). auto. }
  rewrite gets_bind, bind_eq. unfold on_server, zoom. cbn [fst snd].
  destruct (processCommand _ _ _ _ _ _) as [result sv1] eqn:Hp.
  assert (Hdec : known wakeups (ToUpper cmd) ∨
    table_get (ToUpper cmd) RDBCommandHandlers = None ∧ handler_of wakeups (ToUpper cmd) = None).
  { unfold known. destruct (table_get _ RDBCommandHandlers); [by left; left|].
    destruct (handler_of wakeups _); [by left; right|by right]. }
  destruct Hdec as [Hk|[Hn1 Hn2]].
  - intros Hrun. left. split; [done|].
    destruct (processCommand_Do _ _ _ _ _ _ _ _ _ Hascii Hw Hi Hk Hp args eq_refl) as (sh' & HDo & Hrest).
    exists result, sh'. split; [exact HDo|]. destruct result; injection Hrun as <- <- <-; (split; [done|split; [done|exact Hrest]]).
  - unfold processCommand in Hp. rewrite Hn1, Hn2 in Hp. injection Hp as <- <-. intros [= <- <- <-].
    right. assert (Hk : ¬ known wakeups (ToUpper cmd)) by (unfold known; rewrite Hn1, Hn2; by intros [[? [=]]|[? [=]]]).
    split; [done|]. split; [by apply Hunknown|]. by right.
Qed.
End agree.

(** ** Typed methods *)
Section typed.
Context `{GoEnvLaws}.
Context (wakeups : nat).

(** The loop that builds the reply of HGETALL. *)
Lemma hgetall_loop_acc (l : list (string * string)) : ∀ acc,
  foldl (λ result '(field, value), result ++ [vBulk field] ++ [vBulk value]) acc l =
  acc ++ foldl (λ result '(field, value), result ++ [vBulk field] ++ [vBulk value]) [] l.
Proof.
  induction l as [|[f v] l IH]; intros acc; cbn [foldl]; [by rewrite app_nil_r|].
  rewrite IH, (IH ([] ++ _)). by rewrite <-app_assoc.
Qed.

Lemma flat_map_of_flat (l : list (string * string)) : ∀ out,
  flat_map_of (foldl (λ result '(field, value), result ++ [vBulk field] ++ [vBulk value]) [] l) out =
  foldl (λ m '(k, v), <[k := v]> m) out l.
Proof.
  induction l as [|[f v] l IH]; intros out; [done|].
  cbn [foldl]. rewrite hgetall_loop_acc. cbn [app flat_map_of Str vBulk]. apply IH.
Qed.

(** HGetAll returns the hash of the key as a Go map, exactly: it takes
    the flat reply apart again whatever order the fields came in. A missing or
    expired key gives the empty map, and no other key is touched. *)
Theorem client_hgetall_exact key sh i d :
  0 ≤ i → DBs (w_mdb (sh_world sh)) !! Z.to_nat i = Some d →
  let s := purged key (sess_of i d sh) in
  ∃ sh', client_HGetAll wakeups key (sh, i) = (Ok (default ∅ (Hashes (s_db s) !! key), None), (sh', i)) ∧
    DBs (w_mdb (sh_world sh')) = <[Z.to_nat i := s_db s]> (DBs (w_mdb (sh_world sh))).
Proof.
  intros Hi Hd s. unfold client_HGetAll.
  assert (Hrun : ∃ v n, hgetall [vBulk key] (sess_of i d sh) = (Ok v, mkSess n (s_db s) (s_ps s)) ∧
            res_Err v = None ∧ flat_map_of (Arr v) ∅ = default ∅ (Hashes (s_db s) !! key)).
  { unfold hgetall. rewrite (bind_ok _ _ _ _ _ (GetHash_run _ _)). cbn [Str vBulk].
    fold s. destruct (Hashes (s_db s) !! key) as [h|].
  2:{ exists (vArray []), (s_tick s). split; [|done]. run. f_equal. }
    assert (H1 : ∀ t, ranged (HashDS.HGetAll h) t = (Ok h, mkSess (S (s_tick t)) (s_db t) (s_ps t)))
      by (intros t; unfold ranged, zoom; by rewrite HGetAll_spec).
    rewrite (bind_ok _ _ _ _ _ (H1 s)).
    assert (H2 : ∀ t, range_of h t = (Ok (map_range (s_tick t) h), mkSess (S (s_tick t)) (s_db t) (s_ps t)))
      by done.
    rewrite (bind_ok _ _ _ _ _ (H2 _)). eexists _, _. split; [done|]. split; [done|]. cbn [Arr vArray]. rewrite flat_map_of_flat.
    rewrite (foldl_insert_union _ ∅ (map_range_NoDup _ h)), list_to_map_range.
    apply (right_id_L ∅ (∪)). }
  destruct Hrun as (v & n & Hrun & He & Hm).
  rewrite (bind_ok _ _ _ _ _ (Do_run wakeups "HGETALL" hgetall [key] sh i d v _ eq_refl eq_refl Hi Hd Hrun)).
  rewrite He, Hm. by eexists.
Qed.
End typed.

(** ** Several clients *)
Section several.
Context `{GoEnvLaws}.
Context (wakeups : nat).

(** What one client sets, any client made from it with [NewFrom] gets
    back once it has selected the same database, and the databases with other
    numbers are as they were. *)
Theorem client_set_get sh i key value :
  length (DBs (w_mdb (sh_world sh))) = NumDatabases → 0 ≤ i < Z.of_nat NumDatabases →
  ∃ sh1, client_Set wakeups key value (sh, i) = (Ok None, (sh1, i)) ∧
    (∀ j, j ≠ Z.to_nat i → DBs (w_mdb (sh_world sh1)) !! j = DBs (w_mdb (sh_world sh)) !! j) ∧
    (_ ← Select i; client_Get wakeups key) (NewFrom (sh1, i)) =
      (Ok (value, true, None), (sh1, i)).
Proof.
  intros Hlen Hi.
  destruct (lookup_lt_is_Some_2 (DBs (w_mdb (sh_world sh))) (Z.to_nat i)) as [d Hd]; [lia|].
  set (d1 := set_Expires (delete key) (set_Store <[key := value]> d)).
  set (sh1 := put_sess i (mkSess (w_tick (sh_world sh)) d1 (mdb_PubSub (w_mdb (sh_world sh)))) sh).
  assert (Hset : Do wakeups "SET" [key; value] (sh, i) = (Ok (vOK, None), (sh1, i))).
  { exact (Do_run wakeups "SET" set [key; value] sh i d vOK
      (mkSess (w_tick (sh_world sh)) d1 (mdb_PubSub (w_mdb (sh_world sh))))
      eq_refl eq_refl (proj1 Hi) Hd eq_refl). }
  exists sh1. split; [|split].
  - unfold client_Set. by rewrite (bind_ok _ _ _ _ _ Hset).
  - intros j Hj. cbn. by rewrite list_lookup_insert_ne.
  - assert (Hsel : Select i (NewFrom (sh1, i)) = (Ok None, (sh1, i))).
    { unfold Select. destruct (Z.ltb_spec i 0); [lia|]. rewrite Z.geb_leb.
      by destruct (Z.leb_spec (Z.of_nat NumDatabases) i); [lia|]. }
    rewrite (bind_ok _ _ _ _ _ Hsel).
    assert (Hd1 : DBs (w_mdb (sh_world sh1)) !! Z.to_nat i = Some d1).
    { cbn. apply list_lookup_insert_eq. lia. }
    assert (Hp : purged key (sess_of i d1 sh1) = sess_of i d1 sh1).
    { apply purged_no_deadline. cbn. apply lookup_delete_eq. }
    assert (Hget : get [vBulk key] (sess_of i d1 sh1) = (Ok (vBulk value), sess_of i d1 sh1)).
    { rewrite get_run. cbn [Str vBulk]. rewrite Hp. cbn [sess_of s_db d1 set_Expires set_Store Store].
      by rewrite lookup_insert_eq. }
    unfold client_Get, do_value.
    rewrite (bind_ok _ _ _ _ _ (Do_run wakeups "GET" get [key] sh1 i d1 _ _ eq_refl eq_refl
      (proj1 Hi) Hd1 Hget)).
    cbn. do 2 f_equal. unfold sh1, put_sess. cbn. by rewrite list_insert_insert_eq.
Qed.
End several.

(** ** Automatic snapshots of an embedded program *)
Section snapshots.
Context `{GoEnv}.
Context (wakeups : nat).

(** [Save] does not touch the handle. *)
Definition handle_kept {A} (m : M RdbSt A) : Prop := ∀ s r s', m s = (r, s') → rs_rdb s' = rs_rdb s.

Lemma handle_bind {A B} (m : M RdbSt A) (f : A → M RdbSt B) :
  handle_kept m → (∀ a, handle_kept (f a)) → handle_kept (m ≫= f).
Proof.
  intros Hm Hf s r s' Hrun. rewrite bind_eq in Hrun.
  destruct (m s) as [[a|e|p|] s1] eqn:H1; rewrite <-(Hm _ _ _ H1);
    [by eapply Hf|by injection Hrun as _ <-..].
Qed.
Lemma handle_ret {A} (a : A) : handle_kept (mret a). Proof. by intros s r s' [= _ <-]. Qed.
Lemma handle_panic {A} msg : handle_kept (A:=A) (panic msg). Proof. by intros s r s' [= _ <-]. Qed.
Lemma handle_fuel {A} : handle_kept (A:=A) out_of_fuel. Proof. by intros s r s' [= _ <-]. Qed.
Lemma handle_gets {A} (f : RdbSt → A) : handle_kept (gets f). Proof. by intros s r s' [= _ <-]. Qed.
Lemma handle_os_call f : handle_kept (os_call f).
Proof. intros s r s'. unfold os_call. destruct (io_call _); by intros [= _ <-]. Qed.
Lemma handle_run_writer dbs : handle_kept (run_writer dbs).
Proof. intros s r s'. unfold run_writer. destruct (write_snapshot _ _). by intros [= _ <-]. Qed.
Hint Resolve handle_ret handle_panic handle_fuel handle_gets handle_os_call handle_run_writer : shore.

Lemma handle_Save dbs : handle_kept (Save dbs).
Proof.
  unfold Save, fail_save.
  repeat first [progress intros | solve [eauto with shore] | apply handle_bind | case_match].
Qed.

Lemma on_rdb_handle dbs r sv x sv' : on_rdb r (Save dbs) sv = (x, sv') → sv_rdb sv' = Some r.
Proof.
  unfold on_rdb. destruct (Save _ _) as [y t] eqn:Hs. intros [= _ <-]. cbn.
  by rewrite (handle_Save _ _ _ _ Hs).
Qed.

Lemma rdb_handler_handle c (h : list Value → M Server Value) args sv x sv' :
  table_get c RDBCommandHandlers = Some h → h args sv = (x, sv') → sv_rdb sv' = sv_rdb sv.
Proof.
  intros Hh Hrun. apply table_get_In in Hh. unfold RDBCommandHandlers in Hh.
  rewrite !elem_of_cons in Hh.
  destruct Hh as [[= _ ->]|[[= _ ->]|[[= _ ->]|Hn]]]; [..|by apply elem_of_nil in Hn];
    revert Hrun; [unfold save|unfold bgsave|unfold lastsave]; rewrite gets_bind;
    destruct (sv_rdb sv) as [r|] eqn:Hr; try (by intros [= _ <-]); rewrite ?gets_bind, ?bind_eq.
  all: destruct (on_rdb r _ sv) as [y sv1] eqn:H1; apply on_rdb_handle in H1; try (by intros [= _ <-]).
  all: destruct y as [[e|]|e|p|]; by intros [= _ <-].
Qed.

(** Whatever [Do] runs, the handle of the client stays as it is. *)
Lemma Do_handle cmd args c x c' :
  Do wakeups cmd args c = (x, c') → sh_rdb (fst c') = sh_rdb (fst c).
Proof.
  destruct c as [sh i]. unfold Do. rewrite gets_bind.
  destruct (table_get _ RDBCommandHandlers) as [h|] eqn:Ht.
  { rewrite bind_eq. destruct (h (map vBulk args) (serving None "" sh)) as [y sv] eqn:Hh.
    rewrite (on_shared_run _ _ _ _ _ Hh). apply (rdb_handler_handle _ _ _ _ _ _ Ht) in Hh.
    destruct y; by intros [= _ <-]. }
  destruct (handler_of wakeups _) as [h|]; [|by intros [= _ <-]].
  rewrite bind_eq. unfold on_shared, on_world, zoom. cbn.
  destruct (with_DB _ _ _) as [y w]. destruct y; by intros [= _ <-].
Qed.

(** A program that runs commands one after another on the databases it
    chooses, whatever their outcome. *)
Definition run_all (cmds : list (Z * string * list string)) (c : Client) : Client :=
  foldl (λ c '(i, cmd, args), snd (Do wakeups cmd args (fst c, i))) c cmds.

Lemma run_all_handle cmds : ∀ c, sh_rdb (fst (run_all cmds c)) = sh_rdb (fst c).
Proof.
  induction cmds as [|[[i cmd] args] cmds IH]; intros c; [done|].
  unfold run_all in *. cbn [foldl]. rewrite IH.
  destruct (Do wakeups cmd args (fst c, i)) as [x c'] eqn:Hd. by apply Do_handle in Hd.
Qed.

(** A program that embeds the database with [Open] never gets an
    automatic snapshot from a rule that asks for changes: no command it runs is
    counted, so after any number of them a round of the timer leaves the
    files as they are, however much time has passed. *)
Theorem embedded_never_snapshots config path b c b' cmds :
  ReadConfig path b = (Ok config, b') → (Open path b).1 = Ok c →
  Forall (λ s, 1 ≤ KeysChanged s) (cfg_rdb config) →
  ∃ sv', snapshot_tick config (serving None "" (fst (run_all cmds c))) = (Ok (), sv') ∧
    sv_files sv' = sh_files (fst (run_all cmds c)) ∧ dbs_of sv' = DBs (w_mdb (sh_world (fst (run_all cmds c)))).
Proof.
  intros Hread Hopen Hrules.
  assert (Hr : ∃ r, sh_rdb (fst c) = Some r ∧ rdb_changes r = 0).
  { destruct (Open path b) as [o b2] eqn:HO. cbn in Hopen. subst o. unfold Open in HO.
    rewrite (bind_ok _ _ _ _ _ Hread) in HO. apply bind_ok_inv in HO as (r & b3 & HN & [= <- _]).
    exists r. split; [done|]. unfold NewRDB in HN. rewrite (bind_ok _ _ _ _ _ (NewRDB_run config b')) in HN.
    apply bind_ok_inv in HN as (file & b4 & _ & HN). by apply bind_ok_inv in HN as (u & b5 & _ & [= <- _]). }
  destruct Hr as (r & Hr & Hc0). unfold snapshot_tick. rewrite gets_bind. cbn [serving sv_rdb].
  rewrite run_all_handle, Hr.
  assert (Hnone : ∀ rules elapsed sv, Forall (λ s, 1 ≤ KeysChanged s) rules →
            snapshot_rules rules elapsed (rdb_changes r) r sv = (Ok (), sv)).
  { intros rules elapsed sv HF. induction HF as [|s rules Hs HF IH]; [done|].
    cbn [snapshot_rules]. unfold due. rewrite Hc0 in *.
    destruct (Z.leb_spec (KeysChanged s) 0); [lia|]. by rewrite andb_false_r. }
  eexists. split.
  { assert (Hnow : ∀ sv, on_world world_now sv =
      (Ok (time_Now (w_tick (sv_world sv))), mkServer (mkWorld (S (w_tick (sv_world sv))) (w_mdb (sv_world sv)))
         (sv_aof sv) (sv_rdb sv) (sv_files sv) (sv_requirePass sv))) by done.
    rewrite (bind_ok _ _ _ _ _ (Hnow _)). by apply Hnone. }
  done.
Qed.
End snapshots.

(** ** Concrete clients *)
Definition demo_hash : gmap string string := {[ "f" := "1"; "g" := "2"; "h" := "3" ]}.
Definition demo_shared : Shared :=
  mkShared (mkWorld 0 (mkMultiDB (<[2%nat := set_Hashes <["k" := demo_hash]> newDatabase]>
    (replicate NumDatabases newDatabase)) PubSub.New)) None ∅.

(** A server with a log over the same data runs HSET and logs it. *)
Lemma do_agrees_witness :
  let request := vArray (map vBulk ["hset"; "k"; "f"; "9"]) in
  let c := mkConn true 2 ∅ [] in
  is_ascii "hset" = true ∧
  ∃ sh' a, Do 0 "hset" ["k"; "f"; "9"] (demo_shared, 2) = (Ok (vInt 0, None), (sh', 2)) ∧
    sv_aof (fst (snd (handleValue 0 request (serving (Some (NewAof 0 "")) "" demo_shared, c)))) = Some a ∧
    aof_file a = encode (selectEntry 2) +:+ encode request.
Proof.
  cbn zeta. split; [done|]. set (c := mkConn true 2 ∅ []).
  set (out := handleValue 0 (vArray (map vBulk ["hset"; "k"; "f"; "9"])) (serving (Some (NewAof 0 "")) "" demo_shared, c)).
  destruct (do_agrees 0 "hset" ["k"; "f"; "9"] demo_shared (Some (NewAof 0 "")) "" c (fst out) (fst (snd out)) (snd (snd out)))
    as [(_ & result & sh' & Hrun & Hr & Hc & _ & _ & _ & _ & Ha)|(Hbad & _)].
  - done.
  - apply cmd_wire; [done|compute_decide].
  - done.
  - cbn. int_lia.
  - change (out = (fst out, (fst (snd out), snd (snd out)))). clearbody out. by destruct out as [? []].
  - assert (Hres : result = Ok (vInt 0)).
    { vm_compute in Hc. destruct result as [v|e|p|]; [|discriminate Hc..]. unfold replied in Hc.
      injection Hc as <-. reflexivity. }
    subst result. eexists sh', _. split; [exact Hrun|]. split; [exact Ha|]. by vm_compute.
  - destruct Hbad. right. by eexists.
Defined.

Lemma client_hgetall_exact_witness :
  0 ≤ 2 ∧ ∃ sh', client_HGetAll 0 "k" (demo_shared, 2) = (Ok (demo_hash, None), (sh', 2)).
Proof.
  split; [lia|].
  destruct (client_hgetall_exact 0 "k" demo_shared 2
    (set_Hashes <["k" := demo_hash]> newDatabase)) as (sh' & Hrun & _); [lia|done|].
  exists sh'. etrans; [exact Hrun|]. reflexivity.
Defined.

Lemma client_set_get_witness :
  length (DBs (w_mdb (sh_world demo_shared))) = NumDatabases ∧
  ∃ sh1, client_Set 0 "a" "b" (demo_shared, 7) = (Ok None, (sh1, 7)) ∧
    (_ ← Select 7; client_Get 0 "a") (NewFrom (sh1, 7)) = (Ok ("b", true, None), (sh1, 7)).
Proof.
  split; [done|].
  destruct (client_set_get 0 demo_shared 7 "a" "b") as (sh1 & H1 & _ & H2); [done|done|].
  exists sh1. split; [exact H1|exact H2].
Defined.

(** The configuration of the repository, without the log. *)
Definition demo_embedded : Config :=
  mkConfig "data" [mkSnapshot 900 1; mkSnapshot 300 10] "dump.rdb" false "appendonly.aof" EverySec "".
Definition demo_disk : gmap string string := {[ "redis.config" := config_text demo_embedded ]}.

Lemma embedded_never_snapshots_witness :
  fst (ReadConfig "redis.config" (boot 0 demo_disk)) = Ok demo_embedded ∧
  match fst (Open "redis.config" (boot 0 demo_disk)) with
  | Ok c => ∃ sv', snapshot_tick demo_embedded
      (serving None "" (fst (run_all 0 (replicate 20 (0, "INCR", ["n"])) c))) = (Ok (), sv') ∧ sv_files sv' = demo_disk
  | _ => False
  end.
Proof.
  split; [by vm_compute|]. destruct (Open "redis.config" (boot 0 demo_disk)) as [[c|e|p|] b2] eqn:HO.
  - destruct (embedded_never_snapshots 0 demo_embedded "redis.config" (boot 0 demo_disk) c
      (snd (ReadConfig "redis.config" (boot 0 demo_disk))) (replicate 20 (0, "INCR", ["n"])))
      as (sv' & Hrun & Hfiles & _).
    + vm_compute. reflexivity.
    + by rewrite HO.
    + compute_decide.
    + exists sv'. split; [exact Hrun|]. rewrite Hfiles. vm_compute in HO. injection HO as <- _.
      vm_compute. reflexivity.
  - vm_compute in HO. discriminate HO.
  - vm_compute in HO. discriminate HO.
  - vm_compute in HO. discriminate HO.
Defined.
