(* ===== verification/InterleaveProps.v ===== *)
(** * InterleaveProps: goroutines that interleave

    What holds of the list commands however their critical sections interleave,
    what a command does that is not interrupted, when a blocked pop comes back,
    and three schedules in which an acknowledged write is lost or a pop is left
    waiting. *)
From stdpp Require Import gmultiset.
From S2P Require Import Prelude Go Goroutine Strconv Resp DataStruct PubSub Database.
From S2P Require Import StringCmds ListCmds ExpireCmds Handler DbFacts CmdFacts Interleave InterleaveFacts.
From S2P Require Import InterleaveSafe Demo.

(** A client between two commands, or parked. *)
Definition free (c : Client) : Prop := match cl_now c with Busy _ _ => False | _ => True end.

Section conserved.
Context `{GoEnv}.

Lemma start_balanced s scripts :
  heap_ok s →
  balanced (stored s) (ms (concat (map pushed_by (concat scripts)))) (mkConfig s (clients_of scripts)).
Proof.
  intros Hs. split_and!; cbn [cf_shared cf_clients]; [done| |].
  - exists (replicate (length scripts) ∅), ∅.
    assert (Hz : ∀ n, all_of id (replicate n (∅ : gmultiset string)) = ∅).
    { induction n as [|n IH]; [done|]. cbn. rewrite IH. multiset_solver. }
    rewrite Hz. clear Hz. split_and!.
    + induction scripts as [|todo scripts IH]; [constructor|]. cbn. by constructor.
    + assert (∀ f, f = taken ∨ f = given → all_of f (clients_of scripts) = ∅) as Hz.
      { intros f Hf. induction scripts as [|todo scripts IH]; [done|].
        unfold clients_of in IH |- *.
        cbn [map all_of]. rewrite IH.
        destruct Hf as [-> | ->]; unfold given, taken; cbn; multiset_solver. }
      rewrite !Hz by auto. multiset_solver.
    + induction scripts as [|todo scripts IH]; [done|exact IH].
  - clear Hs. induction scripts as [|todo scripts IH]; [done|].
    cbn [clients_of map all_of concat]. rewrite map_app, concat_app, list_to_set_disj_app.
    fold (clients_of scripts). change (to_give (mkClient todo Idle [])) with (ms (concat (map pushed_by todo))).
    assert (given (mkClient todo Idle []) = ∅) as -> by (unfold given; cbn; multiset_solver).
    multiset_solver.
Qed.

(** C9: any number of clients send any LPUSH, RPUSH, LPOP, RPOP, BLPOP, BRPOP,
    LRANGE, LLEN, LINDEX, LSET, LREM, SET, GET and DEL, the sweeper runs, and their
    critical sections, the timers and the clock interleave in any way: nothing
    panics, and no element is ever duplicated or made up. Every element there was
    at the start or that a push or an LSET has given is, exactly once: in a list
    under a key; in a list that no key leads to ([orphaned]: deleted or expired, or
    lost to [push_lost]); in the hands of a handler that is running; taken by a
    reply; or overwritten by an LSET, as many as LSETs have replied OK. *)
Theorem elements_conserved es s scripts :
  heap_ok s → room (stored s ⊎ ms (concat (map pushed_by (concat scripts)))) →
  ∃ cf hand lost, run es (mkConfig s (clients_of scripts)) = (Ok (), cf) ∧
    linked (cf_shared cf) ⊎ orphaned (cf_shared cf) ⊎ hand ⊎ all_of taken (cf_clients cf) ⊎ lost =
      linked s ⊎ orphaned s ⊎ all_of given (cf_clients cf) ∧
    size lost = sum_list (map overwrites (cf_clients cf)) ∧
    (Forall free (cf_clients cf) → hand = ∅).
Proof.
  intros Hs Hroom. rewrite <-!stored_split.
  destruct (run_balanced _ _ Hroom es _ (start_balanced s scripts Hs)) as (cf & Hrun & Hbal).
  destruct Hbal as (_ & (bs & lost & Hbs & Heq & Hlost) & _). exists cf, (all_of id bs), lost.
  rewrite <-stored_split. split_and!; [done|done|done|].
  clear Heq Hlost. induction Hbs as [|b c bs cls Hb _ IH]; [done|].
  intros [Hc Hcls]%list.Forall_cons. cbn. rewrite (IH Hcls). unfold free in Hc. unfold owns in Hb.
  destruct (cl_now c); [by subst|done|destruct Hb as [-> _]]; cbn; multiset_solver.
Qed.

(** C14: one of the commands LPUSH, RPUSH, LPOP, RPOP, LRANGE, LLEN, LINDEX, LSET,
    LREM, SET, GET and DEL ([listed]) whose critical sections no other goroutine
    interrupts does what the sequential handler does: the same reply, and the same
    database when each key is read with the list in its cell. So does a BLPOP or
    BRPOP that finds an element, or is past its deadline, in its first round; one
    that has to wait is not the subject here. *)
Theorem uninterrupted i name args todo done s cls ps h v t :
  (i < length cls)%nat → heap_ok s → listed name → handler_of 1 name = Some h →
  h args (view ps s) = (Ok v, t) →
  ∃ n s', run (replicate n (Run i)) (client_at i (mkClient (Command name args :: todo) Idle done) s cls) =
      (Ok (), client_at i (mkClient todo Idle (done ++ [(Command name args, v)])) s' cls) ∧
    view ps s' = t ∧ heap_ok s'.
Proof.
  intros Hi Hs Hin Hh Hrun.
  destruct (sim_ok ps _ _ _ _ _ (sim_request 1 name args h s Hin Hh Hs) Hrun) as (s' & Halone & Hv & Hok).
  destruct (run_request i _ todo done cls s v s' Hi Halone) as [n Hn]. by exists n, s'.
Qed.
End conserved.

(** ** Blocked pops *)

(** One pass over the keys, in the sequential model. *)
Section pass.
Context `{GoEnv}.

Lemma purged_other key k s : k ≠ key →
  Lists (s_db (purged key s)) !! k = Lists (s_db s) !! k ∧
  Expires (s_db (purged key s)) !! k = Expires (s_db s) !! k.
Proof.
  intros Hne. destruct (Expires (s_db s) !! key) as [exp|] eqn:He; [|by rewrite purged_no_deadline].
  destruct (Z.le_gt_cases exp (time_Now (s_tick s))) as [Hle|Hlt].
  - rewrite (purged_expired _ _ _ He Hle). split; cbn; by rewrite lookup_delete_ne.
  - by rewrite (purged_live _ _ _ He Hlt).
Qed.

Lemma purged_tick key s : (s_tick s ≤ s_tick (purged key s))%nat.
Proof. unfold purged. cbn. destruct (Expires (s_db s) !! key); lia. Qed.

Lemma pop_first_any keys left : ∀ s, ∃ r s', ListCmds.pop_first keys left s = (Ok r, s') ∧
  (s_tick s ≤ s_tick s')%nat ∧
  (∀ v, r = Some v → ∃ key x, key ∈ keys ∧ v = vArray [vBulk key; vBulk x]) ∧
  (∀ k l, k ∈ keys → Lists (s_db s) !! k = Some l → l ≠ [] → Expires (s_db s) !! k = None →
    is_Some r).
Proof.
  induction keys as [|key keys IH]; intros s.
  - exists None, s. split_and!; [done|done|done|]. by intros k l Hk%elem_of_nil.
  - rewrite pop_first_cons. destruct (Lists (s_db (purged key s)) !! key ≫= pop_end left) as [[v l']|] eqn:Hpop.
    + eexists _, _. split_and!; [done|apply purged_tick| |by eexists].
      intros w [= <-]. exists key, v. by split; [left|].
    + destruct (IH (purged key s)) as (r & s' & Hrun & Ht & Hv & Hk). exists r, s'.
      split_and!; [done|pose proof (purged_tick key s); lia| |].
      * intros w Hw. destruct (Hv w Hw) as (k & x & Hin & ->). exists k, x. by split; [right|].
      * intros k l Hin Hl Hne He. destruct (decide (k = key)) as [->|Hkey].
        -- rewrite purged_no_deadline, Hl in Hpop by done. cbn in Hpop.
           by apply pop_end_None in Hpop.
        -- apply elem_of_cons in Hin as [->|Hin]; [done|].
           destruct (purged_other key k s Hkey) as [Hl' He']. eapply Hk; [done|by rewrite Hl'|done|by rewrite He'].
Qed.
End pass.

Section blocked.
Context `{GoEnvLaws}.

(** A goroutine that a broadcast has reached runs one more round. *)
Lemma run_woken i todo r l since done s cls v s' :
  (i < length cls)%nat → (since < sh_listCond s)%nat → alone_loop 1 l s = (Ok v, s') →
  ∃ n, run (replicate n (Run i)) (client_at i (mkClient todo (Waiting r l since) done) s cls) =
    (Ok (), client_at i (mkClient todo Idle (done ++ [(r, v)])) s' cls).
Proof.
  intros Hi Hs Hl.
  destruct (run_loop i todo r l done cls s v s' Hi Hl) as [n Hn]. exists (S n).
  change (replicate (S n) (Run i)) with ([Run i] ++ replicate n (Run i)).
  erewrite run_app; [exact Hn|]. apply run_one, exec_client; [done|].
  unfold client_step. cbn [cl_now cl_todo cl_done].
  rewrite (bind_ok _ _ _ (sh_listCond s) s) by done. by rewrite (proj2 (Nat.ltb_lt _ _) Hs).
Qed.

(** A goroutine parked in BLPOP or BRPOP that a push has woken, and that
    finds a list with an element and no deadline under one of its keys, comes
    back with an element of one of its keys; only a broadcast wakes it. *)
Theorem woken_pop_replies i todo r l since done s cls k c :
  (i < length cls)%nat → heap_ok s → k ∈ l_keys l →
  sh_Lists s !! k = Some c → contents s c ≠ [] → sh_Expires s !! k = None →
  let waiting := mkClient todo (Waiting r l since) done in
  if (since <? sh_listCond s)%nat then
    ∃ n s' key x, key ∈ l_keys l ∧
      run (replicate n (Run i)) (client_at i waiting s cls) =
        (Ok (), client_at i (mkClient todo Idle (done ++ [(r, vArray [vBulk key; vBulk x])])) s' cls)
  else ∀ n, run (replicate n (Run i)) (client_at i waiting s cls) = (Ok (), client_at i waiting s cls).
Proof.
  intros Hi Hs Hk Hc Hne He. cbn zeta. destruct (since <? sh_listCond s)%nat eqn:Hw.
  - destruct (pop_first_any (l_keys l) (l_left l) (view New s)) as (ov & t & Hrun & _ & Hv & Hsome).
    destruct (Hsome k (contents s c)) as [v ->]; [done|by cbn [view s_db]; rewrite view_lookup, Hc|done|done|].
    destruct (Hv v eq_refl) as (key & x & Hkey & ->).
    assert (Hloop : ListCmds.blocking_loop 1 (l_keys l) (l_left l) (l_hasDeadline l) (l_deadline l)
      (view New s) = (Ok (vArray [vBulk key; vBulk x]), t)).
    { cbn [ListCmds.blocking_loop]. by rewrite (bind_ok _ _ _ _ _ Hrun). }
    destruct (sim_ok New _ _ _ _ _ (sim_alone_loop 1 l s Hs) Hloop) as (s' & Halone & _ & _).
    apply Nat.ltb_lt in Hw. destruct (run_woken i todo r l since done s cls _ s' Hi Hw Halone) as [n Hn].
    by exists n, s', key, x.
  - intros n. induction n as [|n IH]; [done|].
    change (replicate (S n) (Run i)) with ([Run i] ++ replicate n (Run i)).
    erewrite run_app; [exact IH|]. apply run_one, exec_client; [done|].
    unfold client_step. cbn [cl_now cl_todo cl_done].
    rewrite (bind_ok _ _ _ (sh_listCond s) s) by done. by rewrite Hw.
Qed.

(** C37: a goroutine parked with a deadline does not wait for ever: when the
    clock has passed the deadline its timer broadcasts, and the pop comes back
    with an element or with null. *)
Theorem waiting_pop_ends i todo r l since done s cls :
  (i < length cls)%nat → heap_ok s → (since ≤ sh_listCond s)%nat →
  l_hasDeadline l = true → l_deadline l < time_Now (sh_tick s) →
  ∃ n s' v, run (Timer i :: replicate n (Run i))
      (client_at i (mkClient todo (Waiting r l since) done) s cls) =
    (Ok (), client_at i (mkClient todo Idle (done ++ [(r, v)])) s' cls) ∧
    (v = vNull ∨ ∃ key x, key ∈ l_keys l ∧ v = vArray [vBulk key; vBulk x]).
Proof.
  intros Hi Hs Hw Hd Hlate. set (s1 := upd_listCond S (snd (serial s))).
  assert (Hs1 : heap_ok s1) by (by destruct Hs).
  assert (Htimer : exec (Timer i) (client_at i (mkClient todo (Waiting r l since) done) s cls) =
    (Ok (), client_at i (mkClient todo (Waiting r l since) done) s1 cls)).
  { unfold exec. rewrite (bind_ok _ _ _ (Some (mkClient todo (Waiting r l since) done))
      (client_at i (mkClient todo (Waiting r l since) done) s cls))
      by (unfold gets, client_at; cbn [cf_clients]; by rewrite list_lookup_insert_eq).
    unfold on_shared, zoom, timer_step, client_at. cbn [cf_shared cl_now cf_clients]. rewrite Hd.
    rewrite (bind_ok _ _ _ (time_Now (sh_tick s)) (snd (serial s))) by done.
    rewrite (proj2 (Z.geb_le _ _)) by lia. done. }
  destruct (pop_first_any (l_keys l) (l_left l) (view New s1)) as (ov & t & Hrun & Ht & Hv & _).
  assert (∃ v t', ListCmds.blocking_loop 1 (l_keys l) (l_left l) (l_hasDeadline l) (l_deadline l)
      (view New s1) = (Ok v, t') ∧
    (v = vNull ∨ ∃ key x, key ∈ l_keys l ∧ v = vArray [vBulk key; vBulk x])) as (v & t' & Hloop & Hreply).
  { cbn [ListCmds.blocking_loop]. rewrite (bind_ok _ _ _ _ _ Hrun). destruct ov as [v|].
    - exists v, t. split; [done|right; auto].
    - exists vNull. rewrite Hd. eexists. split; [|by left].
      erewrite bind_ok; [|by rewrite (bind_ok _ _ _ _ _ (Now_run _))].
      assert (time_Now (sh_tick s) ≤ time_Now (s_tick t)).
      { apply time_Now_mono. cbn in Ht. lia. }
      by rewrite (proj2 (Z.gtb_lt _ _)) by lia. }
  destruct (sim_ok New _ _ _ _ _ (sim_alone_loop 1 l s1 Hs1) Hloop) as (s' & Halone & _ & _).
  destruct (run_woken i todo r l since done s1 cls v s' Hi) as [n Hn]; [cbn; lia|done|].
  exists n, s', v. split; [|done].
  change (Timer i :: replicate n (Run i)) with ([Timer i] ++ replicate n (Run i)).
  erewrite run_app; [exact Hn|]. by apply run_one.
Qed.
End blocked.

(** ** Three schedules *)
Definition request (words : list string) : Request :=
  match words with [] => Sweep | name :: ws => Command name (args ws) end.

(** The clients whose turns it is, each with how many steps it takes. *)
Definition turns (l : list (nat * nat)) : list Event :=
  concat (map (λ '(i, n), replicate n (Run i)) l).

Definition replies (cf : Config) : list (list Value) := map (map snd ∘ cl_done) (cf_clients cf).

(** LPOP empties the list, RPUSH gets hold of it and appends, LPOP unlinks it:
    the push was acknowledged, and the element is under no key. *)
Lemma push_lost : ∃ es cf,
  run es (mkConfig new_shared (clients_of
    [[request ["RPUSH"; "k"; "a"]; request ["RPUSH"; "k"; "b"]; request ["LRANGE"; "k"; "0"; "-1"]];
     [request ["LPOP"; "k"]]])) = (Ok (), cf) ∧
  replies cf = [[vInt 1; vInt 1; vArray []]; [vBulk "a"]] ∧
  sh_Lists (cf_shared cf) = ∅ ∧ sh_objects (cf_shared cf) = [["b"]] ∧ orphaned (cf_shared cf) = {[+ "b" +]}.
Proof.
  exists (turns [(0, 6); (1, 5); (0, 6); (1, 2); (0, 8)])%nat. eexists.
  split; [vm_compute; reflexivity|]. by vm_compute.
Qed.

(** A deadline has passed; between GET finding that out and evicting the key,
    SET stores a new value without one. The eviction removes the new value. *)
Lemma set_lost : ∃ es cf,
  run es (mkConfig (upd_Store <["k" := "old"]> (upd_Expires <["k" := 0]> new_shared)) (clients_of
    [[request ["GET"; "k"]]; [request ["SET"; "k"; "new"]; request ["GET"; "k"]]])) = (Ok (), cf) ∧
  replies cf = [[vNull]; [vOK; vNull]] ∧ sh_Store (cf_shared cf) = ∅.
Proof.
  exists (turns [(0, 3); (1, 3); (0, 4); (1, 4)])%nat. eexists.
  split; [vm_compute; reflexivity|]. by vm_compute.
Qed.

(** A goroutine that has nothing to do, or waits without a deadline for the
    next broadcast. *)
Definition asleep (s : Shared) (c : Client) : Prop :=
  match cl_now c with
  | Idle => cl_todo c = []
  | Busy _ _ => False
  | Waiting _ l since => l_hasDeadline l = false ∧ (sh_listCond s ≤ since)%nat
  end.

Lemma asleep_run `{GoEnv} cls es : ∀ s, Forall (asleep s) cls →
  ∃ s', run es (mkConfig s cls) = (Ok (), mkConfig s' cls) ∧ view_db s' = view_db s.
Proof.
  induction es as [|e es IH]; intros s Hcls; [by exists s|].
  assert (∃ s1, exec e (mkConfig s cls) = (Ok (), mkConfig s1 cls) ∧ sh_listCond s1 = sh_listCond s ∧
    view_db s1 = view_db s) as (s1 & He & Hcond & Hview).
  { assert (Hin : ∀ i c, cls !! i = Some c → asleep s c).
    { intros i c Hc. by eapply (list.Forall_lookup_1 _ _ _ _ Hcls). }
    destruct e as [i|i|]; [| |by eexists].
    - exists s. split; [|done]. unfold exec. rewrite (bind_ok _ _ _ (cls !! i) (mkConfig s cls)) by done.
      destruct (cls !! i) as [c|] eqn:Hc; [|done].
      rewrite (bind_ok _ _ _ c (mkConfig s cls)).
      { unfold modify. cbn [cf_shared cf_clients]. by rewrite list_insert_id. }
      specialize (Hin i c Hc). unfold asleep in Hin. unfold on_shared, zoom, client_step. cbn [cf_shared].
      destruct (cl_now c) as [| |r l since]; [by rewrite Hin|done|].
      rewrite (bind_ok _ _ _ (sh_listCond s) s) by done.
      by rewrite (proj2 (Nat.ltb_ge _ _)) by (by destruct Hin).
    - exists s. split; [|done]. unfold exec. rewrite (bind_ok _ _ _ (cls !! i) (mkConfig s cls)) by done.
      destruct (cls !! i) as [c|] eqn:Hc; [|done].
      specialize (Hin i c Hc). unfold asleep in Hin. unfold on_shared, zoom, timer_step. cbn [cf_shared].
      destruct (cl_now c) as [| |r l since]; [done|done|]. destruct Hin as [-> _]. done. }
  destruct (IH s1) as (s2 & Hrun & Hview2).
  { eapply list.Forall_impl; [exact Hcls|]. intros c. unfold asleep.
    destruct (cl_now c); [done..|]. by rewrite Hcond. }
  exists s2. split; [|congruence]. unfold run. cbn [for_each]. by rewrite (bind_ok _ _ _ _ _ He).
Qed.

(** RPUSH appends and broadcasts after BLPOP has looked and before it waits:
    the list has an element, and the pop never comes back. *)
Lemma wakeup_lost : ∃ es s cls,
  run es (mkConfig new_shared (clients_of
    [[request ["BLPOP"; "k"; "0"]]; [request ["RPUSH"; "k"; "a"]]])) = (Ok (), mkConfig s cls) ∧
  replies (mkConfig s cls) = [[]; [vInt 1]] ∧ Lists (view_db s) = {["k" := ["a"]]} ∧
  ∀ es', ∃ s', run es' (mkConfig s cls) = (Ok (), mkConfig s' cls) ∧ view_db s' = view_db s.
Proof.
  exists (turns [(0, 4); (1, 6); (0, 4)])%nat. eexists _, _.
  split; [vm_compute; reflexivity|]. split; [by vm_compute|]. split; [by vm_compute|].
  intros es'. apply asleep_run. repeat constructor.
Qed.

(** ** The theorems at these schedules *)
Definition demo_scripts : list (list Request) :=
  [[request ["RPUSH"; "k"; "a"]; request ["RPUSH"; "k"; "b"]; request ["LRANGE"; "k"; "0"; "-1"]];
   [request ["LPOP"; "k"]; request ["LSET"; "k"; "0"; "c"]; request ["BLPOP"; "k"; "0"]]].

Lemma elements_conserved_witness :
  (heap_ok new_shared ∧ room (stored new_shared ⊎ ms (concat (map pushed_by (concat demo_scripts))))) ∧
  ∃ cf hand lost, run (turns [(0, 6); (1, 5); (0, 6); (1, 2); (0, 8)])%nat
      (mkConfig new_shared (clients_of demo_scripts)) = (Ok (), cf) ∧
    linked (cf_shared cf) ⊎ orphaned (cf_shared cf) ⊎ hand ⊎ all_of taken (cf_clients cf) ⊎ lost =
      linked new_shared ⊎ orphaned new_shared ⊎ all_of given (cf_clients cf) ∧
    size lost = sum_list (map overwrites (cf_clients cf)) ∧
    (Forall free (cf_clients cf) → hand = ∅).
Proof.
  assert (Hr : room (stored new_shared ⊎ ms (concat (map pushed_by (concat demo_scripts))))) by (by vm_compute).
  split; [split; [apply heap_new|done]|].
  apply elements_conserved; [apply heap_new|done].
Defined.

Lemma uninterrupted_witness :
  listed "RPUSH" ∧
  ∃ n s', run (replicate n (Run 0))
      (client_at 0 (mkClient [request ["RPUSH"; "k"; "a"]] Idle []) new_shared [mkClient [] Idle []]) =
    (Ok (), client_at 0 (mkClient [] Idle ([] ++ [(request ["RPUSH"; "k"; "a"], vInt 1)])) s'
      [mkClient [] Idle []]) ∧
    view New s' = demo_sess (mkDatabase ∅ {["k" := ["a"]]} ∅ ∅ ∅ 1) ∧ heap_ok s'.
Proof.
  assert (Hl : listed "RPUSH") by (unfold listed; cbn; set_solver).
  split; [done|].
  eapply (uninterrupted 0 "RPUSH" (args ["k"; "a"])); [cbn; lia|apply heap_new|done|done|].
  vm_compute. reflexivity.
Defined.

Definition demo_wait : Loop := mkLoop ["j"; "k"] true true (5 * Second).
Definition demo_pop : Request := request ["BLPOP"; "j"; "k"; "5"].
Definition demo_shared : Shared := mkShared 9 ∅ {["k" := 0%nat]} ∅ ∅ ∅ 1 [["x"; "y"]] [].

Lemma demo_heap : heap_ok demo_shared.
Proof.
  split; cbn; [| |done|done].
  - intros k c [_ <-]%lookup_singleton_Some. lia.
  - intros k1 k2 c [<- _]%lookup_singleton_Some [<- _]%lookup_singleton_Some. done.
Qed.

Lemma woken_pop_replies_witness :
  contents demo_shared 0 ≠ [] ∧
  ∃ n s' key x, key ∈ ["j"; "k"] ∧
    run (replicate n (Run 0)) (client_at 0 (mkClient [] (Waiting demo_pop demo_wait 0) []) demo_shared
      [mkClient [] Idle []]) =
    (Ok (), client_at 0 (mkClient [] Idle ([] ++ [(demo_pop, vArray [vBulk key; vBulk x])])) s'
      [mkClient [] Idle []]).
Proof.
  split; [done|].
  apply (woken_pop_replies 0 [] demo_pop demo_wait 0 [] demo_shared [mkClient [] Idle []] "k" 0);
    [cbn; lia|apply demo_heap|by right; left|done|done|done].
Defined.

Lemma waiting_pop_ends_witness :
  l_deadline demo_wait < time_Now (sh_tick demo_shared) ∧
  ∃ n s' v, run (Timer 0 :: replicate n (Run 0))
      (client_at 0 (mkClient [] (Waiting demo_pop demo_wait 1) []) demo_shared [mkClient [] Idle []]) =
    (Ok (), client_at 0 (mkClient [] Idle ([] ++ [(demo_pop, v)])) s' [mkClient [] Idle []]) ∧
    (v = vNull ∨ ∃ key x, key ∈ l_keys demo_wait ∧ v = vArray [vBulk key; vBulk x]).
Proof.
  assert (Hlate : l_deadline demo_wait < time_Now (sh_tick demo_shared)) by done.
  split; [done|].
  by apply (waiting_pop_ends 0 [] demo_pop demo_wait 1 [] demo_shared [mkClient [] Idle []]);
    [cbn; lia|apply demo_heap|cbn; lia|done|].
Defined.
