(* ===== verification/SetLocksProps.v ===== *)
(** * SetLocksProps: blocking and not blocking on sets

    A set command that nobody interferes with is its sequential handler; those
    that hold one lock at a time, and the snapshot, always run to their ends;
    SINTER and SADD may block each other for ever. *)
From S2P Require Import Prelude Go Locks Steady Strconv Resp DataStruct PubSub Database.
From S2P Require Import StringCmds SetCmds Handler DbFacts Interleave InterleaveFacts.
From S2P Require Import SetLocks SetLocksFacts SetLocksSafe Demo.

(** ** The theorems *)
Section theorems.
Context `{GoEnvLaws}.

Definition set_handlers : list (string * (list Value → T Value)) :=
  flat_handlers ++ [("SINTER", sinter); ("SUNION", sunion); ("SDIFF", sdiff)].

(** A goroutine that runs one of these commands, or writes a snapshot. *)
Definition goroutine (handlers : list (string * (list Value → T Value))) (p : T Value) : Prop :=
  (∃ name h args, table_get name handlers = Some h ∧ p = h args) ∨
  p = (_ ← save_sets; mret vNull).

Lemma set_handlers_cases (P : string → (list Value → T Value) → Prop) name h :
  P "SADD" sadd → P "SREM" srem → P "SISMEMBER" sismember → P "SMEMBERS" smembers →
  P "SCARD" scard → P "SPOP" spop → P "SINTER" sinter → P "SUNION" sunion → P "SDIFF" sdiff →
  table_get name set_handlers = Some h → P name h.
Proof.
  intros H1 H2 H3 H4 H5 H6 H7 H8 H9 Hh%table_get_In. unfold set_handlers, flat_handlers in Hh.
  cbn [app] in Hh. rewrite !elem_of_cons in Hh.
  by destruct Hh as [[= -> ->]|[[= -> ->]|[[= -> ->]|[[= -> ->]|[[= -> ->]|[[= -> ->]|[[= -> ->]|
    [[= -> ->]|[[= -> ->]|Hn%elem_of_nil]]]]]]]]].
Qed.

Lemma set_handlers_steady name h args s :
  table_get name set_handlers = Some h → steadyT (h args) any s.
Proof.
  apply (set_handlers_cases (λ _ h, steadyT (h args) any s));
    [apply steady_sadd|apply steady_srem|apply steady_sismember|apply steady_smembers|
     apply steady_scard|apply steady_spop|apply steady_sinter|apply steady_sunion|apply steady_sdiff].
Qed.

Lemma set_handlers_sim name h h' :
  table_get name set_handlers = Some h → handler_of 1 name = Some h' → sim_set_handler h h'.
Proof.
  apply (set_handlers_cases (λ name h, handler_of 1 name = Some h' → sim_set_handler h h'));
    intros [= <-];
    [apply sim_sadd|apply sim_srem|apply sim_sismember|apply sim_smembers|
     apply sim_scard|apply sim_spop|apply sim_sinter|apply sim_sunion|apply sim_sdiff].
Qed.

Lemma flat_handlers_in name h : table_get name flat_handlers = Some h → table_get name set_handlers = Some h.
Proof.
  unfold set_handlers, flat_handlers. cbn [table_get app]. by repeat destruct (String.eqb _ _).
Qed.

Lemma goroutine_steady p s : goroutine set_handlers p → steadyT p any s.
Proof.
  intros [(name & h & args & Hh & ->)| ->]; [by eapply set_handlers_steady|].
  by apply (steady_end _ (λ _, _)), steady_save.
Qed.

Lemma flat_goroutine_ordered p : goroutine flat_handlers p → ordered [] [] p.
Proof.
  intros [(name & h & args & Hh & ->)| ->]; [by eapply flat_ordered|].
  eapply ordered_bind; [apply save_ordered|done].
Qed.

Abbreviation set_pool :=
  (pool_steady heap_ok nothing whoever (rely_older no_fewer_sets) (guar_older no_fewer_sets lawful)
     (λ _ _, True) (λ _ _ _, True)).

Lemma goroutines_start ps s : heap_ok s → Forall (goroutine set_handlers) ps →
  set_pool (mkTasks s ∅ ps).
Proof.
  intros Hs Hps. apply steady_pool_start; [done|]. eapply list.Forall_impl; [exact Hps|].
  intros p. apply goroutine_steady.
Qed.

(** C17: however the locks and steps of any number of SADD, SREM, SISMEMBER,
    SMEMBERS, SCARD, SPOP and snapshots interleave, nothing panics, the
    goroutines are never in a deadlock, and there is always an order that
    brings each of them to its reply. *)
Theorem set_commands_finish order ps s :
  heap_ok s → Forall (goroutine flat_handlers) ps →
  ∃ c, task_run order (mkTasks s ∅ ps) = (Ok (), c) ∧ heap_ok (tk_data c) ∧ ¬ deadlocked c ∧
  ∃ order' c', task_run order' c = (Ok (), c') ∧ Forall (λ p, finished p = true) (tk_tasks c').
Proof.
  intros Hs Hps.
  assert (Hsteady : set_pool (mkTasks s ∅ ps)).
  { apply goroutines_start; [done|]. eapply list.Forall_impl; [exact Hps|].
    intros p [(name & h & args & Hh & ->)| ->]; [left|by right].
    exists name, h, args. split; [by apply flat_handlers_in|done]. }
  assert (Hord : Forall (ordered [] []) ps)
    by (eapply list.Forall_impl; [exact Hps|]; intros p; apply flat_goroutine_ordered).
  destruct (pool_steady_run _ _ _ _ _ _ _ order _ Hsteady) as (c & Hrun & Hc).
  destruct (held_inv_run order _ _ _ (held_inv_start s ps Hord) Hrun) as [helds Hh].
  exists c. split_and!; [done|by destruct Hc as [? []]|by eapply held_not_deadlocked|].
  exact (pool_finishes _ _ _ _ _ _ _ c helds Hc Hh).
Qed.

(** C19: none of the nine set commands, nor a snapshot, panics however they
    interleave; and each, when nobody interferes, does what the sequential
    handler does: the same reply, and the same database when each key is read
    with the set in its cell. *)
Theorem set_commands_refine name h h' args ps s v t :
  heap_ok s → table_get name set_handlers = Some h → handler_of 1 name = Some h' →
  h' args (view ps s) = (Ok v, t) →
  (∃ s', task_alone (h args) s = (Ok v, s') ∧ view ps s' = t ∧ heap_ok s') ∧
  ∀ order others, Forall (goroutine set_handlers) others →
    ∃ c, task_run order (mkTasks s ∅ (h args :: others)) = (Ok (), c) ∧ heap_ok (tk_data c).
Proof.
  intros Hs Hh Hh' Hrun. split.
  - by apply (sim_ok ps _ _ _ _ _ (set_handlers_sim name h h' Hh Hh' args s Hs) Hrun).
  - intros order others Hothers.
    assert (Hpool : set_pool (mkTasks s ∅ (h args :: others))).
    2:{ destruct (pool_steady_run _ _ _ _ _ _ _ order _ Hpool) as (c & Hc & vs & Hok & _). by exists c. }
    apply goroutines_start; [done|]. constructor; [|done]. left. by exists name, h, args.
Qed.

(** C18: whatever is running, a step changes a map of the database only under
    [db.Mu] and the members of a set only under the mutex of that set, each
    locked for writing with no reader left. So nothing changes under a lookup,
    under the walk of a snapshot, or under a method that reads a set. *)
Theorem changes_exclusive order i ps s c c' :
  heap_ok s → Forall (goroutine set_handlers) ps →
  task_run order (mkTasks s ∅ ps) = (Ok (), c) → task_step i c = (Ok (), c') →
  (maps (tk_data c') ≠ maps (tk_data c) → lock_at (tk_locks c) dbMu = mkRW 0 Writing) ∧
  ∀ cell x, sh_sets (tk_data c) !! cell = Some x → sh_sets (tk_data c') !! cell ≠ Some x →
    lock_at (tk_locks c) (setMu cell) = mkRW 0 Writing.
Proof.
  intros Hs Hps Hrun Hstep.
  destruct (pool_steady_run _ _ _ _ _ _ _ order _ (goroutines_start ps s Hs Hps))
    as (c0 & Hrun0 & Hc).
  rewrite Hrun in Hrun0. injection Hrun0 as <-.
  destruct (pool_steady_step _ _ _ _ _ _ _ i c Hc) as (c1 & Hstep1 & _ & Hlaw).
  rewrite Hstep in Hstep1. injection Hstep1 as <-.
  destruct Hlaw as [-> |(held & _ & _ & [_ [Hmaps Hcells]] & Hheld)].
  - split; [done|]. intros cell x Hx Hno. by destruct Hno.
  - split.
    + intros Hne. apply Hheld. by destruct Hmaps.
    + intros cell x Hx Hne. apply Hheld. by destruct (Hcells cell x Hx).
Qed.
End theorems.

(** ** Schedules *)

(** A database with two sets. *)
Definition two_sets : Shared :=
  mkShared 0 ∅ ∅ {["j" := 0%nat; "k" := 1%nat]} ∅ ∅ 0 [] [{["a" := ()]}; {["a" := ()]}].

Lemma two_sets_heap : heap_ok two_sets.
Proof.
  split; cbn; [done|done| |].
  - intros k c. rewrite lookup_insert_Some, lookup_singleton_Some. naive_solver lia.
  - intros k1 k2 c. rewrite !lookup_insert_Some, !lookup_singleton_Some. naive_solver.
Qed.

(** The goroutines whose turns it is, each with how many steps it takes. *)
Definition steps (l : list (nat * nat)) : list nat := concat (map (λ '(i, n), replicate n i) l).

(** C20: SINTER of one key and SADD to it can block each other for ever: SINTER
    locks the set for reading, SADD announces itself, and SINTER, about to lock
    the set a second time, waits for it. *)
Theorem sinter_blocks_sadd : ∃ order c,
  task_run order (mkTasks two_sets ∅ [sinter (args ["k"]); sadd (args ["k"; "b"])]) = (Ok (), c) ∧
  deadlocked c ∧ ∀ order', task_run order' c = (Ok (), c).
Proof.
  exists (steps [(0, 7); (1, 9)]%nat). apply deadlock_reached. by vm_compute.
Qed.

(** SINTER of two keys, the other way round by another client, and SADD to each:
    each SINTER holds one set and waits for the other, where a writer waits for
    it. *)
Lemma sinter_crosswise : ∃ order c,
  task_run order (mkTasks two_sets ∅
    [sinter (args ["j"; "k"]); sinter (args ["k"; "j"]); sadd (args ["j"; "b"]); sadd (args ["k"; "b"])]) =
    (Ok (), c) ∧
  deadlocked c ∧ ∀ order', task_run order' c = (Ok (), c).
Proof.
  exists (steps [(0, 14); (1, 14); (2, 9); (3, 9)]%nat). apply deadlock_reached. by vm_compute.
Qed.

(** SREM takes the last member, SADD gets hold of the set and adds one, SREM
    deletes the key: the member was acknowledged and is lost. *)
Lemma sadd_lost : ∃ order c,
  task_run order (mkTasks two_sets ∅ [srem (args ["k"; "a"]); sadd (args ["k"; "b"])]) = (Ok (), c) ∧
  tk_tasks c = [mret (vInt 1); mret (vInt 1)] ∧
  sh_Sets (tk_data c) !! "k" = None ∧ sh_sets (tk_data c) !! 1%nat = Some {["b" := ()]}.
Proof.
  exists (steps [(0, 13); (1, 12); (0, 20)]%nat). eexists. split; [vm_compute; reflexivity|].
  by vm_compute.
Qed.

(** ** The theorems at these schedules *)
Lemma set_commands_finish_witness :
  goroutine flat_handlers (sadd (args ["k"; "b"])) ∧
  ∃ c, task_run (steps [(0, 13); (1, 12); (0, 20)]%nat)
      (mkTasks two_sets ∅ [srem (args ["k"; "a"]); sadd (args ["k"; "b"])]) = (Ok (), c) ∧
    heap_ok (tk_data c) ∧ ¬ deadlocked c ∧
    ∃ order' c', task_run order' c = (Ok (), c') ∧ Forall (λ p, finished p = true) (tk_tasks c').
Proof.
  assert (Hadd : goroutine flat_handlers (sadd (args ["k"; "b"])))
    by (left; exists "SADD", sadd, (args ["k"; "b"]); done).
  split; [done|]. apply set_commands_finish; [apply two_sets_heap|].
  constructor; [left; exists "SREM", srem, (args ["k"; "a"]); done|by constructor].
Defined.

Lemma set_commands_refine_witness :
  (heap_ok two_sets ∧ table_get "SDIFF" set_handlers = Some sdiff) ∧
  (∃ s', task_alone (sdiff (args ["k"; "j"])) two_sets = (Ok (vArray []), s') ∧
    view New s' = mkSess 1 (view_db two_sets) New ∧ heap_ok s') ∧
  ∀ order others, Forall (goroutine set_handlers) others →
    ∃ c, task_run order (mkTasks two_sets ∅ (sdiff (args ["k"; "j"]) :: others)) = (Ok (), c) ∧
      heap_ok (tk_data c).
Proof.
  split; [split; [apply two_sets_heap|done]|].
  apply (set_commands_refine "SDIFF" sdiff SetCmds.sdiff); [apply two_sets_heap|done|done|].
  vm_compute. reflexivity.
Defined.

(** SREM takes the last member; a snapshot that starts before SREM has deleted
    the key finds the set without members. [saveDatabase] must skip it, and does
    ([PersistProps.empty_set_skipped]). *)
Lemma empty_set_saved : ∃ order c,
  task_run order (mkTasks two_sets ∅
    [srem (args ["k"; "a"]);
     saved ← save_sets; mret (vArray (map (λ '(key, ms), vArray (vBulk key :: map vBulk ms)) saved))]) =
    (Ok (), c) ∧
  tk_tasks c !! 1%nat = Some (mret (vArray [vArray [vBulk "k"]; vArray [vBulk "j"; vBulk "a"]])).
Proof.
  exists (steps [(0, 10); (1, 20)]%nat). eexists. split; [vm_compute; reflexivity|].
  by vm_compute.
Qed.

Lemma demo_goroutines :
  Forall (goroutine set_handlers) [srem (args ["k"; "a"]); sadd (args ["k"; "b"])].
Proof.
  constructor; [left; exists "SREM", srem, (args ["k"; "a"]); done|].
  constructor; [left; exists "SADD", sadd, (args ["k"; "b"]); done|constructor].
Qed.

(** SREM about to remove the last member. *)
Lemma changes_exclusive_witness :
  let ps := [srem (args ["k"; "a"]); sadd (args ["k"; "b"])] in
  let c := snd (task_run (steps [(0, 8)]%nat) (mkTasks two_sets ∅ ps)) in
  sh_sets (tk_data c) !! 1%nat = Some {["a" := ()]} ∧
  sh_sets (tk_data (snd (task_step 0 c))) !! 1%nat = Some ∅ ∧
  lock_at (tk_locks c) (setMu 1) = mkRW 0 Writing.
Proof.
  intros ps c. assert (Hbefore : sh_sets (tk_data c) !! 1%nat = Some {["a" := ()]}) by by vm_compute.
  assert (Hafter : sh_sets (tk_data (snd (task_step 0 c))) !! 1%nat = Some ∅) by by vm_compute.
  split_and!; [done|done|].
  destruct (changes_exclusive (steps [(0, 8)]%nat) 0 ps two_sets c (snd (task_step 0 c)))
    as [_ Hcells]; [apply two_sets_heap|apply demo_goroutines|done|done|].
  apply (Hcells 1%nat _ Hbefore). by rewrite Hafter.
Defined.
