(* ===== verification/PubSubProps.v ===== *)
(** * PubSubProps: the broker under concurrency *)
From S2P Require Import Prelude Go Locks Steady Strconv Resp PubSub PubSubFacts Database.
From S2P Require Import Handler ExpireCmds Server System PubSubLocks PubSubSafe Demo.
From Stdlib Require Import Ascii.

(** ** The requests of a connection, as [Server] handles them *)
Section sequential.
Context `{GoEnv}.
Context (wakeups : nat).

Definition broker (sv : Server) : nat * PubSub := (w_tick (sv_world sv), sv_ps sv).

Definition request_value (r : Request) : Value :=
  vArray (map vBulk
    match r with
    | SUBSCRIBE channels => "SUBSCRIBE" :: channels
    | UNSUBSCRIBE channels => "UNSUBSCRIBE" :: channels
    | PUBLISH channel payload => ["PUBLISH"; channel; payload]
    end).

Lemma on_pubsub_inv {A} (m : M PubSub A) sv cn a x :
  on_server (on_pubsub m) (sv, cn) = (Ok a, x) → ∃ p, m (sv_ps sv) = (Ok a, p) ∧ x = (put_ps p sv, cn).
Proof.
  destruct (m (sv_ps sv)) as [r p] eqn:Hm. rewrite (on_pubsub_run m sv cn r p Hm).
  intros [= -> <-]. by exists p.
Qed.

Lemma subscribe_agrees channels : ∀ sv cn cs',
  Server.handleSubscribe (map vBulk channels) (sv, cn) = (Ok (), cs') →
  task_alone (handleSubscribe channels (c_subs cn)) (broker sv) = (Ok (c_subs cs'.2), broker cs'.1).
Proof.
  induction channels as [|channel channels IH]; intros sv cn cs' Hrun; [by injection Hrun as <-|].
  cbn [map Server.handleSubscribe for_each] in Hrun. apply bind_ok_inv in Hrun as ([] & [sv1 cn1] & H1 & H2).
  rewrite gets_bind in H1. cbn [snd Str] in H1. unfold handleSubscribe. cbn [task_for_fold].
  rewrite task_alone_bind. destruct (c_subs cn !! channel) as [ch|] eqn:Hch.
  - rewrite bool_decide_eq_true_2 in H1 by (exists ch; exact Hch). injection H1 as <- <-. by apply IH.
  - rewrite bool_decide_eq_false_2 in H1 by (intros [x Hx]; cbn in Hx; congruence).
    rewrite (bind_ok _ _ _ _ _ (on_pubsub_run (PubSub.Subscribe channel) sv cn _ _ eq_refl)) in H1.
    injection H1 as <- <-.
    rewrite (bind_ok _ _ _ (<[channel := fresh_chan (sv_ps sv)]> (c_subs cn))
      (broker (put_ps (PubSub.Subscribe channel (sv_ps sv)).2 sv))); [exact (IH _ _ _ H2)|done].
Qed.

Lemma unsubscribe_all_agrees channels : ∀ sv cn cs',
  for_each (λ channel,
    ch ← gets (λ cs : CS, c_subs (snd cs) !! channel);
    _ ← match ch with
        | Some ch =>
            _ ← on_server (on_pubsub (PubSub.Unsubscribe channel ch));
            set_subs (delete channel)
        | None => mret ()
        end;
    subscription_reply "unsubscribe" channel) channels (sv, cn) = (Ok (), cs') →
  task_alone (task_for_fold (λ own channel,
    match own !! channel with
    | Some ch => _ ← Unsubscribe channel ch; mret (delete channel own)
    | None => mret own
    end) (c_subs cn) channels) (broker sv) = (Ok (c_subs cs'.2), broker cs'.1).
Proof.
  induction channels as [|channel channels IH]; intros sv cn cs' Hrun; [by injection Hrun as <-|].
  cbn [for_each] in Hrun. apply bind_ok_inv in Hrun as ([] & [sv1 cn1] & H1 & H2).
  rewrite gets_bind in H1. cbn [snd] in H1. cbn [task_for_fold].
  rewrite task_alone_bind. destruct (c_subs cn !! channel) as [ch|] eqn:Hch.
  - apply bind_ok_inv in H1 as ([] & [sv2 cn2] & H1 & H1').
    apply bind_ok_inv in H1 as ([] & x & (p & Hp & ->)%on_pubsub_inv & H3).
    injection H3 as <- <-. injection H1' as <- <-.
    rewrite (bind_ok _ _ _ (delete channel (c_subs cn)) (broker (put_ps p sv))); [exact (IH _ _ _ H2)|].
    rewrite task_alone_bind, (bind_ok _ _ _ () (broker (put_ps p sv))); [done|].
    unfold broker at 1. rewrite Unsubscribe_alone. unfold still, zoom. cbn [snd]. by rewrite Hp.
  - injection H1 as <- <-. exact (IH _ _ _ H2).
Qed.

Lemma unsubscribe_agrees channels sv cn cs' :
  Server.handleUnsubscribe (map vBulk channels) (sv, cn) = (Ok (), cs') →
  task_alone (handleUnsubscribe channels (c_subs cn)) (broker sv) = (Ok (c_subs cs'.2), broker cs'.1).
Proof.
  unfold Server.handleUnsubscribe, handleUnsubscribe. intros (names & [sv1 cn1] & H1 & H2)%bind_ok_inv.
  rewrite task_alone_bind. apply unsubscribe_all_agrees in H2.
  destruct channels as [|channel channels].
  - injection H1 as <- <- <-. exact H2.
  - injection H1 as <- <- <-. rewrite map_map, map_id in H2. exact H2.
Qed.

Lemma publish_agrees channel payload sv cn cs' :
  (_ ← on_server (processCommand wakeups "PUBLISH" (map vBulk [channel; payload])
         (request_value (PUBLISH channel payload)) (dbIndex cn)); mret ()) (sv, cn) = (Ok (), cs') →
  task_alone (handle (c_subs cn) (PUBLISH channel payload)) (broker sv) = (Ok (c_subs cs'.2), broker cs'.1).
Proof.
  intros (v & x & H1 & H2)%bind_ok_inv. injection H2 as <-.
  unfold on_server, zoom in H1. cbn [fst snd] in H1.
  destruct (processCommand _ _ _ _ _ sv) as [r sv'] eqn:Hrun. injection H1 as -> <-.
  change (processCommand wakeups "PUBLISH") with (λ args original dbIndex,
    response ← on_world (with_DB dbIndex (publish args));
    if negb (VType response =? SimpleError)%char && shouldPersist "PUBLISH" then
      _ ← log_to_aof dbIndex original; _ ← count_change; mret response
    else mret response) in Hrun.
  cbv beta in Hrun. replace (shouldPersist "PUBLISH") with false in Hrun by done.
  apply bind_ok_inv in Hrun as (w & sv1 & Hdb & Hret). rewrite andb_false_r in Hret. injection Hret as -> ->.
  unfold on_world, zoom in Hdb. destruct (with_DB _ _ _) as [r w'] eqn:Hw. injection Hdb as -> <-.
  unfold with_DB in Hw. destruct (dbIndex cn <? 0); [done|]. destruct (DBs _ !! _) as [d|]; [|done].
  destruct (publish _ _) as [r s'] eqn:Hp. injection Hw as -> <-.
  apply bind_ok_inv in Hp as (count & s1 & Hp & H2). injection H2 as <- <-.
  unfold ranged_ps, zoom in Hp. cbn [s_tick s_ps map Str] in Hp.
  change (w_tick (sv_world sv), mdb_PubSub (w_mdb (sv_world sv))) with (broker sv) in Hp.
  change (PubSub.Publish (Str _) (Str _)) with (PubSub.Publish channel payload) in Hp.
  destruct (PubSub.Publish channel payload (broker sv)) as [r [n p]] eqn:Hpub. injection Hp as -> <-.
  cbn [handle]. rewrite task_alone_bind, (bind_ok _ _ _ count (n, p)); [done|].
  rewrite Publish_alone. exact Hpub.
Qed.

Lemma disconnect_agrees sv cn cs' :
  Server.disconnect (sv, cn) = (Ok (), cs') →
  task_alone (disconnect (c_subs cn)) (broker sv) = (Ok (), broker cs'.1).
Proof.
  intros (l & x & H1 & H2)%bind_ok_inv. unfold disconnect. rewrite task_alone_bind.
  rewrite (bind_ok _ _ _ l (broker x.1)); [|by injection H1 as <- <-].
  clear H1. destruct x as [sv1 cn1]. cbn [fst]. revert sv1 cn1 H2.
  induction l as [|[channel ch] l IH]; intros sv1 cn1 Hrun; [by injection Hrun as <-|].
  cbn [for_each] in Hrun. apply bind_ok_inv in Hrun as ([] & x & (p & Hp & ->)%on_pubsub_inv & H2).
  cbn [task_for_each]. rewrite task_alone_bind, (bind_ok _ _ _ () (broker (put_ps p sv1))); [by eapply IH|].
  unfold broker at 1. rewrite Unsubscribe_alone. unfold still, zoom. cbn [snd]. by rewrite Hp.
Qed.

(** The command names, as the loop of the connection reads them. *)
Lemma handleValue_request r sv cn : authenticated cn = true →
  handleValue wakeups (request_value r) (sv, cn) =
  match r with
  | SUBSCRIBE channels => Server.handleSubscribe (map vBulk channels) (sv, cn)
  | UNSUBSCRIBE channels => Server.handleUnsubscribe (map vBulk channels) (sv, cn)
  | PUBLISH channel payload =>
      (response ← on_server (processCommand wakeups "PUBLISH" (map vBulk [channel; payload])
         (request_value r) (dbIndex cn)); write response) (sv, cn)
  end.
Proof.
  destruct cn as [auth i own out]. cbn [authenticated]. intros ->. by destruct r.
Qed.

(** C30: a SUBSCRIBE, UNSUBSCRIBE or PUBLISH, and the end of a connection, that
    nobody interferes with do, with the mutex of the broker and step by step,
    what the sequential server does: the same broker and the same subscriptions
    of the connection. *)
Theorem requests_refine r sv cn cs' :
  (authenticated cn = true → handleValue wakeups (request_value r) (sv, cn) = (Ok (), cs') →
   task_alone (handle (c_subs cn) r) (broker sv) = (Ok (c_subs cs'.2), broker cs'.1)) ∧
  (Server.disconnect (sv, cn) = (Ok (), cs') →
   task_alone (disconnect (c_subs cn)) (broker sv) = (Ok (), broker cs'.1)).
Proof.
  split; [|apply disconnect_agrees]. intros Hauth. rewrite handleValue_request by done. destruct r as [channels|channels|channel payload].
  - apply subscribe_agrees.
  - apply unsubscribe_agrees.
  - intros (v & [sv1 cn1] & H1 & H2)%bind_ok_inv. injection H2 as <-.
    apply (publish_agrees channel payload sv cn (sv1, cn1)). by rewrite (bind_ok _ _ _ _ _ H1).
Qed.
End sequential.

Section theorems.
Context `{GoEnvLaws}.

(** C23: however the steps of any number of connections that subscribe,
    unsubscribe, publish and end, and of the goroutines that receive their
    messages, interleave: nothing panics, so no message is sent on a closed
    channel and none is closed twice; the goroutines are never in a deadlock and
    some order brings all to their ends; a message waits only for subscribers of
    its channel; and when all are done no subscription is left. *)
Theorem broker_safe order n ps :
  Forall goroutine ps →
  ∃ c, task_run order (start n ps) = (Ok (), c) ∧ ¬ deadlocked c ∧
    ps_wf (tk_data c).2 ∧ labelled (tk_data c).2 ∧
    (Forall (λ p, finished p = true) (tk_tasks c) → subs (tk_data c).2 = ∅) ∧
    ∃ order' c', task_run order' c = (Ok (), c') ∧ Forall (λ p, finished p = true) (tk_tasks c').
Proof.
  intros Hps.
  assert (Hord : Forall (ordered [] []) ps).
  { eapply list.Forall_impl; [exact Hps|].
    intros p [[requests ->]|[chs ->]]; [apply ordered_session|apply ordered_forwarder]. }
  destruct (pool_steady_run _ _ _ _ _ _ _ order _ (broker_start n ps Hps)) as (c & Hrun & Hc).
  destruct (held_inv_run order _ _ _ (held_inv_start _ ps Hord) Hrun) as [helds Hh].
  exists c. split_and!; [done|by eapply held_not_deadlocked|by destruct Hc as (? & [] & _)..| |].
  - by apply broker_finished.
  - exact (pool_finishes _ _ _ _ _ _ _ c helds Hc Hh).
Qed.
End theorems.

(** ** Witnesses *)
Definition demo_goroutines : list (T ()) :=
  [session [SUBSCRIBE ["news"; "sport"]; UNSUBSCRIBE ["news"]];
   session [SUBSCRIBE ["news"]; PUBLISH "news" "hello"]; forwarder [0; 1; 2]%nat].

Lemma demo_are_goroutines : Forall goroutine demo_goroutines.
Proof.
  constructor; [left; eauto|]. constructor; [left; eauto|]. constructor; [right; eauto|constructor].
Qed.

Lemma broker_safe_witness :
  Forall goroutine demo_goroutines ∧
  ∃ c, task_run (concat (replicate 60 [0; 1; 2]%nat)) (start 0 demo_goroutines) = (Ok (), c) ∧
    ¬ deadlocked c ∧ ps_wf (tk_data c).2 ∧ labelled (tk_data c).2 ∧
    (Forall (λ p, finished p = true) (tk_tasks c) → subs (tk_data c).2 = ∅) ∧
    ∃ order' c', task_run order' c = (Ok (), c') ∧ Forall (λ p, finished p = true) (tk_tasks c').
Proof. split; [apply demo_are_goroutines|]. apply broker_safe, demo_are_goroutines. Defined.

Lemma requests_refine_witness :
  let cs := demo_handle ["SUBSCRIBE"; "news"] demo_conn in
  let cs' := demo_handle ["PUBLISH"; "news"; "hello"] cs in
  authenticated cs.2 = true ∧ handleValue 0 (request_value (PUBLISH "news" "hello")) cs = (Ok (), cs') ∧
  task_alone (handle (c_subs cs.2) (PUBLISH "news" "hello")) (broker cs.1) = (Ok (c_subs cs'.2), broker cs'.1).
Proof.
  intros cs cs'. assert (Ha : authenticated cs.2 = true) by done.
  assert (Hr : handleValue 0 (request_value (PUBLISH "news" "hello")) cs = (Ok (), cs')) by by vm_compute.
  split_and!; [done|done|]. apply (requests_refine 0 _ cs.1 cs.2 cs'); [done|]. by rewrite <-Hr, <-surjective_pairing.
Defined.

(** ** Without the mutex

    A [Publish] that does not keep the mutex while it sends: the subscriber
    leaves in between, and the send panics. *)
Definition unlocked_Publish (channel payload : string) : T () :=
  l ← read_locked psMu (do_step (visit channel));
  _ ← task_for_fold (λ delivered ch, do_step (still (send (mkMessage channel payload) delivered ch))) 0
        (default [] l);
  mret ().

Lemma send_on_closed :
  fst (task_run (repeat 0 6 ++ repeat 1 3 ++ repeat 0 9 ++ [1])%nat
    (start 0 [session [SUBSCRIBE ["news"]]; unlocked_Publish "news" "hello"])) =
  Panic "send on closed channel".
Proof. by vm_compute. Qed.
